(* ===== verification/_CoqProject ===== *)
-Q . S2P
Prelude.v
KTime.v
ListHead.v
Bitops.v
StrConv.v
Injector.v
SchedTypes.v
Clock.v
RunQueue.v
RunQueueInv.v
RunQueueOps.v
Machine.v
Wakeup.v
Tick.v
TickInv.v
CpuTimes.v
Schedule.v
ScheduleInv.v
Termination.v
LazyMm.v
Load.v
Policy.v
Preempt.v
Affinity.v
Domains.v
Boot.v
WaitQueue.v
Hrm.v
HrmInv.v
HrmWindow.v
HrmProc.v
LibHrm.v
Monitor.v
