(* ===== verification/Prelude.v ===== *)
(** * Verification of the BFS scheduler with idle injection and heart-rate monitoring

    The program is Linux 3.2.6 with three additions, in src/linux-3.2.6-bfs: the BFS
    scheduler (kernel/sched_bfs.c), which keeps all runnable tasks in one global
    queue and runs the one with the earliest virtual deadline; an idle injector
    inside it, which makes CPUs idle at rates set through /proc/schedidle to cool
    them; and a heart-rate monitor (kernel/hrm.c, fs/proc/hrm.c) in whose groups
    programs count heartbeats, with its user library tools/libhrm/hrm.c and the
    controller tools/libhrm/consumer_mon.c, which reads heart rates and sets the rate
    of injection.  Paths below are relative to src/linux-3.2.6-bfs.

    ** How the code is modelled

    Functions of the source are Rocq functions of the same name.  State is a
    record passed explicitly ([sched], [injector], [hrm], [proc_hrm], ...); an
    object is reached through its address, a [Z] with [NULL] = 0, in a memory
    [gmap Z _].  Machine integers are [Z] with the wrap-around of their width
    written out ([u32], [s32], [u64], [s64]).  A critical section is one
    transition.  A function that sleeps is cut where it calls [schedule]; a
    function that reads without the lock is a sequence of steps interleaved with
    those of others.  Errors are negative results as in the source, [Oops] is a
    kernel oops or [BUG], [None] an exhausted fuel or undefined behaviour, as the
    definition says.  What the allocators, user copies and clocks answer is an
    argument; code of other subsystems is a class of parameters with laws:
    [Config] (SchedTypes.v), [PolicyEnv] and [PiLaws] (Policy.v), [AffinityEnv]
    (Affinity.v), [Topology] (Domains.v), [HrmConfig] (Hrm.v), [Waker] and
    [WakerLaws] (WaitQueue.v, implemented by [try_to_wake_up]).

    ** The files

    Support code.  Prelude.v: record update, machine integers, memories, tactics.
    KTime.v: kernel/time.c.  ListHead.v: include/linux/list.h and rculist.h,
    pointer by pointer.  Bitops.v: lib/find_next_bit.c, lib/bitmap.c.  StrConv.v:
    lib/vsprintf.c, lib/kstrtox.c, [strsep].

    Idle injector.  Injector.v: its parameters, the /proc handlers
    ([proc_write_idleGlobal], [proc_write_idlePid], ...) and the two decisions it
    takes inside [schedule] and [earliest_deadline_task].

    Scheduler, all of kernel/sched_bfs.c.  SchedTypes.v: [task_struct], [rq],
    [global_rq] and the constants.  Clock.v: [update_clocks], niffies, deadlines.
    RunQueue.v: queueing, the idle map, the choice of an idle CPU;
    RunQueueInv.v: the invariant [runqueue_ok]; RunQueueOps.v: what each
    operation does to it.  Machine.v: a concrete machine for the examples.
    Wakeup.v: [try_preempt], [try_to_wake_up], [sched_fork].  Tick.v, TickInv.v:
    [update_cpu_clock], [scheduler_tick], the isochronous quota.  CpuTimes.v:
    [task_times].  Schedule.v: [earliest_deadline_task], [context_switch],
    [schedule]; ScheduleInv.v, Termination.v, LazyMm.v: its theorems.  Load.v: task
    counts and load averages.  Policy.v: [set_user_nice], [rt_mutex_setprio],
    [__sched_setscheduler] and the system calls.  Preempt.v: [preempt_schedule],
    [cond_resched], [wait_task_inactive], [normalize_rt_tasks].  Affinity.v:
    [set_cpus_allowed_ptr], the affinity system calls, what hotplug calls.
    Domains.v: [build_sched_domains], root domains, [partition_sched_domains].
    Boot.v: [sched_init], [sched_init_smp], the hotplug notifiers.  WaitQueue.v:
    [__wake_up_common] and completions.

    Heart-rate monitor.  Hrm.v: kernel/hrm.c; HrmInv.v, HrmWindow.v: its
    invariant and measures.  HrmProc.v: fs/proc/hrm.c.  LibHrm.v:
    tools/libhrm/hrm.c over HrmProc.v.  Monitor.v: tools/libhrm/consumer_mon.c,
    over LibHrm.v and Injector.v.

    ** What the theorems show

    - Scheduling.  [sched_init] establishes [runqueue_ok] (queues, bitmap, counters,
      current tasks and idle map agree, no task is in two places), and every
      operation keeps it: passes of [schedule], wakeups, forks, changes of
      policy, nice level and affinity.  No pass loses a runnable task.  The task
      chosen is the one the documentation promises; [schedule] returns.  A task
      preempted in the kernel stays runnable.
    - Time.  Niffies never stand still or outrun the jiffies; deadlines are ordered by
      nice level; every tick is charged exactly once; a slice ends; reported CPU
      times never decrease; the isochronous quota and the load averages
      stay in their bounds.
    - Idle injection.  The injector's list and counters are sound in every
      reachable state, a write does what its text says, and idle is injected at
      exactly the configured rate, globally and for a process.  The unlocked race
      between a write and a pass is a theorem of its own.
    - Memory.  Borrowed address spaces, root domains, groups and producers are
      counted exactly and not used after they are freed.
    - Privilege.  Without CAP_SYS_NICE no request gains priority beyond its limits;
      a refused request changes nothing.
    - Synchronisation.  A completion loses no wakeup; a wait-queue wakeup wakes the
      right prefix; [wait_task_inactive] is right against any run of the system.
    - Topology.  The CPUs are partitioned as requested, and cache distances are those
      of the lowest common domain.
    - Heart rates.  The monitor's lists describe the same live objects; windows
      publish the right difference; no heartbeat is lost when members come and
      go, from the library's [heartbeat] to the group's total.  The controller keeps
      the rate of injection in step with the band of the heart rate.

    Theorems that state behaviour the code does not mean to have say so in their
    comments (for instance [niffies_backwards], [idlePid_buffer_overread],
    [cores_taken_for_threads], [window_added_twice]).

    ** Bounds and fuel

    [schedule] is a loop on fuel; [schedule_terminates] shows that one more than
    the number of pending reschedule flags and block plugs is enough.  The
    loops of [set_normalized_timespec] have fuel computed from the argument, shown to
    be enough; printing and parsing of numbers, list walks and bitmap searches
    recurse on digits, on the number of live objects and on words.
    [wait_task_inactive] has one unit per read, and returns within four of
    them once the task has stopped.  Hypotheses on sizes are those of the
    configuration: up to 4096 CPUs, round-robin intervals up to 50 ms for the order of
    deadlines, CPU times below 2^32 jiffies.

    ** Not modelled

    Locks, RCU, tracing, statistics, lock debugging and [show_state] do not change the
    modelled state.  The variants for a single CPU and for other configuration
    options (IRQ_TIME_ACCOUNTING, PARAVIRT, VIRT_CPU_ACCOUNTING, PREEMPT_NOTIFIERS),
    kernel/sched.c, which BFS replaces, and src/sched_bfs.c, a copy of the
    scheduler without the injector, are not built.  Of the scheduling domains, the
    sysctl tables, the debug printing and the release of domains and groups are
    left out, since nothing of this scheduler reads their result.  The sleep of
    [io_schedule] and [schedule_tail] add calls of other subsystems around modelled
    functions.  The sample programs of tools/libhrm, other than the controller,
    only call the library and print.  The rest of Linux is the environment
    described above. *)

From stdpp Require Export base numbers list gmap option.
From stdpp Require Export list_numbers.
#[export] Set Default Goal Selector "!".
#[export] Set Warnings "-postfix-notation-not-level-1,-clear-no-such-hyp".
#[global] Open Scope Z_scope.

(** ** Record update

    [r <| f := v |>] is [r] with the field [f] replaced by [v], and
    [r <| f ::= g |>] is [r] with [g] applied to the field.  An [Eta] instance
    lists the fields of a record once; the [Update] instance of a field is
    derived from that list. *)
Section point_free.
Context {R A B : Type}.
Definition ctor (c : A) : R → A := λ _, c.
Definition with_field (c : R → A → B) (f : R → A) : R → B := λ r, c r (f r).
End point_free.

Class Eta (R : Type) := eta_form : R → R.
Class Update {R F : Type} (proj : R → F) := update : (F → F) → R → R.
#[global] Hint Mode Update - - ! : typeclass_instances.

Ltac derive_update :=
  lazymatch goal with
  | |- @Update ?R ?F ?proj =>
      let inst := constr:(_ : Eta R) in
      let body := (let h := eval unfold eta_form in inst in
                   lazymatch h with
                   | ?c => eval red in c
                   end) in
      let res := constr:(λ g : F → F, ltac:(
        lazymatch body with
        | context C [proj] =>
            let t := context C [λ r : R, g (proj r)] in
            let t := eval cbv [with_field ctor] in t in exact t
        end)) in
      exact res
  end.
#[export] Hint Extern 0 (Update _) => derive_update : typeclass_instances.

Declare Scope kernel_scope.
Delimit Scope kernel_scope with kernel.
Notation "c <+> f" := (with_field c f) (at level 45, left associativity) : kernel_scope.
Notation "r <| f ::= g |>" := (update (proj := f) g r)
  (at level 12, f at next level, left associativity,
   format "r  <| f  ::=  g |>") : kernel_scope.
Notation "r <| f := v |>" := (update (proj := f) (λ _, v) r)
  (at level 12, f at next level, left associativity,
   format "r  <| f  :=  v |>") : kernel_scope.
#[global] Open Scope kernel_scope.

(** ** Machine integers

    The kernel is built for a 64-bit machine with [-fno-strict-overflow]
    (src/linux-3.2.6-bfs/Makefile:630), so signed arithmetic wraps like unsigned
    arithmetic.  A C value is a [Z] in the range of its type, and the functions
    below are the conversions to the types. *)
Definition u32 (x : Z) : Z := x mod 0x100000000.
Definition s32 (x : Z) : Z := (x + 0x80000000) mod 0x100000000 - 0x80000000.
Definition u64 (x : Z) : Z := x mod 0x10000000000000000.
Definition s64 (x : Z) : Z :=
  (x + 0x8000000000000000) mod 0x10000000000000000 - 0x8000000000000000.

(** A computation in the kernel: a result, or a dereference of NULL. *)
Inductive outcome (A : Type) :=
  | Oops
  | Done (a : A).
Arguments Oops {A}.
Arguments Done {A} a.

Ltac lia_mod := Z.to_euclidean_division_equations; lia.
(** Case analysis on the first conditional of the goal. *)
Ltac case_if := match goal with |- context [if ?b then _ else _] => destruct b end.
Ltac wrap := unfold u32, s32, u64, s64 in *; lia_mod.

Lemma s32_id x : -0x80000000 ≤ x < 0x80000000 → s32 x = x.
Proof. wrap. Qed.
Lemma u32_id x : 0 ≤ x < 0x100000000 → u32 x = x.
Proof. wrap. Qed.
Lemma s64_id x : -0x8000000000000000 ≤ x < 0x8000000000000000 → s64 x = x.
Proof. wrap. Qed.
Lemma u64_id x : 0 ≤ x < 0x10000000000000000 → u64 x = x.
Proof. wrap. Qed.
Lemma s32_range x : -0x80000000 ≤ s32 x < 0x80000000.
Proof. wrap. Qed.
Lemma u32_range x : 0 ≤ u32 x < 0x100000000.
Proof. wrap. Qed.
Lemma s64_range x : -0x8000000000000000 ≤ s64 x < 0x8000000000000000.
Proof. wrap. Qed.
Lemma u64_range x : 0 ≤ u64 x < 0x10000000000000000.
Proof. wrap. Qed.
Lemma u64_idemp x : u64 (u64 x) = u64 x.
Proof. apply u64_id, u64_range. Qed.
Lemma u64_add_l x y : u64 (u64 x + y) = u64 (x + y).
Proof. unfold u64. by rewrite Zplus_mod_idemp_l. Qed.
Lemma u64_add_r x y : u64 (x + u64 y) = u64 (x + y).
Proof. unfold u64. by rewrite Zplus_mod_idemp_r. Qed.
Lemma s64_add_l x y : s64 (s64 x + y) = s64 (x + y).
Proof. wrap. Qed.
Lemma u64_sub_l x y : u64 (u64 x - y) = u64 (x - y).
Proof. unfold u64. by rewrite Zminus_mod_idemp_l. Qed.
Lemma u64_sub_r x y : u64 (x - u64 y) = u64 (x - y).
Proof. unfold u64. by rewrite Zminus_mod_idemp_r. Qed.

Lemma testbit_u64 x i : Z.testbit (u64 x) i = (i <? 64) && Z.testbit x i.
Proof. unfold u64. change 0x10000000000000000 with (2 ^ 64). by apply Z.testbit_mod_pow2. Qed.
Lemma testbit_high x i : 0 ≤ x < 0x10000000000000000 → 64 ≤ i → Z.testbit x i = false.
Proof. intros Hx Hi. rewrite <- (u64_id x Hx), testbit_u64. by rewrite (proj2 (Z.ltb_ge i 64)). Qed.
Lemma testbit_1 i : Z.testbit 1 i = (i =? 0).
Proof. change 1 with (2 ^ 0). by rewrite Z.pow2_bits_eqb, Z.eqb_sym by lia. Qed.

Create HintDb cint discriminated.
Create Rewrite HintDb cint.
#[export] Hint Rewrite u64_idemp u64_add_l u64_add_r u64_sub_l u64_sub_r : cint.
#[export] Hint Resolve s32_range u32_range s64_range u64_range : cint.

(** C truth values of comparisons used as integers. *)
Definition Z_of_bool (b : bool) : Z := if b then 1 else 0.

(** ** Errors

    A kernel function returns a negative error number; the numbers are those
    of include/asm-generic/errno-base.h and include/linux/errno.h. *)
Definition EPERM : Z := 1.
Definition ESRCH : Z := 3.
Definition ENOMEM : Z := 12.
Definition EFAULT : Z := 14.
Definition EBUSY : Z := 16.
Definition EINVAL : Z := 22.
Definition ERESTARTSYS : Z := 512.

(** ** Memories

    An object of the kernel is reached through its address, a nonzero [Z]
    ([NULL] is 0).  A memory maps addresses to objects; reading is total (the
    code never checks that a pointer is valid) and [mem_upd] is a write
    through a pointer. *)
Definition NULL : Z := 0.

Section mem.
Context {A : Type} `{!Inhabited A}.
Implicit Types (m : gmap Z A) (p q : Z) (f : A → A).

Definition mem_upd m p f : gmap Z A := <[p := f (m !!! p)]> m.

Lemma mem_upd_get m p q f :
  mem_upd m p f !!! q = if decide (p = q) then f (m !!! p) else m !!! q.
Proof.
  unfold mem_upd. case_decide; subst.
  - by rewrite lookup_total_insert_eq.
  - by rewrite lookup_total_insert_ne.
Qed.

Lemma mem_upd_eq m p f : mem_upd m p f !!! p = f (m !!! p).
Proof. rewrite mem_upd_get. by case_decide. Qed.

Lemma mem_upd_ne m p q f : p ≠ q → mem_upd m p f !!! q = m !!! q.
Proof. intros. rewrite mem_upd_get. by case_decide. Qed.

(** A field that [f] does not touch reads the same everywhere. *)
Lemma mem_upd_proj {B} (g : A → B) m p q f :
  (∀ x, g (f x) = g x) → g (mem_upd m p f !!! q) = g (m !!! q).
Proof. intros Hg. rewrite mem_upd_get. case_decide; subst; by rewrite ?Hg. Qed.

(** A field that [f] sets to [v]. *)
Lemma mem_upd_field {B} (g : A → B) m p q f v :
  (∀ x, g (f x) = v) →
  g (mem_upd m p f !!! q) = if decide (p = q) then v else g (m !!! q).
Proof. intros Hg. rewrite mem_upd_get. by case_decide. Qed.
End mem.
