(* ===== verification/KTime.v ===== *)
(** * Times in seconds and nanoseconds: kernel/time.c and include/linux/time.h

    [struct timespec], its normalisation, difference and conversion to and from
    nanoseconds.  The two loops of [set_normalized_timespec] run on fuel;
    [normalize_fuel] is enough for any argument. *)

From S2P Require Export Prelude.

Definition NSEC_PER_SEC : Z := 1000000000.

Record timespec := mk_timespec { tv_sec : Z; tv_nsec : Z }.
#[export] Instance eta_timespec : Eta timespec := ctor mk_timespec <+> tv_sec <+> tv_nsec.
#[export] Instance timespec_inhabited : Inhabited timespec := populate (mk_timespec 0 0).
#[export] Instance timespec_eq_dec : EqDecision timespec.
Proof. solve_decision. Defined.

(** The loop over [nsec >= NSEC_PER_SEC]. *)
Fixpoint carry (fuel : nat) (sec nsec : Z) : option (Z * Z) :=
  if NSEC_PER_SEC <=? nsec then
    match fuel with
    | O => None
    | S fuel => carry fuel (s64 (sec + 1)) (nsec - NSEC_PER_SEC)
    end
  else Some (sec, nsec).

(** The loop over [nsec < 0]. *)
Fixpoint borrow (fuel : nat) (sec nsec : Z) : option (Z * Z) :=
  if nsec <? 0 then
    match fuel with
    | O => None
    | S fuel => borrow fuel (s64 (sec - 1)) (nsec + NSEC_PER_SEC)
    end
  else Some (sec, nsec).

Definition normalize_fuel (nsec : Z) : nat := Z.to_nat (Z.abs nsec / NSEC_PER_SEC + 1).

Definition set_normalized_timespec (sec nsec : Z) : option timespec :=
  '(sec, nsec) ← carry (normalize_fuel nsec) sec nsec;
  '(sec, nsec) ← borrow (normalize_fuel nsec) sec nsec;
  Some (mk_timespec sec nsec).

(** [set_normalized_timespec] always has enough fuel ([set_normalized_timespec_spec]). *)
Definition timespec_sub (lhs rhs : timespec) : timespec :=
  default (mk_timespec 0 0)
    (set_normalized_timespec (s64 (tv_sec lhs - tv_sec rhs)) (s64 (tv_nsec lhs - tv_nsec rhs))).

Definition timespec_to_ns (ts : timespec) : Z := s64 (s64 (tv_sec ts * NSEC_PER_SEC) + tv_nsec ts).

(** [div_s64_rem] truncates towards zero. *)
Definition ns_to_timespec (nsec : Z) : timespec :=
  if nsec =? 0 then mk_timespec 0 0
  else
    let sec := Z.quot nsec NSEC_PER_SEC in
    let rem := Z.rem nsec NSEC_PER_SEC in
    if rem <? 0 then mk_timespec (sec - 1) (rem + NSEC_PER_SEC) else mk_timespec sec rem.

(** ** Properties *)
Definition normalized (ts : timespec) : Prop := 0 ≤ tv_nsec ts < NSEC_PER_SEC.

Lemma normalize_fuel_enough nsec : Z.abs nsec < NSEC_PER_SEC * Z.of_nat (normalize_fuel nsec).
Proof.
  unfold normalize_fuel, NSEC_PER_SEC.
  rewrite Z2Nat.id by (apply Z.add_nonneg_nonneg; [apply Z.div_pos|]; lia). lia_mod.
Qed.

Lemma carry_spec fuel sec nsec :
  nsec < NSEC_PER_SEC * (Z.of_nat fuel + 1) →
  carry fuel sec nsec = Some (if NSEC_PER_SEC <=? nsec
    then (s64 (sec + nsec / NSEC_PER_SEC), nsec mod NSEC_PER_SEC) else (sec, nsec)).
Proof.
  unfold NSEC_PER_SEC. revert sec nsec. induction fuel as [|fuel IH]; intros sec nsec Hf.
  - simpl. unfold NSEC_PER_SEC. by destruct (Z.leb_spec 1000000000 nsec); [lia|].
  - cbn [carry]. unfold NSEC_PER_SEC in *. destruct (Z.leb_spec 1000000000 nsec) as [Hle|]; [|done].
    rewrite IH by lia. destruct (Z.leb_spec 1000000000 (nsec - 1000000000)).
    + f_equal. f_equal; [wrap|lia_mod].
    + f_equal. f_equal; [|lia_mod]. replace (nsec / 1000000000) with 1 by lia_mod. done.
Qed.

Lemma borrow_spec fuel sec nsec :
  - nsec ≤ NSEC_PER_SEC * Z.of_nat fuel →
  borrow fuel sec nsec = Some (if nsec <? 0
    then (s64 (sec + nsec / NSEC_PER_SEC), nsec mod NSEC_PER_SEC) else (sec, nsec)).
Proof.
  unfold NSEC_PER_SEC. revert sec nsec. induction fuel as [|fuel IH]; intros sec nsec Hf.
  - simpl. by destruct (Z.ltb_spec nsec 0); [lia|].
  - cbn [borrow]. unfold NSEC_PER_SEC in *. destruct (Z.ltb_spec nsec 0) as [Hlt|]; [|done].
    rewrite IH by lia. destruct (Z.ltb_spec (nsec + 1000000000) 0).
    + f_equal. f_equal; [wrap|lia_mod].
    + f_equal. f_equal; [|lia_mod]. replace (nsec / 1000000000) with (-1) by lia_mod. done.
Qed.

Lemma set_normalized_timespec_spec sec nsec :
  -0x8000000000000000 ≤ sec < 0x8000000000000000 →
  set_normalized_timespec sec nsec =
    Some (mk_timespec (s64 (sec + nsec / NSEC_PER_SEC)) (nsec mod NSEC_PER_SEC)).
Proof.
  intros Hs. unfold set_normalized_timespec.
  rewrite carry_spec by (pose proof (normalize_fuel_enough nsec); unfold NSEC_PER_SEC in *; lia).
  assert (∀ sec' nsec', borrow (normalize_fuel nsec') sec' nsec' = Some (if nsec' <? 0
    then (s64 (sec' + nsec' / NSEC_PER_SEC), nsec' mod NSEC_PER_SEC) else (sec', nsec'))) as Hb.
  { intros sec' nsec'. apply borrow_spec. pose proof (normalize_fuel_enough nsec'). lia. }
  unfold NSEC_PER_SEC in *. destruct (Z.leb_spec 1000000000 nsec) as [Hle|Hlt]; cbn [mbind option_bind].
  - rewrite Hb, (proj2 (Z.ltb_ge _ 0)) by lia_mod. done.
  - rewrite Hb. destruct (Z.ltb_spec nsec 0); cbn [mbind option_bind]; [done|].
    replace (nsec / 1000000000) with 0 by lia_mod. rewrite Z.add_0_r, s64_id by lia.
    do 2 f_equal. lia_mod.
Qed.

Lemma timespec_sub_spec a b :
  normalized a → normalized b →
  -0x20000000 ≤ tv_sec a < 0x200000000 → -0x20000000 ≤ tv_sec b < 0x200000000 →
  normalized (timespec_sub a b) ∧ timespec_to_ns (timespec_sub a b) = timespec_to_ns a - timespec_to_ns b.
Proof.
  unfold normalized, timespec_sub, timespec_to_ns. intros Ha Hb Hsa Hsb.
  rewrite set_normalized_timespec_spec by apply s64_range. cbn [from_option tv_sec tv_nsec]; simpl. unfold NSEC_PER_SEC in *.
  rewrite (s64_id (tv_nsec a - _)), (s64_id (tv_sec a - _)) by lia. split; [lia_mod|].
  rewrite (s64_id (tv_sec a * _)), (s64_id (tv_sec b * _)), (s64_id (_ + tv_nsec a)), (s64_id (_ + tv_nsec b)) by lia.
  pose proof (Z.div_mod (tv_nsec a - tv_nsec b) 1000000000 ltac:(lia)).
  pose proof (Z.mod_pos_bound (tv_nsec a - tv_nsec b) 1000000000 ltac:(lia)).
  set (q := (tv_nsec a - tv_nsec b) / 1000000000) in *.
  set (r := (tv_nsec a - tv_nsec b) mod 1000000000) in *. clearbody q r.
  rewrite (s64_id (_ + q)) by lia. rewrite (s64_id (_ * _)) by lia. rewrite s64_id by lia. lia.
Qed.

(** Nanosecond counts and [timespec]s represent each other.  Every 64-bit count
    converts to a normalised [timespec] and back to itself; normalising any pair of
    64-bit seconds and nanoseconds terminates; and the difference of two normalised
    [timespec]s (of up to 2^33 s) is normalised and is the difference of the
    counts. *)
Theorem timespec_roundtrip (nsec sec : Z) (a b : timespec) :
  -0x8000000000000000 ≤ nsec < 0x8000000000000000 → -0x8000000000000000 ≤ sec < 0x8000000000000000 →
  normalized a → normalized b →
  -0x20000000 ≤ tv_sec a < 0x200000000 → -0x20000000 ≤ tv_sec b < 0x200000000 →
  (normalized (ns_to_timespec nsec) ∧ timespec_to_ns (ns_to_timespec nsec) = nsec) ∧
  (∃ d, set_normalized_timespec sec nsec = Some d ∧ normalized d) ∧
  (normalized (timespec_sub a b) ∧ timespec_to_ns (timespec_sub a b) = timespec_to_ns a - timespec_to_ns b).
Proof.
  intros Hn Hs Ha Hb Hsa Hsb. split; [|split; [|by apply timespec_sub_spec]]; cycle 1.
  { rewrite set_normalized_timespec_spec by done. eexists. split; [done|]. unfold normalized, NSEC_PER_SEC. simpl. lia_mod. }
  unfold ns_to_timespec, normalized, timespec_to_ns. destruct (Z.eqb_spec nsec 0) as [->|Hne]; [by vm_compute|].
  cbv zeta. unfold NSEC_PER_SEC. pose proof (Z.quot_rem nsec 1000000000 ltac:(lia)) as E.
  pose proof (Z.rem_bound_abs nsec 1000000000 ltac:(lia)) as Hr.
  set (q := Z.quot nsec 1000000000) in *. set (r := Z.rem nsec 1000000000) in *. clearbody q r.
  destruct (Z.ltb_spec r 0); cbn [tv_sec tv_nsec].
  - split; [lia|]. rewrite s64_add_l, s64_id by lia. lia.
  - split; [lia|]. rewrite s64_add_l, s64_id by lia. lia.
Qed.

Lemma timespec_roundtrip_witness :
  timespec_to_ns (ns_to_timespec (-1)) = -1 ∧
  timespec_to_ns (timespec_sub (mk_timespec 5 100) (mk_timespec 2 300)) = 2999999800.
Proof.
  destruct (timespec_roundtrip (-1) 0 (mk_timespec 5 100) (mk_timespec 2 300)) as ((_ & E1) & _ & (_ & E2));
    [by vm_compute..|]. split; [done|]. rewrite E2. by vm_compute.
Defined.
