(* ===== verification/ListHead.v ===== *)
(** * include/linux/list.h and include/linux/rculist.h

    The intrusive circular doubly linked lists that the run queues, the pid
    list of the idle injector and the HRM groups are kept in.  The heap of
    [struct list_head] nodes is modelled pointer by pointer, in the order of
    the assignments of the source; [dlist h head xs] says that the nodes of
    [h] reached from [head] are exactly [xs], in order, linked both ways.  The
    theorems show that each operation implements the corresponding operation
    on the Rocq list [xs], which is how the other files represent the lists. *)

From S2P Require Import Prelude.

(** ** The nodes *)
Record list_head := mk_list_head { next : Z; prev : Z }.
#[export] Instance eta_list_head : Eta list_head := ctor mk_list_head <+> next <+> prev.
#[export] Instance list_head_inhabited : Inhabited list_head := populate (mk_list_head 0 0).
#[export] Instance list_head_eq_dec : EqDecision list_head.
Proof. solve_decision. Defined.

Abbreviation heap := (gmap Z list_head).

Definition LIST_POISON1 : Z := 0x00100100.
Definition LIST_POISON2 : Z := 0x00200200.

(** [p->next], [p->prev], and assignments to them. *)
Definition nxt (h : heap) (p : Z) : Z := next (h !!! p).
Definition prv (h : heap) (p : Z) : Z := prev (h !!! p).
Definition set_next (p v : Z) (h : heap) : heap := mem_upd h p (λ n, n <| next := v |>).
Definition set_prev (p v : Z) (h : heap) : heap := mem_upd h p (λ n, n <| prev := v |>).

(** ** The operations *)
Definition INIT_LIST_HEAD (list : Z) (h : heap) : heap :=
  let h := set_next list list h in
  set_prev list list h.

Definition __list_add (new prev next : Z) (h : heap) : heap :=
  let h := set_prev next new h in
  let h := set_next new next h in
  let h := set_prev new prev h in
  set_next prev new h.

Definition list_add (new head : Z) (h : heap) : heap :=
  __list_add new head (nxt h head) h.

Definition list_add_tail (new head : Z) (h : heap) : heap :=
  __list_add new (prv h head) head h.

Definition __list_del (prev next : Z) (h : heap) : heap :=
  let h := set_prev next prev h in
  set_next prev next h.

Definition __list_del_entry (entry : Z) (h : heap) : heap :=
  __list_del (prv h entry) (nxt h entry) h.

Definition list_del (entry : Z) (h : heap) : heap :=
  let h := __list_del (prv h entry) (nxt h entry) h in
  let h := set_next entry LIST_POISON1 h in
  set_prev entry LIST_POISON2 h.

Definition list_replace (old new : Z) (h : heap) : heap :=
  let h := set_next new (nxt h old) h in
  let h := set_prev (nxt h new) new h in
  let h := set_prev new (prv h old) h in
  set_next (prv h new) new h.

Definition list_del_init (entry : Z) (h : heap) : heap :=
  let h := __list_del_entry entry h in
  INIT_LIST_HEAD entry h.

Definition list_move (list head : Z) (h : heap) : heap :=
  let h := __list_del_entry list h in
  list_add list head h.

Definition list_move_tail (list head : Z) (h : heap) : heap :=
  let h := __list_del_entry list h in
  list_add_tail list head h.

Definition list_is_last (list head : Z) (h : heap) : bool := nxt h list =? head.

Definition list_empty (head : Z) (h : heap) : bool := nxt h head =? head.

Definition list_rotate_left (head : Z) (h : heap) : heap :=
  if negb (list_empty head h) then
    let first := nxt h head in
    list_move_tail first head h
  else h.

Definition list_is_singular (head : Z) (h : heap) : bool :=
  negb (list_empty head h) && (nxt h head =? prv h head).

(** The variants of rculist.h: [rcu_assign_pointer] is an ordered store. *)
Definition __list_add_rcu (new prev next : Z) (h : heap) : heap :=
  let h := set_next new next h in
  let h := set_prev new prev h in
  let h := set_next prev new h in
  set_prev next new h.

Definition list_add_rcu (new head : Z) (h : heap) : heap :=
  __list_add_rcu new head (nxt h head) h.

Definition list_add_tail_rcu (new head : Z) (h : heap) : heap :=
  __list_add_rcu new (prv h head) head h.

Definition list_del_rcu (entry : Z) (h : heap) : heap :=
  let h := __list_del (prv h entry) (nxt h entry) h in
  set_prev entry LIST_POISON2 h.

Definition list_replace_rcu (old new : Z) (h : heap) : heap :=
  let h := set_next new (nxt h old) h in
  let h := set_prev new (prv h old) h in
  let h := set_next (prv h new) new h in
  let h := set_prev (nxt h new) new h in
  set_prev old LIST_POISON2 h.

(** [list_for_each_entry(pos, head, member)]: the nodes visited from [pos] on
    until [head] is met again, or [None] when [fuel] steps do not reach it. *)
Fixpoint list_walk (fuel : nat) (h : heap) (pos head : Z) : option (list Z) :=
  match fuel with
  | O => None
  | S fuel =>
      if pos =? head then Some []
      else match list_walk fuel h (nxt h pos) head with
           | Some l => Some (pos :: l)
           | None => None
           end
  end.

Definition list_for_each (fuel : nat) (h : heap) (head : Z) : option (list Z) :=
  list_walk fuel h (nxt h head) head.

(** ** Reading after writing *)
Lemma nxt_set_next h p v q : nxt (set_next p v h) q = if decide (p = q) then v else nxt h q.
Proof. unfold nxt, set_next. by rewrite (mem_upd_field next _ _ _ _ v). Qed.
Lemma prv_set_prev h p v q : prv (set_prev p v h) q = if decide (p = q) then v else prv h q.
Proof. unfold prv, set_prev. by rewrite (mem_upd_field prev _ _ _ _ v). Qed.
Lemma nxt_set_prev h p v q : nxt (set_prev p v h) q = nxt h q.
Proof. unfold nxt, set_prev. by rewrite mem_upd_proj. Qed.
Lemma prv_set_next h p v q : prv (set_next p v h) q = prv h q.
Proof. unfold prv, set_next. by rewrite mem_upd_proj. Qed.

Create Rewrite HintDb links.
#[export] Hint Rewrite nxt_set_next prv_set_prev nxt_set_prev prv_set_next : links.

(** ** The representation predicate

    [links h l] says that consecutive nodes of [l] point to each other. *)
Fixpoint links (h : heap) (l : list Z) : Prop :=
  match l with
  | a :: (b :: _) as l' => nxt h a = b ∧ prv h b = a ∧ links h l'
  | _ => True
  end.

Definition dlist (h : heap) (head : Z) (xs : list Z) : Prop :=
  NoDup (head :: xs) ∧ links h (head :: xs ++ [head]).

Lemma links_app h l1 a l2 :
  links h (l1 ++ a :: l2) ↔ links h (l1 ++ [a]) ∧ links h (a :: l2).
Proof.
  induction l1 as [|b l1 IH]; [simpl; tauto|].
  destruct l1 as [|c l1]; [simpl; tauto|].
  simpl in *. rewrite IH. tauto.
Qed.

(** A stretch whose inner pointers are unchanged stays linked. *)
Lemma links_frame h h' a l b :
  links h (a :: l ++ [b]) →
  (∀ p, p ∈ a :: l → nxt h' p = nxt h p) →
  (∀ p, p ∈ l ++ [b] → prv h' p = prv h p) →
  links h' (a :: l ++ [b]).
Proof.
  revert a. induction l as [|c l IH]; intros a Hl Hn Hp.
  - simpl in *. rewrite Hn, Hp; set_solver.
  - destruct Hl as (Ha & Hc & Hl). split_and!.
    + rewrite Hn; set_solver.
    + rewrite Hp; set_solver.
    + apply IH; [done| |]; set_solver.
Qed.

Lemma links_single h h' l a :
  links h (l ++ [a]) →
  (∀ p, p ∈ l → nxt h' p = nxt h p) →
  (∀ p, p ∈ tail (l ++ [a]) → prv h' p = prv h p) →
  links h' (l ++ [a]).
Proof. destruct l as [|b l]; [done|]. simpl. apply links_frame. Qed.

(** Replacing the stretch [mid] of a list by [mid'] when only the pointers
    at the two ends of the stretch change. *)
Lemma dlist_splice h h' head xs mid mid' ys l1 pr nx l2 :
  dlist h head (xs ++ mid ++ ys) →
  head :: xs = l1 ++ [pr] → ys ++ [head] = nx :: l2 →
  NoDup mid' → (∀ p, p ∈ mid' → p ∉ head :: xs ++ ys) →
  links h' (pr :: mid' ++ [nx]) →
  (∀ p, p ∈ head :: xs ++ ys → p ≠ pr → nxt h' p = nxt h p) →
  (∀ p, p ∈ head :: xs ++ ys → p ≠ nx → prv h' p = prv h p) →
  dlist h' head (xs ++ mid' ++ ys).
Proof.
  intros [Hnd Hl] Hpr Hnx Hm Hdisj Hmid Hn Hp.
  assert (NoDup (head :: xs ++ ys)) as Hnd'.
  { revert Hnd. rewrite !NoDup_cons, !NoDup_app. set_solver. }
  assert (NoDup ((l1 ++ [pr]) ++ ys)) as Hnd2 by (by rewrite <- Hpr).
  split.
  { revert Hnd. rewrite !NoDup_cons, !NoDup_app. set_solver. }
  assert (∀ m, head :: (xs ++ m ++ ys) ++ [head] = l1 ++ pr :: m ++ nx :: l2) as Heq.
  { intros m. rewrite <- Hnx. trans ((head :: xs) ++ m ++ ys ++ [head]).
    - simpl. by rewrite <- !app_assoc.
    - rewrite Hpr. by rewrite <- app_assoc. }
  rewrite Heq in Hl |- *. clear Heq Hnd.
  apply links_app in Hl as [Hl1 Hl2].
  rewrite app_comm_cons, links_app in Hl2.
  apply links_app; split; [|rewrite app_comm_cons, links_app; split; [done|]].
  - apply (links_single h); [done| |].
    + intros p Hin. assert (p ∈ head :: xs) by (rewrite Hpr; set_solver).
      apply Hn; [set_solver|]. intros ->. rewrite !NoDup_app in Hnd2. set_solver.
    + rewrite <- Hpr. simpl. intros p Hin. apply Hp; [set_solver|]. intros ->.
      assert (nx ∈ ys ++ [head]) as Hin' by (rewrite Hnx; set_solver).
      rewrite NoDup_cons, NoDup_app in Hnd'. set_solver.
  - destruct Hl2 as [_ Hl2]. destruct ys as [|y ys]; simplify_eq/=; [done|].
    apply (links_frame h); [done| |].
    + intros p Hin. apply Hn; [set_solver|]. intros ->. rewrite !NoDup_app in Hnd2. set_solver.
    + intros p Hin. apply Hp; [set_solver|]. intros ->.
      rewrite NoDup_cons, NoDup_app, NoDup_cons in Hnd'. set_solver.
Qed.

(** ** The neighbours of a node *)
Lemma split_first (head : Z) ys : ∃ nx l2, ys ++ [head] = nx :: l2.
Proof. destruct ys as [|y ys]; simpl; eauto. Qed.
Lemma split_last (head : Z) xs : ∃ l1 pr, head :: xs = l1 ++ [pr].
Proof.
  destruct (exists_last (l := head :: xs)) as (l1 & pr & E); [done|]. eauto.
Qed.

Lemma dlist_neighbours h head xs e ys l1 pr nx l2 :
  dlist h head (xs ++ e :: ys) → head :: xs = l1 ++ [pr] → ys ++ [head] = nx :: l2 →
  prv h e = pr ∧ nxt h e = nx.
Proof.
  intros [_ Hl] Hpr Hnx.
  replace (head :: (xs ++ e :: ys) ++ [head]) with (l1 ++ pr :: e :: nx :: l2) in Hl.
  - apply links_app in Hl as [_ Hl]. simpl in Hl. tauto.
  - rewrite <- Hnx. trans ((l1 ++ [pr]) ++ e :: ys ++ [head]).
    + by rewrite <- app_assoc.
    + rewrite <- Hpr. simpl. by rewrite <- app_assoc.
Qed.

Lemma dlist_first h head ys nx l2 :
  dlist h head ys → ys ++ [head] = nx :: l2 → nxt h head = nx.
Proof. intros [_ Hl] E. rewrite E in Hl. simpl in Hl. tauto. Qed.

Lemma dlist_last h head xs l1 pr :
  dlist h head xs → head :: xs = l1 ++ [pr] → prv h head = pr.
Proof.
  intros [_ Hl] E. rewrite app_comm_cons, E, <- app_assoc in Hl. simpl in Hl.
  apply links_app in Hl as [_ Hl]. simpl in Hl. tauto.
Qed.

Lemma dlist_NoDup h head xs : dlist h head xs → NoDup xs ∧ head ∉ xs.
Proof. intros [Hnd _]. apply NoDup_cons in Hnd. tauto. Qed.

(** Ends of a decomposition belong to the list. *)
Lemma split_last_elem (head : Z) xs l1 pr : head :: xs = l1 ++ [pr] → pr ∈ head :: xs.
Proof. intros ->. set_solver. Qed.
Lemma split_first_elem (head : Z) ys nx l2 : ys ++ [head] = nx :: l2 → nx ∈ head :: ys.
Proof. intros E. assert (nx ∈ ys ++ [head]) by (rewrite E; set_solver). set_solver. Qed.

Ltac links_auto :=
  intros; cbn [links app]; autorewrite with links;
  repeat case_decide; subst; try tauto; try congruence; set_solver.

(** Decide the comparisons of addresses that the context settles. *)
Ltac read_same :=
  repeat match goal with
  | |- context [decide (?a = ?a)] => rewrite (decide_True (P := a = a)) by done
  | H : ?a ≠ ?b |- context [decide (?a = ?b)] => rewrite (decide_False (P := a = b)) by done
  | H : ?a ≠ ?b |- context [decide (?b = ?a)] => rewrite (decide_False (P := b = a)) by done
  | H : prv ?h ?p = _ |- context [prv ?h ?p] => rewrite H
  end.

(** ** Each operation on the represented list *)
Section ops.
Implicit Types (h : heap) (head new e : Z).

Lemma insert_spec h head xs ys new l1 pr nx l2 h' :
  dlist h head (xs ++ ys) → new ∉ head :: xs ++ ys →
  head :: xs = l1 ++ [pr] → ys ++ [head] = nx :: l2 →
  h' = __list_add new pr nx h ∨ h' = __list_add_rcu new pr nx h →
  dlist h' head (xs ++ new :: ys).
Proof.
  intros Hd Hnew Hpr Hnx Hh'.
  pose proof (split_last_elem _ _ _ _ Hpr). pose proof (split_first_elem _ _ _ _ Hnx).
  apply (dlist_splice h h' head xs [] [new] ys l1 pr nx l2); try done.
  - apply NoDup_singleton.
  - set_solver.
  - destruct Hh' as [-> | ->]; unfold __list_add, __list_add_rcu; links_auto.
  - destruct Hh' as [-> | ->]; unfold __list_add, __list_add_rcu; links_auto.
  - destruct Hh' as [-> | ->]; unfold __list_add, __list_add_rcu; links_auto.
Qed.

Lemma list_add_spec h head xs new :
  dlist h head xs → new ∉ head :: xs →
  dlist (list_add new head h) head (new :: xs) ∧
  dlist (list_add_rcu new head h) head (new :: xs).
Proof.
  intros Hd Hnew. destruct (split_first head xs) as (nx & l2 & Hnx).
  unfold list_add, list_add_rcu. rewrite (dlist_first h head xs nx l2); [|done..].
  split; apply (insert_spec h head [] xs new [] head nx l2); auto.
Qed.

Lemma list_add_tail_spec h head xs new :
  dlist h head xs → new ∉ head :: xs →
  dlist (list_add_tail new head h) head (xs ++ [new]) ∧
  dlist (list_add_tail_rcu new head h) head (xs ++ [new]).
Proof.
  intros Hd Hnew. destruct (split_last head xs) as (l1 & pr & Hpr).
  unfold list_add_tail, list_add_tail_rcu. rewrite (dlist_last h head xs l1 pr); [|done..].
  split; apply (insert_spec h head xs [] new l1 pr head []); auto; by rewrite app_nil_r.
Qed.

(** Removal of [e], whatever is written into [e] itself afterwards. *)
Lemma remove_spec h head xs e ys h' :
  dlist h head (xs ++ e :: ys) →
  (∀ p, p ≠ e → nxt h' p = nxt (__list_del_entry e h) p) →
  (∀ p, p ≠ e → prv h' p = prv (__list_del_entry e h) p) →
  dlist h' head (xs ++ ys).
Proof.
  intros Hd Hn Hp.
  destruct (split_last head xs) as (l1 & pr & Hpr).
  destruct (split_first head ys) as (nx & l2 & Hnx).
  destruct (dlist_neighbours _ _ _ _ _ _ _ _ _ Hd Hpr Hnx) as [Hpe Hne].
  pose proof (split_last_elem _ _ _ _ Hpr). pose proof (split_first_elem _ _ _ _ Hnx).
  assert (e ∉ head :: xs ++ ys) as He.
  { destruct Hd as [Hnd _]. revert Hnd. rewrite NoDup_cons, NoDup_app, NoDup_cons. set_solver. }
  assert (pr ≠ e ∧ nx ≠ e) as [??] by (split; intros ->; set_solver).
  unfold __list_del_entry, __list_del in Hn, Hp. rewrite Hpe, Hne in *.
  apply (dlist_splice h h' head xs [e] [] ys l1 pr nx l2); try done.
  - apply NoDup_nil_2.
  - set_solver.
  - cbn [app links]. rewrite Hn, Hp by done. links_auto.
  - intros p ??. rewrite Hn by (intros ->; done). links_auto.
  - intros p ??. rewrite Hp by (intros ->; done). links_auto.
Qed.

Lemma list_del_spec h head xs e ys :
  dlist h head (xs ++ e :: ys) →
  dlist (list_del e h) head (xs ++ ys) ∧ dlist (list_del_rcu e h) head (xs ++ ys) ∧
  dlist (list_del_init e h) head (xs ++ ys) ∧ dlist (__list_del_entry e h) head (xs ++ ys).
Proof.
  intros Hd. split_and!; eapply remove_spec; try done;
    intros; unfold list_del, list_del_rcu, list_del_init, INIT_LIST_HEAD, __list_del_entry;
    links_auto.
Qed.

Lemma list_del_init_empty h e : list_empty e (list_del_init e h) = true.
Proof.
  unfold list_empty, list_del_init, INIT_LIST_HEAD. autorewrite with links.
  rewrite decide_True by done. apply Z.eqb_refl.
Qed.

Lemma list_replace_spec h head xs old ys new :
  dlist h head (xs ++ old :: ys) → new ∉ head :: xs ++ old :: ys →
  dlist (list_replace old new h) head (xs ++ new :: ys) ∧
  dlist (list_replace_rcu old new h) head (xs ++ new :: ys).
Proof.
  intros Hd Hnew.
  destruct (split_last head xs) as (l1 & pr & Hpr).
  destruct (split_first head ys) as (nx & l2 & Hnx).
  destruct (dlist_neighbours _ _ _ _ _ _ _ _ _ Hd Hpr Hnx) as [Hpe Hne].
  pose proof (split_last_elem _ _ _ _ Hpr). pose proof (split_first_elem _ _ _ _ Hnx).
  assert (old ∉ head :: xs ++ ys) as He.
  { destruct Hd as [Hnd _]. revert Hnd. rewrite NoDup_cons, NoDup_app, NoDup_cons. set_solver. }
  assert (new ≠ old ∧ new ≠ pr ∧ new ≠ nx ∧ old ≠ pr ∧ old ≠ nx) as (?&?&?&?&?).
  { split_and!; intros ->; set_solver. }
  assert (list_replace old new h =
          set_next pr new (set_prev new pr (set_prev nx new (set_next new nx h)))) as ->.
  { unfold list_replace; cbn zeta. rewrite Hne. autorewrite with links. by read_same. }
  assert (list_replace_rcu old new h =
          set_prev old LIST_POISON2 (set_prev nx new (set_next pr new
            (set_prev new pr (set_next new nx h))))) as ->.
  { unfold list_replace_rcu; cbn zeta. rewrite Hne. autorewrite with links. by read_same. }
  assert (∀ p, p ∈ [new] → p ∉ head :: xs ++ ys) by set_solver.
  split; apply (dlist_splice h _ head xs [old] [new] ys l1 pr nx l2); try done;
    try apply NoDup_singleton; intros; cbn [links app]; autorewrite with links;
    repeat case_decide; subst; try tauto; try congruence; set_solver.
Qed.
End ops.

(** ** Refinement: sequences of operations on one list *)
Inductive list_op :=
  | OpAdd (new : Z) | OpAddTail (new : Z)
  | OpAddRcu (new : Z) | OpAddTailRcu (new : Z)
  | OpDel (e : Z) | OpDelInit (e : Z) | OpDelRcu (e : Z)
  | OpReplace (old new : Z) | OpReplaceRcu (old new : Z)
  | OpMove (e : Z) | OpMoveTail (e : Z) | OpRotate.

Definition exec_op (head : Z) (op : list_op) (h : heap) : heap :=
  match op with
  | OpAdd new => list_add new head h
  | OpAddTail new => list_add_tail new head h
  | OpAddRcu new => list_add_rcu new head h
  | OpAddTailRcu new => list_add_tail_rcu new head h
  | OpDel e => list_del e h
  | OpDelInit e => list_del_init e h
  | OpDelRcu e => list_del_rcu e h
  | OpReplace old new => list_replace old new h
  | OpReplaceRcu old new => list_replace_rcu old new h
  | OpMove e => list_move e head h
  | OpMoveTail e => list_move_tail e head h
  | OpRotate => list_rotate_left head h
  end.

(** Deleting a node of a list without duplicates. *)
Definition list_remove (e : Z) (xs : list Z) : list Z := filter (λ x, x ≠ e) xs.

Definition spec_op (op : list_op) (xs : list Z) : list Z :=
  match op with
  | OpAdd new | OpAddRcu new => new :: xs
  | OpAddTail new | OpAddTailRcu new => xs ++ [new]
  | OpDel e | OpDelInit e | OpDelRcu e => list_remove e xs
  | OpReplace old new | OpReplaceRcu old new => (λ x, if decide (x = old) then new else x) <$> xs
  | OpMove e => e :: list_remove e xs
  | OpMoveTail e => list_remove e xs ++ [e]
  | OpRotate => match xs with [] => [] | x :: xs => xs ++ [x] end
  end.

(** What the callers of the operations guarantee. *)
Definition op_ok (head : Z) (xs : list Z) (op : list_op) : Prop :=
  match op with
  | OpAdd new | OpAddTail new | OpAddRcu new | OpAddTailRcu new => new ∉ head :: xs
  | OpDel e | OpDelInit e | OpDelRcu e | OpMove e | OpMoveTail e => e ∈ xs
  | OpReplace old new | OpReplaceRcu old new => old ∈ xs ∧ new ∉ head :: xs
  | OpRotate => True
  end.

Lemma list_remove_notin e (xs : list Z) : e ∉ xs → list_remove e xs = xs.
Proof.
  unfold list_remove. induction xs as [|x xs IH]; [done|].
  rewrite not_elem_of_cons. intros [? ?]. rewrite filter_cons_True by done. by rewrite IH.
Qed.

Lemma list_remove_split e xs ys :
  e ∉ xs → e ∉ ys → list_remove e (xs ++ e :: ys) = xs ++ ys.
Proof.
  intros. unfold list_remove. rewrite filter_app, filter_cons_False by tauto.
  fold (list_remove e xs) (list_remove e ys). by rewrite !list_remove_notin.
Qed.

Lemma list_subst_notin (old new : Z) (xs : list Z) :
  old ∉ xs → (λ x, if decide (x = old) then new else x) <$> xs = xs.
Proof.
  induction xs as [|x xs IH]; [done|]. rewrite not_elem_of_cons. intros [??].
  rewrite fmap_cons, decide_False by done. by rewrite IH.
Qed.

Lemma dlist_split h head xs e :
  dlist h head xs → e ∈ xs → ∃ l1 l2, xs = l1 ++ e :: l2 ∧ e ∉ head :: l1 ++ l2.
Proof.
  intros Hd (l1 & l2 & ->)%list_elem_of_split. exists l1, l2. split; [done|].
  destruct Hd as [Hnd _]. revert Hnd. rewrite NoDup_cons, NoDup_app, NoDup_cons. set_solver.
Qed.

Lemma list_empty_spec h head xs : dlist h head xs → list_empty head h = bool_decide (xs = []).
Proof.
  intros Hd. unfold list_empty. destruct (split_first head xs) as (nx & l2 & Hnx).
  rewrite (dlist_first h head xs nx l2) by done.
  apply dlist_NoDup in Hd as [_ Hd].
  destruct xs as [|x xs]; simplify_eq/=.
  - by rewrite Z.eqb_refl.
  - apply not_elem_of_cons in Hd as [? _]. by apply Z.eqb_neq.
Qed.

(** One operation simulates its list counterpart. *)
Lemma exec_op_spec h head xs op :
  dlist h head xs → op_ok head xs op → dlist (exec_op head op h) head (spec_op op xs).
Proof.
  intros Hd Hok. destruct op; simpl in *;
    try (by apply list_add_spec); try (by apply list_add_tail_spec).
  1-3: destruct (dlist_split _ _ _ _ Hd Hok) as (l1 & l2 & -> & ?);
    rewrite list_remove_split by set_solver; apply list_del_spec in Hd; tauto.
  1-2: destruct Hok as [Hok ?];
    destruct (dlist_split _ _ _ _ Hd Hok) as (l1 & l2 & -> & ?);
    rewrite fmap_app, fmap_cons, !list_subst_notin, decide_True by set_solver;
    by apply list_replace_spec.
  1-2: destruct (dlist_split _ _ _ _ Hd Hok) as (l1 & l2 & -> & ?);
    rewrite list_remove_split by set_solver;
    unfold list_move, list_move_tail; apply list_del_spec in Hd as (_ & _ & _ & Hd).
  - by apply list_add_spec.
  - by apply list_add_tail_spec.
  - unfold list_rotate_left. rewrite (list_empty_spec h head xs) by done.
    destruct xs as [|x xs]; [done|]. simpl.
    rewrite (dlist_first h head (x :: xs) x (xs ++ [head])) by done.
    unfold list_move_tail.
    destruct (dlist_NoDup _ _ _ Hd) as [Hnd ?]. apply NoDup_cons in Hnd as [? ?].
    apply (list_del_spec h head [] x xs) in Hd as (_ & _ & _ & Hd).
    apply list_add_tail_spec; set_solver.
Qed.

(** The traversal visits the represented list, and terminates as soon as the
    fuel exceeds its length. *)
Lemma list_walk_spec h head l1 l2 fuel :
  dlist h head (l1 ++ l2) → (length l2 < fuel)%nat →
  list_walk fuel h (default head (hd_error l2)) head = Some l2.
Proof.
  revert l1 fuel. induction l2 as [|x l2 IH]; intros l1 [|fuel] Hd Hlen; simpl in *; try lia.
  - by rewrite Z.eqb_refl.
  - destruct (dlist_NoDup _ _ _ Hd) as [_ Hh].
    destruct (Z.eqb_spec x head); [set_solver|].
    destruct (split_last head l1) as (k1 & pr & Hpr).
    destruct (split_first head l2) as (nx & k2 & Hnx).
    destruct (dlist_neighbours _ _ _ _ _ _ _ _ _ Hd Hpr Hnx) as [_ ->].
    replace nx with (default head (hd_error l2)).
    2: { destruct l2; by simplify_eq/=. }
    rewrite (IH (l1 ++ [x])); [done| |lia]. by rewrite <- app_assoc.
Qed.

Fixpoint ops_ok (head : Z) (xs : list Z) (ops : list list_op) : Prop :=
  match ops with
  | [] => True
  | op :: ops => op_ok head xs op ∧ ops_ok head (spec_op op xs) ops
  end.

Definition run_ops (head : Z) (ops : list list_op) (h : heap) : heap :=
  fold_left (λ h op, exec_op head op h) ops h.
Definition run_spec (ops : list list_op) (xs : list Z) : list Z :=
  fold_left (λ xs op, spec_op op xs) ops xs.

Lemma run_ops_spec h head xs ops :
  dlist h head xs → ops_ok head xs ops → dlist (run_ops head ops h) head (run_spec ops xs).
Proof.
  revert h xs. induction ops as [|op ops IH]; intros h xs Hd Hok; [done|].
  destruct Hok as [? ?]. apply IH; [|done]. by apply exec_op_spec.
Qed.

Lemma INIT_LIST_HEAD_spec h head : dlist (INIT_LIST_HEAD head h) head [].
Proof.
  split; [apply NoDup_singleton|]. unfold INIT_LIST_HEAD. links_auto.
Qed.

(** C40. The pointer operations of list.h and rculist.h refine operations on
    sequences: after any series of insertions, removals, replacements, moves
    and rotations whose arguments satisfy the callers' obligations, the nodes
    linked from the head are the list computed by the abstract operations,
    the traversal macro returns exactly that list when its fuel exceeds the
    length, and [list_empty] tests whether it is empty. *)
Theorem list_ops_refine (h : heap) (head : Z) (xs : list Z) (ops : list list_op) :
  dlist h head xs → ops_ok head xs ops →
  dlist (run_ops head ops h) head (run_spec ops xs) ∧
  list_for_each (S (length (run_spec ops xs))) (run_ops head ops h) head
    = Some (run_spec ops xs) ∧
  list_empty head (run_ops head ops h) = bool_decide (run_spec ops xs = []).
Proof.
  intros Hd Hok. pose proof (run_ops_spec h head xs ops Hd Hok) as Hr. split_and!.
  - done.
  - unfold list_for_each. destruct (split_first head (run_spec ops xs)) as (nx & l2 & Hnx).
    rewrite (dlist_first _ _ _ nx l2) by done.
    replace nx with (default head (hd_error (run_spec ops xs))).
    2: { destruct (run_spec ops xs); by simplify_eq/=. }
    by apply (list_walk_spec _ head []); [|lia].
  - by apply list_empty_spec.
Qed.

Definition sample_ops : list list_op :=
  [OpAddTail 2; OpAddTail 3; OpAddRcu 4; OpMoveTail 2; OpReplaceRcu 3 5; OpDelInit 4; OpRotate].

Lemma list_ops_refine_witness :
  list_for_each 3 (run_ops 1 sample_ops (INIT_LIST_HEAD 1 ∅)) 1 = Some [2; 5] ∧
  dlist (run_ops 1 sample_ops (INIT_LIST_HEAD 1 ∅)) 1 [2; 5].
Proof.
  assert (ops_ok 1 [] sample_ops) as Hok.
  { repeat split; vm_compute; set_solver. }
  destruct (list_ops_refine (INIT_LIST_HEAD 1 ∅) 1 [] sample_ops
              (INIT_LIST_HEAD_spec ∅ 1) Hok) as (Hd & Hw & _).
  split; [exact Hw | exact Hd].
Defined.
