(* ===== verification/Bitops.v ===== *)
(** * Bitmaps: asm-generic/bitops, lib/find_next_bit.c, lib/bitmap.c

    A bitmap is an array of [unsigned long] words of 64 bits, here a list of
    integers.  [bit n bm] is the abstract content; the theorems relate the
    word-level code to it.  The global run queue uses [__set_bit],
    [__clear_bit] and [find_next_bit] for its priority bitmap, the HRM groups
    use [bitmap_find_free_region] and [bitmap_release_region] for their
    counters. *)

From S2P Require Import Prelude.

Abbreviation bitmap := (list Z).

Definition BITS_PER_LONG : Z := 64.
Definition ULONG_MAX : Z := 0xffffffffffffffff.
Definition BIT_WORD (nr : Z) : nat := Z.to_nat (nr / BITS_PER_LONG).
Definition BIT_MASK (nr : Z) : Z := Z.shiftl 1 (nr mod BITS_PER_LONG).

(** ** asm-generic/bitops/non-atomic.h *)
Definition __set_bit (nr : Z) (addr : bitmap) : bitmap :=
  let mask := BIT_MASK nr in
  let p := BIT_WORD nr in
  <[p := Z.lor (addr !!! p) mask]> addr.

Definition __clear_bit (nr : Z) (addr : bitmap) : bitmap :=
  let mask := BIT_MASK nr in
  let p := BIT_WORD nr in
  <[p := Z.land (addr !!! p) (u64 (Z.lnot mask))]> addr.

Definition test_bit (nr : Z) (addr : bitmap) : Z :=
  Z.land 1 (Z.shiftr (addr !!! BIT_WORD nr) (Z.land nr (BITS_PER_LONG - 1))).

(** ** asm-generic/bitops/__ffs.h *)
Definition __ffs (word : Z) : Z :=
  let num := 0 in
  let '(num, word) := if Z.land word 0xffffffff =? 0 then (num + 32, Z.shiftr word 32) else (num, word) in
  let '(num, word) := if Z.land word 0xffff =? 0 then (num + 16, Z.shiftr word 16) else (num, word) in
  let '(num, word) := if Z.land word 0xff =? 0 then (num + 8, Z.shiftr word 8) else (num, word) in
  let '(num, word) := if Z.land word 0xf =? 0 then (num + 4, Z.shiftr word 4) else (num, word) in
  let '(num, word) := if Z.land word 0x3 =? 0 then (num + 2, Z.shiftr word 2) else (num, word) in
  if Z.land word 0x1 =? 0 then num + 1 else num.

(** ** lib/find_next_bit.c *)
Definition found_middle (result tmp : Z) : Z := result + __ffs tmp.

Definition found_first (result size tmp : Z) : Z :=
  let tmp := Z.land tmp (Z.shiftr ULONG_MAX (BITS_PER_LONG - size)) in
  if tmp =? 0 then result + size else found_middle result tmp.

(** The loop over whole words, and the last partial word. *)
Fixpoint find_words (fuel : nat) (addr : bitmap) (p : nat) (size result : Z) : Z :=
  match fuel with
  | O => result
  | S fuel =>
      if negb (Z.land size (Z.lnot (BITS_PER_LONG - 1)) =? 0) then
        let tmp := addr !!! p in
        if negb (tmp =? 0) then found_middle result tmp
        else find_words fuel addr (S p) (size - BITS_PER_LONG) (result + BITS_PER_LONG)
      else if size =? 0 then result
      else found_first result size (addr !!! p)
  end.

Definition find_next_bit (addr : bitmap) (size offset : Z) : Z :=
  let p := BIT_WORD offset in
  let result := Z.land offset (Z.lnot (BITS_PER_LONG - 1)) in
  if size <=? offset then size else
  let size := size - result in
  let offset := offset mod BITS_PER_LONG in
  let fuel := S (Z.to_nat (size / BITS_PER_LONG)) in
  if negb (offset =? 0) then
    let tmp := Z.land (addr !!! p) (u64 (Z.shiftl ULONG_MAX offset)) in
    if size <? BITS_PER_LONG then found_first result size tmp
    else if negb (tmp =? 0) then found_middle result tmp
    else find_words fuel addr (S p) (size - BITS_PER_LONG) (result + BITS_PER_LONG)
  else find_words fuel addr p size result.

(** ** lib/bitmap.c: regions of [1 << order] bits *)
Inductive reg_op := REG_OP_ISFREE | REG_OP_ALLOC | REG_OP_RELEASE.

Definition BITS_TO_LONGS (nr : Z) : Z := (nr + BITS_PER_LONG - 1) / BITS_PER_LONG.

Fixpoint words_free (bm : bitmap) (mask : Z) (i n : nat) : bool :=
  match n with
  | O => true
  | S n => if negb (Z.land (bm !!! i) mask =? 0) then false else words_free bm mask (S i) n
  end.

Fixpoint words_upd (f : Z → Z) (bm : bitmap) (i n : nat) : bitmap :=
  match n with
  | O => bm
  | S n => words_upd f (<[i := f (bm !!! i)]> bm) (S i) n
  end.

(** The return value and the bitmap after the operation. *)
Definition __reg_op (bm : bitmap) (pos order : Z) (op : reg_op) : Z * bitmap :=
  let nbits_reg := Z.shiftl 1 order in
  let index := pos / BITS_PER_LONG in
  let offset := pos - index * BITS_PER_LONG in
  let nlongs_reg := BITS_TO_LONGS nbits_reg in
  let nbitsinlong := Z.min nbits_reg BITS_PER_LONG in
  let mask := Z.shiftl 1 (nbitsinlong - 1) in
  let mask := mask + (mask - 1) in
  let mask := u64 (Z.shiftl mask offset) in
  match op with
  | REG_OP_ISFREE =>
      (Z_of_bool (words_free bm mask (Z.to_nat index) (Z.to_nat nlongs_reg)), bm)
  | REG_OP_ALLOC =>
      (0, words_upd (λ w, Z.lor w mask) bm (Z.to_nat index) (Z.to_nat nlongs_reg))
  | REG_OP_RELEASE =>
      (0, words_upd (λ w, Z.land w (u64 (Z.lnot mask))) bm (Z.to_nat index) (Z.to_nat nlongs_reg))
  end.

Fixpoint find_free (fuel : nat) (bm : bitmap) (bits order pos : Z) : Z * bitmap :=
  match fuel with
  | O => (- ENOMEM, bm)
  | S fuel =>
      let stop := pos + Z.shiftl 1 order in
      if stop <=? bits then
        if (__reg_op bm pos order REG_OP_ISFREE).1 =? 0 then find_free fuel bm bits order stop
        else (pos, (__reg_op bm pos order REG_OP_ALLOC).2)
      else (- ENOMEM, bm)
  end.

(** The loop makes at most [bits] steps, since each advances by one bit or more. *)
Definition bitmap_find_free_region (bm : bitmap) (bits order : Z) : Z * bitmap :=
  find_free (S (Z.to_nat bits)) bm bits order 0.

Definition bitmap_release_region (bm : bitmap) (pos order : Z) : bitmap :=
  (__reg_op bm pos order REG_OP_RELEASE).2.

Definition bitmap_zero (nbits : Z) : bitmap := replicate (Z.to_nat (BITS_TO_LONGS nbits)) 0.

(** ** The abstract content *)
Definition bit (n : Z) (bm : bitmap) : bool := Z.testbit (bm !!! BIT_WORD n) (n mod BITS_PER_LONG).

(** Words are values of [unsigned long]. *)
Definition words_ok (bm : bitmap) : Prop := ∀ i, 0 ≤ bm !!! i < 0x10000000000000000.

Lemma mod64_land n : Z.land n (BITS_PER_LONG - 1) = n mod 64.
Proof. change (BITS_PER_LONG - 1) with (Z.ones 6). by rewrite Z.land_ones. Qed.
Lemma land_lnot63 n : 0 ≤ n → Z.land n (Z.lnot (BITS_PER_LONG - 1)) = n - n mod 64.
Proof.
  intros. rewrite <- Z.ldiff_land. change (BITS_PER_LONG - 1) with (Z.ones 6).
  rewrite Z.ldiff_ones_r, Z.shiftl_mul_pow2, Z.shiftr_div_pow2 by lia.
  change (2 ^ 6) with 64. lia_mod.
Qed.

Lemma bit_word_inj i j : 0 ≤ i → 0 ≤ j → BIT_WORD i = BIT_WORD j → i mod 64 = j mod 64 → i = j.
Proof. unfold BIT_WORD, BITS_PER_LONG. intros. lia_mod. Qed.

Lemma test_bit_spec n bm : 0 ≤ n → test_bit n bm = Z_of_bool (bit n bm).
Proof.
  intros. unfold test_bit, bit. rewrite mod64_land, Z.land_comm.
  change 1 with (Z.ones 1). rewrite Z.land_ones by lia.
  pose proof (Z.bit0_mod ((bm !!! BIT_WORD n) ≫ (n mod 64))) as E.
  rewrite Z.shiftr_spec in E by lia. change (2 ^ 1) with 2. rewrite <- E. done.
Qed.

Lemma bit_set n bm i :
  0 ≤ n < 64 * Z.of_nat (length bm) → 0 ≤ i →
  bit i (__set_bit n bm) = (i =? n) || bit i bm.
Proof.
  intros Hn Hi. unfold bit, __set_bit, BIT_MASK, BITS_PER_LONG.
  destruct (decide (BIT_WORD n = BIT_WORD i)) as [E|E].
  - rewrite <- E, list_lookup_total_insert_eq by (unfold BIT_WORD, BITS_PER_LONG; lia_mod).
    rewrite Z.lor_spec, Z.shiftl_spec, testbit_1, orb_comm by lia_mod. f_equal.
    destruct (Z.eqb_spec i n); subst; [apply Z.eqb_eq; lia|].
    apply Z.eqb_neq. intros Hm. apply n0. symmetry. apply bit_word_inj; [lia..|done|lia].
  - rewrite list_lookup_total_insert_ne by done.
    destruct (Z.eqb_spec i n); [congruence|done].
Qed.

Lemma bit_clear n bm i :
  0 ≤ n < 64 * Z.of_nat (length bm) → 0 ≤ i →
  bit i (__clear_bit n bm) = negb (i =? n) && bit i bm.
Proof.
  intros Hn Hi. unfold bit, __clear_bit, BIT_MASK, BITS_PER_LONG.
  destruct (decide (BIT_WORD n = BIT_WORD i)) as [E|E].
  - rewrite <- E, list_lookup_total_insert_eq by (unfold BIT_WORD, BITS_PER_LONG; lia_mod).
    assert ((i mod 64 <? 64) = true) as Hlt by (apply Z.ltb_lt; lia_mod).
    rewrite Z.land_spec, testbit_u64, Hlt, Z.lnot_spec, Z.shiftl_spec, testbit_1, andb_comm by lia_mod.
    f_equal. simpl. f_equal.
    destruct (Z.eqb_spec i n); subst; [apply Z.eqb_eq; lia|].
    apply Z.eqb_neq. intros Hm. apply n0. symmetry. apply bit_word_inj; [lia..|done|lia].
  - rewrite list_lookup_total_insert_ne by done.
    destruct (Z.eqb_spec i n); [congruence|done].
Qed.

Lemma length_set_bit n bm : length (__set_bit n bm) = length bm.
Proof. apply length_insert. Qed.
Lemma length_clear_bit n bm : length (__clear_bit n bm) = length bm.
Proof. apply length_insert. Qed.

(** [words_ok] is preserved by writing a value of the type. *)
Lemma words_ok_insert bm i w :
  words_ok bm → 0 ≤ w < 0x10000000000000000 → words_ok (<[i := w]> bm).
Proof. intros Hbm Hw j. rewrite list_lookup_total_insert. by case_decide. Qed.

Lemma u64_bits_range x : (∀ i, 64 ≤ i → Z.testbit x i = false) → 0 ≤ x → 0 ≤ x < 0x10000000000000000.
Proof.
  intros Hb Hx. enough (x = u64 x) as -> by apply u64_range.
  apply Z.bits_inj'. intros i Hi. rewrite testbit_u64.
  destruct (Z.ltb_spec i 64); [done|]. by rewrite Hb.
Qed.

Lemma mask_range n : 0 ≤ BIT_MASK n < 0x10000000000000000.
Proof.
  unfold BIT_MASK, BITS_PER_LONG. apply u64_bits_range.
  - intros i Hi. rewrite Z.shiftl_spec, testbit_1 by lia. apply Z.eqb_neq. lia_mod.
  - apply Z.shiftl_nonneg. lia.
Qed.

Lemma lor_range a b :
  0 ≤ a < 0x10000000000000000 → 0 ≤ b < 0x10000000000000000 →
  0 ≤ Z.lor a b < 0x10000000000000000.
Proof.
  intros Ha Hb. apply u64_bits_range; [|apply Z.lor_nonneg; lia].
  intros i Hi. by rewrite Z.lor_spec, !testbit_high.
Qed.
Lemma land_range a b :
  0 ≤ a < 0x10000000000000000 → 0 ≤ Z.land a b < 0x10000000000000000.
Proof.
  intros Ha. apply u64_bits_range; [|apply Z.land_nonneg; lia].
  intros i Hi. by rewrite Z.land_spec, testbit_high.
Qed.

Lemma words_ok_set n bm : words_ok bm → words_ok (__set_bit n bm).
Proof. intros H. apply words_ok_insert, lor_range, mask_range; [done|apply H]. Qed.
Lemma words_ok_clear n bm : words_ok bm → words_ok (__clear_bit n bm).
Proof. intros H. apply words_ok_insert, land_range; [done|apply H]. Qed.

(** ** The least set bit of a word *)
Section ffs.
Variable word : Z.

(** The binary search has skipped [num] zero bits and some of the next
    [k] bits is set. *)
Definition ffs_inv (k num w : Z) : Prop :=
  0 ≤ num ∧ num + k ≤ 64 ∧ w = Z.shiftr word num ∧ w mod 2 ^ k ≠ 0 ∧
  ∀ j, 0 ≤ j < num → Z.testbit word j = false.

Lemma ffs_skip k num :
  0 ≤ num → 0 ≤ k → Z.shiftr word num mod 2 ^ k = 0 →
  (∀ j, 0 ≤ j < num → Z.testbit word j = false) →
  ∀ j, 0 ≤ j < num + k → Z.testbit word j = false.
Proof.
  intros ?? Hz Hlow j Hj. destruct (decide (j < num)); [apply Hlow; lia|].
  replace j with ((j - num) + num) by lia. rewrite <- Z.shiftr_spec by lia.
  rewrite <- (Z.mod_pow2_bits_low _ k) by lia. by rewrite Hz, Z.bits_0.
Qed.

Lemma ffs_step k num w num' w' :
  0 ≤ k → ffs_inv (k + k) num w →
  (num', w') = (if Z.land w (Z.ones k) =? 0 then (num + k, Z.shiftr w k) else (num, w)) →
  ffs_inv k num' w'.
Proof.
  intros Hk (Hn & Hle & -> & Hnz & Hlow). rewrite Z.land_ones by done.
  destruct (Z.eqb_spec (Z.shiftr word num mod 2 ^ k) 0) as [E|E]; intros [= -> ->].
  - split_and!; [lia|lia|by rewrite Z.shiftr_shiftr by lia| |by apply ffs_skip].
    intros Hz. apply Hnz. rewrite Z.pow_add_r, Z.rem_mul_r by lia.
    rewrite E, <- Z.shiftr_div_pow2, Hz by lia. lia.
  - split_and!; [lia|lia|done|done|done].
Qed.

Lemma ffs_spec :
  0 < word < 0x10000000000000000 →
  0 ≤ __ffs word < 64 ∧ Z.testbit word (__ffs word) = true ∧
  ∀ j, 0 ≤ j < __ffs word → Z.testbit word j = false.
Proof.
  intros Hw. unfold __ffs. cbv zeta.
  change 0xffffffff with (Z.ones 32). change 0xffff with (Z.ones 16).
  change 0xff with (Z.ones 8). change 0xf with (Z.ones 4). change 0x3 with (Z.ones 2).
  assert (ffs_inv (32 + 32) 0 word) as I.
  { split_and!; [lia..|by rewrite Z.shiftr_0_r| |lia].
    change (2 ^ (32 + 32)) with 0x10000000000000000. rewrite Z.mod_small; lia. }
  destruct (if Z.land word (Z.ones 32) =? 0 then _ else _) as [n1 w1] eqn:E1.
  apply (ffs_step 32 _ _ n1 w1 ltac:(done)) in I; [|done].
  destruct (if Z.land w1 (Z.ones 16) =? 0 then _ else _) as [n2 w2] eqn:E2.
  apply (ffs_step 16 _ _ n2 w2 ltac:(done)) in I; [|done].
  destruct (if Z.land w2 (Z.ones 8) =? 0 then _ else _) as [n3 w3] eqn:E3.
  apply (ffs_step 8 _ _ n3 w3 ltac:(done)) in I; [|done].
  destruct (if Z.land w3 (Z.ones 4) =? 0 then _ else _) as [n4 w4] eqn:E4.
  apply (ffs_step 4 _ _ n4 w4 ltac:(done)) in I; [|done].
  destruct (if Z.land w4 (Z.ones 2) =? 0 then _ else _) as [n5 w5] eqn:E5.
  apply (ffs_step 2 _ _ n5 w5 ltac:(done)) in I; [|done].
  clear E1 E2 E3 E4 E5.
  pose proof I as (Hn & Hle & -> & Hnz & Hlow).
  apply (ffs_step 1 _ _ (if Z.land (Z.shiftr word n5) 1 =? 0 then n5 + 1 else n5)
           (if Z.land (Z.shiftr word n5) 1 =? 0 then Z.shiftr (Z.shiftr word n5) 1
            else Z.shiftr word n5) ltac:(done)) in I;
    [|change (Z.ones 1) with 1; by case_match].
  destruct I as (? & ? & Hw' & Hnz' & Hlow'). split_and!; [lia..| |done].
  revert Hnz'. rewrite Hw'. change (2 ^ 1) with 2. rewrite <- Z.bit0_mod, Z.shiftr_spec by lia.
  rewrite Z.add_0_l. by destruct (Z.testbit word _).
Qed.
End ffs.

(** ** The next set bit of a bitmap *)
Definition next_bit (bm : bitmap) (size offset r : Z) : Prop :=
  offset ≤ r ≤ size ∧ (∀ i, offset ≤ i < r → bit i bm = false) ∧
  (r < size → bit r bm = true).

Lemma bit_in_word bm p j : 0 ≤ j < 64 → bit (64 * Z.of_nat p + j) bm = Z.testbit (bm !!! p) j.
Proof.
  intros. unfold bit, BIT_WORD, BITS_PER_LONG. f_equal; [|lia_mod]. f_equal. lia_mod.
Qed.

(** Searching one word: [tmp] agrees with the word of [result] from bit
    [offset] on and has no lower bit. *)
Lemma found_middle_spec bm p size offset tmp :
  0 ≤ offset → 0 < tmp < 0x10000000000000000 →
  (∀ j, 0 ≤ j < 64 → Z.testbit tmp j = (offset <=? j) && Z.testbit (bm !!! p) j) →
  64 * Z.of_nat p + __ffs tmp < size →
  next_bit bm size (64 * Z.of_nat p + offset) (found_middle (64 * Z.of_nat p) tmp).
Proof.
  intros Ho Htmp Hbits Hsz. destruct (ffs_spec tmp Htmp) as (Hr & Ht & Hlow).
  unfold found_middle. rewrite Hbits in Ht by lia. apply andb_true_iff in Ht as [Hle Ht].
  apply Z.leb_le in Hle. split_and!; [lia|lia| |].
  - intros i Hi. replace i with (64 * Z.of_nat p + (i - 64 * Z.of_nat p)) by lia.
    rewrite bit_in_word by lia. specialize (Hlow (i - 64 * Z.of_nat p) ltac:(lia)).
    rewrite Hbits in Hlow by lia.
    by rewrite (proj2 (Z.leb_le offset (i - 64 * Z.of_nat p))) in Hlow by lia.
  - intros _. by rewrite bit_in_word by lia.
Qed.

Lemma no_bit_below bm p offset tmp n :
  (∀ j, 0 ≤ j < 64 → Z.testbit tmp j = (offset <=? j) && Z.testbit (bm !!! p) j) →
  (∀ j, 0 ≤ j < n → Z.testbit tmp j = false) → 0 ≤ offset → n ≤ 64 →
  ∀ i, 64 * Z.of_nat p + offset ≤ i < 64 * Z.of_nat p + n → bit i bm = false.
Proof.
  intros Hbits Hz Ho Hn i Hi. replace i with (64 * Z.of_nat p + (i - 64 * Z.of_nat p)) by lia.
  rewrite bit_in_word by lia. specialize (Hz (i - 64 * Z.of_nat p) ltac:(lia)).
  rewrite Hbits in Hz by lia. by rewrite (proj2 (Z.leb_le offset (i - 64 * Z.of_nat p))) in Hz by lia.
Qed.

Lemma found_first_spec bm p size offset tmp :
  0 ≤ offset ≤ size → 0 < size < 64 → 0 ≤ tmp < 0x10000000000000000 →
  (∀ j, 0 ≤ j < 64 → Z.testbit tmp j = (offset <=? j) && Z.testbit (bm !!! p) j) →
  next_bit bm (64 * Z.of_nat p + size) (64 * Z.of_nat p + offset)
    (found_first (64 * Z.of_nat p) size tmp).
Proof.
  intros Ho Hs Htmp Hbits. unfold found_first.
  set (tmp' := Z.land tmp (ULONG_MAX ≫ (BITS_PER_LONG - size))).
  assert (∀ j, 0 ≤ j → Z.testbit tmp' j = (j <? size) && Z.testbit tmp j) as Hb'.
  { intros j Hj. unfold tmp'. rewrite Z.land_spec, Z.shiftr_spec by done.
    change ULONG_MAX with (Z.ones 64). unfold BITS_PER_LONG.
    destruct (Z.ltb_spec j size).
    - rewrite Z.ones_spec_low by lia. by rewrite andb_true_r.
    - rewrite Z.ones_spec_high by lia. by rewrite andb_false_r. }
  assert (0 ≤ tmp' < 0x10000000000000000) as Htmp' by by apply land_range.
  destruct (Z.eqb_spec tmp' 0) as [E|E].
  - split_and!; [lia|lia| |lia]. apply (no_bit_below bm p offset tmp size); [done| |lia..].
    intros j Hj. specialize (Hb' j ltac:(lia)). rewrite E, Z.bits_0 in Hb'.
    by rewrite (proj2 (Z.ltb_lt j size)) in Hb' by lia.
  - destruct (ffs_spec tmp' ltac:(lia)) as (Hr & Ht & Hlow).
    assert (__ffs tmp' < size) as Hlt.
    { rewrite Hb' in Ht by lia. apply andb_true_iff in Ht as [Ht _]. by apply Z.ltb_lt. }
    unfold found_middle. rewrite Hb' in Ht by lia.
    apply andb_true_iff in Ht as [_ Ht]. rewrite Hbits in Ht by lia.
    apply andb_true_iff in Ht as [Hle Ht]. apply Z.leb_le in Hle.
    split_and!; [lia|lia| |].
    + apply (no_bit_below bm p offset tmp (__ffs tmp')); [done| |lia..].
      intros j Hj. specialize (Hlow j Hj). rewrite Hb' in Hlow by lia.
      by rewrite (proj2 (Z.ltb_lt j size)) in Hlow by lia.
    + intros _. by rewrite bit_in_word by lia.
Qed.

Lemma next_bit_skip bm size offset offset' r :
  offset ≤ offset' → (∀ i, offset ≤ i < offset' → bit i bm = false) →
  next_bit bm size offset' r → next_bit bm size offset r.
Proof.
  intros Hle Hz (Hr & Hlow & Ht). split_and!; [lia|lia| |done].
  intros i Hi. destruct (decide (i < offset')); [apply Hz|apply Hlow]; lia.
Qed.

Lemma size_whole size : 0 ≤ size → (Z.land size (Z.lnot (BITS_PER_LONG - 1)) =? 0) = (size <? 64).
Proof.
  intros. rewrite land_lnot63 by done.
  destruct (Z.ltb_spec size 64); [apply Z.eqb_eq|apply Z.eqb_neq]; lia_mod.
Qed.

Lemma find_words_spec fuel bm p size :
  words_ok bm → 0 ≤ size → (Z.to_nat (size / 64) < fuel)%nat →
  next_bit bm (64 * Z.of_nat p + size) (64 * Z.of_nat p)
    (find_words fuel bm p size (64 * Z.of_nat p)).
Proof.
  intros Hok. revert p size. induction fuel as [|fuel IH]; intros p size Hs Hf; [lia|].
  cbn [find_words]. rewrite size_whole by done. pose proof (Hok p) as Hw.
  assert (∀ j, 0 ≤ j < 64 → Z.testbit (bm !!! p) j = (0 <=? j) && Z.testbit (bm !!! p) j) as Hbits.
  { intros j Hj. by rewrite (proj2 (Z.leb_le 0 j)) by lia. }
  destruct (Z.ltb_spec size 64) as [Hlt|Hge]; cbn [negb].
  - destruct (Z.eqb_spec size 0) as [->|?].
    + split_and!; lia.
    + pose proof (found_first_spec bm p size 0 (bm !!! p)) as Hff.
      rewrite Z.add_0_r in Hff. apply Hff; [lia..|done].
  - destruct (Z.eqb_spec (bm !!! p) 0) as [E|E]; cbn [negb].
    + replace (64 * Z.of_nat p + BITS_PER_LONG) with (64 * Z.of_nat (S p))
        by (unfold BITS_PER_LONG; lia).
      apply (next_bit_skip _ _ _ (64 * Z.of_nat (S p))); [lia| |].
      * pose proof (no_bit_below bm p 0 (bm !!! p) 64 Hbits) as Hnb.
        intros i Hi. apply Hnb; [|lia..]. intros. by rewrite E, Z.bits_0.
      * replace (64 * Z.of_nat p + size) with (64 * Z.of_nat (S p) + (size - BITS_PER_LONG))
          by (unfold BITS_PER_LONG; lia).
        apply IH; unfold BITS_PER_LONG in *; lia_mod.
    + pose proof (found_middle_spec bm p (64 * Z.of_nat p + size) 0 (bm !!! p)) as Hfm.
      rewrite Z.add_0_r in Hfm. destruct (ffs_spec (bm !!! p)) as (? & _ & _); [lia|].
      apply Hfm; [lia..|done|lia].
Qed.

Lemma find_next_bit_spec bm size offset :
  words_ok bm → 0 ≤ offset ≤ size → next_bit bm size offset (find_next_bit bm size offset).
Proof.
  intros Hok Ho. unfold find_next_bit. cbv zeta. rewrite land_lnot63 by lia.
  destruct (Z.leb_spec size offset); [split_and!; lia|].
  set (p := BIT_WORD offset). unfold BITS_PER_LONG.
  assert (offset - offset mod 64 = 64 * Z.of_nat p) as Hp.
  { unfold p, BIT_WORD, BITS_PER_LONG. lia_mod. }
  rewrite Hp. set (size' := size - 64 * Z.of_nat p).
  replace size with (64 * Z.of_nat p + size') at 1 by (unfold size'; lia).
  replace offset with (64 * Z.of_nat p + offset mod 64) at 1 by lia.
  assert (0 ≤ offset mod 64 < size' ∧ offset mod 64 < 64) as [??] by (unfold size'; lia_mod).
  destruct (Z.eqb_spec (offset mod 64) 0) as [E|E]; cbn [negb].
  { rewrite E, Z.add_0_r. apply find_words_spec; [done|lia|lia]. }
  set (o := offset mod 64) in *.
  set (tmp := Z.land (bm !!! p) (u64 (ULONG_MAX ≪ o))).
  assert (0 ≤ tmp < 0x10000000000000000) by (apply land_range, Hok).
  assert (∀ j, 0 ≤ j < 64 → Z.testbit tmp j = (o <=? j) && Z.testbit (bm !!! p) j) as Hbits.
  { intros j Hj. unfold tmp. rewrite Z.land_spec, testbit_u64, Z.shiftl_spec, andb_comm by lia.
    rewrite (proj2 (Z.ltb_lt j 64)) by lia. f_equal. change ULONG_MAX with (Z.ones 64). simpl.
    destruct (Z.leb_spec o j); [apply Z.ones_spec_low; lia|apply Z.testbit_neg_r; lia]. }
  destruct (Z.ltb_spec size' 64).
  { apply found_first_spec; [lia..|done]. }
  destruct (Z.eqb_spec tmp 0) as [Et|Et]; cbn [negb].
  - replace (64 * Z.of_nat p + 64) with (64 * Z.of_nat (S p)) by lia.
    apply (next_bit_skip _ _ _ (64 * Z.of_nat (S p))); [lia| |].
    + replace (64 * Z.of_nat (S p)) with (64 * Z.of_nat p + 64) by lia.
      apply (no_bit_below bm p o tmp 64); [done| |lia..]. intros. by rewrite Et, Z.bits_0.
    + replace (64 * Z.of_nat p + size') with (64 * Z.of_nat (S p) + (size' - 64)) by lia.
      apply find_words_spec; [done|lia|lia_mod].
  - destruct (ffs_spec tmp ltac:(lia)) as (? & _ & _). apply found_middle_spec; [lia..|done|lia].
Qed.

(** ** Regions of one bit, as the HRM groups allocate them *)
Lemma shiftl1_u64 o : 0 ≤ o < 64 → u64 (Z.shiftl 1 o) = Z.shiftl 1 o.
Proof.
  intros. apply u64_id. pose proof (mask_range o) as Hm. unfold BIT_MASK, BITS_PER_LONG in Hm.
  by rewrite Z.mod_small in Hm.
Qed.

Lemma reg_op_order0 bm pos op :
  0 ≤ pos →
  __reg_op bm pos 0 op =
    match op with
    | REG_OP_ISFREE => (Z_of_bool (negb (bit pos bm)), bm)
    | REG_OP_ALLOC => (0, __set_bit pos bm)
    | REG_OP_RELEASE => (0, __clear_bit pos bm)
    end.
Proof.
  intros Hp. unfold __reg_op. cbv zeta.
  change (BITS_TO_LONGS (1 ≪ 0)) with 1. change (Z.min (1 ≪ 0) BITS_PER_LONG) with 1.
  change (1 ≪ (1 - 1) + (1 ≪ (1 - 1) - 1)) with 1. unfold BITS_PER_LONG.
  replace (pos - pos / 64 * 64) with (pos mod 64) by lia_mod.
  rewrite shiftl1_u64 by lia_mod. change (Z.to_nat 1) with 1%nat. cbn [words_free words_upd].
  unfold bit, __set_bit, __clear_bit, BIT_MASK, BIT_WORD, BITS_PER_LONG. destruct op; [|done..].
  do 2 f_equal. set (w := bm !!! Z.to_nat (pos / 64)). set (o := pos mod 64).
  assert (0 ≤ o) by (unfold o; lia_mod).
  destruct (Z.testbit w o) eqn:E.
  - destruct (Z.eqb_spec (Z.land w (1 ≪ o)) 0) as [H0|]; [|done].
    assert (Z.testbit (Z.land w (1 ≪ o)) o = true) as H1.
    { rewrite Z.land_spec, E, Z.shiftl_spec, Z.sub_diag by done. done. }
    by rewrite H0, Z.bits_0 in H1.
  - replace (Z.land w (1 ≪ o)) with 0; [done|]. symmetry. apply Z.bits_inj'. intros j Hj.
    rewrite Z.bits_0, Z.land_spec, Z.shiftl_spec, testbit_1 by done.
    destruct (Z.eqb_spec (j - o) 0); [|by rewrite andb_false_r].
    replace j with o by lia. by rewrite E.
Qed.

Lemma find_free_spec fuel bm bits pos :
  0 ≤ pos ≤ bits → bits - pos < Z.of_nat fuel → (∀ j, 0 ≤ j < pos → bit j bm = true) →
  let '(r, bm') := find_free fuel bm bits 0 pos in
  (0 ≤ r < bits ∧ bit r bm = false ∧ (∀ j, 0 ≤ j < r → bit j bm = true) ∧ bm' = __set_bit r bm) ∨
  (r = - ENOMEM ∧ bm' = bm ∧ ∀ j, 0 ≤ j < bits → bit j bm = true).
Proof.
  revert pos. induction fuel as [|fuel IH]; intros pos Hp Hf Hlow; [lia|].
  cbn [find_free]. change (1 ≪ 0) with 1. rewrite !reg_op_order0 by lia. simpl.
  destruct (Z.leb_spec (pos + 1) bits) as [Hle|Hgt].
  - destruct (bit pos bm) eqn:E; simpl.
    + apply IH; [lia..|]. intros j Hj. destruct (decide (j = pos)) as [->|]; [done|apply Hlow; lia].
    + left. split_and!; [lia|lia|done|done|done].
  - right. split_and!; [done|done|]. intros. apply Hlow. lia.
Qed.

Lemma find_free_region_spec bm bits :
  0 ≤ bits →
  let '(r, bm') := bitmap_find_free_region bm bits 0 in
  (0 ≤ r < bits ∧ bit r bm = false ∧ (∀ j, 0 ≤ j < r → bit j bm = true) ∧ bm' = __set_bit r bm) ∨
  (r = - ENOMEM ∧ bm' = bm ∧ ∀ j, 0 ≤ j < bits → bit j bm = true).
Proof. intros. unfold bitmap_find_free_region. apply find_free_spec; lia. Qed.

Lemma bitmap_zero_ok nbits :
  0 ≤ nbits → words_ok (bitmap_zero nbits) ∧ nbits ≤ 64 * Z.of_nat (length (bitmap_zero nbits)) ∧
  ∀ i, 0 ≤ i < nbits → bit i (bitmap_zero nbits) = false.
Proof.
  intros Hn. unfold bitmap_zero. rewrite length_replicate.
  unfold BITS_TO_LONGS, BITS_PER_LONG. split_and!.
  - intros k. rewrite list_lookup_total_alt.
    destruct (replicate _ 0 !! k) eqn:E; [apply lookup_replicate in E as [-> _]|]; vm_compute;
      split; congruence.
  - lia_mod.
  - intros i Hi. unfold bit. rewrite lookup_total_replicate_2; [apply Z.bits_0|].
    unfold BIT_WORD, BITS_PER_LONG. lia_mod.
Qed.


(** The word-level search returns the first set bit at or after the
    offset, or the size when there is none, and it is unaffected by bits at
    other positions: after [__set_bit n] the search can only stop at [n] or
    where it would have stopped before, and after [__clear_bit n] it never
    stops at [n]. *)
Theorem find_next_bit_first (bm : bitmap) (size offset n : Z) :
  words_ok bm → 0 ≤ offset ≤ size → size ≤ 64 * Z.of_nat (length bm) → 0 ≤ n < size →
  let r := find_next_bit bm size offset in
  (offset ≤ r ≤ size ∧ (∀ i, offset ≤ i < r → test_bit i bm = 0) ∧
   (r < size → test_bit r bm = 1)) ∧
  find_next_bit (__set_bit n bm) size offset = (if offset <=? n then Z.min n r else r) ∧
  find_next_bit (__clear_bit n bm) size offset ≠ n.
Proof.
  intros Hok Ho Hlen Hn r.
  destruct (find_next_bit_spec bm size offset Hok Ho) as (Hr & Hlow & Ht). fold r in Hr, Hlow, Ht.
  destruct (find_next_bit_spec _ size offset (words_ok_set n bm Hok) Ho) as (Hs & Hslow & Hst).
  destruct (find_next_bit_spec _ size offset (words_ok_clear n bm Hok) Ho) as (Hc & _ & Hct).
  set (rs := find_next_bit (__set_bit n bm) size offset) in *.
  set (rc := find_next_bit (__clear_bit n bm) size offset) in *.
  split_and!; [lia|lia| | | |].
  - intros i Hi. by rewrite test_bit_spec, Hlow by lia.
  - intros Hlt. by rewrite test_bit_spec, Ht by lia.
  - assert (∀ i, offset ≤ i < rs → i ≠ n ∧ bit i bm = false) as Hslow'.
    { intros i Hi. specialize (Hslow i Hi). rewrite bit_set in Hslow by lia.
      apply orb_false_iff in Hslow as [?%Z.eqb_neq ?]. done. }
    assert (rs < size → rs = n ∨ bit rs bm = true) as Hst'.
    { intros Hlt. specialize (Hst Hlt). rewrite bit_set in Hst by lia.
      apply orb_true_iff in Hst as [?%Z.eqb_eq|?]; tauto. }
    assert (rs ≤ r).
    { destruct (decide (r < rs)) as [Hlt|]; [|lia]. destruct (Hslow' r ltac:(lia)) as [_ E].
      rewrite Ht in E by lia. done. }
    assert (rs < r → rs = n).
    { intros Hlt. destruct (Hst' ltac:(lia)) as [|E]; [done|]. rewrite Hlow in E by lia. done. }
    destruct (Z.leb_spec offset n); [|lia].
    assert (¬ n < rs) by (intros ?; destruct (Hslow' n ltac:(lia)); done). lia.
  - intros E. rewrite E in Hct. specialize (Hct ltac:(lia)).
    rewrite bit_clear, Z.eqb_refl in Hct by lia. done.
Qed.

Lemma find_next_bit_first_witness :
  find_next_bit (__set_bit 70 [0; 0xf00]) 104 3 = 70 ∧
  find_next_bit (__clear_bit 72 [0; 0xf00]) 104 3 ≠ 72.
Proof.
  assert (words_ok [0; 0xf00]) as Hok.
  { intros [|[|[|i]]]; vm_compute; split; congruence. }
  destruct (find_next_bit_first [0; 0xf00] 104 3 70 Hok ltac:(lia) ltac:(simpl; lia) ltac:(lia))
    as (_ & Hs & _).
  destruct (find_next_bit_first [0; 0xf00] 104 3 72 Hok ltac:(lia) ltac:(simpl; lia) ltac:(lia))
    as (_ & _ & Hc).
  split; [exact Hs | exact Hc].
Defined.
