(* ===== verification/StrConv.v ===== *)
(** * Numbers and strings: lib/vsprintf.c, lib/kstrtox.c, lib/string.c

    The injector's and the monitor's /proc files exchange decimal numbers with
    user space.  This file models the kernel routines they use: [strpbrk] and
    [strsep], [_parse_integer] and the [simple_strto*] family, and the number
    printing of [vsnprintf] ([put_dec_trunc], [put_dec_full], [put_dec],
    [number]).

    A C string is the list of the bytes from a pointer on; the end of the list
    reads as the terminating NUL, and a 0 byte inside the list terminates too.
    A pointer into the string is the suffix it points to.  The theorem says that
    what [number] prints, [simple_strto*] reads back. *)

From Stdlib Require String Ascii.
From S2P Require Import Prelude.

(** The bytes of a string literal. *)
Definition bytes (s : String.string) : list Z :=
  map (λ c, Z.of_N (Ascii.N_of_ascii c)) (String.list_ascii_of_string s).

Abbreviation cstr := (list Z).
Definition chr (s : cstr) (i : nat) : Z := default 0 (s !! i).

(** ** lib/string.c *)

(** The suffix at the first byte of [cs] that is one of [ct], [None] for the
    NULL result. *)
Fixpoint strpbrk (cs ct : cstr) : option cstr :=
  match cs with
  | [] => None
  | c :: cs' =>
      if c =? 0 then None
      else if existsb (Z.eqb c) ct then Some cs
      else strpbrk cs' ct
  end.

(** The token is returned up to the NUL that [strsep] stores in place of the
    separator; the second component is the new value of [*s]. *)
Definition strsep (s : option cstr) (ct : cstr) : option cstr * option cstr :=
  match s with
  | None => (None, None)
  | Some sbegin =>
      match strpbrk sbegin ct with
      | Some end_ => (Some (take (length sbegin - length end_) sbegin), Some (tail end_))
      | None => (Some sbegin, None)
      end
  end.

(** ** lib/kstrtox.c and the readers of lib/vsprintf.c *)
Definition _tolower (c : Z) : Z := Z.lor c 0x20.
Definition isdigit (c : Z) : bool := (48 <=? c) && (c <=? 57).
Definition isxdigit (c : Z) : bool :=
  isdigit c || ((97 <=? c) && (c <=? 102)) || ((65 <=? c) && (c <=? 70)).

Definition _parse_integer_fixup_radix (s : cstr) (base : Z) : cstr * Z :=
  let base :=
    if base =? 0 then
      if chr s 0 =? 48 then
        if (_tolower (chr s 1) =? 120) && isxdigit (chr s 2) then 16 else 8
      else 10
    else base in
  if (base =? 16) && (chr s 0 =? 48) && (_tolower (chr s 1) =? 120)
  then (drop 2 s, base) else (s, base).

Definition KSTRTOX_OVERFLOW : Z := 0x80000000.
Definition ULLONG_MAX : Z := 0xffffffffffffffff.

Definition digit_val (c : Z) : option Z :=
  if isdigit c then Some (c - 48)
  else if (97 <=? _tolower c) && (_tolower c <=? 102) then Some (_tolower c - 97 + 10)
  else None.

Fixpoint parse_digits (s : cstr) (base res rv : Z) (overflow : bool) : Z * bool * Z :=
  match s with
  | [] => (rv, overflow, res)
  | c :: s' =>
      if c =? 0 then (rv, overflow, res)
      else match digit_val c with
           | None => (rv, overflow, res)
           | Some val =>
               if base <=? val then (rv, overflow, res)
               else parse_digits s' base (u64 (res * base + val)) (u32 (rv + 1))
                      (if (ULLONG_MAX - val) / base <? res then true else overflow)
           end
  end.

Definition _parse_integer (s : cstr) (base : Z) : Z * Z :=
  let '(rv, overflow, res) := parse_digits s base 0 0 false in
  (if overflow then Z.lor rv KSTRTOX_OVERFLOW else rv, res).

(** The value and [*endp]. *)
Definition simple_strtoull (cp : cstr) (base : Z) : Z * cstr :=
  let '(cp, base) := _parse_integer_fixup_radix cp base in
  let '(rv, result) := _parse_integer cp base in
  (result, drop (Z.to_nat (Z.ldiff rv KSTRTOX_OVERFLOW)) cp).

Definition simple_strtoul (cp : cstr) (base : Z) : Z * cstr := simple_strtoull cp base.

Definition simple_strtol (cp : cstr) (base : Z) : Z * cstr :=
  if chr cp 0 =? 45 then
    let '(v, endp) := simple_strtoul (drop 1 cp) base in (s64 (- v), endp)
  else
    let '(v, endp) := simple_strtoul cp base in (s64 v, endp).

Definition simple_strtoll (cp : cstr) (base : Z) : Z * cstr :=
  if chr cp 0 =? 45 then
    let '(v, endp) := simple_strtoull (drop 1 cp) base in (s64 (- v), endp)
  else
    let '(v, endp) := simple_strtoull cp base in (s64 v, endp).

(** ** Printing: least significant digit first, as the bytes stored at [buf] *)
Definition put_dec_trunc (q : Z) : list Z :=
  let d1 := Z.land (Z.shiftr q 4) 0xf in
  let d2 := Z.land (Z.shiftr q 8) 0xf in
  let d3 := Z.shiftr q 12 in
  let d0 := u32 (6 * (d3 + d2 + d1) + Z.land q 0xf) in
  let q := Z.shiftr (u32 (d0 * 0xcd)) 11 in
  let d0 := u32 (d0 - 10 * q) in
  (d0 + 48) ::
  let d1 := u32 (q + 9 * d3 + 5 * d2 + d1) in
  if negb (d1 =? 0) then
    let q := Z.shiftr (u32 (d1 * 0xcd)) 11 in
    let d1 := u32 (d1 - 10 * q) in
    (d1 + 48) ::
    let d2 := u32 (q + 2 * d2) in
    if negb (d2 =? 0) || negb (d3 =? 0) then
      let q := Z.shiftr (u32 (d2 * 0xd)) 7 in
      let d2 := u32 (d2 - 10 * q) in
      (d2 + 48) ::
      let d3 := u32 (q + 4 * d3) in
      if negb (d3 =? 0) then
        let q := Z.shiftr (u32 (d3 * 0xcd)) 11 in
        let d3 := u32 (d3 - 10 * q) in
        (d3 + 48) :: if negb (q =? 0) then [q + 48] else []
      else []
    else []
  else [].

Definition put_dec_full (q : Z) : list Z :=
  let d1 := Z.land (Z.shiftr q 4) 0xf in
  let d2 := Z.land (Z.shiftr q 8) 0xf in
  let d3 := Z.shiftr q 12 in
  let d0 := u32 (6 * (d3 + d2 + d1) + Z.land q 0xf) in
  let q := Z.shiftr (u32 (d0 * 0xcd)) 11 in
  let c0 := u32 (d0 - 10 * q) + 48 in
  let d1 := u32 (q + 9 * d3 + 5 * d2 + d1) in
  let q := Z.shiftr (u32 (d1 * 0xcd)) 11 in
  let c1 := u32 (d1 - 10 * q) + 48 in
  let d2 := u32 (q + 2 * d2) in
  let q := Z.shiftr (u32 (d2 * 0xd)) 7 in
  let c2 := u32 (d2 - 10 * q) + 48 in
  let d3 := u32 (q + 4 * d3) in
  let q := Z.shiftr (u32 (d3 * 0xcd)) 11 in
  let c3 := u32 (d3 - 10 * q) + 48 in
  [c0; c1; c2; c3; q + 48].

(** [num] is below 2^64 < 100000^4, so four divisions suffice. *)
Fixpoint put_dec_loop (fuel : nat) (num : Z) : list Z :=
  match fuel with
  | O => []
  | S fuel =>
      if num <? 100000 then put_dec_trunc num
      else put_dec_full (num mod 100000) ++ put_dec_loop fuel (num / 100000)
  end.
Definition put_dec (num : Z) : list Z := put_dec_loop 5 num.

Definition ZEROPAD : Z := 1.
Definition SIGN : Z := 2.
Definition PLUS : Z := 4.
Definition SPACE : Z := 8.
Definition LEFT : Z := 16.
Definition SMALL : Z := 32.
Definition SPECIAL : Z := 64.

Record printf_spec := mk_printf_spec {
  flags : Z;
  base : Z;
  field_width : Z;
  precision : Z;
}.

Definition flag (fl f : Z) : bool := negb (Z.land fl f =? 0).

(** The bytes of [digits[16]]. *)
Definition digits : list Z := [48; 49; 50; 51; 52; 53; 54; 55; 56; 57; 65; 66; 67; 68; 69; 70].

(** The [do … while (num)] loop for bases 8 and 16; 64 shifts clear any number. *)
Fixpoint put_pow2 (fuel : nat) (num mask shift locase : Z) : list Z :=
  match fuel with
  | O => []
  | S fuel =>
      let num' := Z.shiftr num shift in
      Z.lor (digits !!! Z.to_nat (Z.land (Z.land num 0xff) mask)) locase ::
      (if num' =? 0 then [] else put_pow2 fuel num' mask shift locase)
  end.

(** [while (--n >= 0) *buf++ = c]: the bytes written and the final [n]. *)
Definition pad (n c : Z) : list Z * Z :=
  (replicate (Z.to_nat n) c, if 0 <=? n then -1 else n - 1).

Definition number (num : Z) (spec : printf_spec) : list Z :=
  let need_pfx := flag (flags spec) SPECIAL && negb (base spec =? 10) in
  let locase := Z.land (flags spec) SMALL in
  let fl := if flag (flags spec) LEFT then Z.ldiff (flags spec) ZEROPAD else flags spec in
  let '(sign, num, fw) :=
    if flag fl SIGN then
      if s64 num <? 0 then ([45], u64 (- s64 num), field_width spec - 1)
      else if flag fl PLUS then ([43], num, field_width spec - 1)
      else if flag fl SPACE then ([32], num, field_width spec - 1)
      else ([], num, field_width spec)
    else ([], num, field_width spec) in
  let fw := if need_pfx then (if base spec =? 16 then fw - 1 - 1 else fw - 1) else fw in
  let tmp :=
    if num =? 0 then [48]
    else if negb (base spec =? 10) then
      put_pow2 64 num (base spec - 1) (if base spec =? 16 then 4 else 3) locase
    else put_dec num in
  let i := Z.of_nat (length tmp) in
  let prec := if precision spec <? i then i else precision spec in
  let fw := fw - prec in
  let '(lead, fw) := if negb (flag fl (ZEROPAD + LEFT)) then pad fw 32 else ([], fw) in
  let pfx := if need_pfx then 48 :: (if base spec =? 16 then [Z.lor 88 locase] else []) else [] in
  let '(fill, fw) :=
    if negb (flag fl LEFT) then pad fw (if flag fl ZEROPAD then 48 else 32) else ([], fw) in
  let '(trail, _) := pad fw 32 in
  lead ++ sign ++ pfx ++ fill ++ replicate (Z.to_nat (prec - i)) 48 ++ rev tmp ++ trail.

(** The conversions the /proc files use: [%d], and [%u], [%lu], [%zu], [%llu]. *)
Definition fmt_d (n : Z) : list Z := number (u64 n) (mk_printf_spec SIGN 10 (-1) (-1)).
Definition fmt_u (n : Z) : list Z := number n (mk_printf_spec 0 10 (-1) (-1)).

(** ** Correctness

    The value of a digit string, most significant digit first. *)
Definition digit_of (base c : Z) : Prop :=
  c ≠ 0 ∧ ∃ v, digit_val c = Some v ∧ v < base.
Definition dval (c : Z) : Z := default 0 (digit_val c).
Definition number_val (base : Z) (ds : list Z) : Z :=
  fold_left (λ acc c, acc * base + dval c) ds 0.
(** The same for digits stored least significant first. *)
Definition rev_val (base : Z) (ds : list Z) : Z :=
  foldr (λ c acc, acc * base + dval c) 0 ds.

(** What follows a number stops the reader: neither a digit nor a letter. *)
Definition stops (rest : cstr) : Prop :=
  match rest with
  | [] => True
  | c :: _ => isdigit c = false ∧ _tolower c < 97 ∨ 122 < _tolower c ∧ isdigit c = false
  end.

Lemma rev_val_rev base ds : number_val base (rev ds) = rev_val base ds.
Proof. unfold number_val, rev_val. symmetry. rewrite <- (rev_involutive ds) at 1. apply fold_left_rev_right. Qed.

Lemma isdigit_spec c : isdigit c = true ↔ 48 ≤ c ≤ 57.
Proof. unfold isdigit. rewrite andb_true_iff, !Z.leb_le. lia. Qed.

Lemma digit_val_dec c : 48 ≤ c ≤ 57 → digit_val c = Some (c - 48).
Proof. intros H. unfold digit_val. by rewrite (proj2 (isdigit_spec c) H). Qed.

Lemma dval_dec c : 48 ≤ c ≤ 57 → dval c = c - 48.
Proof. intros H. unfold dval. by rewrite digit_val_dec. Qed.

Lemma digit_of_dec c : 48 ≤ c ≤ 57 → digit_of 10 c.
Proof. intros H. split; [lia|]. exists (c - 48). rewrite digit_val_dec by done. split; [done|lia]. Qed.

Lemma digit_val_stops c rest : stops (c :: rest) → digit_val c = None.
Proof.
  unfold stops, digit_val. intros H. destruct (isdigit c); [naive_solver|].
  destruct (Z.leb_spec 97 (_tolower c)), (Z.leb_spec (_tolower c) 102); simpl; try done.
  destruct H as [[_ H]|[H _]]; lia.
Qed.

(** The digit loop reads exactly the digits and reduces their value modulo
    2^64. *)
Lemma parse_digits_spec ds rest base res rv ovf :
  Forall (digit_of base) ds → stops rest → 0 ≤ rv → rv + Z.of_nat (length ds) < 0x80000000 →
  ∃ ovf', parse_digits (ds ++ rest) base (u64 res) rv ovf =
    (rv + Z.of_nat (length ds), ovf',
     u64 (fold_left (λ acc c, acc * base + dval c) ds res)).
Proof.
  intros Hds Hr. revert res rv ovf.
  induction Hds as [|c ds (Hc & v & Hv & Hlt) _ IH]; intros res rv ovf Hrv Hlen.
  - exists ovf. rewrite Z.add_0_r. simpl. destruct rest as [|c rest]; [done|]. simpl.
    rewrite (digit_val_stops c rest Hr). by destruct (c =? 0).
  - simpl in *. rewrite (proj2 (Z.eqb_neq c 0)), Hv, (proj2 (Z.leb_gt base v)) by lia.
    rewrite u32_id by lia.
    replace (u64 (u64 res * base + v)) with (u64 (res * base + dval c)).
    2: { unfold dval. rewrite Hv. simpl. unfold u64. by rewrite <- Zplus_mod_idemp_l, <- Zmult_mod_idemp_l, Zplus_mod_idemp_l. }
    destruct (IH (res * base + dval c) (rv + 1)
                (if (ULLONG_MAX - v) / base <? u64 res then true else ovf)) as [o ->]; [lia..|].
    exists o. do 2 f_equal. lia.
Qed.

Lemma parse_integer_spec ds rest base :
  Forall (digit_of base) ds → stops rest → Z.of_nat (length ds) < 0x80000000 →
  let '(rv, res) := _parse_integer (ds ++ rest) base in
  Z.ldiff rv KSTRTOX_OVERFLOW = Z.of_nat (length ds) ∧ res = u64 (number_val base ds).
Proof.
  intros Hds Hr Hlen. unfold _parse_integer.
  destruct (parse_digits_spec ds rest base 0 0 false Hds Hr ltac:(lia) ltac:(lia)) as [o Ho].
  change (u64 0) with 0 in Ho. rewrite Ho. clear Ho. split; [|done].
  assert (Z.testbit (Z.of_nat (length ds)) 31 = false) as Hb.
  { apply Z.bits_above_log2; [lia|]. destruct (decide (length ds = 0%nat)) as [->|]; [done|].
    apply Z.log2_lt_pow2; simpl; lia. }
  assert (∀ i, Z.testbit KSTRTOX_OVERFLOW i = (i =? 31)) as Hk.
  { intros i. change KSTRTOX_OVERFLOW with (2 ^ 31). rewrite Z.pow2_bits_eqb by lia. apply Z.eqb_sym. }
  apply Z.bits_inj. intros i. rewrite Z.ldiff_spec, Hk. rewrite Z.add_0_l.
  destruct (Z.eqb_spec i 31) as [->|]; [by rewrite Hb, andb_false_r|].
  destruct o; rewrite ?Z.lor_spec, ?Hk, ?(proj2 (Z.eqb_neq i 31)) by done;
    by rewrite ?orb_false_r, andb_true_r.
Qed.

Lemma fixup_radix_id ds rest base :
  base ≠ 0 → ds ≠ [] → Forall (digit_of base) ds → base ≤ 16 → stops rest →
  _parse_integer_fixup_radix (ds ++ rest) base = (ds ++ rest, base).
Proof.
  intros Hb Hne Hds Hle Hr. unfold _parse_integer_fixup_radix.
  rewrite (proj2 (Z.eqb_neq base 0) Hb).
  destruct (_ && _ && _) eqn:E; [|done].
  apply andb_true_iff in E as [_ Hx%Z.eqb_eq].
  destruct ds as [|d1 [|d2 ds]]; [done| |].
  - unfold chr in Hx. destruct rest as [|c rest]; simpl in Hx.
    + vm_compute in Hx. done.
    + unfold stops in Hr. lia.
  - unfold chr in Hx. simpl in Hx. inversion Hds as [|?? _ Hds']; subst.
    inversion Hds' as [|?? (_ & v & Hv & Hlt) _]; subst. unfold digit_val in Hv.
    destruct (isdigit d2) eqn:Hd.
    + apply isdigit_spec in Hd.
      assert (d2 = 48 ∨ d2 = 49 ∨ d2 = 50 ∨ d2 = 51 ∨ d2 = 52 ∨ d2 = 53 ∨ d2 = 54 ∨ d2 = 55
              ∨ d2 = 56 ∨ d2 = 57) by lia.
      destruct_or!; subst d2; vm_compute in Hx; done.
    + rewrite Hx in Hv. done.
Qed.

Lemma simple_strtoull_spec ds rest base :
  0 < base ≤ 16 → ds ≠ [] → Forall (digit_of base) ds → stops rest →
  Z.of_nat (length ds) < 0x80000000 →
  simple_strtoull (ds ++ rest) base = (u64 (number_val base ds), rest).
Proof.
  intros Hb Hne Hds Hr Hlen. unfold simple_strtoull.
  rewrite fixup_radix_id by (done || lia).
  pose proof (parse_integer_spec ds rest base Hds Hr Hlen) as H.
  destruct (_parse_integer _ _) as [rv res]. destruct H as [-> ->].
  by rewrite Nat2Z.id, drop_app_length.
Qed.

(** The divisions by multiplication and shift are exact in the range of the
    digit sums. *)
Lemma div10_cd x : 0 ≤ x < 1024 → Z.shiftr (u32 (x * 0xcd)) 11 = x / 10.
Proof. intros H. rewrite u32_id, Z.shiftr_div_pow2 by lia. change (2 ^ 11) with 2048. lia_mod. Qed.
Lemma div10_d x : 0 ≤ x < 69 → Z.shiftr (u32 (x * 0xd)) 7 = x / 10.
Proof. intros H. rewrite u32_id, Z.shiftr_div_pow2 by lia. change (2 ^ 7) with 128. lia_mod. Qed.
Lemma rem10 x : 0 ≤ x < 0x100000000 → u32 (x - 10 * (x / 10)) = x mod 10.
Proof. intros H. rewrite u32_id; lia_mod. Qed.

(** The sixteen-ary digits of [q] and the four digit sums. *)
Lemma nibbles q : 0 ≤ q →
  Z.land (Z.shiftr q 4) 0xf = q / 16 mod 16 ∧ Z.land (Z.shiftr q 8) 0xf = q / 256 mod 16 ∧
  Z.shiftr q 12 = q / 4096 ∧ Z.land q 0xf = q mod 16.
Proof.
  intros Hq. change 0xf with (Z.ones 4). rewrite !Z.land_ones, !Z.shiftr_div_pow2 by lia.
  done.
Qed.

(** The digit sums of [put_dec_*], with the shifts read as divisions. *)
Section sums.
Context (q : Z) (Hq : 0 ≤ q < 100000).
Let d1 := q / 16 mod 16.
Let d2 := q / 256 mod 16.
Let d3 := q / 4096.
Let s0 := 6 * (d3 + d2 + d1) + q mod 16.
Let s1 := s0 / 10 + 9 * d3 + 5 * d2 + d1.
Let s2 := s1 / 10 + 2 * d2.
Let s3 := s2 / 10 + 4 * d3.

Lemma sums_range :
  0 ≤ d3 < 25 ∧ 0 ≤ s0 < 340 ∧ 0 ≤ s1 < 340 ∧ 0 ≤ s2 < 69 ∧ 0 ≤ s3 < 110.
Proof using Hq.
  assert (0 ≤ d1 < 16 ∧ 0 ≤ d2 < 16 ∧ 0 ≤ d3 < 25 ∧ 0 ≤ q mod 16 < 16) by (subst d1 d2 d3; lia_mod).
  clearbody d1 d2 d3. assert (0 ≤ s0 < 340) by (subst s0; lia).
  clearbody s0. assert (0 ≤ s1 < 340) by (subst s1; lia_mod).
  clearbody s1. assert (0 ≤ s2 < 69) by (subst s2; lia_mod).
  clearbody s2. assert (0 ≤ s3 < 110) by (subst s3; lia_mod). tauto.
Qed.

(** The carries assemble the decimal expansion of [q]. *)
Lemma sums_value :
  s0 mod 10 + 10 * (s1 mod 10) + 100 * (s2 mod 10) + 1000 * s3 = q.
Proof using Hq.
  assert (q = 4096 * d3 + 256 * d2 + 16 * d1 + q mod 16) as E by (subst d1 d2 d3; lia_mod).
  subst s3 s2 s1 s0. clearbody d1 d2 d3. lia_mod.
Qed.

Lemma put_dec_full_sums :
  put_dec_full q =
    [s0 mod 10 + 48; s1 mod 10 + 48; s2 mod 10 + 48; s3 mod 10 + 48; s3 / 10 + 48].
Proof using Hq.
  destruct sums_range as (Hd3 & H0 & H1 & H2 & H3).
  destruct (nibbles q ltac:(lia)) as (E1 & E2 & E3 & E4).
  unfold put_dec_full. rewrite E1, E2, E3, E4. fold d1 d2 d3. fold s0.
  rewrite (u32_id s0), div10_cd by lia. fold s1.
  rewrite (u32_id s1), div10_cd by lia. fold s2.
  rewrite (u32_id s2), div10_d by lia. fold s3.
  rewrite (u32_id s3), div10_cd by lia. by rewrite !rem10 by lia.
Qed.

Lemma put_dec_trunc_sums :
  put_dec_trunc q =
    (s0 mod 10 + 48) ::
    if negb (s1 =? 0) then (s1 mod 10 + 48) ::
      if negb (s2 =? 0) || negb (d3 =? 0) then (s2 mod 10 + 48) ::
        if negb (s3 =? 0) then (s3 mod 10 + 48) ::
          if negb (s3 / 10 =? 0) then [s3 / 10 + 48] else []
        else []
      else []
    else [].
Proof using Hq.
  destruct sums_range as (Hd3 & H0 & H1 & H2 & H3).
  destruct (nibbles q ltac:(lia)) as (E1 & E2 & E3 & E4).
  unfold put_dec_trunc. rewrite E1, E2, E3, E4. fold d1 d2 d3. fold s0.
  rewrite (u32_id s0), div10_cd by lia. fold s1.
  rewrite (u32_id s1), div10_cd by lia. fold s2.
  rewrite (u32_id s2), div10_d by lia. fold s3.
  rewrite (u32_id s3), div10_cd by lia. by rewrite !rem10 by lia.
Qed.
Lemma dec_digit x : 0 ≤ x < 10 → digit_of 10 (x + 48) ∧ dval (x + 48) = x.
Proof. intros. split; [apply digit_of_dec; lia|]. rewrite dval_dec; lia. Qed.

Lemma put_dec_full_spec t :
  Forall (digit_of 10) (put_dec_full q) ∧
  rev_val 10 (put_dec_full q ++ t) = q + 100000 * rev_val 10 t ∧ length (put_dec_full q) = 5%nat.
Proof using Hq.
  destruct sums_range as (Hd3 & H0 & H1 & H2 & H3). pose proof sums_value as Hv.
  rewrite put_dec_full_sums. clearbody s0 s1 s2 s3 d3.
  destruct (dec_digit (s0 mod 10) ltac:(lia_mod)) as [? E0].
  destruct (dec_digit (s1 mod 10) ltac:(lia_mod)) as [? E1].
  destruct (dec_digit (s2 mod 10) ltac:(lia_mod)) as [? E2].
  destruct (dec_digit (s3 mod 10) ltac:(lia_mod)) as [? E3].
  destruct (dec_digit (s3 / 10)) as [? E4].
  { assert (s3 < 100) by lia_mod. lia_mod. }
  split_and!; [rewrite ?Forall_cons, Forall_nil; tauto| |done].
  simpl. rewrite E0, E1, E2, E3, E4. fold (rev_val 10 t). lia_mod.
Qed.

Lemma put_dec_trunc_spec :
  Forall (digit_of 10) (put_dec_trunc q) ∧ rev_val 10 (put_dec_trunc q) = q ∧
  (0 < length (put_dec_trunc q) ≤ 5)%nat.
Proof using Hq.
  destruct sums_range as (Hd3 & H0 & H1 & H2 & H3). pose proof sums_value as Hv.
  assert (s2 = 0 → d3 = 0 → s3 = 0) as Hs3 by (subst s3; lia_mod).
  assert (s1 = 0 → s2 = 0 ∧ d3 = 0) as Hs1.
  { intros E. assert (d2 = 0 ∧ d3 = 0).
    { subst s1. assert (0 ≤ d1 ∧ 0 ≤ d2) by (subst d1 d2; lia_mod).
      clearbody d1 d2 d3. lia_mod. }
    subst s2. rewrite E. lia_mod. }
  rewrite put_dec_trunc_sums. clearbody s0 s1 s2 s3 d3.
  destruct (dec_digit (s0 mod 10) ltac:(lia_mod)) as [? E0].
  destruct (dec_digit (s1 mod 10) ltac:(lia_mod)) as [? E1].
  destruct (dec_digit (s2 mod 10) ltac:(lia_mod)) as [? E2].
  destruct (dec_digit (s3 mod 10) ltac:(lia_mod)) as [? E3].
  destruct (dec_digit (s3 / 10)) as [? E4].
  { assert (s3 < 100) by lia_mod. lia_mod. }
  destruct (Z.eqb_spec s1 0) as [Z1|N1]; [|destruct (Z.eqb_spec s2 0) as [Z2|N2],
    (Z.eqb_spec d3 0) as [Zd|Nd]]; cbn [negb orb];
    try (destruct (Z.eqb_spec s3 0) as [Z3|N3]; cbn [negb];
         [|destruct (Z.eqb_spec (s3 / 10) 0) as [Z4|N4]; cbn [negb]]);
    (split_and!; [rewrite ?Forall_cons, Forall_nil; tauto| |simpl; lia..]);
    simpl; rewrite ?E0, ?E1, ?E2, ?E3, ?E4; try lia_mod.
Qed.
End sums.

Lemma put_dec_loop_spec fuel num :
  0 ≤ num < 100000 ^ Z.of_nat fuel → (0 < fuel)%nat →
  Forall (digit_of 10) (put_dec_loop fuel num) ∧ rev_val 10 (put_dec_loop fuel num) = num ∧
  (0 < length (put_dec_loop fuel num) ≤ 5 * fuel)%nat.
Proof.
  revert num. induction fuel as [|fuel IH]; intros num Hn Hf; [lia|].
  cbn [put_dec_loop]. destruct (Z.ltb_spec num 100000).
  - destruct (put_dec_trunc_spec num ltac:(lia)) as (?&?&?). split_and!; [done|done|lia..].
  - rewrite Nat2Z.inj_succ, Z.pow_succ_r in Hn by lia.
    assert (0 < fuel)%nat by (destruct fuel; [simpl in Hn; lia|lia]).
    destruct (IH (num / 100000)) as (?&E&?); [|lia|].
    { split; [lia_mod|]. apply Z.div_lt_upper_bound; lia. }
    destruct (put_dec_full_spec (num mod 100000) ltac:(lia_mod)
                (put_dec_loop fuel (num / 100000))) as (?&Ef&El).
    split_and!; [by apply Forall_app|rewrite Ef, E; lia_mod|rewrite length_app, El; lia..].
Qed.

Lemma put_dec_spec num : 0 ≤ num < 0x10000000000000000 →
  Forall (digit_of 10) (put_dec num) ∧ rev_val 10 (put_dec num) = num ∧
  (0 < length (put_dec num) ≤ 25)%nat.
Proof.
  intros H. unfold put_dec. assert (0x10000000000000000 < 100000 ^ Z.of_nat 5) by done.
  destruct (put_dec_loop_spec 5 num ltac:(lia) ltac:(lia)) as (?&?&?). split_and!; [done|done|lia..].
Qed.

(** Bases 8 and 16. *)
Lemma pow2_digit d locase : 0 ≤ d < 16 → locase = 0 ∨ locase = SMALL →
  Z.lor (digits !!! Z.to_nat d) locase ≠ 0 ∧
  digit_val (Z.lor (digits !!! Z.to_nat d) locase) = Some d.
Proof.
  intros Hd Hl.
  assert (Z.of_nat (Z.to_nat d) = d) as E by lia. assert (Z.to_nat d < 16)%nat as Hn by lia.
  rewrite <- E. rewrite Nat2Z.id. revert Hn. generalize (Z.to_nat d). clear -Hl. intros n Hn.
  do 16 (destruct n as [|n]; [destruct Hl as [->| ->]; vm_compute; split; congruence|]). lia.
Qed.

Lemma put_pow2_spec fuel num base shift locase :
  (base = 8 ∧ shift = 3 ∨ base = 16 ∧ shift = 4) → locase = 0 ∨ locase = SMALL →
  0 ≤ num < 2 ^ Z.of_nat fuel → (0 < fuel)%nat →
  let ds := put_pow2 fuel num (base - 1) shift locase in
  Forall (digit_of base) ds ∧ rev_val base ds = num ∧ (0 < length ds ≤ fuel)%nat.
Proof.
  intros Hb Hl. revert num. induction fuel as [|fuel IH]; intros num Hn Hf; [lia|].
  cbn [put_pow2]. set (d := Z.land (Z.land num 0xff) (base - 1)).
  assert (d = num mod base ∧ 0 ≤ d < base) as [Ed Hd].
  { subst d. rewrite <- Z.land_assoc.
    assert (Z.land 0xff (base - 1) = Z.ones shift ∧ base = 2 ^ shift ∧ 0 ≤ shift) as (-> & -> & ?)
      by (destruct Hb as [[-> ->]|[-> ->]]; split_and!; done || lia).
    rewrite Z.land_ones by lia. split; [done|]. apply Z.mod_pos_bound. by apply Z.pow_pos_nonneg. }
  assert (Z.shiftr num shift = num / base) as ->.
  { rewrite Z.shiftr_div_pow2 by lia. by destruct Hb as [[-> ->]|[-> ->]]. }
  destruct (pow2_digit d locase ltac:(lia) Hl) as [Hnz Hv].
  assert (digit_of base (Z.lor (digits !!! Z.to_nat d) locase)) by (split; [done|]; exists d; split; [done|lia]).
  assert (dval (Z.lor (digits !!! Z.to_nat d) locase) = d) as Hdv by (unfold dval; by rewrite Hv).
  assert (num = num / base * base + d) as Hnum by (rewrite Ed; lia_mod).
  destruct (Z.eqb_spec (num / base) 0) as [E|E].
  - split_and!; [rewrite ?Forall_cons, Forall_nil; tauto| |simpl; lia..]. cbn [rev_val foldr]. rewrite Hdv. lia.
  - rewrite Nat2Z.inj_succ, Z.pow_succ_r in Hn by lia.
    assert (1 < base ∧ 2 ≤ base) by lia.
    assert (0 < fuel)%nat by (destruct fuel; [simpl in Hn; lia_mod|lia]).
    destruct (IH (num / base)) as (?&Er&?); [|done|].
    { split; [apply Z.div_pos; lia|]. apply Z.div_lt_upper_bound; [lia|].
      assert (0 < 2 ^ Z.of_nat fuel) by (apply Z.pow_pos_nonneg; lia). nia. }
    split_and!; [by constructor| |simpl; lia..].
    cbn [rev_val foldr]. fold (rev_val base (put_pow2 fuel (num / base) (base - 1) shift locase)).
    rewrite Er, Hdv. lia.
Qed.

(** [number] with no width, precision, padding or prefix: the sign and the
    digits. *)
Lemma pad_neg n c : n < 0 → fst (pad n c) = [] ∧ snd (pad n c) < 0.
Proof.
  intros. unfold pad. replace (Z.to_nat n) with 0%nat by lia. rewrite (proj2 (Z.leb_gt 0 n)) by lia. simpl. split; [done|lia].
Qed.

Lemma number_plain num bs fl :
  fl = 0 ∨ fl = SMALL ∨ fl = SIGN ∧ 0 ≤ s64 num →
  number num (mk_printf_spec fl bs (-1) (-1)) =
    rev (if num =? 0 then [48]
         else if negb (bs =? 10) then
           put_pow2 64 num (bs - 1) (if bs =? 16 then 4 else 3) (Z.land fl SMALL)
         else put_dec num).
Proof.
  intros Hfl. unfold number. cbn [flags base field_width precision].
  assert (flag fl SPECIAL = false ∧ flag fl LEFT = false ∧ flag fl PLUS = false ∧
          flag fl SPACE = false ∧ flag fl (ZEROPAD + LEFT) = false) as (ES & EL & EP & EC & EZ)
    by (destruct Hfl as [->|[->|[-> _]]]; done).
  rewrite ES, EL, EP, EC.
  assert ((if flag fl SIGN
           then if s64 num <? 0 then ([45], u64 (- s64 num), -1 - 1) else ([], num, -1)
           else ([], num, -1)) = ([], num, -1)) as ->.
  { destruct Hfl as [->|[->|[-> Hs]]]; [done..|]. by rewrite (proj2 (Z.ltb_ge _ _) Hs). }
  cbn [andb negb]. rewrite EZ, EL. cbn [negb]. set (tmp := if num =? 0 then _ else _).
  rewrite (proj2 (Z.ltb_lt (-1) _)) by lia.
  destruct (pad_neg (-1 - Z.of_nat (length tmp)) 32 ltac:(lia)) as [E1 H1].
  destruct (pad _ 32) as [l1 w1]. cbn [fst snd] in *. subst l1.
  destruct (pad_neg w1 (if flag fl ZEROPAD then 48 else 32) H1) as [E2 H2].
  destruct (pad w1 _) as [l2 w2]. cbn [fst snd] in *. subst l2.
  destruct (pad_neg w2 32 H2) as [E3 _]. destruct (pad w2 _) as [l3 w3]. cbn [fst] in E3. subst l3.
  by rewrite Z.sub_diag, app_nil_r.
Qed.

Lemma number_negative num :
  s64 num < 0 →
  number num (mk_printf_spec SIGN 10 (-1) (-1)) = 45 :: rev (put_dec (u64 (- s64 num))).
Proof.
  intros Hs. unfold number. cbn [flags base field_width precision].
  change (flag SIGN SPECIAL) with false. change (flag SIGN LEFT) with false.
  change (flag SIGN SIGN) with true. rewrite (proj2 (Z.ltb_lt _ _) Hs).
  change (flag SIGN (ZEROPAD + LEFT)) with false. change (flag SIGN ZEROPAD) with false.
  change (flag SIGN LEFT) with false. cbn [andb negb]. rewrite Z.eqb_refl. cbn [negb].
  change (flag SIGN SIGN) with true. cbv iota beta.
  rewrite (proj2 (Z.eqb_neq _ 0)) by wrap. set (tmp := put_dec _).
  rewrite (proj2 (Z.ltb_lt (-1) _)) by lia.
  destruct (pad_neg (-1 - 1 - Z.of_nat (length tmp)) 32 ltac:(lia)) as [E1 H1].
  destruct (pad _ 32) as [l1 w1]. cbn [fst snd] in *. subst l1.
  destruct (pad_neg w1 32 H1) as [E2 H2].
  destruct (pad w1 _) as [l2 w2]. cbn [fst snd] in *. subst l2.
  destruct (pad_neg w2 32 H2) as [E3 _]. destruct (pad w2 _) as [l3 w3]. cbn [fst] in E3. subst l3.
  by rewrite Z.sub_diag, app_nil_r.
Qed.

(** The digits [number] prints and their value. *)
Lemma number_digits num base fl :
  base = 8 ∨ base = 10 ∨ base = 16 → fl = 0 ∨ fl = SMALL ∨ fl = SIGN ∧ 0 ≤ s64 num →
  0 ≤ num < 0x10000000000000000 →
  let ds := number num (mk_printf_spec fl base (-1) (-1)) in
  Forall (digit_of base) ds ∧ number_val base ds = num ∧ (0 < length ds ≤ 64)%nat.
Proof.
  intros Hb Hfl Hn ds. subst ds. rewrite number_plain by done.
  rewrite rev_val_rev, length_rev. match goal with |- Forall _ (rev ?t) ∧ _ => set (tmp := t) end.
  enough (Forall (digit_of base) tmp ∧ rev_val base tmp = num ∧ (0 < length tmp ≤ 64)%nat)
    by intuition auto using Forall_rev.
  subst tmp. destruct (Z.eqb_spec num 0) as [->|Hnz].
  { split_and!; [|done|simpl; lia..]. repeat constructor; [lia|]. exists 0. split; [done|lia]. }
  assert (Z.land fl SMALL = 0 ∨ Z.land fl SMALL = SMALL)
    by (destruct Hfl as [->|[->|[-> _]]]; vm_compute; auto).
  assert (0 ≤ num < 2 ^ Z.of_nat 64) by (change (2 ^ Z.of_nat 64) with 0x10000000000000000; lia).
  destruct (Z.eqb_spec base 10) as [->|]; cbn [negb].
  - destruct (put_dec_spec num Hn) as (?&?&?). split_and!; [done|done|lia..].
  - assert (base = 8 ∧ (if base =? 16 then 4 else 3) = 3 ∨
            base = 16 ∧ (if base =? 16 then 4 else 3) = 4) as Hs
      by (destruct Hb as [->|[->| ->]]; auto; done).
    by destruct (put_pow2_spec 64 num base _ (Z.land fl SMALL) Hs) as (?&?&?); [|done|lia|].
Qed.

Lemma chr_rev_digits base ds rest : Forall (digit_of base) ds → ds ≠ [] → chr (ds ++ rest) 0 ≠ 45.
Proof.
  intros H Hne. destruct ds as [|d ds]; [done|]. inversion H as [|?? (_ & v & Hv & _) _]; subst.
  unfold chr. simpl. intros ->. vm_compute in Hv. done.
Qed.

Lemma fmt_d_length n :
  -0x8000000000000000 ≤ n < 0x8000000000000000 → (0 < length (fmt_d n) ≤ 64)%nat.
Proof.
  intros Hn. unfold fmt_d. destruct (decide (0 ≤ n)) as [Hpos|Hneg].
  - destruct (number_digits (u64 n) 10 SIGN ltac:(tauto)) as (_ & _ & Hl); [right; right; split; [done|wrap]|apply u64_range|lia].
  - rewrite number_negative by wrap. destruct (put_dec_spec (u64 (- s64 (u64 n))) (u64_range _)) as (_ & _ & Hl).
    simpl. rewrite length_rev. lia.
Qed.

Lemma simple_strtoul_fmt_u n (rest : cstr) :
  0 ≤ n < 0x10000000000000000 → stops rest →
  simple_strtoul (fmt_u n ++ rest) 10 = (n, rest) ∧ (0 < length (fmt_u n) ≤ 64)%nat.
Proof.
  intros Hn Hrest. unfold fmt_u, simple_strtoul.
  destruct (number_digits n 10 0 ltac:(tauto) ltac:(tauto) Hn) as (Hd & Hv & Hl). split; [|lia].
  rewrite simple_strtoull_spec; [by rewrite Hv, u64_id|lia| |done|done|lia].
  intros E. rewrite E in Hl. simpl in Hl. lia.
Qed.

Lemma simple_strtol_fmt_d n (rest : cstr) :
  -0x8000000000000000 ≤ n < 0x8000000000000000 → stops rest →
  simple_strtol (fmt_d n ++ rest) 10 = (n, rest).
Proof.
  intros Hn Hrest. unfold fmt_d, simple_strtol. destruct (decide (0 ≤ n)) as [Hpos|Hneg].
  - assert (0 ≤ s64 (u64 n)) as Hs by (rewrite u64_id, s64_id by lia; lia).
    destruct (number_digits (u64 n) 10 SIGN ltac:(tauto) ltac:(tauto) (u64_range n)) as (Hd & Hv & Hl).
    set (ds := number _ _) in *. assert (ds ≠ []) by (intros E; rewrite E in Hl; simpl in Hl; lia).
    rewrite (proj2 (Z.eqb_neq _ _)) by (by eapply chr_rev_digits). unfold simple_strtoul.
    rewrite simple_strtoull_spec by (done || lia). rewrite Hv, u64_idemp. f_equal. wrap.
  - rewrite number_negative by wrap.
    assert (u64 (- s64 (u64 n)) = - n) as -> by wrap.
    destruct (put_dec_spec (- n) ltac:(lia)) as (Hd & Hv & Hl).
    rewrite <- app_comm_cons. change (chr (45 :: _) 0) with 45. rewrite Z.eqb_refl. unfold simple_strtoul.
    rewrite skipn_cons, drop_0.
    rewrite simple_strtoull_spec; [|lia| |by apply Forall_rev|done|rewrite length_rev; lia].
    + rewrite rev_val_rev, Hv, u64_id by lia. f_equal. wrap.
    + intros E. apply (f_equal length) in E. rewrite length_rev in E. simpl in E. lia.
Qed.

(** [%d] prints a sign and decimal digits. *)
Lemma digit_of_10 c : digit_of 10 c → 48 ≤ c ≤ 57.
Proof.
  intros (_ & v & Hv & Hlt). apply isdigit_spec. unfold digit_val in Hv.
  destruct (isdigit c); [done|]. destruct (_ && _) eqn:E; [|done].
  apply andb_true_iff in E as [E%Z.leb_le _]. simplify_eq. lia.
Qed.

Lemma fmt_d_chars n : -0x8000000000000000 ≤ n < 0x8000000000000000 →
  Forall (λ c, c = 45 ∨ 48 ≤ c ≤ 57) (fmt_d n) ∧ fmt_d n ≠ [].
Proof.
  intros Hn. unfold fmt_d. destruct (decide (0 ≤ n)).
  - assert (0 ≤ s64 (u64 n)) by (rewrite u64_id, s64_id by lia; lia).
    destruct (number_digits (u64 n) 10 SIGN ltac:(tauto) ltac:(tauto) (u64_range n)) as (Hd & _ & Hl).
    split; [|intros E; rewrite E in Hl; simpl in Hl; lia].
    eapply Forall_impl; [done|]. intros c ?%digit_of_10. auto.
  - rewrite number_negative by wrap. split; [|done]. apply Forall_cons. split; [by left|].
    apply Forall_rev. destruct (put_dec_spec (u64 (- s64 (u64 n))) ltac:(wrap)) as (Hd & _).
    eapply Forall_impl; [done|]. intros c ?%digit_of_10. auto.
Qed.

(** [strsep] splits at the first comma. *)
Lemma strpbrk_comma (a b : cstr) :
  Forall (λ c, c ≠ 0 ∧ c ≠ 44) a → strpbrk (a ++ 44 :: b) [44] = Some (44 :: b).
Proof.
  induction 1 as [|c a [H0 H44] _ IH]; [done|]. cbn [app strpbrk existsb].
  by rewrite !(proj2 (Z.eqb_neq _ _)) by done.
Qed.

Lemma strsep_comma (a b : cstr) :
  Forall (λ c, c ≠ 0 ∧ c ≠ 44) a → strsep (Some (a ++ 44 :: b)) [44] = (Some a, Some b).
Proof.
  intros Ha. unfold strsep. rewrite strpbrk_comma by done. rewrite length_app. simpl.
  replace (length a + S (length b) - S (length b))%nat with (length a) by lia.
  by rewrite take_app_length.
Qed.

Lemma strsep_fmt_d n b : -0x8000000000000000 ≤ n < 0x8000000000000000 →
  strsep (Some (fmt_d n ++ 44 :: b)) [44] = (Some (fmt_d n), Some b).
Proof.
  intros Hn. apply strsep_comma. eapply Forall_impl; [by apply fmt_d_chars|]. simpl. lia.
Qed.

(** What [number] prints, the readers read back, whatever follows the number
    as long as it does not start with a letter or a digit.  Unsigned numbers in
    bases 8, 10 and 16 come back through [simple_strtoull] (in either letter
    case for base 16), and every 64-bit signed value printed with [%d] comes
    back through [simple_strtol]; both leave the end pointer at the first byte
    after the number. *)
Theorem number_strto_roundtrip (rest : cstr) (Hrest : stops rest) :
  (∀ base fl num, base = 8 ∨ base = 10 ∨ base = 16 → fl = 0 ∨ fl = SMALL →
     0 ≤ num < 0x10000000000000000 →
     simple_strtoull (number num (mk_printf_spec fl base (-1) (-1)) ++ rest) base = (num, rest)) ∧
  (∀ n, -0x8000000000000000 ≤ n < 0x8000000000000000 →
     simple_strtol (fmt_d n ++ rest) 10 = (n, rest)).
Proof.
  split.
  - intros base fl num Hb Hfl Hn.
    destruct (number_digits num base fl Hb ltac:(tauto) Hn) as (Hd & Hv & Hl).
    rewrite simple_strtoull_spec; [by rewrite Hv, u64_id|lia| |done|done|lia].
    intros E. rewrite E in Hl. simpl in Hl. lia.
  - intros n Hn. by apply simple_strtol_fmt_d.
Qed.

(** "-40,\n" and "7fff " *)
Lemma number_strto_roundtrip_witness :
  simple_strtol (fmt_d (-40) ++ [44; 10]) 10 = (-40, [44; 10]) ∧
  simple_strtoull (number 0x7fff (mk_printf_spec SMALL 16 (-1) (-1)) ++ [44; 10]) 16 =
    (0x7fff, [44; 10]).
Proof.
  assert (stops [44; 10]) as Hs by (left; split; vm_compute; reflexivity).
  destruct (number_strto_roundtrip [44; 10] Hs) as [Hu Hd].
  split; [apply Hd; lia | apply Hu; [auto|auto|lia]].
Defined.
