(* ===== verification/Injector.v ===== *)
(** * The idle injector of kernel/sched_bfs.c

    The parameters of the injector ([struct sched_parameters param],
    [is_init], [idle_cycles_offset]), the /proc/schedidle handlers that read and
    write them, and the two decisions the scheduler asks for: whether this pass
    of [schedule] must run idle ([inject_global], lines 3466-3483) and whether
    the task chosen by [earliest_deadline_task] must be replaced by idle
    ([inject_pid], lines 3278-3294).

    The list of limited processes is the kernel list of ListHead.v: a
    [struct pid_list] starts with its [list] member, so an entry's address is its
    node's address.  [kmalloc] is an argument (the address it returned), [kfree]
    removes the object from the live objects, and a dereference of NULL is the
    value [Oops].

    The invariant [inj_ok] relates the state to the abstract list of entries;
    the handlers refine operations on that list, and the two decisions inject
    at exactly the configured rates. *)

From Stdlib Require Import String Ascii.
From S2P Require Import Prelude ListHead StrConv.

Record pid_list := mk_pid_list {
  pid : Z;
  max_load : Z;
  times : Z;
  type : Z;
}.
#[export] Instance eta_pid_list : Eta pid_list :=
  ctor mk_pid_list <+> pid <+> max_load <+> times <+> type.
#[export] Instance pid_list_inhabited : Inhabited pid_list := populate (mk_pid_list 0 0 0 0).
#[export] Instance pid_list_eq_dec : EqDecision pid_list.
Proof. solve_decision. Defined.

Record injector := mk_injector {
  nodes : heap;
  pids : gmap Z pid_list;
  global_rate : Z;
  pidList : Z;
  is_init : Z;
  idle_cycles_offset : Z;
  schedidle_file_global : bool;
  schedidle_file_pid : bool;
}.
#[export] Instance eta_injector : Eta injector :=
  ctor mk_injector <+> nodes <+> pids <+> global_rate <+> pidList <+> is_init
    <+> idle_cycles_offset <+> schedidle_file_global <+> schedidle_file_pid.

(** The static initial values. *)
Definition injector_boot : injector := mk_injector ∅ ∅ 0 NULL 1 0 false false.

Definition INJECTION_IDLE_CYCLE_EACH_TIME : Z := 2000.
Definition INJECTION_IDLE_CYCLE_PROC : Z := 5.

Definition kfree (p : Z) (st : injector) : injector := st <| pids ::= delete p |>.

(** [list_for_each_entry_rcu (f, &param.pidList->list, list)]: the entries in
    order.  Every entry of the list is a live object, so the number of live
    objects bounds the walk. *)
Definition entries (st : injector) : list Z :=
  default [] (list_for_each (S (size (pids st))) (nodes st) (pidList st)).

(** ** /proc/schedidle/sched_global *)
Definition proc_read_idleGlobal (st : injector) : list Z :=
  bytes "Global_rate = " ++ fmt_d (global_rate st) ++ bytes ", rate = " ++
  fmt_d (idle_cycles_offset st) ++ [10].

(** [buffer_ker] is the address of the kernel copy, [user] the bytes
    [copy_from_user] delivered ([None] when it failed), [junk] the memory behind
    the [count] bytes of the copy. *)
Definition proc_write_idleGlobal (buffer_ker : Z) (user : option (list Z)) (junk : list Z)
    (count : Z) (st : injector) : outcome (Z * injector) :=
  if buffer_ker =? NULL then Oops
  else match user with
  | None => Done (- EFAULT, st)
  | Some buffer =>
      let v := s32 (fst (simple_strtol (buffer ++ junk) 10)) in
      let st :=
        if 2 <=? v then st <| global_rate := v |> <| idle_cycles_offset := 0 |> else st in
      Done (s32 count, st)
  end.

(** ** /proc/schedidle/sched_pid *)
Definition print_entry (e : pid_list) : list Z :=
  fmt_d (pid e) ++ [44] ++ fmt_d (max_load e) ++ [44] ++ fmt_d (times e) ++ [44; type e; 10].

Definition proc_read_idlePid (st : injector) : list Z :=
  bytes "Format Type: pid,max_load,times,type" ++ [10; 10] ++
  if negb (list_empty (pidList st) (nodes st)) then
    concat ((λ f, print_entry (pids st !!! f)) <$> entries st)
  else bytes "No processes observed" ++ [10].

(** The loop of [proc_write_idlePid]: the first entry whose pid is [p] (to be
    replaced) or [-p] (to be removed). *)
Fixpoint find_pid (fs : list Z) (m : gmap Z pid_list) (p : Z) : option (Z * bool) :=
  match fs with
  | [] => None
  | f :: fs =>
      if pid (m !!! f) =? p then Some (f, true)
      else if pid (m !!! f) =? s32 (-1 * p) then Some (f, false)
      else find_pid fs m p
  end.

Definition list_insert_entry (pid_new : Z) (st : injector) : injector :=
  if type (pids st !!! pid_new) =? 112
  then st <| nodes ::= list_add_tail_rcu pid_new (pidList st) |>
  else st <| nodes ::= list_add_rcu pid_new (pidList st) |>.

(** From line 264 on: [*pid_new] is filled in. *)
Definition write_entry (pid_new : Z) (st : injector) : injector :=
  let e := pids st !!! pid_new in
  if max_load e <? INJECTION_IDLE_CYCLE_PROC then kfree pid_new st
  else if negb (type e =? 116) && negb (type e =? 112) then kfree pid_new st
  else if list_empty (pidList st) (nodes st) then
    if 0 <? pid e then list_insert_entry pid_new st else kfree pid_new st
  else match find_pid (entries st) (pids st) (pid e) with
  | Some (f, true) => kfree f (st <| nodes ::= list_replace_rcu f pid_new |>)
  | Some (f, false) => kfree f (st <| nodes ::= list_del_rcu f |>)
  | None => if 0 <? pid e then list_insert_entry pid_new st else kfree pid_new st
  end.

(** [pid_new] is the address the first allocation loop ended with. *)
Definition proc_write_idlePid (pid_new : Z) (user : option (list Z)) (junk : list Z)
    (count : Z) (st : injector) : outcome (Z * injector) :=
  let st := st <| pids ::= <[pid_new := inhabitant]> |> in
  match user with
  | None => Done (- EFAULT, st)
  | Some buffer =>
      let '(temp_pid, buffer_ker) := strsep (Some (buffer ++ junk)) [44] in
      let '(temp_load, buffer_ker) := strsep buffer_ker [44] in
      let '(temp_type, _) := strsep buffer_ker [44] in
      match temp_pid, temp_load with
      | Some temp_pid, Some temp_load =>
          let e := mk_pid_list (s32 (fst (simple_strtol temp_pid 10)))
                     (s32 (fst (simple_strtol temp_load 10))) 0
                     (match temp_type with Some t => chr t 0 | None => 116 end) in
          let st := st <| pids ::= <[pid_new := e]> |> in
          Done (s32 count, write_entry pid_new st)
      | _, _ => Oops
      end
  end.

(** ** Initialisation

    [head] is what [kmalloc] returned for the list head; [dir], [fg] and [fp] say
    whether the /proc entries could be created. *)
Definition set_everything_idlepar (head : Z) (dir fg fp : bool) (st : injector) : injector :=
  let st := st <| global_rate := INJECTION_IDLE_CYCLE_EACH_TIME |> <| pidList := head |>
               <| nodes ::= INIT_LIST_HEAD head |> in
  if negb dir then st
  else if negb fg then st
  else let st := st <| schedidle_file_global := true |> in
  if negb fp then st
  else st <| schedidle_file_pid := true |>.

(** ** The decisions of the scheduler *)

(** Lines 3466-3483: [queued] is [queued_notrunning ()].  The result says
    whether this pass runs idle. *)
Definition inject_global (head : Z) (dir fg fp queued : bool) (st : injector) : bool * injector :=
  let injection_value := global_rate st in
  let st := if is_init st =? 1 then
              set_everything_idlepar head dir fg fp (st <| is_init := 0 |>)
            else st in
  let st := st <| idle_cycles_offset ::= λ o, s32 (o + 1) |> in
  if negb queued || (idle_cycles_offset st =? injection_value)
  then (true, st <| idle_cycles_offset := 0 |>) else (false, st).

(** Lines 3278-3294, for the chosen task's [tgid] and [pid]: whether it is
    replaced by idle. *)
Definition entry_matches (tgid tpid : Z) (f : pid_list) : bool :=
  ((tgid =? pid f) && (type f =? 112)) || ((tpid =? pid f) && (type f =? 116)).

Fixpoint scan_pids (fs : list Z) (tgid tpid : Z) (m : gmap Z pid_list) :
    bool * gmap Z pid_list :=
  match fs with
  | [] => (false, m)
  | f :: fs =>
      if entry_matches tgid tpid (m !!! f) then
        let m := mem_upd m f (λ e, e <| times ::= λ t, s32 (t + 1) |>) in
        if times (m !!! f) =? max_load (m !!! f)
        then (true, mem_upd m f (λ e, e <| times := 0 |>))
        else scan_pids fs tgid tpid m
      else scan_pids fs tgid tpid m
  end.

Definition inject_pid (tgid tpid : Z) (st : injector) : bool * injector :=
  if negb (list_empty (pidList st) (nodes st)) then
    let '(idle, m) := scan_pids (entries st) tgid tpid (pids st) in (idle, st <| pids := m |>)
  else (false, st).

(** ** The abstract injector

    A list of entries, updated by whole entries. *)
Definition contents (st : injector) : list pid_list := (λ f, pids st !!! f) <$> entries st.

Definition spec_write (e : pid_list) (l : list pid_list) : list pid_list :=
  if max_load e <? INJECTION_IDLE_CYCLE_PROC then l
  else if negb (type e =? 116) && negb (type e =? 112) then l
  else if 0 <? pid e then
    if existsb (λ x, pid x =? pid e) l then (λ x, if pid x =? pid e then e else x) <$> l
    else if type e =? 112 then l ++ [e] else e :: l
  else filter (λ x, pid x ≠ - pid e) l.

Fixpoint spec_scan (tgid tpid : Z) (l : list pid_list) : bool * list pid_list :=
  match l with
  | [] => (false, [])
  | e :: l =>
      if entry_matches tgid tpid e then
        if times e + 1 =? max_load e then (true, e <| times := 0 |> :: l)
        else let '(b, l) := spec_scan tgid tpid l in (b, e <| times := times e + 1 |> :: l)
      else let '(b, l) := spec_scan tgid tpid l in (b, e :: l)
  end.

(** ** The invariant *)
Definition entry_ok (e : pid_list) : Prop :=
  0 < pid e < 0x80000000 ∧ INJECTION_IDLE_CYCLE_PROC ≤ max_load e < 0x80000000 ∧
  0 ≤ times e < max_load e ∧ (type e = 116 ∨ type e = 112).
Definition entries_ok (l : list pid_list) : Prop := Forall entry_ok l ∧ NoDup (pid <$> l).

(** The pointer structure: a well-formed list of live, distinct objects. *)
Record rep (st : injector) (xs : list Z) : Prop := {
  rep_list : dlist (nodes st) (pidList st) xs;
  rep_live : ∀ f, f ∈ xs → is_Some (pids st !! f);
  rep_head : pids st !! pidList st = None;
}.

Record inj_ok (st : injector) : Prop := {
  ok_rep : rep st (entries st);
  ok_entries : entries_ok (contents st);
  ok_rate : 2 ≤ global_rate st < 0x80000000;
  ok_offset : 0 ≤ idle_cycles_offset st < global_rate st;
  ok_init : is_init st = 0;
}.

Lemma entries_rep st xs : rep st xs → entries st = xs.
Proof.
  intros [Hd Hl _]. unfold entries, list_for_each.
  destruct (split_first (pidList st) xs) as (nx & l2 & E).
  rewrite (dlist_first _ _ _ _ _ Hd E).
  replace nx with (default (pidList st) (hd_error xs)) by (destruct xs; simplify_eq/=; done).
  rewrite (list_walk_spec _ _ []); [done|done|].
  destruct (dlist_NoDup _ _ _ Hd) as [Hnd _].
  rewrite <- (size_list_to_set (C := gset Z) xs Hnd), <- size_dom.
  apply Nat.lt_succ_r, subseteq_size. intros f Hf%elem_of_list_to_set. by apply elem_of_dom, Hl.
Qed.

Lemma inj_ok_intro st xs :
  rep st xs → entries_ok ((λ f, pids st !!! f) <$> xs) →
  2 ≤ global_rate st < 0x80000000 → 0 ≤ idle_cycles_offset st < global_rate st →
  is_init st = 0 → inj_ok st.
Proof. intros Hr. split; unfold contents; by rewrite ?(entries_rep _ _ Hr). Qed.

Lemma contents_rep st xs : rep st xs → contents st = (λ f, pids st !!! f) <$> xs.
Proof. intros Hr. unfold contents. by rewrite (entries_rep _ _ Hr). Qed.

Lemma total_of_lookup (m : gmap Z pid_list) f e : m !! f = Some e → m !!! f = e.
Proof. intros H. by rewrite lookup_total_alt, H. Qed.

(** Objects outside the list can be written and freed without changing it. *)
Lemma rep_fresh st xs p e :
  rep st xs → p ≠ pidList st → p ∉ xs → rep (st <| pids ::= <[p := e]> |>) xs.
Proof.
  intros [Hd Hl Hh] Hp Hx. split; simpl; [done| |].
  - intros f Hf. rewrite lookup_insert_ne by set_solver. by apply Hl.
  - by rewrite lookup_insert_ne.
Qed.

Lemma rep_kfree st xs p : rep st xs → p ∉ xs → rep (kfree p st) xs.
Proof.
  intros [Hd Hl Hh] Hx. split; simpl; [done| |].
  - intros f Hf. rewrite lookup_delete_ne by set_solver. by apply Hl.
  - rewrite lookup_delete. by case_decide.
Qed.

Lemma contents_frame (m m' : gmap Z pid_list) (xs : list Z) :
  (∀ f, f ∈ xs → m' !!! f = m !!! f) → (λ f, m' !!! f) <$> xs = (λ f, m !!! f) <$> xs.
Proof. intros H. apply list_fmap_ext. intros i f Hf. apply H. by eapply list_elem_of_lookup_2. Qed.

(** ** Writing an entry *)
Lemma find_pid_spec (m : gmap Z pid_list) p (xs : list Z) :
  -0x80000000 ≤ p < 0x80000000 → Forall entry_ok ((λ f, m !!! f) <$> xs) →
  match find_pid xs m p with
  | Some (f, b) => b = (0 <? p) ∧ f ∈ xs ∧ pid (m !!! f) = Z.abs p
  | None => ∀ f, f ∈ xs → pid (m !!! f) ≠ Z.abs p
  end.
Proof.
  intros Hp. induction xs as [|x xs IH]; intros Hok; [set_solver|].
  rewrite fmap_cons in Hok. apply Forall_cons in Hok as [Hx Hok]. specialize (IH Hok). simpl.
  destruct Hx as [Hx _].
  destruct (Z.eqb_spec (pid (m !!! x)) p).
  { split_and!; [|set_solver|lia]. symmetry. apply Z.ltb_lt. lia. }
  assert (s32 (-1 * p) = if decide (p = -0x80000000) then p else - p) as ->
    by (case_decide; wrap).
  destruct (Z.eqb_spec (pid (m !!! x)) (if decide (p = -0x80000000) then p else - p)) as [E|E].
  { case_decide; [lia|]. split_and!; [|set_solver|lia]. symmetry. apply Z.ltb_ge. lia. }
  destruct (find_pid xs m p) as [[f b]|].
  - set_solver.
  - intros f [->|Hf]%elem_of_cons; [|by apply IH]. case_decide; lia.
Qed.

Lemma fmap_pid_notin (m : gmap Z pid_list) (xs : list Z) p :
  (∀ f, f ∈ xs → pid (m !!! f) ≠ p) ↔ p ∉ pid <$> ((λ f, m !!! f) <$> xs).
Proof. rewrite <- list_fmap_compose, list_elem_of_fmap. simpl. naive_solver. Qed.

Lemma existsb_pid (l : list pid_list) p : existsb (λ x, pid x =? p) l = true ↔ p ∈ pid <$> l.
Proof.
  rewrite existsb_exists, list_elem_of_fmap. setoid_rewrite Z.eqb_eq.
  setoid_rewrite list_elem_of_In. naive_solver.
Qed.

(** With distinct pids, replacing by pid replaces one position and removing by
    pid drops one position. *)
Lemma map_pid_absent (l : list pid_list) e :
  pid e ∉ pid <$> l → (λ x, if pid x =? pid e then e else x) <$> l = l.
Proof.
  induction l as [|x l IH]; [done|]. rewrite fmap_cons, not_elem_of_cons. intros [??].
  rewrite fmap_cons, (proj2 (Z.eqb_neq _ _)) by congruence. by rewrite IH.
Qed.
Lemma filter_pid_absent (l : list pid_list) p :
  p ∉ pid <$> l → filter (λ x, pid x ≠ p) l = l.
Proof.
  induction l as [|x l IH]; [done|]. rewrite fmap_cons, not_elem_of_cons. intros [??].
  rewrite filter_cons_True by congruence. by rewrite IH.
Qed.
Lemma pid_split (l1 l2 : list pid_list) x :
  NoDup (pid <$> (l1 ++ x :: l2)) → (pid x ∉ (pid <$> l1)) ∧ (pid x ∉ (pid <$> l2)) ∧ NoDup (pid <$> (l1 ++ l2)).
Proof. rewrite !fmap_app, fmap_cons, !NoDup_app, NoDup_cons. set_solver. Qed.

(** One step of the handler from line 264 on, in each of its outcomes.  [st1] is
    the state with the new object filled in. *)
Section write.
Context (st : injector) (pid_new : Z) (e : pid_list).
Context (Hok : inj_ok st) (Hnew : pids st !! pid_new = None) (Hhead : pid_new ≠ pidList st).
Let st1 : injector := st <| pids ::= <[pid_new := e]> |>.
Let xs := entries st.

(** The result carries the same rates and the list [l]. *)
Definition write_ok (l : list pid_list) (st' : injector) : Prop :=
  inj_ok st' ∧ contents st' = l ∧ global_rate st' = global_rate st ∧
  idle_cycles_offset st' = idle_cycles_offset st.

Lemma new_notin : pid_new ∉ xs.
Proof using Hok Hnew.
  intros Hin. destruct (rep_live _ _ (ok_rep _ Hok) _ Hin) as [? E]. congruence.
Qed.

Lemma st1_read f : f ∈ xs → pids st1 !!! f = pids st !!! f.
Proof using Hok Hnew.
  intros Hf. unfold st1. simpl. rewrite lookup_total_insert_ne; [done|].
  intros <-. by apply new_notin.
Qed.

Lemma st1_new : pids st1 !!! pid_new = e.
Proof using. unfold st1. simpl. by rewrite lookup_total_insert_eq. Qed.

Lemma rep_st1 : rep st1 xs.
Proof using Hok Hnew Hhead. apply rep_fresh; [apply Hok|done|apply new_notin]. Qed.

(** A write that leaves the list of addresses [ys], all live, with the fields
    of the objects in it unchanged. *)
Lemma write_ok_intro st' ys :
  rep st' ys → entries_ok ((λ f, pids st1 !!! f) <$> ys) →
  (∀ f, f ∈ ys → pids st' !!! f = pids st1 !!! f) →
  global_rate st' = global_rate st → idle_cycles_offset st' = idle_cycles_offset st →
  is_init st' = is_init st →
  write_ok ((λ f, pids st1 !!! f) <$> ys) st'.
Proof using Hok.
  intros Hr He Hf Hg Ho Hi. destruct Hok as [_ _ Hrate Hoff Hinit]. split_and!; [|by rewrite (contents_rep _ _ Hr), (contents_frame _ _ _ Hf)|done|done].
  apply (inj_ok_intro _ ys); [done| |congruence..].
  by rewrite (contents_frame _ _ _ Hf).
Qed.

Lemma st1_contents : (λ f, pids st1 !!! f) <$> xs = contents st.
Proof using Hok Hnew. apply contents_frame, st1_read. Qed.

Lemma st1_ok : inj_ok st1 ∧ contents st1 = contents st.
Proof using Hok Hnew Hhead.
  pose proof rep_st1 as Hr. split; [|by rewrite (contents_rep _ _ Hr), st1_contents].
  destruct Hok. apply (inj_ok_intro _ xs); [done|by rewrite st1_contents|done..].
Qed.

Lemma write_drop : write_ok (contents st) (kfree pid_new st1).
Proof using Hok Hnew Hhead.
  rewrite <- st1_contents. apply write_ok_intro; try done.
  - apply rep_kfree; [apply rep_st1|apply new_notin].
  - rewrite st1_contents. apply Hok.
  - intros f Hf. simpl. rewrite lookup_total_delete_ne; [done|]. intros <-. by apply new_notin.
Qed.

Lemma write_insert :
  entry_ok e → pid e ∉ pid <$> contents st →
  write_ok (if type e =? 112 then contents st ++ [e] else e :: contents st)
    (list_insert_entry pid_new st1).
Proof using Hok Hnew Hhead.
  intros He Hp. destruct rep_st1 as [Hd Hl Hh].
  assert (pid_new ∉ pidList st1 :: xs) as Hni by (pose proof new_notin; set_solver).
  destruct Hok as [_ [Hall Hnd] _ _ _].
  assert (∀ ys nodes', ys = xs ++ [pid_new] ∨ ys = pid_new :: xs →
    dlist nodes' (pidList st1) ys →
    write_ok ((λ f, pids st1 !!! f) <$> ys) (st1 <| nodes := nodes' |>)) as Hins.
  { intros ys n' Hys Hd'. apply write_ok_intro; try done.
    - split; [done| |done]. intros f Hf. simpl. rewrite lookup_insert.
      case_decide; [by eexists|]. apply Hok. destruct Hys as [->| ->]; set_solver.
    - destruct Hys as [->| ->]; rewrite ?fmap_app, ?fmap_cons, ?fmap_nil, st1_new, st1_contents;
        (split; [rewrite ?Forall_app, ?Forall_cons; auto|]);
        rewrite ?fmap_app, ?fmap_cons, ?fmap_nil; [apply NoDup_app|by apply NoDup_cons].
      split_and!; [done|set_solver|apply NoDup_singleton]. }
  unfold list_insert_entry. rewrite st1_new. destruct (type e =? 112).
  - pose proof (Hins _ _ (or_introl eq_refl) (proj2 (list_add_tail_spec _ _ _ _ Hd Hni))) as H.
    by rewrite fmap_app, fmap_cons, fmap_nil, st1_new, st1_contents in H.
  - pose proof (Hins _ _ (or_intror eq_refl) (proj2 (list_add_spec _ _ _ _ Hd Hni))) as H.
    by rewrite fmap_cons, st1_new, st1_contents in H.
Qed.

Lemma write_replace f :
  entry_ok e → f ∈ xs → pid (pids st !!! f) = pid e →
  write_ok ((λ x, if pid x =? pid e then e else x) <$> contents st)
    (kfree f (st1 <| nodes ::= list_replace_rcu f pid_new |>)).
Proof using Hok Hnew Hhead.
  intros He Hf Hpid. destruct rep_st1 as [Hd Hl Hh]. pose proof new_notin as Hni.
  destruct (dlist_split _ _ _ _ Hd Hf) as (l1 & l2 & Exs & Hfn).
  destruct Hok as [_ [Hall Hnd] _ _ _]. rewrite <- st1_contents in Hall, Hnd |- *.
  rewrite Exs in *. rewrite fmap_app, fmap_cons in Hall, Hnd.
  apply Forall_app in Hall as [Hall1 [_ Hall2]%Forall_cons].
  assert (pids st1 !!! f = pids st !!! f) as Ef by (apply st1_read; subst xs; rewrite Exs; set_solver).
  apply pid_split in Hnd as (Hp1 & Hp2 & Hnd). rewrite Ef, Hpid in Hp1, Hp2.
  assert ((λ x, if pid x =? pid e then e else x) <$> ((λ g, pids st1 !!! g) <$> (l1 ++ f :: l2)) =
          (λ g, pids st1 !!! g) <$> (l1 ++ pid_new :: l2)) as ->.
  { rewrite !fmap_app, !fmap_cons, st1_new, !map_pid_absent by done.
    by rewrite Ef, Hpid, Z.eqb_refl. }
  apply write_ok_intro; try done.
  - apply rep_kfree; [|set_solver]. split; simpl; [|intros g Hg|done].
    + apply list_replace_spec; [done|]. set_solver.
    + destruct (decide (g = pid_new)) as [->|]; [rewrite lookup_insert_eq; by eexists|].
      apply Hl. set_solver.
  - rewrite fmap_app, fmap_cons, st1_new. split.
    { apply Forall_app. split; [done|]. by apply Forall_cons. }
    revert Hnd. rewrite !fmap_app, fmap_cons, !NoDup_app, NoDup_cons. set_solver.
  - intros g Hg. simpl. rewrite lookup_total_delete_ne; [done|]. set_solver.
Qed.

Lemma write_remove f p :
  f ∈ xs → pid (pids st !!! f) = p →
  write_ok (filter (λ x, pid x ≠ p) (contents st))
    (kfree f (st1 <| nodes ::= list_del_rcu f |>)).
Proof using Hok Hnew Hhead.
  intros Hf Hpid. destruct rep_st1 as [Hd Hl Hh]. pose proof new_notin as Hni.
  destruct (dlist_split _ _ _ _ Hd Hf) as (l1 & l2 & Exs & Hfn).
  destruct Hok as [_ [Hall Hnd] _ _ _]. rewrite <- st1_contents in Hall, Hnd |- *.
  rewrite Exs in *. rewrite fmap_app, fmap_cons in Hall, Hnd |- *.
  apply Forall_app in Hall as [Hall1 [_ Hall2]%Forall_cons].
  assert (pids st1 !!! f = pids st !!! f) as Ef by (apply st1_read; subst xs; rewrite Exs; set_solver).
  apply pid_split in Hnd as (Hp1 & Hp2 & Hnd). rewrite Ef, Hpid in Hp1, Hp2.
  rewrite filter_app, filter_cons_False, !filter_pid_absent by (rewrite ?Ef; tauto).
  rewrite <- fmap_app. apply write_ok_intro; try done.
  - apply rep_kfree; [|set_solver]. split; simpl; [|intros g Hg; apply Hl; set_solver|done].
    by apply (list_del_spec _ _ _ _ _ Hd).
  - rewrite fmap_app. split; [by apply Forall_app|done].
  - intros g Hg. simpl. rewrite lookup_total_delete_ne; [done|]. set_solver.
Qed.

Lemma write_entry_spec :
  -0x80000000 ≤ pid e < 0x80000000 → -0x80000000 ≤ max_load e < 0x80000000 → times e = 0 →
  write_ok (spec_write e (contents st)) (write_entry pid_new st1).
Proof using Hok Hnew Hhead.
  intros Hp Hm Ht. unfold write_entry, spec_write. rewrite st1_new.
  destruct (Z.ltb_spec (max_load e) INJECTION_IDLE_CYCLE_PROC) as [|Hml]; [apply write_drop|].
  destruct (negb _ && negb _) eqn:Hty; [apply write_drop|].
  assert (0 < pid e → entry_ok e) as He.
  { intros. split_and!; unfold INJECTION_IDLE_CYCLE_PROC in *; lia. }
  pose proof (rep_list _ _ rep_st1) as Hd. rewrite (list_empty_spec _ _ _ Hd).
  pose proof (ok_entries _ Hok) as [Hall Hnd].
  destruct (bool_decide_reflect (xs = [])) as [E|_].
  - assert (contents st = []) as Ec by (unfold contents; fold xs; by rewrite E).
    destruct (Z.ltb_spec 0 (pid e)).
    + pose proof (write_insert (He ltac:(lia))) as H'. rewrite Ec in H' |- *. apply H'. set_solver.
    + rewrite Ec. pose proof write_drop as H'. by rewrite Ec in H'.
  - rewrite (entries_rep _ _ rep_st1).
    pose proof (find_pid_spec (pids st1) (pid e) xs Hp) as Hfind.
    rewrite st1_contents in Hfind. specialize (Hfind Hall).
    destruct (find_pid xs (pids st1) (pid e)) as [[f b]|].
    + destruct Hfind as (-> & Hf & Habs). rewrite (st1_read f Hf) in Habs.
      destruct (Z.ltb_spec 0 (pid e)).
      * rewrite (proj2 (existsb_pid _ _)); [apply write_replace; auto with lia|].
        replace (pid e) with (pid (pids st !!! f)) by lia.
        by apply list_elem_of_fmap_2, (list_elem_of_fmap_2 (λ f, pids st !!! f)).
      * apply write_remove; [done|]. lia.
    + apply fmap_pid_notin in Hfind. rewrite st1_contents in Hfind.
      destruct (Z.ltb_spec 0 (pid e)).
      * rewrite Z.abs_eq in Hfind by lia.
        assert (existsb (λ x, pid x =? pid e) (contents st) = false) as ->.
        { apply not_true_iff_false. by rewrite existsb_pid. }
        apply write_insert; auto.
      * rewrite filter_pid_absent; [apply write_drop|]. by rewrite <- Z.abs_neq by lia.
Qed.
End write.

(** ** The decisions *)
Lemma scan_pids_spec tgid tpid (xs : list Z) (m : gmap Z pid_list) :
  NoDup xs → Forall entry_ok ((λ f, m !!! f) <$> xs) →
  let '(b, m') := scan_pids xs tgid tpid m in
  spec_scan tgid tpid ((λ f, m !!! f) <$> xs) = (b, (λ f, m' !!! f) <$> xs) ∧
  (∀ f, f ∉ xs → m' !! f = m !! f) ∧ (∀ f, is_Some (m !! f) → is_Some (m' !! f)).
Proof.
  revert m. induction xs as [|x xs IH]; intros m Hnd Hok; [done|].
  apply NoDup_cons in Hnd as [Hx Hnd]. rewrite fmap_cons in Hok |- *.
  apply Forall_cons in Hok as [Hex Hok]. cbn [scan_pids spec_scan].
  assert (∀ g (m1 : gmap Z pid_list), (∀ f, f ∈ xs → mem_upd m1 x g !!! f = m1 !!! f)) as Hfr
    by (intros; apply mem_upd_ne; set_solver).
  destruct (entry_matches tgid tpid (m !!! x)).
  - rewrite !mem_upd_eq. cbn [times max_load update].
    assert (s32 (times (m !!! x) + 1) = times (m !!! x) + 1) as E.
    { destruct Hex as (_ & ? & ? & _). apply s32_id. lia. }
    rewrite E. destruct (times (m !!! x) + 1 =? max_load (m !!! x)).
    + split_and!.
      * rewrite fmap_cons, !mem_upd_eq. cbn [update]. do 2 f_equal.
        rewrite !(contents_frame _ _ xs (Hfr _ _)). done.
      * intros f Hf. unfold mem_upd. rewrite !lookup_insert_ne by set_solver. done.
      * intros f Hf. unfold mem_upd. rewrite lookup_insert. case_decide; [by eexists|].
        rewrite lookup_insert_ne by done. done.
    + set (m1 := mem_upd m x _). specialize (IH m1 Hnd).
      rewrite (contents_frame m m1 xs (Hfr _ _)) in IH. specialize (IH Hok).
      destruct (scan_pids xs tgid tpid m1) as [b m'].
      destruct IH as (Hs & Hout & Hlive). rewrite Hs. split_and!.
      * rewrite fmap_cons. do 2 f_equal. rewrite (lookup_total_alt m'), Hout, <- lookup_total_alt by done.
        subst m1. rewrite mem_upd_eq. unfold update. simpl. by rewrite E.
      * intros f Hf. rewrite Hout by set_solver. subst m1. unfold mem_upd.
        rewrite lookup_insert_ne by set_solver. done.
      * intros f Hf. apply Hlive. subst m1. unfold mem_upd. rewrite lookup_insert.
        case_decide; [by eexists|done].
  - specialize (IH m Hnd Hok). destruct (scan_pids xs tgid tpid m) as [b m'].
    destruct IH as (Hs & Hout & Hlive). rewrite Hs. split_and!; [|set_solver|done].
    rewrite fmap_cons. by rewrite (lookup_total_alt m'), Hout, <- lookup_total_alt.
Qed.

Lemma spec_scan_ok tgid tpid (l : list pid_list) :
  entries_ok l → entries_ok (spec_scan tgid tpid l).2.
Proof.
  intros [Hok Hnd]. enough (Forall entry_ok (spec_scan tgid tpid l).2 ∧
    pid <$> (spec_scan tgid tpid l).2 = pid <$> l) as [? E] by (split; [done|by rewrite E]).
  clear Hnd. induction Hok as [|e l (Hp & Hm & Ht & Hty) Hl [IH1 IH2]]; [done|].
  assert (∀ t, 0 ≤ t < max_load e → entry_ok (e <| times := t |>)) as Hset by (intros; unfold entry_ok in *; simpl; tauto).
  cbn [spec_scan]. destruct (spec_scan tgid tpid l) as [b l'].
  destruct (entry_matches _ _ _); [destruct (Z.eqb_spec (times e + 1) (max_load e))|]; simpl in *;
    rewrite ?IH2; (split; [constructor|]; try done).
  - apply Hset. lia.
  - apply Hset. lia.
  - by f_equal.
  - by f_equal.
Qed.

Lemma inject_pid_spec tgid tpid st :
  inj_ok st →
  let '(b, st') := inject_pid tgid tpid st in
  inj_ok st' ∧ spec_scan tgid tpid (contents st) = (b, contents st') ∧
  global_rate st' = global_rate st ∧ idle_cycles_offset st' = idle_cycles_offset st.
Proof.
  intros Hok. pose proof Hok as [Hrep Hent Hrate Hoff Hinit]. unfold inject_pid.
  pose proof Hrep as [Hd Hl Hh]. rewrite (list_empty_spec _ _ _ Hd).
  destruct (bool_decide_reflect (entries st = [])) as [E|_]; cbn [negb].
  - split_and!; [done| |done..]. unfold contents. by rewrite E.
  - destruct (dlist_NoDup _ _ _ Hd) as [Hnd Hhd].
    pose proof (scan_pids_spec tgid tpid (entries st) (pids st) Hnd (proj1 Hent)) as Hs.
    pose proof (spec_scan_ok tgid tpid _ Hent) as Hent'. fold (contents st) in Hs.
    destruct (scan_pids _ _ _ _) as [b m']. destruct Hs as (Hs & Hout & Hlive).
    rewrite Hs in Hent'. cbn [snd] in Hent'.
    assert (rep (st <| pids := m' |>) (entries st)) as Hrep'.
    { split; [done|intros f Hf; by apply Hlive, Hl|simpl; by rewrite Hout]. }
    split_and!; [|by rewrite (contents_rep _ _ Hrep')|done..].
    by apply (inj_ok_intro _ (entries st)).
Qed.

Lemma inject_global_spec head dir fg fp queued st :
  inj_ok st →
  inject_global head dir fg fp queued st =
    (if queued && negb (idle_cycles_offset st + 1 =? global_rate st)
     then (false, st <| idle_cycles_offset := idle_cycles_offset st + 1 |>)
     else (true, st <| idle_cycles_offset := 0 |>)).
Proof.
  intros [_ _ Hrate Hoff Hinit]. unfold inject_global. rewrite Hinit. unfold update. simpl.
  rewrite s32_id by lia. by destruct queued, (_ =? _).
Qed.

Lemma offset_ok st o : inj_ok st → 0 ≤ o < global_rate st → inj_ok (st <| idle_cycles_offset := o |>).
Proof.
  intros [[Hd Hl Hh] He Hr _ Hi] Ho. apply (inj_ok_intro _ (entries st)); [by split|done..].
Qed.

Lemma inject_global_ok head dir fg fp queued st :
  inj_ok st → inj_ok (inject_global head dir fg fp queued st).2.
Proof.
  intros Hok. rewrite inject_global_spec by done. pose proof Hok as [_ _ Hrate Hoff _].
  destruct (queued && _) eqn:E; simpl; apply offset_ok; try done; [|lia].
  apply andb_true_iff in E as [_ E%negb_true_iff%Z.eqb_neq]. lia.
Qed.

(** The first pass of [schedule] initialises the injector. *)
Lemma inject_global_boot head dir fg fp queued :
  head ≠ NULL → inj_ok (inject_global head dir fg fp queued injector_boot).2.
Proof.
  intros Hh. set (st := (inject_global head dir fg fp queued injector_boot).2).
  assert (nodes st = INIT_LIST_HEAD head ∅ ∧ pidList st = head ∧ pids st = ∅ ∧
    global_rate st = 2000 ∧ is_init st = 0 ∧ 0 ≤ idle_cycles_offset st < 2) as (En & Eh & Ep & Eg & Ei & Eo).
  { subst st. by destruct queued, dir, fg, fp. }
  apply (inj_ok_intro _ []); [|by split; [constructor|apply NoDup_nil_2]|lia|lia|done].
  split; [|set_solver|by rewrite Ep]. rewrite En, Eh. apply INIT_LIST_HEAD_spec.
Qed.

(** ** Rates

    [passes n f st] runs [n] passes and counts those that chose idle. *)
Fixpoint passes {S : Type} (n : nat) (f : S → bool * S) (st : S) : Z * S :=
  match n with
  | O => (0, st)
  | S n => let '(b, st) := f st in let '(k, st) := passes n f st in (Z_of_bool b + k, st)
  end.

(** One counter stepping modulo [m] fires [(t + n) / m] times in [n] steps. *)
Lemma counter_step t n m : 0 < m → 0 ≤ t < m → 0 ≤ n →
  (if t + 1 =? m then 1 + (0 + n) / m else (t + 1 + n) / m) = (t + (1 + n)) / m ∧
  (if t + 1 =? m then (0 + n) mod m else (t + 1 + n) mod m) = (t + (1 + n)) mod m.
Proof.
  intros. destruct (Z.eqb_spec (t + 1) m) as [E|].
  2: { by replace (t + (1 + n)) with (t + 1 + n) by lia. }
  replace (t + (1 + n)) with (n + 1 * m) by lia.
  rewrite Z.div_add, Z.mod_add, Z.add_0_l by lia. split; [lia|done].
Qed.

Lemma spec_scan_nomatch tgid tpid (l : list pid_list) :
  Forall (λ e, entry_matches tgid tpid e = false) l → spec_scan tgid tpid l = (false, l).
Proof. induction 1 as [|e l E _ IH]; [done|]. cbn [spec_scan]. by rewrite E, IH. Qed.

Lemma spec_scan_one tgid tpid (l1 l2 : list pid_list) e :
  Forall (λ x, entry_matches tgid tpid x = false) (l1 ++ l2) → entry_matches tgid tpid e = true →
  spec_scan tgid tpid (l1 ++ e :: l2) =
    if times e + 1 =? max_load e then (true, l1 ++ e <| times := 0 |> :: l2)
    else (false, l1 ++ e <| times := times e + 1 |> :: l2).
Proof.
  intros Hno He. induction l1 as [|x l1 IH]; cbn [spec_scan app] in *.
  - rewrite He, spec_scan_nomatch by done. by destruct (_ =? _).
  - apply Forall_cons in Hno as [-> Hno]. rewrite IH by done. by destruct (_ =? _).
Qed.

(** C13. Per-process injection happens at exactly the configured rate.  Let
    exactly one entry [e] of the list apply to a task, and let the scheduler
    select that task [n] times in a row.  Then it is replaced by idle exactly
    [(times + n) / max_load] times, every other entry is untouched, and the
    counter ends at [(times + n) mod max_load]. *)
Theorem inject_pid_rate (st : injector) (tgid tpid : Z) (l1 l2 : list pid_list) (e : pid_list) (n : nat) :
  inj_ok st → contents st = l1 ++ e :: l2 → entry_matches tgid tpid e = true →
  Forall (λ x, entry_matches tgid tpid x = false) (l1 ++ l2) →
  let '(idles, st') := passes n (inject_pid tgid tpid) st in
  idles = (times e + Z.of_nat n) / max_load e ∧
  contents st' = l1 ++ e <| times := (times e + Z.of_nat n) mod max_load e |> :: l2 ∧ inj_ok st'.
Proof.
  revert st e. induction n as [|n IH]; intros st e Hok Hc He Hno.
  - cbn [passes]. pose proof (proj1 (ok_entries _ Hok)) as Hall. rewrite Hc in Hall |- *.
    apply Forall_app in Hall as [_ [(_ & Hm & Ht & _) _]%Forall_cons].
    rewrite Z.add_0_r, Z.div_small, Z.mod_small by done. by destruct e.
  - cbn [passes]. pose proof (proj1 (ok_entries _ Hok)) as Hall. rewrite Hc in Hall.
    apply Forall_app in Hall as [_ [(_ & Hm & Ht & _) _]%Forall_cons].
    pose proof (inject_pid_spec tgid tpid st Hok) as Hs.
    destruct (inject_pid tgid tpid st) as [b st1]. destruct Hs as (Hok1 & Hs & _).
    rewrite Hc, spec_scan_one in Hs by done.
    pose proof (counter_step (times e) (Z.of_nat n) (max_load e) ltac:(lia) Ht ltac:(lia)) as [E1 E2].
    replace (Z.of_nat (S n)) with (1 + Z.of_nat n) by lia. rewrite <- E1, <- E2.
    destruct (times e + 1 =? max_load e); injection Hs as <- Hc1.
    + specialize (IH st1 (e <| times := 0 |>) Hok1 (eq_sym Hc1) He Hno).
      destruct (passes n _ st1) as [k st']. destruct IH as (-> & -> & ?). by split_and!.
    + specialize (IH st1 (e <| times := times e + 1 |>) Hok1 (eq_sym Hc1) He Hno).
      destruct (passes n _ st1) as [k st']. destruct IH as (-> & -> & ?). by split_and!.
Qed.

Lemma inject_global_passes head dir fg fp (n : nat) st :
  inj_ok st →
  passes n (inject_global head dir fg fp true) st =
    ((idle_cycles_offset st + Z.of_nat n) / global_rate st,
     st <| idle_cycles_offset := (idle_cycles_offset st + Z.of_nat n) mod global_rate st |>).
Proof.
  revert st. induction n as [|n IH]; intros st Hok; cbn [passes]; pose proof Hok as [_ _ Hrate Hoff _].
  - rewrite Z.add_0_r, Z.div_small, Z.mod_small by lia. by destruct st.
  - pose proof (inject_global_ok head dir fg fp true st Hok) as Hok1.
    rewrite inject_global_spec in Hok1 |- * by done. cbn [andb] in *.
    pose proof (counter_step (idle_cycles_offset st) (Z.of_nat n) (global_rate st) ltac:(lia) Hoff ltac:(lia)) as [E1 E2].
    replace (Z.of_nat (S n)) with (1 + Z.of_nat n) by lia. rewrite <- E1, <- E2.
    by destruct (_ =? _); cbn [negb snd] in *; rewrite (IH _ Hok1).
Qed.

(** C14. Global injection happens at exactly the configured rate.  While tasks
    stay queued and the parameters are not written, [n] passes of the scheduler
    run idle exactly [(idle_cycles_offset + n) / global_rate] times; a pass
    that finds nothing queued runs idle and restarts the count. *)
Theorem inject_global_rate (st : injector) (head : Z) (dir fg fp : bool) (n : nat) :
  inj_ok st →
  (let '(idles, st') := passes n (inject_global head dir fg fp true) st in
   idles = (idle_cycles_offset st + Z.of_nat n) / global_rate st ∧
   st' = st <| idle_cycles_offset := (idle_cycles_offset st + Z.of_nat n) mod global_rate st |>) ∧
  inject_global head dir fg fp false st = (true, st <| idle_cycles_offset := 0 |>).
Proof. intros Hok. split; [by rewrite inject_global_passes|by rewrite inject_global_spec]. Qed.

(** ** The handlers *)

(** What the written text says. *)
Definition parse_entry (text : cstr) : option pid_list :=
  let '(temp_pid, s) := strsep (Some text) [44] in
  let '(temp_load, s) := strsep s [44] in
  let '(temp_type, _) := strsep s [44] in
  match temp_pid, temp_load with
  | Some temp_pid, Some temp_load =>
      Some (mk_pid_list (s32 (fst (simple_strtol temp_pid 10)))
              (s32 (fst (simple_strtol temp_load 10))) 0
              (match temp_type with Some t => chr t 0 | None => 116 end))
  | _, _ => None
  end.

Lemma proc_write_idlePid_parse pid_new buffer junk count st :
  proc_write_idlePid pid_new (Some buffer) junk count st =
    match parse_entry (buffer ++ junk) with
    | Some e => Done (s32 count, write_entry pid_new (st <| pids ::= <[pid_new := e]> |>))
    | None => Oops
    end.
Proof.
  unfold proc_write_idlePid, parse_entry.
  destruct (strsep (Some (buffer ++ junk)) [44]) as [tp s1].
  destruct (strsep s1 [44]) as [tl s2]. destruct (strsep s2 [44]) as [tt s3].
  destruct tp, tl; try done. unfold update. simpl. by rewrite insert_insert_eq.
Qed.

Lemma parse_entry_none text : parse_entry text = None ↔ strpbrk text [44] = None.
Proof.
  unfold parse_entry, strsep at 1. destruct (strpbrk text [44]) as [s|]; simpl.
  - unfold strsep at 1. destruct (strpbrk (tail s) [44]) as [s'|]; simpl;
      [by destruct (strpbrk (tail s') [44])|done].
  - done.
Qed.

Lemma parse_entry_range text e : parse_entry text = Some e →
  -0x80000000 ≤ pid e < 0x80000000 ∧ -0x80000000 ≤ max_load e < 0x80000000 ∧ times e = 0.
Proof.
  unfold parse_entry. destruct (strsep (Some text) [44]) as [tp s1].
  destruct (strsep s1 [44]) as [tl s2]. destruct (strsep s2 [44]) as [tt s3].
  destruct tp, tl; intros; simplify_eq/=. eauto with cint.
Qed.

(** The two spellings: "pid,max_load,type…" and "pid,max_load" followed by
    a byte that is neither a digit nor a letter, with no further comma. *)
Definition int_ok (n : Z) : Prop := -0x80000000 ≤ n < 0x80000000.

Lemma parse_entry_full p m ty more : int_ok p → int_ok m → ty ≠ 44 →
  parse_entry (fmt_d p ++ 44 :: fmt_d m ++ 44 :: ty :: more) = Some (mk_pid_list p m 0 ty).
Proof.
  unfold int_ok. intros Hp Hm Hty.
  unfold parse_entry. rewrite !strsep_fmt_d by lia.
  assert (∃ s t, strsep (Some (ty :: more)) [44] = (Some t, s) ∧ chr t 0 = ty) as (s & t & -> & ->).
  { unfold strsep. cbn [strpbrk]. destruct (Z.eqb_spec ty 0) as [->|]; [by eexists _, _|].
    cbn [existsb]. rewrite (proj2 (Z.eqb_neq _ _) Hty). cbn [orb].
    destruct (strpbrk more [44]) as [s|] eqn:E; [|by eexists _, _].
    eexists _, _. split; [done|]. cbn [length].
    destruct (S (length more) - length s)%nat eqn:El; [|done].
    exfalso. clear -E El. revert s E El. induction more as [|c more IH]; intros s E El; [done|].
    cbn [strpbrk] in E. destruct (c =? 0); [done|]. destruct (existsb _ _); simplify_eq/=; [lia|].
    apply (IH _ E). lia. }
  pose proof (simple_strtol_fmt_d p [] ltac:(lia) I) as Ep.
  pose proof (simple_strtol_fmt_d m [] ltac:(lia) I) as Em. rewrite app_nil_r in Ep, Em.
  by rewrite Ep, Em, !s32_id.
Qed.

Lemma parse_entry_short p m rest : int_ok p → int_ok m → stops rest → strpbrk rest [44] = None →
  parse_entry (fmt_d p ++ 44 :: fmt_d m ++ rest) = Some (mk_pid_list p m 0 116).
Proof.
  unfold int_ok. intros Hp Hm Hs Hr. unfold parse_entry. rewrite strsep_fmt_d by lia.
  assert (strsep (Some (fmt_d m ++ rest)) [44] = (Some (fmt_d m ++ rest), None)) as ->.
  { unfold strsep. destruct (fmt_d_chars m ltac:(lia)) as [Hc _].
    assert (strpbrk (fmt_d m ++ rest) [44] = None) as ->; [|done].
    induction Hc as [|c l Hc _ IH]; [done|]. cbn [app strpbrk existsb].
    by rewrite !(proj2 (Z.eqb_neq _ _)) by lia. }
  pose proof (simple_strtol_fmt_d p [] ltac:(lia) I) as Ep. rewrite app_nil_r in Ep.
  rewrite Ep, (simple_strtol_fmt_d m rest) by (done || lia). by rewrite !s32_id.
Qed.

(** C15. [proc_write_idlePid] implements the abstract update.  In a state where
    the invariant holds and with a freshly allocated object, writing
    "pid,max_load,type…" (or "pid,max_load" and a terminator, which means type
    't') returns the byte count and changes the list exactly as [spec_write]
    says: a bad load or type is ignored, a positive pid replaces its entry in
    place or is added at the head ('t') or at the tail ('p'), a negative pid
    removes the entry of its absolute value.  A failed copy returns [-EFAULT]
    and leaves the list alone. *)
Theorem proc_write_idlePid_refines (st : injector) (pid_new p m ty count : Z) (more junk rest : cstr) :
  inj_ok st → pids st !! pid_new = None → pid_new ≠ pidList st →
  int_ok p → int_ok m → ty ≠ 44 → stops (rest ++ junk) → strpbrk (rest ++ junk) [44] = None →
  (∃ st', proc_write_idlePid pid_new (Some (fmt_d p ++ 44 :: fmt_d m ++ 44 :: ty :: more)) junk count st
            = Done (s32 count, st') ∧
          inj_ok st' ∧ contents st' = spec_write (mk_pid_list p m 0 ty) (contents st)) ∧
  (∃ st', proc_write_idlePid pid_new (Some (fmt_d p ++ 44 :: fmt_d m ++ rest)) junk count st
            = Done (s32 count, st') ∧
          inj_ok st' ∧ contents st' = spec_write (mk_pid_list p m 0 116) (contents st)) ∧
  (∃ st', proc_write_idlePid pid_new None junk count st = Done (- EFAULT, st') ∧
          inj_ok st' ∧ contents st' = contents st).
Proof.
  intros Hok Hnew Hhead Hp Hm Hty Hs Hc. rewrite !proc_write_idlePid_parse.
  pose proof (parse_entry_full p m ty (more ++ junk) Hp Hm Hty) as Ef.
  pose proof (parse_entry_short p m (rest ++ junk) Hp Hm Hs Hc) as Es.
  rewrite <- !app_assoc. simpl. rewrite <- !app_assoc. simpl. rewrite Ef, Es.
  split_and!.
  - eexists. split; [done|]. by destruct (write_entry_spec st pid_new (mk_pid_list p m 0 ty)
      Hok Hnew Hhead Hp Hm eq_refl) as (?&?&_).
  - eexists. split; [done|]. by destruct (write_entry_spec st pid_new (mk_pid_list p m 0 116)
      Hok Hnew Hhead Hp Hm eq_refl) as (?&?&_).
  - eexists. split; [done|]. by apply st1_ok.
Qed.

(** The handlers keep the invariant whatever is written. *)
Lemma proc_write_idlePid_ok st pid_new user junk count r st' :
  inj_ok st → pids st !! pid_new = None → pid_new ≠ pidList st →
  proc_write_idlePid pid_new user junk count st = Done (r, st') → inj_ok st' ∧ global_rate st' = global_rate st.
Proof.
  intros Hok Hnew Hhead. destruct user as [buffer|].
  - rewrite proc_write_idlePid_parse. destruct (parse_entry _) as [e|] eqn:E; [|done].
    intros [= _ <-]. destruct (parse_entry_range _ _ E) as (?&?&?).
    destruct (write_entry_spec st pid_new e) as (? & _ & ? & _); done.
  - intros [= _ <-]. split; [by apply st1_ok|done].
Qed.

Lemma proc_write_idleGlobal_ok st buf user junk count r st' :
  inj_ok st → proc_write_idleGlobal buf user junk count st = Done (r, st') → inj_ok st'.
Proof.
  intros Hok. unfold proc_write_idleGlobal. destruct (buf =? NULL); [done|].
  destruct user as [buffer|]; intros [= _ <-]; [|done].
  set (v := s32 _). assert (int_ok v) as [_ Hv] by apply s32_range.
  destruct (Z.leb_spec 2 v); [|done]. destruct Hok as [[Hd Hl Hh] He Hr Ho Hi].
  apply (inj_ok_intro _ (entries st)); simpl; [by split|done|lia|lia|done].
Qed.

(** The life of the injector: the first pass of [schedule] initialises it, and
    from then on scheduler decisions and writes to the /proc files interleave. *)
Inductive reachable : injector → Prop :=
  | reach_boot head dir fg fp queued :
      head ≠ NULL → reachable (inject_global head dir fg fp queued injector_boot).2
  | reach_global st head dir fg fp queued :
      reachable st → reachable (inject_global head dir fg fp queued st).2
  | reach_pid st tgid tpid : reachable st → reachable (inject_pid tgid tpid st).2
  | reach_write_global st st' buf user junk count r :
      reachable st → proc_write_idleGlobal buf user junk count st = Done (r, st') → reachable st'
  | reach_write_pid st st' pid_new user junk count r :
      reachable st → pids st !! pid_new = None → pid_new ≠ pidList st →
      proc_write_idlePid pid_new user junk count st = Done (r, st') → reachable st'.

Lemma injector_sound st : reachable st → inj_ok st.
Proof.
  induction 1.
  - by apply inject_global_boot.
  - by apply inject_global_ok.
  - pose proof (inject_pid_spec tgid tpid st IHreachable) as Hs.
    destruct (inject_pid tgid tpid st). by destruct Hs.
  - by eapply proc_write_idleGlobal_ok.
  - by edestruct proc_write_idlePid_ok.
Qed.

(** C12. In every reachable state the injector is sound: the list of limited
    processes is a well-formed circular list of live objects (no entry was
    freed), pids are positive and distinct, every entry has a load of at least
    5 and a counter below it, and the global counter stays below the global
    rate, so that both comparisons by equality are eventually met. *)
Theorem injector_invariant (st : injector) : reachable st → inj_ok st.
Proof. apply injector_sound. Qed.

(** [proc_write_idleGlobal]: a decimal number of at least 2 becomes the rate
    and restarts the count, a smaller one changes nothing and is still reported
    as written; a failed copy returns [-EFAULT]; a failed allocation is
    dereferenced. *)
Theorem proc_write_idleGlobal_spec (st : injector) (buf v count : Z) (rest junk : cstr) :
  int_ok v → stops (rest ++ junk) → buf ≠ NULL →
  proc_write_idleGlobal buf (Some (fmt_d v ++ rest)) junk count st =
    Done (s32 count, if 2 <=? v then st <| global_rate := v |> <| idle_cycles_offset := 0 |> else st) ∧
  proc_write_idleGlobal buf None junk count st = Done (- EFAULT, st) ∧
  proc_write_idleGlobal NULL (Some (fmt_d v ++ rest)) junk count st = Oops.
Proof.
  unfold int_ok. intros Hv Hs Hb. unfold proc_write_idleGlobal.
  rewrite (proj2 (Z.eqb_neq buf NULL) Hb), <- app_assoc, simple_strtol_fmt_d by (done || lia).
  simpl. by rewrite (s32_id v) by lia.
Qed.

(** ** A sample configuration: "12,5,t" written after the first pass *)
Definition sample_boot : injector := (inject_global 4096 true true true true injector_boot).2.
Definition sample_inj : injector :=
  match proc_write_idlePid 8192 (Some (bytes "12,5,t")) [10] 6 sample_boot with
  | Done (_, st) => st
  | Oops => sample_boot
  end.

Lemma sample_boot_ok : inj_ok sample_boot.
Proof. by apply inject_global_boot. Qed.

Lemma sample_inj_ok : inj_ok sample_inj.
Proof.
  apply (proc_write_idlePid_ok sample_boot 8192 (Some (bytes "12,5,t")) [10] 6 6);
    [apply sample_boot_ok|vm_compute; reflexivity..|vm_compute; discriminate|vm_compute; reflexivity].
Qed.

Lemma inject_pid_rate_witness :
  let '(idles, st') := passes 7 (inject_pid 12 12) sample_inj in
  idles = 1 ∧ contents st' = [mk_pid_list 12 5 2 116] ∧ inj_ok st'.
Proof.
  apply (inject_pid_rate sample_inj 12 12 [] [] (mk_pid_list 12 5 0 116) 7);
    [apply sample_inj_ok|vm_compute; reflexivity|vm_compute; reflexivity|constructor].
Defined.

Lemma inject_global_rate_witness :
  let '(idles, st') := passes 10 (inject_global 4096 true true true true) (sample_inj <| global_rate := 4 |>) in
  idles = 2 ∧ idle_cycles_offset st' = 3.
Proof.
  assert (inj_ok (sample_inj <| global_rate := 4 |>)) as Hok.
  { destruct sample_inj_ok as [[Hd Hl Hh] He Hr Ho Hi].
    apply (inj_ok_intro _ (entries sample_inj)); [by split|done|simpl; lia|split; vm_compute; congruence|done]. }
  destruct (inject_global_rate _ 4096 true true true 10 Hok) as [H _].
  destruct (passes 10 _ _) as [idles st']. destruct H as [-> ->]. split; vm_compute; reflexivity.
Defined.

Lemma injector_invariant_witness : inj_ok sample_inj.
Proof.
  apply injector_invariant.
  apply (reach_write_pid sample_boot sample_inj 8192 (Some (bytes "12,5,t")) [10] 6 6);
    [apply (reach_boot 4096 true true true true); discriminate|vm_compute; reflexivity
    |vm_compute; discriminate|vm_compute; reflexivity].
Defined.

Lemma proc_write_idlePid_refines_witness :
  ∃ st', proc_write_idlePid 16384 (Some (bytes "-12,9,t")) [] 7 sample_inj = Done (7, st') ∧
         inj_ok st' ∧ contents st' = [].
Proof.
  assert (int_ok (-12) ∧ int_ok 9) as [H1 H2] by (unfold int_ok; lia).
  destruct (proc_write_idlePid_refines sample_inj 16384 (-12) 9 116 7 [] [] []
    sample_inj_ok eq_refl ltac:(vm_compute; discriminate) H1 H2 ltac:(discriminate) I eq_refl)
    as [(st' & E & Hok & Hc) _].
  exists st'. split_and!; [exact E|exact Hok|]. rewrite Hc. vm_compute. reflexivity.
Defined.

Lemma proc_write_idleGlobal_spec_witness :
  proc_write_idleGlobal 4096 (Some (bytes "17")) [10] 2 sample_inj =
    Done (2, sample_inj <| global_rate := 17 |> <| idle_cycles_offset := 0 |>).
Proof.
  assert (stops ([] ++ [10])) as Hs by (left; split; vm_compute; reflexivity).
  exact (proj1 (proc_write_idleGlobal_spec sample_inj 4096 17 2 [] [10]
                  ltac:(unfold int_ok; lia) Hs ltac:(discriminate))).
Defined.

(** ** What the handlers do wrong *)


(** The buffer is not NUL-terminated: the limit of "12,5" depends on the bytes
    that happen to follow the allocation. *)
Theorem idlePid_buffer_overread :
  ∃ junk1 junk2 st1 st2,
    proc_write_idlePid 8192 (Some (bytes "12,5")) junk1 4 sample_boot = Done (4, st1) ∧
    proc_write_idlePid 8192 (Some (bytes "12,5")) junk2 4 sample_boot = Done (4, st2) ∧
    contents st1 = [mk_pid_list 12 5 0 116] ∧ contents st2 = [mk_pid_list 12 57 0 116].
Proof. exists [0], [55]. eexists _, _. vm_compute. done. Qed.

(** Removing an entry frees it but leaks the object allocated for the request:
    it stays live and is in no list. *)
Theorem idlePid_remove_leaks :
  ∃ st', proc_write_idlePid 16384 (Some (bytes "-12,9")) [0] 5 sample_inj = Done (5, st') ∧
         contents st' = [] ∧ is_Some (pids st' !! 16384) ∧ 16384 ∉ entries st'.
Proof.
  eexists. split; [vm_compute; reflexivity|]. split; [vm_compute; reflexivity|].
  split; [by eexists|]. vm_compute. by intros ?%elem_of_nil.
Qed.

(** ** The unsynchronised counter

    [schedule] updates [idle_cycles_offset] under the run queue lock and
    [proc_write_idleGlobal] under [global_write_lock], so their memory accesses
    interleave.  The scheduler's accesses, with its two registers: *)
Record regs := mk_regs { r_value : Z; r_offset : Z }.

Inductive access :=
  | LoadRate | LoadOffset | StoreOffset | Decide
  | WriteRate (v : Z) | WriteOffset.

Definition run_access (a : access) (s : injector * regs * bool) : injector * regs * bool :=
  let '(st, r, idle) := s in
  match a with
  | LoadRate => (st, mk_regs (global_rate st) (r_offset r), idle)
  | LoadOffset => (st, mk_regs (r_value r) (idle_cycles_offset st), idle)
  | StoreOffset => (st <| idle_cycles_offset := s32 (r_offset r + 1) |>, r, idle)
  | Decide =>
      if idle_cycles_offset st =? r_value r
      then (st <| idle_cycles_offset := 0 |>, r, true) else (st, r, false)
  | WriteRate v => (st <| global_rate := v |>, r, idle)
  | WriteOffset => (st <| idle_cycles_offset := 0 |>, r, idle)
  end.

Definition pass_accesses : list access := [LoadRate; LoadOffset; StoreOffset; Decide].
Definition write_accesses (v : Z) : list access := [WriteRate v; WriteOffset].

(** [interleave xs ys zs]: [zs] is a merge of [xs] and [ys]. *)
Inductive interleave {A : Type} : list A → list A → list A → Prop :=
  | int_nil : interleave [] [] []
  | int_l x xs ys zs : interleave xs ys zs → interleave (x :: xs) ys (x :: zs)
  | int_r y xs ys zs : interleave xs ys zs → interleave xs (y :: ys) (y :: zs).

Definition run_accesses (s : injector * regs * bool) (l : list access) : injector * regs * bool :=
  fold_left (λ s a, run_access a s) l s.

(** A pass that finds tasks queued is the sequence of its accesses. *)
Lemma pass_accesses_spec head dir fg fp st r b :
  is_init st = 0 →
  let '(st', _, idle) := run_accesses (st, r, b) pass_accesses in
  inject_global head dir fg fp true st = (idle, st').
Proof.
  intros Hi. unfold run_accesses, inject_global. simpl. rewrite Hi. unfold update. simpl.
  by destruct (_ =? _).
Qed.

(** While the counter is past the rate, no pass injects. *)
Lemma past_rate_starves head dir fg fp (n : nat) st :
  is_init st = 0 → 2 ≤ global_rate st < idle_cycles_offset st →
  idle_cycles_offset st + Z.of_nat n < 0x80000000 →
  (passes n (inject_global head dir fg fp true) st).1 = 0.
Proof.
  revert st. induction n as [|n IH]; intros st Hi Hr Hn; [done|]. cbn [passes].
  unfold inject_global at 1. rewrite Hi. unfold update. simpl. rewrite s32_id by lia.
  rewrite (proj2 (Z.eqb_neq _ _)) by lia.
  set (st1 := mk_injector _ _ _ _ _ _ _ _).
  pose proof (IH st1) as IH1. destruct (passes n _ st1) as [k st']. simpl in *.
  rewrite IH1; [done|done|lia|lia].
Qed.

(** C39. Because the counter is not protected by one lock, a rate change can be
    lost against a running pass: starting with a counter at or above the new
    rate, some interleaving of the two ends with the counter past the new rate,
    and then no pass injects until the counter has run through the positive
    integers (or the queue empties).  Run one after the other, the two never do
    that. *)
Theorem rate_change_race (st : injector) (v : Z) (r : regs) :
  inj_ok st → 2 ≤ v ≤ idle_cycles_offset st → idle_cycles_offset st + 1 < global_rate st →
  (∃ zs st' r' b, interleave pass_accesses (write_accesses v) zs ∧
     run_accesses (st, r, false) zs = (st', r', b) ∧
     global_rate st' = v ∧ v < idle_cycles_offset st' ∧
     ∀ head dir fg fp n, idle_cycles_offset st' + Z.of_nat n < 0x80000000 →
       (passes n (inject_global head dir fg fp true) st').1 = 0) ∧
  (∀ zs, zs = pass_accesses ++ write_accesses v ∨ zs = write_accesses v ++ pass_accesses →
     inj_ok (run_accesses (st, r, false) zs).1.1).
Proof.
  intros Hok Hv Ho. pose proof Hok as [_ _ Hr Hoff Hi]. split.
  - exists [LoadRate; LoadOffset; WriteRate v; WriteOffset; StoreOffset; Decide].
    exists (st <| global_rate := v |> <| idle_cycles_offset := idle_cycles_offset st + 1 |>),
      (mk_regs (global_rate st) (idle_cycles_offset st)), false.
    split; [repeat constructor|].
    split; [|split_and!; [| |intros; apply past_rate_starves; [done| |done]]].
    + unfold run_accesses, update. simpl. rewrite (s32_id (idle_cycles_offset st + 1)) by lia.
      rewrite (proj2 (Z.eqb_neq _ _)) by lia. done.
    + done.
    + simpl. lia.
    + simpl. lia.
  - assert (∀ st1, inj_ok st1 → inj_ok (st1 <| global_rate := v |> <| idle_cycles_offset := 0 |>)) as Hw.
    { intros st1 [[Hd Hl Hh] He Hr1 Ho1 Hi1].
      apply (inj_ok_intro _ (entries st1)); simpl; [by split|done|lia|lia|done]. }
    assert (∀ st1 r1 b1, inj_ok st1 → inj_ok (run_accesses (st1, r1, b1) pass_accesses).1.1) as Hp.
    { intros st1 r1 b1 Hok1. pose proof (pass_accesses_spec 1 true true true st1 r1 b1 (ok_init _ Hok1)) as E.
      pose proof (inject_global_ok 1 true true true true st1 Hok1) as Hg.
      destruct (run_accesses (st1, r1, b1) pass_accesses) as [[st2 r2] b2]. by rewrite E in Hg. }
    intros zs [-> | ->]; unfold run_accesses; rewrite fold_left_app; fold (run_accesses (st, r, false) pass_accesses).
    + specialize (Hp st r false Hok). destruct (run_accesses (st, r, false) pass_accesses) as [[st2 r2] b2].
      apply (Hw st2 Hp).
    + apply (Hp _ r false), (Hw st Hok).
Qed.

Lemma rate_change_race_witness :
  ∃ zs st' r' b, interleave pass_accesses (write_accesses 10) zs ∧
    run_accesses (sample_inj <| idle_cycles_offset := 1500 |>, mk_regs 0 0, false) zs = (st', r', b) ∧
    global_rate st' = 10 ∧ 10 < idle_cycles_offset st'.
Proof.
  assert (inj_ok (sample_inj <| idle_cycles_offset := 1500 |>)) as Hok.
  { apply offset_ok; [apply sample_inj_ok|split; vm_compute; congruence]. }
  destruct (rate_change_race _ 10 (mk_regs 0 0) Hok ltac:(simpl; lia)
              ltac:(vm_compute; reflexivity)) as [(zs & st' & r' & b & H1 & H2 & H3 & H4 & _) _].
  exists zs, st', r', b. split_and!; [exact H1|exact H2|exact H3|exact H4].
Defined.
