(* ===== verification/SchedTypes.v ===== *)
(** * The scheduler's data: kernel/sched_bfs.c and include/linux/sched.h

    Priorities, policies and task states; the fields of [struct task_struct]
    that the scheduler uses, [struct rq], [struct global_rq] and the state
    [sched] that all the operations transform.  A [struct rq] is reached by its
    CPU number ([cpu_rq(cpu)]), a task by its address.

    The kernel configuration is CONFIG_SMP, CONFIG_HOTPLUG_CPU and 64BIT, without
    SCHEDSTATS, TASK_DELAY_ACCT, TASK_XACCT, PARAVIRT, PREEMPT_NOTIFIERS and
    DEBUG options; the remaining choices, and the code the scheduler calls
    outside its own file, are the fields of the class [Config].

    The global run queue holds a list of task addresses per priority; ListHead.v
    shows that the linked lists of the source implement such lists.  A [cpumask_t] is a
    [Z] whose bit [i] is CPU [i]. *)

From S2P Require Export Prelude Bitops.
From S2P Require Import Injector.

(** ** include/linux/sched.h *)
Definition SCHED_NORMAL : Z := 0.
Definition SCHED_FIFO : Z := 1.
Definition SCHED_RR : Z := 2.
Definition SCHED_BATCH : Z := 3.
Definition SCHED_ISO : Z := 4.
Definition SCHED_IDLEPRIO : Z := 5.
Definition SCHED_MAX : Z := SCHED_IDLEPRIO.
Definition SCHED_RANGE (policy : Z) : bool := policy <=? SCHED_MAX.
Definition SCHED_RESET_ON_FORK : Z := 0x40000000.

Definition MAX_USER_RT_PRIO : Z := 100.
Definition MAX_RT_PRIO : Z := MAX_USER_RT_PRIO + 1.
Definition PRIO_RANGE : Z := 40.
Definition MAX_PRIO : Z := MAX_RT_PRIO + PRIO_RANGE.
Definition ISO_PRIO : Z := MAX_RT_PRIO.
Definition NORMAL_PRIO : Z := MAX_RT_PRIO + 1.
Definition IDLE_PRIO : Z := MAX_RT_PRIO + 2.
Definition PRIO_LIMIT : Z := IDLE_PRIO + 1.

Definition TASK_RUNNING : Z := 0.
Definition TASK_INTERRUPTIBLE : Z := 1.
Definition TASK_UNINTERRUPTIBLE : Z := 2.
Definition __TASK_STOPPED : Z := 4.
Definition __TASK_TRACED : Z := 8.
Definition TASK_DEAD : Z := 64.
Definition TASK_WAKEKILL : Z := 128.
Definition TASK_NORMAL : Z := Z.lor TASK_INTERRUPTIBLE TASK_UNINTERRUPTIBLE.
Definition TASK_ALL : Z := Z.lor (Z.lor TASK_NORMAL __TASK_STOPPED) __TASK_TRACED.

Definition PF_EXITING : Z := 0x4.
Definition PF_VCPU : Z := 0x10.
Definition PF_WQ_WORKER : Z := 0x20.
Definition PF_FREEZING : Z := 0x4000.

(** ** include/linux/hardirq.h, arch/x86/include/asm/thread_info.h *)
Definition SOFTIRQ_MASK : Z := 0x0000ff00.
Definition HARDIRQ_MASK : Z := 0x03ff0000.
Definition NMI_MASK : Z := 0x04000000.
Definition SOFTIRQ_OFFSET : Z := 0x00000100.
Definition HARDIRQ_OFFSET : Z := 0x00010000.
Definition PREEMPT_ACTIVE : Z := 0x10000000.

(** ** Data *)
Record task_struct := mk_task {
  state : Z;
  flags : Z;
  on_cpu : bool;
  prio : Z;
  static_prio : Z;
  normal_prio : Z;
  rt_priority : Z;
  policy : Z;
  deadline : Z;
  time_slice : Z;
  last_ran : Z;
  sticky : bool;
  cpus_allowed : Z;
  task_cpu : Z;
  need_resched : bool;        (* TIF_NEED_RESCHED *)
  polling : bool;             (* TIF_POLLING_NRFLAG *)
  freezing : bool;            (* TIF_FREEZE *)
  signal_pending : bool;      (* TIF_SIGPENDING *)
  sigkill_pending : bool;     (* SIGKILL in pending.signal *)
  preempt_count : Z;
  pid : Z;
  tgid : Z;
  parent : Z;
  signal : Z;
  mm : Z;
  active_mm : Z;
  usage : Z;
  exit_state : Z;
  sched_reset_on_fork : bool;
  sched_time : Z;
  utime_pc : Z;
  stime_pc : Z;
  utime : Z;
  stime : Z;
  gtime : Z;
  nvcsw : Z;
  nivcsw : Z;
  plugged : bool;             (* blk_needs_flush_plug *)
}.
#[export] Instance eta_task_struct : Eta task_struct :=
  ctor mk_task <+> state <+> flags <+> on_cpu <+> prio <+> static_prio <+> normal_prio
    <+> rt_priority <+> policy <+> deadline <+> time_slice <+> last_ran <+> sticky
    <+> cpus_allowed <+> task_cpu <+> need_resched <+> polling <+> freezing <+> signal_pending
    <+> sigkill_pending <+> preempt_count <+> pid <+> tgid <+> parent <+> signal <+> mm
    <+> active_mm <+> usage <+> exit_state <+> sched_reset_on_fork <+> sched_time <+> utime_pc
    <+> stime_pc <+> utime <+> stime <+> gtime <+> nvcsw <+> nivcsw <+> plugged.
#[export] Instance task_struct_inhabited : Inhabited task_struct :=
  populate (mk_task 0 0 false 0 0 0 0 0 0 0 0 false 0 0 false false false false false 0 0 0 0 0
              0 0 0 0 false 0 0 0 0 0 0 0 0 false).

(** [rq->siblings_idle] and [rq->cache_idle] hold one of three functions. *)
Inductive idle_fn := SoleCpuIdle | SiblingsCpuIdle | CacheCpuIdle.

(** A scheduling domain.  Its parent and child are its neighbours in the chain of
    its CPU; [sd_groups] is its group in the memory of groups (Domains.v). *)
Record sched_domain := mk_sd {
  sd_flags : Z;
  sd_level : Z;
  sd_private : nat;           (* the level of the topology it belongs to *)
  sd_span : Z;
  sd_groups : nat * Z * Z;
  span_weight : Z;
}.
#[export] Instance eta_sched_domain : Eta sched_domain :=
  ctor mk_sd <+> sd_flags <+> sd_level <+> sd_private <+> sd_span <+> sd_groups <+> span_weight.

Record root_domain := mk_rd { rd_refcount : Z; rd_span : Z; rd_online : Z }.
#[export] Instance eta_root_domain : Eta root_domain := ctor mk_rd <+> rd_refcount <+> rd_span <+> rd_online.
#[export] Instance root_domain_inhabited : Inhabited root_domain := populate (mk_rd 0 0 0).

Record rq := mk_rq {
  curr : Z;
  idle : Z;
  stop : Z;
  prev_mm : Z;
  rq_deadline : Z;
  rq_policy : Z;
  rq_time_slice : Z;
  rq_last_ran : Z;
  rq_prio : Z;
  rq_running : bool;
  timekeep_clock : Z;
  user_pc : Z;
  nice_pc : Z;
  irq_pc : Z;
  softirq_pc : Z;
  system_pc : Z;
  iowait_pc : Z;
  idle_pc : Z;
  account_pc : Z;
  nr_iowait : Z;
  online : bool;
  scaling : bool;
  sticky_task : Z;
  rd : Z;
  sd : list sched_domain;     (* from the lowest domain upwards *)
  cpu_locality : list Z;
  siblings_idle : idle_fn;
  smt_siblings : Z;
  cache_idle : idle_fn;
  cache_siblings : Z;
  last_niffy : Z;
  prev_irq_time : Z;
  clock : Z;
  old_clock : Z;
  last_tick : Z;
  clock_task : Z;
  dither : bool;
}.
#[export] Instance eta_rq : Eta rq :=
  ctor mk_rq <+> curr <+> idle <+> stop <+> prev_mm <+> rq_deadline <+> rq_policy
    <+> rq_time_slice <+> rq_last_ran <+> rq_prio <+> rq_running <+> timekeep_clock <+> user_pc
    <+> nice_pc <+> irq_pc <+> softirq_pc <+> system_pc <+> iowait_pc <+> idle_pc <+> account_pc
    <+> nr_iowait <+> online <+> scaling <+> sticky_task <+> rd <+> sd <+> cpu_locality <+> siblings_idle
    <+> smt_siblings <+> cache_idle <+> cache_siblings <+> last_niffy <+> prev_irq_time <+> clock
    <+> old_clock <+> last_tick <+> clock_task <+> dither.
#[export] Instance rq_inhabited : Inhabited rq :=
  populate (mk_rq 0 0 0 0 0 0 0 0 0 false 0 0 0 0 0 0 0 0 0 0 false false 0 0 [] [] SoleCpuIdle 0
              SoleCpuIdle 0 0 0 0 0 0 0 false).

Record global_rq := mk_global_rq {
  nr_running : Z;
  nr_uninterruptible : Z;
  nr_switches : Z;
  queue : gmap Z (list Z);
  prio_bitmap : bitmap;
  qnr : Z;
  cpu_idle_map : Z;
  idle_cpus : bool;
  noc : Z;
  niffies : Z;
  last_jiffy : Z;
  iso_ticks : Z;
  iso_refractory : bool;
}.
#[export] Instance eta_global_rq : Eta global_rq :=
  ctor mk_global_rq <+> nr_running <+> nr_uninterruptible <+> nr_switches <+> queue
    <+> prio_bitmap <+> qnr <+> cpu_idle_map <+> idle_cpus <+> noc <+> niffies <+> last_jiffy
    <+> iso_ticks <+> iso_refractory.

(** [kstat_cpu(cpu).cpustat] and [signal->cputimer]. *)
Record cpu_usage_stat := mk_cpustat {
  st_user : Z; st_nice : Z; st_system : Z; st_softirq : Z; st_irq : Z; st_idle : Z;
  st_iowait : Z; st_steal : Z; st_guest : Z; st_guest_nice : Z;
}.
#[export] Instance eta_cpustat : Eta cpu_usage_stat :=
  ctor mk_cpustat <+> st_user <+> st_nice <+> st_system <+> st_softirq <+> st_irq <+> st_idle
    <+> st_iowait <+> st_steal <+> st_guest <+> st_guest_nice.
#[export] Instance cpustat_inhabited : Inhabited cpu_usage_stat :=
  populate (mk_cpustat 0 0 0 0 0 0 0 0 0 0).

Record thread_group_cputimer := mk_cputimer { running : bool; cpt_utime : Z; cpt_stime : Z }.
#[export] Instance eta_cputimer : Eta thread_group_cputimer :=
  ctor mk_cputimer <+> running <+> cpt_utime <+> cpt_stime.
#[export] Instance cputimer_inhabited : Inhabited thread_group_cputimer :=
  populate (mk_cputimer false 0 0).

(** ** The state *)
Record sched := mk_sched {
  tasks : gmap Z task_struct;
  runqueues : gmap Z rq;
  grq : global_rq;
  inj : injector;
  jiffies : Z;
  sched_clock_cpu : gmap Z Z;     (* what sched_clock_cpu(cpu) reads now *)
  cpu_online_map : Z;
  cpu_active_mask : Z;
  rr_interval : Z;
  sched_iso_cpu : Z;
  prio_ratios : list Z;
  kstat : gmap Z cpu_usage_stat;
  cputimers : gmap Z thread_group_cputimer;
  mm_count : gmap Z Z;
  root_domains : gmap Z root_domain;
  ipis : list Z;                  (* CPUs sent a reschedule interrupt, latest first *)
}.
#[export] Instance eta_sched : Eta sched :=
  ctor mk_sched <+> tasks <+> runqueues <+> grq <+> inj <+> jiffies <+> sched_clock_cpu
    <+> cpu_online_map <+> cpu_active_mask <+> rr_interval <+> sched_iso_cpu <+> prio_ratios
    <+> kstat <+> cputimers <+> mm_count <+> root_domains <+> ipis.

(** Build-time configuration and external code: the number of CPU ids, the
    tick rate, the scheduling-domain options, the workqueue hooks, the ksoftirqd
    thread of a CPU, and what [kmalloc] and procfs answered when the injector was
    initialised. *)
Class Config := {
  HZ : Z;
  nr_cpu_ids : Z;
  CONFIG_NUMA : bool;
  CONFIG_SCHED_MC : bool;
  CONFIG_SCHED_SMT : bool;
  wq_worker_sleeping : Z → Z → Z;
  ksoftirqd : Z → Z;
  pidList_addr : Z;
  proc_dir : bool;
  proc_global : bool;
  proc_pid : bool;
}.

(** A concrete configuration: 250 Hz, four CPUs, no external wakeups. *)
Definition sample_config : Config := {|
  HZ := 250; nr_cpu_ids := 4; CONFIG_NUMA := true; CONFIG_SCHED_MC := true;
  CONFIG_SCHED_SMT := true; wq_worker_sleeping := λ _ _, NULL; ksoftirqd := λ _, NULL;
  pidList_addr := 0x9000; proc_dir := true; proc_global := true; proc_pid := true;
|}.

(** ** Access *)
Definition task (s : sched) (p : Z) : task_struct := tasks s !!! p.
Definition cpu_rq (s : sched) (cpu : Z) : rq := runqueues s !!! cpu.
Definition upd_task (p : Z) (f : task_struct → task_struct) (s : sched) : sched :=
  s <| tasks ::= λ m, mem_upd m p f |>.
Definition upd_rq (cpu : Z) (f : rq → rq) (s : sched) : sched :=
  s <| runqueues ::= λ m, mem_upd m cpu f |>.
Definition upd_grq (f : global_rq → global_rq) (s : sched) : sched := s <| grq ::= f |>.
Definition upd_stat (cpu : Z) (f : cpu_usage_stat → cpu_usage_stat) (s : sched) : sched :=
  s <| kstat ::= λ m, mem_upd m cpu f |>.

(** The run list of a priority. *)
Definition queue_of (s : sched) (i : Z) : list Z := queue (grq s) !!! i.

(** ** Macros of kernel/sched_bfs.c, lines 96-141 *)
Definition rt_prio (prio : Z) : bool := prio <? MAX_RT_PRIO.
Definition rt_task (p : task_struct) : bool := rt_prio (prio p).
Definition rt_queue (rq : rq) : bool := rt_prio (rq_prio rq).
Definition batch_task (p : task_struct) : bool := policy p =? SCHED_BATCH.
Definition is_rt_policy (policy : Z) : bool := (policy =? SCHED_FIFO) || (policy =? SCHED_RR).
Definition has_rt_policy (p : task_struct) : bool := is_rt_policy (policy p).
Definition idleprio_task (p : task_struct) : bool := policy p =? SCHED_IDLEPRIO.
Definition iso_task (p : task_struct) : bool := policy p =? SCHED_ISO.
Definition iso_queue (rq : rq) : bool := rq_policy rq =? SCHED_ISO.
Definition rq_idle (rq : rq) : bool := rq_prio rq =? PRIO_LIMIT.

Definition NICE_TO_PRIO (nice : Z) : Z := MAX_RT_PRIO + nice + 20.
Definition PRIO_TO_NICE (prio : Z) : Z := prio - MAX_RT_PRIO - 20.
Definition TASK_NICE (p : task_struct) : Z := PRIO_TO_NICE (static_prio p).
Definition USER_PRIO (p : Z) : Z := p - MAX_RT_PRIO.
Definition TASK_USER_PRIO (p : task_struct) : Z := USER_PRIO (static_prio p).

Section macros.
Context `{Config}.
Definition ISO_PERIOD (g : global_rq) : Z := s32 (s32 (5 * HZ * noc g) + 1).
Definition JIFFY_NS : Z := 1000000000 / HZ.
Definition JIFFIES_TO_NS (TIME : Z) : Z := s32 (TIME * JIFFY_NS).
Definition HALF_JIFFY_NS : Z := 1000000000 / HZ / 2.
Definition HALF_JIFFY_US : Z := 1000000 / HZ / 2.
End macros.
Definition MS_TO_NS (TIME : Z) : Z := s32 (Z.shiftl TIME 20).
Definition MS_TO_US (TIME : Z) : Z := s32 (Z.shiftl TIME 10).
Definition NS_TO_MS (TIME : Z) : Z := Z.shiftr TIME 20.
Definition NS_TO_US (TIME : Z) : Z := Z.shiftr TIME 10.
Definition RESCHED_US : Z := 100.

Definition timeslice (s : sched) : Z := MS_TO_US (rr_interval s).

(** ** CPU masks *)
Definition cpu_isset (cpu mask : Z) : bool := Z.testbit mask cpu.
Definition cpus_and (a b : Z) : Z := Z.land a b.
Definition cpus_empty (mask : Z) : bool := mask =? 0.
Definition cpus_intersects (a b : Z) : bool := negb (Z.land a b =? 0).
Definition cpumask_subset (a b : Z) : bool := Z.ldiff a b =? 0.
Definition cpu_online (s : sched) (cpu : Z) : bool := cpu_isset cpu (cpu_online_map s).
(** [for_each_cpu_mask]: the set bits below [nr_cpu_ids], in order. *)
Definition cpus_in `{Config} (mask : Z) : list Z :=
  filter (λ c, Z.testbit mask c = true) (seqZ 0 nr_cpu_ids).

(** [task_contributes_to_load] of include/linux/sched.h. *)
Definition task_contributes_to_load (p : task_struct) : bool :=
  negb (Z.land (state p) TASK_UNINTERRUPTIBLE =? 0) && (Z.land (flags p) PF_FREEZING =? 0).

Definition signal_pending_state (st : Z) (p : task_struct) : bool :=
  if Z.land st (Z.lor TASK_INTERRUPTIBLE TASK_WAKEKILL) =? 0 then false
  else if negb (signal_pending p) then false
  else negb (Z.land st TASK_INTERRUPTIBLE =? 0) || sigkill_pending p.

(** ** Reading after writing *)
Lemma task_upd_task s p q f :
  task (upd_task p f s) q = if decide (p = q) then f (task s p) else task s q.
Proof. apply mem_upd_get. Qed.
Lemma task_upd_task_eq s p f : task (upd_task p f s) p = f (task s p).
Proof. apply mem_upd_eq. Qed.
Lemma task_upd_task_ne s p q f : p ≠ q → task (upd_task p f s) q = task s q.
Proof. apply mem_upd_ne. Qed.
Lemma cpu_rq_upd_rq s c d f :
  cpu_rq (upd_rq c f s) d = if decide (c = d) then f (cpu_rq s c) else cpu_rq s d.
Proof. apply mem_upd_get. Qed.
Lemma cpu_rq_upd_rq_eq s c f : cpu_rq (upd_rq c f s) c = f (cpu_rq s c).
Proof. apply mem_upd_eq. Qed.
Lemma cpu_rq_upd_rq_ne s c d f : c ≠ d → cpu_rq (upd_rq c f s) d = cpu_rq s d.
Proof. apply mem_upd_ne. Qed.

(** A field the update does not touch. *)
Lemma task_upd_proj {B} (g : task_struct → B) s p q f :
  (∀ x, g (f x) = g x) → g (task (upd_task p f s) q) = g (task s q).
Proof. apply mem_upd_proj. Qed.
Lemma rq_upd_proj {B} (g : rq → B) s c d f :
  (∀ x, g (f x) = g x) → g (cpu_rq (upd_rq c f s) d) = g (cpu_rq s d).
Proof. apply mem_upd_proj. Qed.

Lemma cpus_in_spec `{Config} mask c : c ∈ cpus_in mask ↔ 0 ≤ c < nr_cpu_ids ∧ Z.testbit mask c = true.
Proof. unfold cpus_in. rewrite list_elem_of_filter, elem_of_seqZ. naive_solver lia. Qed.
