(* ===== verification/Clock.v ===== *)
(** * Clocks and deadlines of kernel/sched_bfs.c

    [update_rq_clock], [niffy_diff] and [update_clocks] keep [rq->clock] and the
    global nanosecond counter [grq.niffies]; [prio_ratios], [prio_deadline_diff]
    and [time_slice_expired] turn a nice level into a virtual deadline.

    The theorems: whatever the hardware clock reads, niffies advance by at least
    one and by no more than the jiffies allow, as long as the jiffy difference
    does not overflow an [int] of nanoseconds (and they go backwards when it
    does); deadlines are ordered by nice level for every round-robin interval
    up to 50 ms (and overflow for larger settings of the sysctl). *)

From S2P Require Import Injector.
From S2P Require Export SchedTypes.

Section clock.
Context `{Config}.

Definition niffy_diff (niff_diff jiff_diff : Z) : Z :=
  let min_diff := if 1 <? jiff_diff then u64 (JIFFIES_TO_NS (s32 (jiff_diff - 1))) else 1 in
  let max_diff := u64 (JIFFIES_TO_NS (s32 (jiff_diff + 1))) in
  if (u64 niff_diff <? min_diff) || (max_diff <? u64 niff_diff) then s64 min_diff else niff_diff.

(** Without CONFIG_IRQ_TIME_ACCOUNTING and CONFIG_PARAVIRT_TIME_ACCOUNTING. *)
Definition update_rq_clock_task (cpu delta : Z) (s : sched) : sched :=
  upd_rq cpu (λ r, r <| clock_task ::= λ c, u64 (c + delta) |>) s.

Definition update_rq_clock (cpu : Z) (s : sched) : sched :=
  let delta := s64 (sched_clock_cpu s !!! cpu - clock (cpu_rq s cpu)) in
  let s := upd_rq cpu (λ r, r <| clock ::= λ c, u64 (c + delta) |>) s in
  update_rq_clock_task cpu delta s.

Definition update_clocks (cpu : Z) (s : sched) : sched :=
  let s := update_rq_clock cpu s in
  let ndiff := s64 (clock (cpu_rq s cpu) - old_clock (cpu_rq s cpu)) in
  let s := upd_rq cpu (λ r, r <| old_clock := clock r |>) s in
  let ndiff := s64 (ndiff - (niffies (grq s) - last_niffy (cpu_rq s cpu))) in
  let jdiff := s64 (jiffies s - last_jiffy (grq s)) in
  let ndiff := niffy_diff ndiff (s32 jdiff) in
  let s := upd_grq (λ g, g <| last_jiffy ::= λ j, u64 (j + jdiff) |>
                           <| niffies ::= λ n, u64 (n + ndiff) |>) s in
  upd_rq cpu (λ r, r <| last_niffy := niffies (grq s) |>) s.

(** ** Deadlines *)
Definition deadline_before (deadline time : Z) : bool := deadline <? time.
Definition deadline_after (deadline time : Z) : bool := time <? deadline.

(** The first loop of [sched_init]. *)
Fixpoint init_prio_ratios (n : nat) : list Z :=
  match n with
  | O => []
  | S O => [128]
  | S n => let l := init_prio_ratios n in l ++ [Z.quot (s32 (List.last l 0 * 11)) 10]
  end.

Definition prio_deadline_diff (s : sched) (user_prio : Z) : Z :=
  u64 (s32 (s32 (prio_ratios s !!! Z.to_nat user_prio * rr_interval s) * (MS_TO_NS 1 / 128))).
Definition task_deadline_diff (s : sched) (p : task_struct) : Z :=
  prio_deadline_diff s (TASK_USER_PRIO p).
Definition static_deadline_diff (s : sched) (static_prio : Z) : Z :=
  prio_deadline_diff s (USER_PRIO static_prio).
Definition longest_deadline_diff (s : sched) : Z := s32 (prio_deadline_diff s 39).
Definition ms_longest_deadline_diff (s : sched) : Z := NS_TO_MS (longest_deadline_diff s).

Definition task_prio_ratio (s : sched) (p : task_struct) : Z :=
  prio_ratios s !!! Z.to_nat (TASK_USER_PRIO p).
Definition task_timeslice (s : sched) (p : task_struct) : Z :=
  Z.quot (s32 (rr_interval s * task_prio_ratio s p)) 128.

Definition time_slice_expired (p : Z) (s : sched) : sched :=
  let s := upd_task p (λ t, t <| time_slice := timeslice s |>) s in
  upd_task p (λ t, t <| deadline := u64 (niffies (grq s) + task_deadline_diff s (task s p)) |>) s.

Definition check_deadline (p : Z) (s : sched) : sched :=
  if (time_slice (task s p) <? RESCHED_US) || batch_task (task s p)
  then time_slice_expired p s else s.

(** ** Niffies *)

(** [JIFFIES_TO_NS] fits an [int] up to this many jiffies. *)
Definition jiffies_fit (j : Z) : Prop := 0 ≤ j ∧ (j + 1) * JIFFY_NS < 0x80000000.

Lemma niffy_diff_bounds niff_diff jiff_diff :
  0 < JIFFY_NS → jiffies_fit jiff_diff → -0x8000000000000000 ≤ niff_diff < 0x8000000000000000 →
  let lo := if 1 <? jiff_diff then (jiff_diff - 1) * JIFFY_NS else 1 in
  let hi := (jiff_diff + 1) * JIFFY_NS in
  niffy_diff niff_diff jiff_diff =
    (if decide (lo ≤ niff_diff ≤ hi) then niff_diff else lo) ∧ 1 ≤ lo ≤ hi.
Proof.
  intros HJ [Hj Hfit] Hn. unfold niffy_diff, JIFFIES_TO_NS. cbv zeta.
  assert (jiff_diff < 0x80000000 - 1) by nia.
  rewrite (s32_id (jiff_diff + 1)) by lia.
  set (a := (jiff_diff - 1) * JIFFY_NS). set (b := (jiff_diff + 1) * JIFFY_NS).
  assert (b = a + 2 * JIFFY_NS) by (subst a b; lia).
  rewrite (s32_id b), (u64_id b) by (subst b; lia).
  destruct (Z.ltb_spec 1 jiff_diff).
  - assert (1 ≤ a) by (subst a; nia).
    rewrite (s32_id (jiff_diff - 1)) by lia. fold a. rewrite (s32_id a), (u64_id a) by (subst a; lia).
    split; [|lia]. rewrite (s64_id a) by lia.
    destruct (Z.ltb_spec (u64 niff_diff) a), (Z.ltb_spec b (u64 niff_diff));
      case_decide; cbn [orb]; try done; exfalso; wrap.
  - assert (1 ≤ b) by (subst b; nia). split; [|lia]. rewrite (s64_id 1) by lia.
    destruct (Z.ltb_spec (u64 niff_diff) 1), (Z.ltb_spec b (u64 niff_diff));
      case_decide; cbn [orb]; try done; exfalso; wrap.
Qed.

Lemma update_rq_clock_spec cpu s :
  0 ≤ sched_clock_cpu s !!! cpu < 0x10000000000000000 →
  clock (cpu_rq (update_rq_clock cpu s) cpu) = sched_clock_cpu s !!! cpu ∧
  grq (update_rq_clock cpu s) = grq s.
Proof.
  intros Hc. unfold update_rq_clock, update_rq_clock_task. split; [|done].
  rewrite !cpu_rq_upd_rq_eq. simpl. wrap.
Qed.

(** The nanoseconds [update_clocks] adds to [grq.niffies]. *)
Definition niffies_added (cpu : Z) (s : sched) : Z :=
  niffy_diff (s64 (s64 (clock (cpu_rq (update_rq_clock cpu s) cpu) -
                        old_clock (cpu_rq (update_rq_clock cpu s) cpu)) -
                   (niffies (grq s) - last_niffy (cpu_rq (update_rq_clock cpu s) cpu))))
    (s32 (s64 (jiffies s - last_jiffy (grq s)))).

Lemma update_clocks_niffies cpu s :
  niffies (grq (update_clocks cpu s)) = u64 (niffies (grq s) + niffies_added cpu s) ∧
  last_jiffy (grq (update_clocks cpu s)) =
    u64 (last_jiffy (grq s) + s64 (jiffies s - last_jiffy (grq s))).
Proof.
  unfold update_clocks, niffies_added. simpl. rewrite cpu_rq_upd_rq_eq. done.
Qed.

(** Past the range of an [int] of nanoseconds the lower bound itself is
    negative, and so is the correction, whatever the clock says. *)
Lemma niffy_diff_overflow niff_diff jiff_diff :
  0 < JIFFY_NS → 1 < jiff_diff < 0x7fffffff →
  0x80000000 ≤ (jiff_diff - 1) * JIFFY_NS < 0x100000000 →
  -0x8000000000000000 ≤ niff_diff < 0x8000000000000000 →
  -0x80000000 ≤ niffy_diff niff_diff jiff_diff < 0.
Proof.
  intros HJ Hj Ho Hn. unfold niffy_diff, JIFFIES_TO_NS.
  rewrite (proj2 (Z.ltb_lt 1 jiff_diff)), (s32_id (jiff_diff - 1)) by lia.
  set (a := (jiff_diff - 1) * JIFFY_NS) in *. set (mx := s32 (s32 (jiff_diff + 1) * _)).
  assert (-0x80000000 ≤ mx < 0x80000000) as Hmx by apply s32_range. clearbody mx a.
  assert (s32 a = a - 0x100000000) as -> by wrap.
  assert (-0x80000000 ≤ s64 (u64 (a - 0x100000000)) < 0) as Hmin by wrap.
  destruct (Z.ltb_spec (u64 niff_diff) (u64 (a - 0x100000000))) as [|H1]; [done|].
  assert (-0x80000000 ≤ niff_diff < 0) by (clear Hmin; wrap). by destruct (u64 mx <? u64 niff_diff).
Qed.

(** Steps of the clocks: time passes (any clock readings, later jiffies), then
    some CPU updates the clocks. *)
Inductive clock_steps : nat → sched → sched → Prop :=
  | clock_done s : clock_steps 0 s s
  | clock_step n s j readings cpu s' :
      last_jiffy (grq s) ≤ j < 0x10000000000000000 → jiffies_fit (j - last_jiffy (grq s)) →
      clock_steps n (update_clocks cpu (s <| jiffies := j |> <| sched_clock_cpu := readings |>)) s' →
      clock_steps (S n) s s'.

Lemma niffies_step cpu s j readings :
  0 < JIFFY_NS → 0 ≤ last_jiffy (grq s) ≤ j → j < 0x10000000000000000 →
  jiffies_fit (j - last_jiffy (grq s)) →
  let s1 := s <| jiffies := j |> <| sched_clock_cpu := readings |> in
  1 ≤ niffies_added cpu s1 ≤ (j - last_jiffy (grq s) + 1) * JIFFY_NS ∧
  niffies (grq (update_clocks cpu s1)) = u64 (niffies (grq s) + niffies_added cpu s1) ∧
  last_jiffy (grq (update_clocks cpu s1)) = j.
Proof.
  intros HJ Hlj Hj Hfit s1. destruct (update_clocks_niffies cpu s1) as [E1 E2].
  assert (j - last_jiffy (grq s) < 0x80000000) by (destruct Hfit; nia).
  assert (s64 (jiffies s1 - last_jiffy (grq s1)) = j - last_jiffy (grq s)) as Ej.
  { subst s1. simpl. apply s64_id. lia. }
  split_and!; [| |done|].
  1-2: unfold niffies_added; rewrite Ej, s32_id by lia;
    destruct (niffy_diff_bounds (s64 (s64 (clock (cpu_rq (update_rq_clock cpu s1) cpu) -
      old_clock (cpu_rq (update_rq_clock cpu s1) cpu)) -
      (niffies (grq s1) - last_niffy (cpu_rq (update_rq_clock cpu s1) cpu))))
      (j - last_jiffy (grq s)) HJ Hfit (s64_range _)) as [-> ?]; case_decide; lia.
  rewrite E2, Ej. subst s1. simpl. rewrite u64_id; lia.
Qed.

Lemma last_jiffy_mono n s s' :
  0 < JIFFY_NS → 0 ≤ last_jiffy (grq s) → clock_steps n s s' →
  last_jiffy (grq s) ≤ last_jiffy (grq s').
Proof.
  intros HJ Hlj Hs. induction Hs as [|n s j readings cpu s' Hj Hfit Hs IH]; [done|].
  destruct (niffies_step cpu s j readings HJ ltac:(lia) ltac:(lia) Hfit) as (_ & _ & E).
  rewrite E in IH. lia.
Qed.

End clock.

(** ** Deadlines and nice levels *)
Definition ratios_ok (s : sched) : Prop := prio_ratios s = init_prio_ratios 40.

Lemma ratio_bounds (u : Z) : 0 ≤ u < 40 →
  128 ≤ init_prio_ratios 40 !!! Z.to_nat u ≤ 5089.
Proof.
  intros Hu. assert (Forall (λ r, 128 ≤ r ≤ 5089) (init_prio_ratios 40)) as Hall.
  { vm_compute init_prio_ratios. rewrite !Forall_cons, Forall_nil. lia. }
  rewrite Forall_lookup in Hall. apply (Hall (Z.to_nat u)), list_lookup_lookup_total_lt.
  vm_compute length. lia.
Qed.

Lemma ratio_increasing (u v : Z) : 0 ≤ u < v → v < 40 →
  init_prio_ratios 40 !!! Z.to_nat u < init_prio_ratios 40 !!! Z.to_nat v.
Proof.
  intros Huv Hv.
  assert (∀ i, (i < 39)%nat → init_prio_ratios 40 !!! i < init_prio_ratios 40 !!! S i) as Hstep.
  { intros i Hi. do 39 (destruct i as [|i]; [vm_compute; reflexivity|]). lia. }
  replace (Z.to_nat v) with (Z.to_nat u + S (Z.to_nat (v - u - 1)))%nat by lia.
  assert (Z.to_nat u + S (Z.to_nat (v - u - 1)) < 40)%nat as Hlt by lia.
  revert Hlt. generalize (Z.to_nat (v - u - 1)). generalize (Z.to_nat u). clear -Hstep. intros i k.
  induction k as [|k IH]; intros Hk.
  - rewrite Nat.add_1_r. apply Hstep. lia.
  - etransitivity; [apply IH; lia|]. replace (i + S (S k))%nat with (S (i + S k)) by lia.
    apply Hstep. lia.
Qed.

Lemma prio_deadline_diff_exact (s : sched) (u : Z) :
  ratios_ok s → 1 ≤ rr_interval s ≤ 50 → 0 ≤ u < 40 →
  prio_deadline_diff s u = init_prio_ratios 40 !!! Z.to_nat u * rr_interval s * 8192.
Proof.
  intros Hr Hrr Hu. unfold prio_deadline_diff. rewrite Hr. pose proof (ratio_bounds u Hu) as Hb.
  set (r := init_prio_ratios 40 !!! Z.to_nat u) in *. clearbody r.
  change (MS_TO_NS 1 / 128) with 8192. rewrite (s32_id (r * _)), s32_id, u64_id by nia. done.
Qed.

(** C10. Virtual deadlines are ordered by nice level.  For a round-robin interval
    between 1 and 50 ms the deadline offset of a user priority is
    [ratio * rr_interval * 8192] ns without overflow, it strictly increases with
    the user priority (so a nicer task waits longer), it never exceeds
    [longest_deadline_diff], and refilling a time slice sets exactly that
    deadline after the current niffies. *)
Theorem deadline_order (s : sched) (u v : Z) :
  ratios_ok s → 1 ≤ rr_interval s ≤ 50 → 0 ≤ u < v → v < 40 →
  prio_deadline_diff s u = prio_ratios s !!! Z.to_nat u * rr_interval s * 8192 ∧
  0 < prio_deadline_diff s u < prio_deadline_diff s v ∧
  prio_deadline_diff s v ≤ longest_deadline_diff s < 0x80000000 ∧
  ∀ p, TASK_USER_PRIO (task s p) = u →
    deadline (task (time_slice_expired p s) p) = u64 (niffies (grq s) + prio_deadline_diff s u) ∧
    time_slice (task (time_slice_expired p s) p) = rr_interval s * 1024.
Proof.
  intros Hr Hrr Hu Hv. pose proof (ratio_increasing u v Hu Hv) as Hlt.
  pose proof (ratio_bounds u ltac:(lia)). pose proof (ratio_bounds v ltac:(lia)).
  unfold longest_deadline_diff. rewrite !prio_deadline_diff_exact by (done || lia). rewrite Hr.
  change (init_prio_ratios 40 !!! Z.to_nat 39) with 5089.
  set (ru := init_prio_ratios 40 !!! Z.to_nat u) in *. set (rv := init_prio_ratios 40 !!! Z.to_nat v) in *.
  rewrite s32_id by nia. split_and!; try nia. intros p Hp. unfold time_slice_expired.
  rewrite !task_upd_task_eq. cbn [deadline time_slice update].
  unfold task_deadline_diff. split.
  - change (prio_deadline_diff (upd_task _ _ s)) with (prio_deadline_diff s).
    change (TASK_USER_PRIO _) with (TASK_USER_PRIO (task s p)). rewrite Hp.
    rewrite prio_deadline_diff_exact by (done || lia). done.
  - unfold timeslice, MS_TO_US. rewrite Z.shiftl_mul_pow2 by lia. change (2 ^ 10) with 1024.
    apply s32_id. lia.
Qed.

(** The sysctl allows rr_interval up to 1000 (kernel/sysctl.c:853), and there the
    [int] product overflows: at nice 18 the offset wraps to a value far above the
    64-bit range of a deadline, and at nice 17 it is shorter than at nice -20. *)
Theorem deadline_overflow (s : sched) :
  ratios_ok s → rr_interval s = 1000 →
  prio_deadline_diff s 37 < prio_deadline_diff s 0 ∧
  prio_deadline_diff s 38 = u64 (-750321664).
Proof.
  intros Hr Hrr. unfold prio_deadline_diff. rewrite Hr, Hrr. split; vm_compute; reflexivity.
Qed.

(** ** A sample state *)
Definition sample_global_rq : global_rq := mk_global_rq 0 0 0 ∅ [0; 0] 0 0 false 4 0 0 0 false.
Definition sample_sched : sched :=
  mk_sched ∅ ∅ sample_global_rq injector_boot 0 ∅ 15 15 6 70 (init_prio_ratios 40) ∅ ∅ ∅ ∅ [].


Lemma deadline_order_witness :
  0 < prio_deadline_diff sample_sched 20 < prio_deadline_diff sample_sched 39.
Proof.
  apply (deadline_order sample_sched 20 39); [vm_compute; reflexivity|simpl; lia|lia|lia].
Defined.

(** After a silence of more than 2^31 ns of jiffies (between 538 and 1074
    jiffies at 250 Hz, about two to four seconds with all ticks stopped), the
    nanosecond bound computed by [niffy_diff] overflows an [int] and
    [grq.niffies] moves backwards whatever the hardware clock reads. *)
Theorem niffies_backwards (s : sched) (cpu j : Z) (readings : gmap Z Z) :
  0 ≤ last_jiffy (grq s) ≤ j → j < 0x10000000000000000 → 538 ≤ j - last_jiffy (grq s) ≤ 1074 →
  0x100000000 ≤ niffies (grq s) < 0x10000000000000000 →
  niffies (grq (@update_clocks sample_config cpu
    (s <| jiffies := j |> <| sched_clock_cpu := readings |>))) < niffies (grq s).
Proof.
  intros Hlj Hj Hd Hn. set (s1 := s <| jiffies := j |> <| sched_clock_cpu := readings |>).
  destruct (@update_clocks_niffies sample_config cpu s1) as [-> _].
  assert (-0x80000000 ≤ @niffies_added sample_config cpu s1 < 0) as Hneg.
  { assert (s64 (jiffies s1 - last_jiffy (grq s1)) = j - last_jiffy (grq s)) as Ej.
    { subst s1. simpl. apply s64_id. lia. }
    unfold niffies_added. rewrite Ej, s32_id by lia.
    apply niffy_diff_overflow; [done|lia| |apply s64_range].
    change (@JIFFY_NS sample_config) with 4000000. lia. }
  change (niffies (grq s1)) with (niffies (grq s)). rewrite u64_id; lia.
Qed.

Lemma niffies_backwards_witness :
  let s := sample_sched <| grq ::= λ g, g <| niffies := 5000000000 |> |> in
  niffies (grq (@update_clocks sample_config 0 (s <| jiffies := 600 |> <| sched_clock_cpu := ∅ |>)))
    < 5000000000.
Proof.
  intros s. apply (niffies_backwards s 0 600 ∅); [simpl; lia|lia|simpl; lia|simpl; lia].
Defined.
