(* ===== verification/RunQueue.v ===== *)
(** * The global run queue of kernel/sched_bfs.c

    Queueing and dequeueing of tasks, the counters of queued and running tasks,
    the map of idle CPUs, stickiness, and the choice of a CPU to interrupt.
    The operations run on the CPU [me] ([smp_processor_id()]) with the run queue
    lock held, so each is one transition of the state.

    RunQueueInv.v states the invariant of the run queue and RunQueueOps.v shows how
    each operation changes the sets it is about. *)

From S2P Require Export SchedTypes Clock.

Section runqueue.
Context `{Config}.

(** ** Queueing *)
Definition task_running (p : Z) (s : sched) : bool := on_cpu (task s p).

(** [!list_empty(&p->run_list)] *)
Definition task_queued (p : Z) (s : sched) : bool :=
  existsb (λ i, bool_decide (p ∈ queue_of s i)) (seqZ 0 PRIO_LIMIT).

Definition list_remove (p : Z) (l : list Z) : list Z := filter (λ x, x ≠ p) l.

Definition dequeue_task (p : Z) (s : sched) : sched :=
  let s := upd_grq (λ g, g <| queue ::= fmap (list_remove p) |>) s in
  if bool_decide (queue_of s (prio (task s p)) = [])
  then upd_grq (λ g, g <| prio_bitmap ::= __clear_bit (prio (task s p)) |>) s else s.

Definition idleprio_suitable (p : task_struct) : bool :=
  negb (freezing p) && negb (signal_pending p) &&
  negb (task_contributes_to_load p) && (Z.land (flags p) PF_EXITING =? 0).

Definition isoprio_suitable (s : sched) : bool := negb (iso_refractory (grq s)).

(** Set the bit of the priority and add to its list. *)
Definition queue_tail (p : Z) (s : sched) : sched :=
  let i := prio (task s p) in
  upd_grq (λ g, g <| prio_bitmap ::= __set_bit i |>
                  <| queue ::= λ q, <[i := (q !!! i) ++ [p]]> q |>) s.
Definition queue_head (p : Z) (s : sched) : sched :=
  let i := prio (task s p) in
  upd_grq (λ g, g <| prio_bitmap ::= __set_bit i |>
                  <| queue ::= λ q, <[i := p :: (q !!! i)]> q |>) s.

Definition enqueue_task (p : Z) (s : sched) : sched :=
  let t := task s p in
  let s :=
    if negb (rt_task t) then
      if (idleprio_task t && idleprio_suitable t) || (iso_task t && isoprio_suitable s)
      then upd_task p (λ t, t <| prio := normal_prio t |>) s
      else upd_task p (λ t, t <| prio := NORMAL_PRIO |>) s
    else s in
  queue_tail p s.

Definition enqueue_task_head (p : Z) (s : sched) : sched := queue_head p s.

Definition inc_qnr (s : sched) : sched := upd_grq (λ g, g <| qnr ::= λ n, u64 (n + 1) |>) s.
Definition dec_qnr (s : sched) : sched := upd_grq (λ g, g <| qnr ::= λ n, u64 (n - 1) |>) s.
Definition queued_notrunning (s : sched) : Z := s32 (qnr (grq s)).

(** ** The map of idle CPUs *)
Definition set_cpuidle_map (cpu : Z) (s : sched) : sched :=
  if cpu_online s cpu
  then upd_grq (λ g, g <| cpu_idle_map ::= λ m, Z.setbit m cpu |> <| idle_cpus := true |>) s
  else s.

Definition clear_cpuidle_map (cpu : Z) (s : sched) : sched :=
  let s := upd_grq (λ g, g <| cpu_idle_map ::= λ m, Z.clearbit m cpu |>) s in
  if cpus_empty (cpu_idle_map (grq s)) then upd_grq (λ g, g <| idle_cpus := false |>) s else s.

Definition suitable_idle_cpus (p : Z) (s : sched) : bool :=
  if negb (idle_cpus (grq s)) then false
  else cpus_intersects (cpus_allowed (task s p)) (cpu_idle_map (grq s)).

Definition CPUIDLE_DIFF_THREAD : Z := 1.
Definition CPUIDLE_DIFF_CORE : Z := 2.
Definition CPUIDLE_CACHE_BUSY : Z := 4.
Definition CPUIDLE_DIFF_CPU : Z := 8.
Definition CPUIDLE_THREAD_BUSY : Z := 16.
Definition CPUIDLE_DIFF_NODE : Z := 32.

(** ** Rescheduling *)
Definition resched_task (me p : Z) (s : sched) : sched :=
  if need_resched (task s p) then s
  else
    let s := upd_task p (λ t, t <| need_resched := true |>) s in
    let cpu := task_cpu (task s p) in
    if cpu =? me then s
    else if negb (polling (task s p)) then s <| ipis ::= cons cpu |> else s.

Definition sole_cpu_idle (s : sched) (cpu : Z) : bool := rq_idle (cpu_rq s cpu).
Definition siblings_cpu_idle (s : sched) (cpu : Z) : bool :=
  cpumask_subset (smt_siblings (cpu_rq s cpu)) (cpu_idle_map (grq s)).
Definition cache_cpu_idle (s : sched) (cpu : Z) : bool :=
  cpumask_subset (cache_siblings (cpu_rq s cpu)) (cpu_idle_map (grq s)).
Definition call_idle_fn (f : idle_fn) (s : sched) (cpu : Z) : bool :=
  match f with
  | SoleCpuIdle => sole_cpu_idle s cpu
  | SiblingsCpuIdle => siblings_cpu_idle s cpu
  | CacheCpuIdle => cache_cpu_idle s cpu
  end.

(** The ranking of an idle CPU seen from [rq], computed in the loop of
    [resched_best_mask]. *)
Definition cpu_ranking (s : sched) (rqcpu cpu_tmp : Z) : Z :=
  let loc := cpu_locality (cpu_rq s rqcpu) !!! Z.to_nat cpu_tmp in
  let r := 0 in
  let r := if CONFIG_NUMA && (3 <? loc) then Z.lor r CPUIDLE_DIFF_NODE
           else if 2 <? loc then Z.lor r CPUIDLE_DIFF_CPU else r in
  let r := if CONFIG_SCHED_MC && (loc =? 2) then Z.lor r CPUIDLE_DIFF_CORE else r in
  let r := if CONFIG_SCHED_MC && negb (call_idle_fn (cache_idle (cpu_rq s cpu_tmp)) s cpu_tmp)
           then Z.lor r CPUIDLE_CACHE_BUSY else r in
  let r := if CONFIG_SCHED_SMT && (loc =? 1) then Z.lor r CPUIDLE_DIFF_THREAD else r in
  if CONFIG_SCHED_SMT && negb (call_idle_fn (siblings_idle (cpu_rq s cpu_tmp)) s cpu_tmp)
  then Z.lor r CPUIDLE_THREAD_BUSY else r.

(** The loop over the mask: the best CPU and its ranking so far. *)
Fixpoint best_in (s : sched) (rqcpu : Z) (cs : list Z) (best_cpu best_ranking : Z) : Z :=
  match cs with
  | [] => best_cpu
  | c :: cs =>
      let ranking := cpu_ranking s rqcpu c in
      if ranking <? best_ranking then best_in s rqcpu cs c ranking
      else best_in s rqcpu cs best_cpu best_ranking
  end.

Definition best_cpu_of (s : sched) (best_cpu rqcpu tmpmask : Z) : Z :=
  if cpu_isset best_cpu tmpmask then best_cpu
  else best_in s rqcpu (cpus_in tmpmask) best_cpu 63.

Definition resched_best_mask (me best_cpu rqcpu tmpmask : Z) (s : sched) : sched :=
  resched_task me (curr (cpu_rq s (best_cpu_of s best_cpu rqcpu tmpmask))) s.

Definition resched_best_idle (me p : Z) (s : sched) : sched :=
  let tmpmask := cpus_and (cpus_allowed (task s p)) (cpu_idle_map (grq s)) in
  resched_best_mask me (task_cpu (task s p)) (task_cpu (task s p)) tmpmask s.

Definition resched_suitable_idle (me p : Z) (s : sched) : sched :=
  if suitable_idle_cpus p s then resched_best_idle me p s else s.

Definition cpu_scaling (cpu : Z) (s : sched) : sched := upd_rq cpu (λ r, r <| scaling := true |>) s.
Definition cpu_nonscaling (cpu : Z) (s : sched) : sched :=
  upd_rq cpu (λ r, r <| scaling := false |>) s.
Definition scaling_rq (r : rq) : bool := scaling r.

(** ** Activation *)
Definition activate_idle_task (p : Z) (s : sched) : sched :=
  let s := enqueue_task_head p s in
  let s := upd_grq (λ g, g <| nr_running ::= λ n, u64 (n + 1) |>) s in
  inc_qnr s.

Definition normal_prio_of (p : task_struct) : Z :=
  if has_rt_policy p then MAX_RT_PRIO - 1 - rt_priority p
  else if idleprio_task p then IDLE_PRIO
  else if iso_task p then ISO_PRIO
  else NORMAL_PRIO.

(** [effective_prio] also stores [normal_prio]. *)
Definition effective_prio (p : Z) (s : sched) : Z * sched :=
  let s := upd_task p (λ t, t <| normal_prio := normal_prio_of t |>) s in
  if negb (rt_prio (prio (task s p))) then (normal_prio (task s p), s) else (prio (task s p), s).

Definition activate_task (p rqcpu : Z) (s : sched) : sched :=
  let s := update_clocks rqcpu s in
  let '(pr, s) := effective_prio p s in
  let s := upd_task p (λ t, t <| prio := pr |>) s in
  let s := if task_contributes_to_load (task s p)
           then upd_grq (λ g, g <| nr_uninterruptible ::= λ n, u64 (n - 1) |>) s else s in
  let s := enqueue_task p s in
  let s := upd_grq (λ g, g <| nr_running ::= λ n, u64 (n + 1) |>) s in
  inc_qnr s.

Definition clear_sticky (p : Z) (s : sched) : sched := upd_task p (λ t, t <| sticky := false |>) s.
Definition task_sticky (p : task_struct) : bool := sticky p.

Definition deactivate_task (p : Z) (s : sched) : sched :=
  let s := if task_contributes_to_load (task s p)
           then upd_grq (λ g, g <| nr_uninterruptible ::= λ n, u64 (n + 1) |>) s else s in
  let s := upd_grq (λ g, g <| nr_running ::= λ n, u64 (n - 1) |>) s in
  clear_sticky p s.

Definition set_task_cpu (p cpu : Z) (s : sched) : sched := upd_task p (λ t, t <| task_cpu := cpu |>) s.

Definition resched_closest_idle (me rqcpu cpu p : Z) (s : sched) : sched :=
  let tmpmask := cpus_and (cpus_allowed (task s p)) (cpu_idle_map (grq s)) in
  let tmpmask := Z.clearbit tmpmask cpu in
  if cpus_empty tmpmask then s else resched_best_mask me cpu rqcpu tmpmask s.

(** Called with [rq] the run queue of the CPU [cpu]. *)
Definition swap_sticky (me cpu p : Z) (s : sched) : sched :=
  let st := sticky_task (cpu_rq s cpu) in
  if negb (st =? NULL) && (st =? p) then upd_task p (λ t, t <| sticky := true |>) s
  else
    let s := if negb (st =? NULL) && task_sticky (task s st)
             then resched_closest_idle me cpu cpu st (clear_sticky st s) else s in
    if negb (rt_task (task s p)) then
      upd_rq cpu (λ r, r <| sticky_task := p |>) (upd_task p (λ t, t <| sticky := true |>) s)
    else upd_rq cpu (λ r, r <| sticky_task := NULL |>) (resched_closest_idle me cpu cpu p s).

Definition unstick_task (cpu p : Z) (s : sched) : sched :=
  clear_sticky p (upd_rq cpu (λ r, r <| sticky_task := NULL |>) s).

Definition take_task (cpu p : Z) (s : sched) : sched :=
  let s := set_task_cpu p cpu s in
  let s := dequeue_task p s in
  let s := clear_sticky p s in
  dec_qnr s.

Definition return_task (p : Z) (deactivate : bool) (s : sched) : sched :=
  if deactivate then deactivate_task p s
  else enqueue_task p (inc_qnr s).

Definition task_curr (p : Z) (s : sched) : bool := curr (cpu_rq s (task_cpu (task s p))) =? p.
End runqueue.
