(* ===== verification/RunQueueInv.v ===== *)
(** * The invariant of the run queue

    [queue_ok] is about the queues alone (bitmap, priorities, count of queued
    tasks), [cpus_ok] about the CPUs alone (current tasks, [on_cpu] flags, idle
    map), and [runqueue_ok] adds what links them: no task is queued and running
    at once, and [nr_running] counts both.  The first half says how the
    primitive operations of RunQueue.v move tasks in and out of the queues; the
    second half gives the relations by which operations that touch neither
    queues nor CPUs keep the invariant. *)

From S2P Require Export RunQueue.

Section inv.
Context `{Config}.

Definition cpus : list Z := seqZ 0 nr_cpu_ids.
Definition queued (s : sched) (p : Z) : Prop := ∃ i, p ∈ queue_of s i.
Definition is_idle (s : sched) (p : Z) : Prop := ∃ c, c ∈ cpus ∧ p = idle (cpu_rq s c).

(** All queued tasks, and the CPUs running a task other than their idle task. *)
Definition queued_list (s : sched) : list Z := concat (queue_of s <$> seqZ 0 PRIO_LIMIT).
Definition busy_cpus (s : sched) : list Z :=
  filter (λ c, curr (cpu_rq s c) ≠ idle (cpu_rq s c)) cpus.

Definition queued_count (s : sched) : Z := Z.of_nat (length (queued_list s)).
Definition busy_count (s : sched) : Z := Z.of_nat (length (busy_cpus s)).

(** A task address. *)
Definition valid_task (p : Z) : Prop := 0 < p < 0x8000000000000000.

(** Priorities with which a task can be queued. *)
Definition task_ok (t : task_struct) : Prop :=
  0 ≤ prio t ∧ 0 ≤ normal_prio t < PRIO_LIMIT ∧ 0 ≤ rt_priority t ≤ MAX_USER_RT_PRIO.

Record queue_ok (s : sched) : Prop := {
  q_words : words_ok (prio_bitmap (grq s)) ∧ PRIO_LIMIT < 64 * Z.of_nat (length (prio_bitmap (grq s)));
  q_bit : ∀ i, 0 ≤ i < PRIO_LIMIT → bit i (prio_bitmap (grq s)) = bool_decide (queue_of s i ≠ []);
  q_range : ∀ i p, p ∈ queue_of s i → 0 ≤ i < PRIO_LIMIT;
  q_prio : ∀ i p, p ∈ queue_of s i → prio (task s p) = i ∧ valid_task p;
  q_nodup : ∀ i, NoDup (queue_of s i);
}.

Record cpus_ok (s : sched) : Prop := {
  c_on_cpu : ∀ p, on_cpu (task s p) = true ↔ ∃ c, c ∈ cpus ∧ curr (cpu_rq s c) = p;
  c_inj : ∀ c d, c ∈ cpus → d ∈ cpus → curr (cpu_rq s c) = curr (cpu_rq s d) → c = d;
  c_idle : ∀ c d, c ∈ cpus → d ∈ cpus → curr (cpu_rq s c) = idle (cpu_rq s d) → c = d;
  c_map : ∀ c, c ∈ cpus → Z.testbit (cpu_idle_map (grq s)) c = true →
    curr (cpu_rq s c) = idle (cpu_rq s c);
  c_idle_cpus : idle_cpus (grq s) = negb (cpu_idle_map (grq s) =? 0);
  c_idle_inj : ∀ c d, c ∈ cpus → d ∈ cpus → idle (cpu_rq s c) = idle (cpu_rq s d) → c = d;
  c_bits : ∀ c, Z.testbit (cpu_idle_map (grq s)) c = true → c ∈ cpus;
  c_valid : ∀ c, c ∈ cpus → valid_task (curr (cpu_rq s c)) ∧ valid_task (idle (cpu_rq s c));
}.

Record runqueue_ok (s : sched) : Prop := {
  ok_queue : queue_ok s;
  ok_cpus : cpus_ok s;
  ok_disjoint : ∀ p, queued s p → on_cpu (task s p) = false ∧ ¬ is_idle s p;
  ok_qnr : qnr (grq s) = queued_count s;
  ok_nr : nr_running (grq s) = queued_count s + busy_count s;
  ok_tasks : ∀ p, queued s p ∨ (on_cpu (task s p) = true ∧ ¬ is_idle s p) → task_ok (task s p);
  ok_ncpus : 0 < nr_cpu_ids ≤ 4096;
}.

(** ** Lists *)
Lemma NoDup_length_bound (l : list Z) n :
  NoDup l → (∀ x, x ∈ l → 0 < x < n) → Z.of_nat (length l) < Z.max 1 n.
Proof.
  intros Hnd Hb. destruct (decide (n ≤ 1)).
  { destruct l as [|x l]; [simpl; lia|]. specialize (Hb x). set_solver by lia. }
  assert (length l ≤ length (seqZ 1 (n - 1)))%nat as Hle.
  { apply submseteq_length, NoDup_submseteq; [done|]. intros x Hx. apply elem_of_seqZ.
    specialize (Hb x Hx). lia. }
  rewrite length_seqZ in Hle. lia.
Qed.

Lemma list_remove_elem p (l : list Z) x : x ∈ list_remove p l ↔ x ≠ p ∧ x ∈ l.
Proof. unfold list_remove. rewrite list_elem_of_filter. tauto. Qed.

Lemma list_remove_absent p (l : list Z) : p ∉ l → list_remove p l = l.
Proof.
  unfold list_remove. induction l as [|x l IH]; [done|]. rewrite not_elem_of_cons. intros [??].
  rewrite filter_cons_True by congruence. by rewrite IH.
Qed.

Lemma list_remove_length p (l : list Z) :
  NoDup l → p ∈ l → Z.of_nat (length (list_remove p l)) = Z.of_nat (length l) - 1.
Proof.
  intros Hnd (l1 & l2 & ->)%list_elem_of_split.
  apply NoDup_app in Hnd as (_ & Hd & [Hp2 _]%NoDup_cons).
  unfold list_remove. rewrite filter_app, filter_cons_False by tauto.
  fold (list_remove p l1) (list_remove p l2).
  rewrite !list_remove_absent, !length_app; [simpl; lia|done|set_solver].
Qed.

Lemma list_remove_concat p (ls : list (list Z)) :
  list_remove p (concat ls) = concat (list_remove p <$> ls).
Proof.
  induction ls as [|l ls IH]; [done|]. rewrite fmap_cons. cbn [concat].
  unfold list_remove at 1. rewrite filter_app. by rewrite <- IH.
Qed.

Lemma elem_of_concat (x : Z) (ls : list (list Z)) : x ∈ concat ls ↔ ∃ l, l ∈ ls ∧ x ∈ l.
Proof.
  induction ls as [|l ls IH]; cbn [concat]; [set_solver|]. rewrite elem_of_app, IH. set_solver.
Qed.

(** ** Queued tasks *)
Lemma task_queued_spec s p : queue_ok s → task_queued p s = true ↔ queued s p.
Proof.
  intros Hq. unfold task_queued, queued. rewrite existsb_exists. split.
  - intros (i & _ & Hi%bool_decide_eq_true). by exists i.
  - intros [i Hi]. exists i. split; [|by apply bool_decide_eq_true].
    apply list_elem_of_In, elem_of_seqZ. pose proof (q_range _ Hq i p Hi). lia.
Qed.

Lemma queued_list_spec s p : queue_ok s → p ∈ queued_list s ↔ queued s p.
Proof.
  intros Hq. unfold queued_list, queued. rewrite elem_of_concat. split.
  - intros (l & (i & -> & _)%list_elem_of_fmap & Hp). by exists i.
  - intros [i Hi]. exists (queue_of s i). split; [|done].
    apply list_elem_of_fmap_2, elem_of_seqZ. pose proof (q_range _ Hq i p Hi). lia.
Qed.

Lemma queued_list_NoDup s : queue_ok s → NoDup (queued_list s).
Proof.
  intros Hq. unfold queued_list.
  enough (∀ js, NoDup js → NoDup (concat (queue_of s <$> js))) as Hn by apply Hn, NoDup_seqZ.
  intros js. induction 1 as [|i js Hi _ IH]; [by apply NoDup_nil|].
  rewrite fmap_cons. cbn [concat]. apply NoDup_app. split_and!; [apply Hq| |done].
  intros p Hp (l & (j & -> & Hj)%list_elem_of_fmap & Hp')%elem_of_concat.
  destruct (q_prio _ Hq _ _ Hp) as [E1 _]. destruct (q_prio _ Hq _ _ Hp') as [E2 _]. congruence.
Qed.

Lemma queued_count_bound s : queue_ok s → 0 ≤ queued_count s < 0x8000000000000000.
Proof.
  intros Hq. unfold queued_count. split; [lia|].
  pose proof (NoDup_length_bound (queued_list s) 0x8000000000000000 (queued_list_NoDup _ Hq)) as Hb.
  rewrite Z.max_r in Hb by lia. apply Hb. intros x Hx%queued_list_spec; [|done].
  destruct Hx as [i Hi]. by destruct (q_prio _ Hq _ _ Hi).
Qed.

Lemma queued_prio s p : queue_ok s → queued s p → p ∈ queue_of s (prio (task s p)).
Proof. intros Hq [i Hi]. by destruct (q_prio _ Hq _ _ Hi) as [-> _]. Qed.

Lemma queued_count_add s s' p :
  queue_ok s → queue_ok s' → ¬ queued s p → (∀ x, queued s' x ↔ x = p ∨ queued s x) →
  queued_count s' = queued_count s + 1.
Proof.
  intros Hq Hq' Hp Hiff. unfold queued_count.
  assert (queued_list s' ≡ₚ p :: queued_list s) as ->; [|simpl; lia].
  apply NoDup_Permutation; [by apply queued_list_NoDup| |].
  - apply NoDup_cons. rewrite queued_list_spec by done. auto using queued_list_NoDup.
  - intros x. rewrite elem_of_cons, !queued_list_spec by done. apply Hiff.
Qed.

Lemma busy_count_bound s : 0 < nr_cpu_ids ≤ 4096 → 0 ≤ busy_count s ≤ 4096.
Proof.
  intros Hn. unfold busy_count, busy_cpus, cpus. split; [lia|].
  pose proof (length_filter (λ c, curr (cpu_rq s c) ≠ idle (cpu_rq s c)) (seqZ 0 nr_cpu_ids)) as Hl.
  rewrite length_seqZ in Hl. lia.
Qed.

(** *** Adding at either end *)
Section put.
Context (s : sched) (p : Z) (Hq : queue_ok s) (Hp : ¬ queued s p) (Hv : valid_task p)
  (Hr : 0 ≤ prio (task s p) < PRIO_LIMIT).
Let i := prio (task s p).

Lemma put_ok (s' : sched) (l : list Z) :
  (∀ j, queue_of s' j = if decide (j = i) then l else queue_of s j) →
  (∀ x, x ∈ l ↔ x = p ∨ x ∈ queue_of s i) → NoDup l →
  prio_bitmap (grq s') = __set_bit i (prio_bitmap (grq s)) → (∀ x, prio (task s' x) = prio (task s x)) →
  queue_ok s' ∧ (∀ x, queued s' x ↔ x = p ∨ queued s x) ∧ queued_count s' = queued_count s + 1.
Proof using Hq Hp Hv Hr.
  intros Hqs Hl Hnd Hbm Hprio. pose proof Hq as [[Hw Hlen] Hbit Hrange Hqp Hnds].
  assert (queue_ok s') as Hq'.
  { split.
    - rewrite Hbm, length_set_bit. split; [by apply words_ok_set|done].
    - intros j Hj. rewrite Hbm, bit_set, Hqs by lia. case_decide as E.
      + subst j. rewrite Z.eqb_refl. symmetry. apply bool_decide_eq_true. intros ->.
        assert (p ∈ []) as Hin by (apply Hl; auto). set_solver.
      + rewrite (proj2 (Z.eqb_neq j i) E). by apply Hbit.
    - intros j x. rewrite Hqs. case_decide as E; [intros _; subst j; exact Hr|apply Hrange].
    - intros j x. rewrite Hqs, Hprio. case_decide as E; [|apply Hqp].
      intros [->|Hx]%Hl; [done|]. subst j. by apply Hqp.
    - intros j. rewrite Hqs. case_decide; [done|apply Hnds]. }
  assert (∀ x, queued s' x ↔ x = p ∨ queued s x) as Hiff.
  { intros x. split.
    - intros [j Hj]. rewrite Hqs in Hj. case_decide; [apply Hl in Hj as [?|?]; [by left|]|];
        right; by eexists.
    - intros [->|[j Hj]].
      + exists i. rewrite Hqs, decide_True by done. apply Hl. by left.
      + exists j. rewrite Hqs. case_decide; [subst; apply Hl; by right|done]. }
  split_and!; [done|done|]. by apply (queued_count_add s s' p).
Qed.

Lemma notin_queue : p ∉ queue_of s i.
Proof using Hp. intros Hin. apply Hp. by exists i. Qed.

Lemma queue_tail_ok :
  queue_ok (queue_tail p s) ∧ (∀ x, queued (queue_tail p s) x ↔ x = p ∨ queued s x) ∧
  queued_count (queue_tail p s) = queued_count s + 1.
Proof using Hq Hp Hv Hr.
  apply (put_ok _ (queue_of s i ++ [p])); [| | |done|done].
  - intros j. unfold queue_of, queue_tail. simpl. rewrite lookup_total_insert. fold i.
    by repeat case_decide.
  - set_solver.
  - apply NoDup_app. pose proof notin_queue. split_and!; [apply Hq|set_solver|apply NoDup_singleton].
Qed.

Lemma queue_head_ok :
  queue_ok (queue_head p s) ∧ (∀ x, queued (queue_head p s) x ↔ x = p ∨ queued s x) ∧
  queued_count (queue_head p s) = queued_count s + 1.
Proof using Hq Hp Hv Hr.
  apply (put_ok _ (p :: queue_of s i)); [| | |done|done].
  - intros j. unfold queue_of, queue_head. simpl. rewrite lookup_total_insert. fold i.
    by repeat case_decide.
  - set_solver.
  - apply NoDup_cons. split; [apply notin_queue|apply Hq].
Qed.
End put.

(** *** Removing *)
Lemma queue_of_remove s p j :
  queue_of (upd_grq (λ g, g <| queue ::= fmap (list_remove p) |>) s) j = list_remove p (queue_of s j).
Proof.
  unfold queue_of, upd_grq. simpl. rewrite !lookup_total_alt, lookup_fmap.
  by destruct (queue (grq s) !! j).
Qed.

Lemma queue_of_dequeue s p j : queue_of (dequeue_task p s) j = list_remove p (queue_of s j).
Proof. unfold dequeue_task. rewrite <- queue_of_remove. by case_bool_decide. Qed.

Lemma task_dequeue s p x : task (dequeue_task p s) x = task s x.
Proof. unfold dequeue_task. by case_bool_decide. Qed.

Lemma bitmap_dequeue s p :
  prio_bitmap (grq (dequeue_task p s)) =
    if bool_decide (list_remove p (queue_of s (prio (task s p))) = [])
    then __clear_bit (prio (task s p)) (prio_bitmap (grq s)) else prio_bitmap (grq s).
Proof.
  unfold dequeue_task. rewrite queue_of_remove.
  change (task (upd_grq (λ g, g <| queue ::= fmap (list_remove p) |>) s) p) with (task s p).
  by case_bool_decide.
Qed.

Lemma dequeue_task_ok s p :
  queue_ok s → queued s p →
  queue_ok (dequeue_task p s) ∧ (∀ x, queued (dequeue_task p s) x ↔ x ≠ p ∧ queued s x) ∧
  queued_count (dequeue_task p s) = queued_count s - 1.
Proof.
  intros Hq Hp. set (i := prio (task s p)). pose proof (queued_prio s p Hq Hp) as Hi. fold i in Hi.
  pose proof Hq as [[Hw Hlen] Hbit Hrange Hqp Hnds].
  assert (∀ j, j ≠ i → list_remove p (queue_of s j) = queue_of s j) as Hother.
  { intros j Hj. apply list_remove_absent. intros Hin. by destruct (Hqp _ _ Hin). }
  pose proof (bitmap_dequeue s p) as Hbm. fold i in Hbm.
  assert (queue_ok (dequeue_task p s)) as Hq'.
  { split.
    - rewrite Hbm. case_bool_decide; rewrite ?length_clear_bit; auto using words_ok_clear.
    - intros j Hj. rewrite Hbm, queue_of_dequeue. pose proof (Hrange _ _ Hi).
      assert (bit j (if bool_decide (list_remove p (queue_of s i) = [])
        then __clear_bit i (prio_bitmap (grq s)) else prio_bitmap (grq s)) =
        negb (bool_decide (list_remove p (queue_of s i) = []) && (j =? i)) && bit j (prio_bitmap (grq s))) as ->.
      { case_bool_decide; [rewrite bit_clear by lia|]; by rewrite ?andb_false_l, ?andb_true_l. }
      rewrite Hbit by done. destruct (Z.eqb_spec j i) as [->|Hj'].
      + rewrite andb_true_r, (bool_decide_eq_true_2 (queue_of s i ≠ [])), andb_true_r by (intros E; rewrite E in Hi; set_solver).
        repeat case_bool_decide; naive_solver.
      + rewrite andb_false_r. simpl. by rewrite Hother.
    - intros j x. rewrite queue_of_dequeue, list_remove_elem. intros [_ ?]. by eapply Hrange.
    - intros j x. rewrite queue_of_dequeue, list_remove_elem, task_dequeue. intros [_ ?]. by apply Hqp.
    - intros j. rewrite queue_of_dequeue. apply NoDup_filter, Hnds. }
  assert (∀ x, queued (dequeue_task p s) x ↔ x ≠ p ∧ queued s x) as Hiff.
  { intros x. unfold queued. setoid_rewrite queue_of_dequeue. setoid_rewrite list_remove_elem. naive_solver. }
  split_and!; [done|done|].
  assert (queued_count s = queued_count (dequeue_task p s) + 1); [|lia].
  apply (queued_count_add _ _ p); [done|done|rewrite Hiff; tauto|].
  intros x. rewrite Hiff. destruct (decide (x = p)) as [->|]; tauto.
Qed.

(** ** Operations that touch neither queues nor CPUs

    What the invariant reads of a task and of a CPU. *)
Definition tview (t : task_struct) : Z * Z * Z * bool :=
  (prio t, normal_prio t, rt_priority t, on_cpu t).
Definition cview (r : rq) : Z * Z := (curr r, idle r).
Definition gview (g : global_rq) : gmap Z (list Z) * bitmap * Z * Z * Z * bool :=
  (queue g, prio_bitmap g, qnr g, nr_running g, cpu_idle_map g, idle_cpus g).

Record same_core (s s' : sched) : Prop := {
  sc_task : ∀ p, tview (task s' p) = tview (task s p);
  sc_cpu : ∀ c, cview (cpu_rq s' c) = cview (cpu_rq s c);
  sc_grq : gview (grq s') = gview (grq s);
  sc_online : cpu_online_map s' = cpu_online_map s;
}.

#[export] Instance same_core_equiv : Equivalence same_core.
Proof.
  split.
  - by split.
  - intros s s' [????]. by split.
  - intros s1 s2 s3 [Ht Hc Hg Ho] [Ht' Hc' Hg' Ho'].
    split; intros; [by rewrite Ht', Ht|by rewrite Hc', Hc|by rewrite Hg', Hg|by rewrite Ho', Ho].
Qed.

(** One more update on the right. *)
Lemma core_task s s1 p f :
  (∀ t, tview (f t) = tview t) → same_core s s1 → same_core s (upd_task p f s1).
Proof.
  intros Hf [Ht Hc Hg Ho]. split; try done. intros q. rewrite <- (Ht q).
  apply (task_upd_proj tview s1 p q f Hf).
Qed.
Lemma core_rq s s1 c f :
  (∀ r, cview (f r) = cview r) → same_core s s1 → same_core s (upd_rq c f s1).
Proof.
  intros Hf [Ht Hc Hg Ho]. split; try done. intros q. rewrite <- (Hc q).
  apply (rq_upd_proj cview s1 c q f Hf).
Qed.
Lemma core_grq s s1 f :
  (∀ g, gview (f g) = gview g) → same_core s s1 → same_core s (upd_grq f s1).
Proof. intros Hf [Ht Hc Hg Ho]. split; try done. rewrite <- Hg. apply Hf. Qed.

Lemma core_if (b : bool) s s1 s2 : same_core s s1 → same_core s s2 → same_core s (if b then s1 else s2).
Proof. by destruct b. Qed.

Lemma core_tasks_eq s s' p : same_core s s' →
  prio (task s' p) = prio (task s p) ∧ normal_prio (task s' p) = normal_prio (task s p) ∧
  rt_priority (task s' p) = rt_priority (task s p) ∧ on_cpu (task s' p) = on_cpu (task s p).
Proof. intros Hs. pose proof (sc_task _ _ Hs p) as E. by injection E as -> -> -> ->. Qed.
Lemma core_cpu_eq s s' c : same_core s s' →
  curr (cpu_rq s' c) = curr (cpu_rq s c) ∧ idle (cpu_rq s' c) = idle (cpu_rq s c).
Proof. intros Hs. pose proof (sc_cpu _ _ Hs c) as E. by injection E as -> ->. Qed.
Lemma core_grq_eq s s' : same_core s s' →
  (∀ i, queue_of s' i = queue_of s i) ∧ prio_bitmap (grq s') = prio_bitmap (grq s) ∧
  qnr (grq s') = qnr (grq s) ∧ nr_running (grq s') = nr_running (grq s) ∧
  cpu_idle_map (grq s') = cpu_idle_map (grq s) ∧ idle_cpus (grq s') = idle_cpus (grq s).
Proof. intros Hs. pose proof (sc_grq _ _ Hs) as E. unfold queue_of. by injection E as -> -> -> -> -> ->. Qed.

#[export] Instance queued_proper : Proper (same_core ==> eq ==> iff) queued.
Proof.
  intros s s' Hs p ? <-. unfold queued. destruct (core_grq_eq _ _ Hs) as (Eq & _).
  by setoid_rewrite Eq.
Qed.
#[export] Instance is_idle_proper : Proper (same_core ==> eq ==> iff) is_idle.
Proof.
  intros s s' Hs p ? <-. unfold is_idle.
  by setoid_rewrite (λ c, proj2 (core_cpu_eq _ _ c Hs)).
Qed.
#[export] Instance queued_count_proper : Proper (same_core ==> eq) queued_count.
Proof.
  intros s s' Hs. unfold queued_count, queued_list. destruct (core_grq_eq _ _ Hs) as (Eq & _).
  do 3 f_equal. apply list_fmap_ext. intros. symmetry. apply Eq.
Qed.
#[export] Instance busy_count_proper : Proper (same_core ==> eq) busy_count.
Proof.
  intros s s' Hs. unfold busy_count, busy_cpus. do 2 f_equal. apply list_filter_iff. intros c.
  by destruct (core_cpu_eq _ _ c Hs) as [-> ->].
Qed.
#[export] Instance queue_ok_proper : Proper (same_core ==> iff) queue_ok.
Proof.
  enough (∀ s s', same_core s s' → queue_ok s → queue_ok s') as Hx.
  { intros s s' Hs. split; apply Hx; [done|by symmetry]. }
  intros s s' Hs [Hw Hbit Hr Hp Hnd]. destruct (core_grq_eq _ _ Hs) as (Eq & Eb & _).
  split; rewrite ?Eb; [done|intros i; rewrite Eq; auto|intros i p; rewrite Eq; apply Hr| |].
  - intros i p. rewrite Eq. destruct (core_tasks_eq _ _ p Hs) as (-> & _). apply Hp.
  - intros i. by rewrite Eq.
Qed.
#[export] Instance cpus_ok_proper : Proper (same_core ==> iff) cpus_ok.
Proof.
  enough (∀ s s', same_core s s' → cpus_ok s → cpus_ok s') as Hx.
  { intros s s' Hs. split; apply Hx; [done|by symmetry]. }
  intros s s' Hs [Hon Hinj Hid Hmap Hic Hii Hbits Hv]. destruct (core_grq_eq _ _ Hs) as (_&_&_&_&Em&Ei).
  split.
  - intros p. destruct (core_tasks_eq _ _ p Hs) as (_&_&_&->). rewrite Hon.
    by setoid_rewrite (λ c, proj1 (core_cpu_eq _ _ c Hs)).
  - intros c d. rewrite (proj1 (core_cpu_eq _ _ c Hs)), (proj1 (core_cpu_eq _ _ d Hs)). apply Hinj.
  - intros c d. rewrite (proj1 (core_cpu_eq _ _ c Hs)), (proj2 (core_cpu_eq _ _ d Hs)). apply Hid.
  - intros c. rewrite Em. destruct (core_cpu_eq _ _ c Hs) as [-> ->]. apply Hmap.
  - by rewrite Em, Ei.
  - intros c d. rewrite (proj2 (core_cpu_eq _ _ c Hs)), (proj2 (core_cpu_eq _ _ d Hs)). apply Hii.
  - by rewrite Em.
  - intros c. destruct (core_cpu_eq _ _ c Hs) as [-> ->]. apply Hv.
Qed.
#[export] Instance runqueue_ok_proper : Proper (same_core ==> iff) runqueue_ok.
Proof.
  enough (∀ s s', same_core s s' → runqueue_ok s → runqueue_ok s') as Hx.
  { intros s s' Hs. split; apply Hx; [done|by symmetry]. }
  intros s s' Hs [Hq Hc Hd Hqn Hnr Ht Hn]. destruct (core_grq_eq _ _ Hs) as (_&_&Eqn&Enr&_).
  split; try done; try (by rewrite <- Hs).
  - intros p. destruct (core_tasks_eq _ _ p Hs) as (_&_&_&->). rewrite <- Hs. apply Hd.
  - by rewrite Eqn, <- Hs.
  - by rewrite Enr, <- Hs.
  - intros p. destruct (core_tasks_eq _ _ p Hs) as (Ep&En&Er&->).
    unfold task_ok. rewrite Ep, En, Er, <- Hs. apply Ht.
Qed.
End inv.

Create HintDb frame discriminated.
#[export] Hint Resolve core_task core_rq core_grq core_if : frame.
#[export] Hint Extern 0 (same_core ?s ?s) => reflexivity : frame.
#[export] Hint Extern 1 (∀ _, _ = _) => intros; reflexivity : frame.
(** [frame] proves that a composition of updates leaves the core alone. *)
Ltac frame := intros; cbv zeta; eauto 30 with frame.

Section frames.
Context `{Config}.
Implicit Types s : sched.

Lemma core_other s s1 s2 :
  tasks s2 = tasks s1 → runqueues s2 = runqueues s1 → grq s2 = grq s1 →
  cpu_online_map s2 = cpu_online_map s1 → same_core s s1 → same_core s s2.
Proof.
  intros Et Er Eg Eo [Ht Hc Hg Ho]. unfold task, cpu_rq in *.
  split; unfold task, cpu_rq; rewrite ?Et, ?Er, ?Eg, ?Eo; done.
Qed.

Lemma update_clocks_core s s1 cpu : same_core s s1 → same_core s (update_clocks cpu s1).
Proof. unfold update_clocks, update_rq_clock, update_rq_clock_task. frame. Qed.
Lemma update_rq_clock_core s s1 cpu : same_core s s1 → same_core s (update_rq_clock cpu s1).
Proof. unfold update_rq_clock, update_rq_clock_task. frame. Qed.
Lemma resched_task_core s s1 me p : same_core s s1 → same_core s (resched_task me p s1).
Proof.
  intros Hs. unfold resched_task. destruct (need_resched _); [done|]. cbv zeta.
  set (s2 := upd_task p _ s1). assert (same_core s s2) by (subst s2; frame).
  destruct (_ =? _); [done|]. destruct (negb _); [|done]. by apply (core_other _ s2).
Qed.
Lemma resched_best_mask_core s s1 me b r m :
  same_core s s1 → same_core s (resched_best_mask me b r m s1).
Proof. apply resched_task_core. Qed.
Lemma resched_best_idle_core s s1 me p : same_core s s1 → same_core s (resched_best_idle me p s1).
Proof. apply resched_best_mask_core. Qed.
Lemma resched_suitable_idle_core s s1 me p :
  same_core s s1 → same_core s (resched_suitable_idle me p s1).
Proof. unfold resched_suitable_idle. intros. apply core_if; [by apply resched_best_idle_core|done]. Qed.
Lemma resched_closest_idle_core s s1 me r c p :
  same_core s s1 → same_core s (resched_closest_idle me r c p s1).
Proof. unfold resched_closest_idle. intros. apply core_if; [done|by apply resched_best_mask_core]. Qed.
Lemma clear_sticky_core s s1 p : same_core s s1 → same_core s (clear_sticky p s1).
Proof. unfold clear_sticky. frame. Qed.
Lemma set_task_cpu_core s s1 p c : same_core s s1 → same_core s (set_task_cpu p c s1).
Proof. unfold set_task_cpu. frame. Qed.
End frames.
#[export] Hint Resolve update_clocks_core update_rq_clock_core resched_task_core
  resched_best_mask_core resched_best_idle_core resched_suitable_idle_core
  resched_closest_idle_core clear_sticky_core set_task_cpu_core : frame.

Section frames2.
Context `{Config}.
Implicit Types s : sched.
Lemma swap_sticky_core s s1 me c p : same_core s s1 → same_core s (swap_sticky me c p s1).
Proof. unfold swap_sticky. frame. Qed.
Lemma unstick_task_core s s1 c p : same_core s s1 → same_core s (unstick_task c p s1).
Proof. unfold unstick_task. frame. Qed.
Lemma time_slice_expired_core s s1 p : same_core s s1 → same_core s (time_slice_expired p s1).
Proof. unfold time_slice_expired. frame. Qed.
Lemma check_deadline_core s s1 p : same_core s s1 → same_core s (check_deadline p s1).
Proof. intros. unfold check_deadline. apply core_if; [by apply time_slice_expired_core|done]. Qed.
End frames2.
#[export] Hint Resolve swap_sticky_core unstick_task_core time_slice_expired_core
  check_deadline_core : frame.
