(* ===== verification/RunQueueOps.v ===== *)
(** * Effects of the run queue operations on the invariant

    [inserted] and [removed] describe a task entering and leaving the queues;
    [same_cpus] says the CPUs are as before.  Each queueing operation of
    RunQueue.v is characterised by them, whatever else it does, and
    [activate_task] is shown to keep the invariant. *)

From S2P Require Export RunQueueInv.

Section effects.
Context `{Config}.
Implicit Types s : sched.

Definition inserted (s s' : sched) (p : Z) : Prop :=
  queue_ok s' ∧ (∀ x, queued s' x ↔ x = p ∨ queued s x) ∧ queued_count s' = queued_count s + 1.
Definition removed (s s' : sched) (p : Z) : Prop :=
  queue_ok s' ∧ (∀ x, queued s' x ↔ x ≠ p ∧ queued s x) ∧ queued_count s' = queued_count s - 1.

Record same_cpus (s s' : sched) : Prop := {
  cp_on_cpu : ∀ p, on_cpu (task s' p) = on_cpu (task s p);
  cp_cpu : ∀ c, cview (cpu_rq s' c) = cview (cpu_rq s c);
  cp_map : cpu_idle_map (grq s') = cpu_idle_map (grq s);
  cp_idle : idle_cpus (grq s') = idle_cpus (grq s);
  cp_online : cpu_online_map s' = cpu_online_map s;
}.

#[export] Instance same_cpus_equiv : Equivalence same_cpus.
Proof.
  split; [by split|intros ?? []; by split|].
  intros s1 s2 s3 [] []. split; intros; etransitivity; eauto.
Qed.

Lemma same_core_cpus s s' : same_core s s' → same_cpus s s'.
Proof.
  intros Hs. destruct (core_grq_eq _ _ Hs) as (_&_&_&_&Em&Ei).
  split; [|apply Hs|done|done|apply Hs]. intros p. apply (core_tasks_eq _ _ p Hs).
Qed.

#[export] Instance is_idle_cpus : Proper (same_cpus ==> eq ==> iff) is_idle.
Proof.
  intros s s' Hs p ? <-. unfold is_idle. split; intros (c & ? & ->); exists c; (split; [done|]);
    pose proof (cp_cpu _ _ Hs c) as E; by injection E as _ ->.
Qed.
#[export] Instance busy_count_cpus : Proper (same_cpus ==> eq) busy_count.
Proof.
  intros s s' Hs. unfold busy_count, busy_cpus. do 2 f_equal. apply list_filter_iff. intros c.
  pose proof (cp_cpu _ _ Hs c) as E. by injection E as -> ->.
Qed.
#[export] Instance cpus_ok_cpus : Proper (same_cpus ==> iff) cpus_ok.
Proof.
  enough (∀ s s', same_cpus s s' → cpus_ok s → cpus_ok s') as Hx.
  { intros s s' Hs. split; apply Hx; [done|by symmetry]. }
  intros s s' Hs [Hon Hinj Hid Hmap Hic Hii Hbits Hv].
  assert (∀ c, curr (cpu_rq s' c) = curr (cpu_rq s c) ∧ idle (cpu_rq s' c) = idle (cpu_rq s c)) as Hc.
  { intros c. pose proof (cp_cpu _ _ Hs c) as E. by injection E as -> ->. }
  split.
  - intros p. rewrite (cp_on_cpu _ _ Hs), Hon. by setoid_rewrite (λ c, proj1 (Hc c)).
  - intros c d. rewrite (proj1 (Hc c)), (proj1 (Hc d)). apply Hinj.
  - intros c d. rewrite (proj1 (Hc c)), (proj2 (Hc d)). apply Hid.
  - intros c. rewrite (cp_map _ _ Hs). destruct (Hc c) as [-> ->]. apply Hmap.
  - by rewrite (cp_map _ _ Hs), (cp_idle _ _ Hs).
  - intros c d. rewrite (proj2 (Hc c)), (proj2 (Hc d)). apply Hii.
  - by rewrite (cp_map _ _ Hs).
  - intros c. destruct (Hc c) as [-> ->]. apply Hv.
Qed.

(** Priorities of tasks that are not queued are free. *)
Lemma queue_ok_frame s s' :
  (∀ i, queue_of s' i = queue_of s i) → prio_bitmap (grq s') = prio_bitmap (grq s) →
  (∀ x, queued s x → prio (task s' x) = prio (task s x)) → queue_ok s →
  queue_ok s' ∧ (∀ x, queued s' x ↔ queued s x) ∧ queued_count s' = queued_count s.
Proof.
  intros Eq Eb Ep [Hw Hbit Hr Hp Hnd]. split_and!.
  - split; rewrite ?Eb; [done|intros i; rewrite Eq; auto|intros i p; rewrite Eq; apply Hr| |].
    + intros i p. rewrite Eq. intros Hin. rewrite Ep by (by exists i). by apply Hp.
    + intros i. by rewrite Eq.
  - intros x. unfold queued. by setoid_rewrite Eq.
  - unfold queued_count, queued_list.
    assert (queue_of s' <$> seqZ 0 PRIO_LIMIT = queue_of s <$> seqZ 0 PRIO_LIMIT) as ->; [|done].
    apply list_fmap_ext. intros. apply Eq.
Qed.

(** The priority [enqueue_task] gives the task. *)
Definition enqueue_prio (s : sched) (t : task_struct) : Z :=
  if negb (rt_task t) then
    if (idleprio_task t && idleprio_suitable t) || (iso_task t && isoprio_suitable s)
    then normal_prio t else NORMAL_PRIO
  else prio t.

Lemma enqueue_task_alt p s :
  enqueue_task p s = queue_tail p (upd_task p (λ t, t <| prio := enqueue_prio s (task s p) |>) s) ∨
  (enqueue_prio s (task s p) = prio (task s p) ∧ enqueue_task p s = queue_tail p s).
Proof.
  unfold enqueue_task, enqueue_prio. destruct (negb (rt_task (task s p))); [|by right].
  left. by destruct (_ || _).
Qed.

Lemma enqueue_prio_ok s t : task_ok t → 0 ≤ enqueue_prio s t < PRIO_LIMIT.
Proof.
  intros (Hp & Hn & _). unfold enqueue_prio. unfold rt_task, rt_prio.
  destruct (Z.ltb_spec (prio t) MAX_RT_PRIO); cbn [negb].
  - unfold PRIO_LIMIT, IDLE_PRIO, MAX_RT_PRIO in *. lia.
  - destruct (_ || _); [done|]. vm_compute. split; [discriminate|reflexivity].
Qed.

(** What a queueing operation on [p] leaves alone. *)
Record same_except (p : Z) (s s' : sched) : Prop := {
  ex_task : ∀ x, x ≠ p → tview (task s' x) = tview (task s x);
  ex_cpus : same_cpus s s';
  ex_qnr : qnr (grq s') = qnr (grq s);
  ex_nr : nr_running (grq s') = nr_running (grq s);
}.

Lemma enqueue_task_spec s p :
  queue_ok s → ¬ queued s p → valid_task p → task_ok (task s p) →
  inserted s (enqueue_task p s) p ∧ same_except p s (enqueue_task p s) ∧
  task_ok (task (enqueue_task p s) p) ∧
  prio (task (enqueue_task p s) p) = enqueue_prio s (task s p).
Proof.
  intros Hq Hnq Hv Hok. pose proof (enqueue_prio_ok s _ Hok) as Hr.
  set (s1 := upd_task p (λ t, t <| prio := enqueue_prio s (task s p) |>) s).
  assert (∀ x, x ≠ p → task s1 x = task s x) as Hx1 by (intros; by apply task_upd_task_ne).
  assert (prio (task s1 p) = enqueue_prio s (task s p)) as Hp1 by (unfold s1; by rewrite task_upd_task_eq).
  destruct (queue_ok_frame s s1) as (Hq1 & Hiff1 & Hc1); [done|done| |done|].
  { intros x Hx. rewrite Hx1; [done|]. by intros ->. }
  assert (∀ s2 x, on_cpu (task (upd_task p (λ t, t <| prio := enqueue_prio s (task s p) |>) s2) x) = on_cpu (task s2 x)) as Hon.
  { intros. by apply task_upd_proj. }
  assert (inserted s (queue_tail p s1) p ∧ same_except p s (queue_tail p s1) ∧
    task_ok (task (queue_tail p s1) p) ∧ prio (task (queue_tail p s1) p) = enqueue_prio s (task s p)) as H1.
  { destruct (queue_tail_ok s1 p Hq1) as (Ha & Hb & Hc); [by rewrite Hiff1|done|by rewrite Hp1|].
    split_and!.
    - split_and!; [done|intros x; rewrite Hb, Hiff1; done|lia].
    - split; [|split; try done|done|done].
      + intros x Hx. change (task (queue_tail p s1) x) with (task s1 x). by rewrite Hx1.
      + intros x. change (task (queue_tail p s1) x) with (task s1 x). apply Hon.
    - change (task (queue_tail p s1) p) with (task s1 p). unfold s1. rewrite task_upd_task_eq.
      destruct Hok as (?&?&?). unfold task_ok. simpl. split_and!; lia.
    - done. }
  destruct (enqueue_task_alt p s) as [E|[E1 E2]]; [rewrite E; apply H1|].
  rewrite E2, E1 in *.
  destruct (queue_tail_ok s p Hq Hnq Hv Hr) as (Ha & Hb & Hc).
  split_and!; [by split_and!|split; done || split; done|done|done].
Qed.

(** Tasks that may be activated. *)
Definition rt_range (t : task_struct) : Prop :=
  0 ≤ prio t ∧ 0 ≤ rt_priority t ≤ MAX_USER_RT_PRIO.

Lemma normal_prio_of_range t : rt_range t → 0 ≤ normal_prio_of t < PRIO_LIMIT.
Proof.
  intros [_ Hr]. unfold normal_prio_of, MAX_USER_RT_PRIO in *.
  destruct (has_rt_policy t); [unfold PRIO_LIMIT, IDLE_PRIO, MAX_RT_PRIO, MAX_USER_RT_PRIO; lia|].
  destruct (idleprio_task t); [|destruct (iso_task t)]; vm_compute; (split; [discriminate|reflexivity]).
Qed.

(** The priority [activate_task] computes before queueing. *)
Definition activate_prio (t : task_struct) : Z :=
  if negb (rt_prio (prio t)) then normal_prio_of t else prio t.
Definition set_prios (t : task_struct) : task_struct :=
  t <| normal_prio := normal_prio_of t |> <| prio := activate_prio t |>.

Lemma set_prios_ok t : rt_range t → task_ok (set_prios t).
Proof.
  intros Hr. pose proof (normal_prio_of_range t Hr) as Hn. destruct Hr as [Hp Hr].
  unfold task_ok, set_prios, activate_prio. simpl. split_and!; [|lia..]. by destruct (negb _); lia.
Qed.

(** Updates before queueing: at most [p]'s priorities and load change. *)
Lemma effective_prio_spec p s :
  let '(pr, s1) := effective_prio p s in
  pr = activate_prio (task s p) ∧ s1 = upd_task p (λ t, t <| normal_prio := normal_prio_of t |>) s.
Proof.
  unfold effective_prio, activate_prio. rewrite !task_upd_task_eq. simpl. by destruct (negb _).
Qed.

(** The whole effect of an activation. *)
Record activated (s s' : sched) (p : Z) : Prop := {
  act_inserted : inserted s s' p;
  act_cpus : same_cpus s s';
  act_others : ∀ x, x ≠ p → tview (task s' x) = tview (task s x);
  act_task : task_ok (task s' p);
  act_qnr : qnr (grq s') = u64 (qnr (grq s) + 1);
  act_nr : nr_running (grq s') = u64 (nr_running (grq s) + 1);
  act_rt : rt_task (task s p) = true → prio (task s' p) = prio (task s p);
}.

Lemma activate_task_effect s p c :
  queue_ok s → ¬ queued s p → valid_task p → rt_range (task s p) →
  activated s (activate_task p c s) p.
Proof.
  intros Hq Hnq Hv Hr. unfold activate_task. cbv zeta.
  set (s1 := update_clocks c s). assert (same_core s s1) as Hs1 by (subst s1; frame). clearbody s1.
  pose proof (effective_prio_spec p s1) as He. destruct (effective_prio p s1) as [pr s2].
  destruct He as [-> ->].
  set (s3 := upd_task p (λ t, t <| prio := activate_prio (task s1 p) |>) _).
  set (s4 := if task_contributes_to_load (task s3 p) then _ else s3).
  assert (∀ x, task s4 x = task s3 x) as Ht4 by (intros; unfold s4; by destruct (task_contributes_to_load _)).
  assert (cpu_rq s4 = cpu_rq s1) as Hc4 by (unfold s4; by destruct (task_contributes_to_load _)).
  assert (gview (grq s4) = gview (grq s1) ∧ cpu_online_map s4 = cpu_online_map s1) as [Hg4 Ho4]
    by (unfold s4; by destruct (task_contributes_to_load _)).
  assert (task s3 p = set_prios (task s1 p)) as Ht3.
  { unfold s3. by rewrite !task_upd_task_eq. }
  assert (∀ x, x ≠ p → task s3 x = task s1 x) as Hx3.
  { intros. unfold s3. by rewrite !task_upd_task_ne. }
  clearbody s4 s3. destruct (core_tasks_eq _ _ p Hs1) as (Ep & _ & Er & _).
  assert (task_ok (task s4 p)) as Hok4.
  { rewrite Ht4, Ht3. apply set_prios_ok. unfold rt_range in *. by rewrite Ep, Er. }
  injection Hg4 as Eq4 Eb4 En4 Enr4 Em4 Ei4.
  destruct (queue_ok_frame s1 s4) as (Hq4 & Hiff4 & Hc4').
  { intros i. unfold queue_of. by rewrite Eq4. } { done. }
  { intros x Hx. rewrite Ht4, Hx3; [done|]. intros ->. by apply Hnq; rewrite Hs1. }
  { by rewrite <- Hs1. }
  assert (same_cpus s1 s4) as Hcp4.
  { split; [|intros c'; by rewrite Hc4|done..]. intros x. rewrite Ht4.
    destruct (decide (x = p)) as [->|]; [by rewrite Ht3|by rewrite Hx3]. }
  destruct (enqueue_task_spec s4 p) as ((Ha & Hb & Hc) & Hex & Hok & Hprio); [done| |done|done|].
  { by rewrite Hiff4, <- Hs1. }
  set (s5 := enqueue_task p s4) in *. clearbody s5.
  pose proof (core_grq_eq _ _ Hs1) as (_&_&Eqn1&Enr1&_).
  split.
  - split_and!; [by destruct Ha; split| |].
    + intros x. change (queued (inc_qnr _) x) with (queued s5 x). by rewrite Hb, Hiff4, <- Hs1.
    + change (queued_count (inc_qnr _)) with (queued_count s5). rewrite Hc, Hc4', <- Hs1. lia.
  - transitivity s1; [by apply same_core_cpus|]. transitivity s4; [done|].
    destruct (ex_cpus _ _ _ Hex). by split.
  - intros x Hx. rewrite <- (sc_task _ _ Hs1 x). etransitivity; [by apply (ex_task _ _ _ Hex)|].
    by rewrite Ht4, Hx3.
  - done.
  - change (u64 (qnr (grq s5) + 1) = u64 (qnr (grq s) + 1)). by rewrite (ex_qnr _ _ _ Hex), En4, Eqn1.
  - change (u64 (nr_running (grq s5) + 1) = u64 (nr_running (grq s) + 1)).
    by rewrite (ex_nr _ _ _ Hex), Enr4, Enr1.
  - intros Hrt. change (prio (task s5 p) = prio (task s p)). rewrite Hprio, Ht4, Ht3, <- Ep.
    unfold rt_task in Hrt. rewrite <- Ep in Hrt.
    unfold enqueue_prio, rt_task, set_prios, activate_prio. simpl. by rewrite !Hrt; simpl; rewrite Hrt.
Qed.

(** Activation keeps the invariant. *)
Lemma activate_task_ok s p c :
  runqueue_ok s → ¬ queued s p → on_cpu (task s p) = false → ¬ is_idle s p → valid_task p →
  rt_range (task s p) → runqueue_ok (activate_task p c s).
Proof.
  intros [Hq Hc Hd Hqn Hnr Ht Hn] Hnq Hon Hni Hv Hr.
  pose proof (activate_task_effect s p c Hq Hnq Hv Hr) as Hact. revert Hact.
  generalize (activate_task p c s). intros s' [(Hq' & Hiff & Hcnt) Hcp Hx Hok En Enr _].
  pose proof (queued_count_bound s Hq). pose proof (busy_count_bound s Hn).
  split; try done.
  - by rewrite <- Hcp.
  - intros x. rewrite Hiff, (cp_on_cpu _ _ Hcp), <- Hcp. intros [->|Hx']; [done|by apply Hd].
  - rewrite En, Hcnt, Hqn. apply u64_id. lia.
  - rewrite Enr, Hcnt, Hnr, <- Hcp. rewrite u64_id; lia.
  - intros x Hx'. rewrite Hiff, (cp_on_cpu _ _ Hcp), <- Hcp in Hx'.
    destruct (decide (x = p)) as [->|Hne]; [done|].
    specialize (Hx x Hne). injection Hx as E1 E2 E3 _. unfold task_ok. rewrite E1, E2, E3.
    apply Ht. naive_solver.
Qed.

(** A task leaves the queues for a CPU. *)
Record taken (s s' : sched) (p : Z) : Prop := {
  tk_removed : removed s s' p;
  tk_cpus : same_cpus s s';
  tk_tasks : ∀ x, tview (task s' x) = tview (task s x);
  tk_qnr : qnr (grq s') = u64 (qnr (grq s) - 1);
  tk_nr : nr_running (grq s') = nr_running (grq s);
}.

Lemma take_task_effect s p c :
  queue_ok s → queued s p → taken s (take_task c p s) p.
Proof.
  intros Hq Hp. unfold take_task. cbv zeta.
  set (s1 := set_task_cpu p c s). assert (same_core s s1) as Hs1 by (subst s1; frame). clearbody s1.
  destruct (dequeue_task_ok s1 p) as (Ha & Hb & Hc); [by rewrite <- Hs1..|].
  assert (same_cpus s1 (dequeue_task p s1)) as Hcp.
  { split; intros; rewrite ?task_dequeue; try done; unfold dequeue_task; by case_bool_decide. }
  assert (qnr (grq (dequeue_task p s1)) = qnr (grq s1) ∧
          nr_running (grq (dequeue_task p s1)) = nr_running (grq s1)) as [En Enr].
  { unfold dequeue_task. by case_bool_decide. }
  assert (∀ x, task (dequeue_task p s1) x = task s1 x) as Ht by (intros; apply task_dequeue).
  set (s2 := dequeue_task p s1) in *. clearbody s2.
  set (s3 := clear_sticky p s2). assert (same_core s2 s3) as Hs3 by (subst s3; frame).
  assert (same_core s2 s3) as Hs3' by done. clearbody s3.
  pose proof (core_grq_eq _ _ Hs1) as (_&_&Eqn1&Enr1&_).
  pose proof (core_grq_eq _ _ Hs3) as (_&_&Eqn3&Enr3&_).
  split.
  - split_and!.
    + rewrite Hs3 in Ha. by destruct Ha; split.
    + intros x. change (queued (dec_qnr s3) x) with (queued s3 x). by rewrite <- Hs3, Hb, <- Hs1.
    + change (queued_count (dec_qnr s3)) with (queued_count s3). rewrite <- Hs3, Hc, <- Hs1. lia.
  - transitivity s1; [by apply same_core_cpus|]. transitivity s2; [done|].
    transitivity s3; [by apply same_core_cpus|]. by split.
  - intros x. change (tview (task s3 x) = tview (task s x)).
    by rewrite (sc_task _ _ Hs3), Ht, (sc_task _ _ Hs1).
  - change (u64 (qnr (grq s3) - 1) = u64 (qnr (grq s) - 1)). by rewrite Eqn3, En, Eqn1.
  - change (nr_running (grq s3) = nr_running (grq s)). by rewrite Enr3, Enr, Enr1.
Qed.
End effects.

(** ** Writing a task that is neither queued nor running *)
Section free_task.
Context `{Config}.
Implicit Types s : sched.

Record same_but (p : Z) (s s' : sched) : Prop := {
  sb_task : ∀ x, x ≠ p → tview (task s' x) = tview (task s x);
  sb_cpu : ∀ c, cview (cpu_rq s' c) = cview (cpu_rq s c);
  sb_grq : gview (grq s') = gview (grq s);
  sb_online : cpu_online_map s' = cpu_online_map s;
}.

Lemma same_but_refl p s : same_but p s s.
Proof. by split. Qed.
Lemma but_task_self p s s1 f : same_but p s s1 → same_but p s (upd_task p f s1).
Proof.
  intros [Ht Hc Hg Ho]. split; try done. intros x Hx. rewrite <- (Ht x Hx).
  by rewrite task_upd_task_ne.
Qed.
Lemma but_core p s s1 s2 : same_core s1 s2 → same_but p s s1 → same_but p s s2.
Proof.
  intros [Ht Hc Hg Ho] [Ht' Hc' Hg' Ho']. split.
  - intros x Hx. by rewrite Ht, Ht'.
  - intros c. by rewrite Hc, Hc'.
  - by rewrite Hg, Hg'.
  - by rewrite Ho, Ho'.
Qed.
Lemma but_if p (b : bool) s s1 s2 : same_but p s s1 → same_but p s s2 → same_but p s (if b then s1 else s2).
Proof. by destruct b. Qed.

(** Only a task off the queues changes, and it stays where it is. *)
Lemma runqueue_ok_task p s s' :
  runqueue_ok s → ¬ queued s p → same_but p s s' → on_cpu (task s' p) = on_cpu (task s p) →
  (on_cpu (task s p) = true → ¬ is_idle s p → task_ok (task s' p)) →
  runqueue_ok s' ∧ (∀ x, queued s' x ↔ queued s x).
Proof.
  intros [Hq Hc Hd Hqn Hnr Ht Hn] Hnq [Hx Hcp Hg Ho] Hon Hok.
  injection Hg as Eq Eb En Enr Em Ei.
  destruct (queue_ok_frame s s') as (Hq' & Hiff & Hcnt).
  { intros i. unfold queue_of. by rewrite Eq. } { done. }
  { intros x Hxq. assert (x ≠ p) as Hne by (by intros ->). specialize (Hx x Hne). by injection Hx. }
  { done. }
  assert (same_cpus s s') as Hcpus.
  { split; try done. intros x. destruct (decide (x = p)) as [->|Hne]; [done|].
    specialize (Hx x Hne). by injection Hx. }
  split; [|done]. split; try done.
  - by rewrite <- Hcpus.
  - intros x Hxq. rewrite Hiff in Hxq. rewrite (cp_on_cpu _ _ Hcpus), <- Hcpus. by apply Hd.
  - by rewrite En, Hcnt.
  - by rewrite Enr, Hcnt, <- Hcpus.
  - intros x Hx'. rewrite Hiff, (cp_on_cpu _ _ Hcpus), <- Hcpus in Hx'.
    destruct (decide (x = p)) as [->|Hne]; [naive_solver|].
    specialize (Hx x Hne). injection Hx as E1 E2 E3 _. unfold task_ok. rewrite E1, E2, E3. by apply Ht.
Qed.

Lemma runqueue_ok_but p s s' :
  runqueue_ok s → ¬ queued s p → on_cpu (task s p) = false → same_but p s s' →
  on_cpu (task s' p) = false → runqueue_ok s' ∧ (∀ x, queued s' x ↔ queued s x).
Proof. intros ?? E ??. apply (runqueue_ok_task p); congruence. Qed.

(** A queued task is taken off, changed and queued again. *)
Lemma requeue_ok p s s1 :
  runqueue_ok s → queued s p → same_but p (dequeue_task p s) s1 → on_cpu (task s1 p) = false →
  task_ok (task s1 p) →
  runqueue_ok (enqueue_task p s1) ∧ (∀ x, queued (enqueue_task p s1) x ↔ queued s x).
Proof.
  intros [Hq Hc Hd Hqn Hnr Ht Hn] Hp Hsb Hon Hok.
  destruct (dequeue_task_ok s p Hq Hp) as (Hq0 & Hiff0 & Hcnt0).
  destruct Hsb as [Hx Hcp Hg Ho]. injection Hg as Eq Eb En Enr Em Ei.
  assert (valid_task p) as Hv by (destruct Hp as [i Hi]; by apply (q_prio s Hq i)).
  destruct (queue_ok_frame (dequeue_task p s) s1) as (Hq1 & Hiff1 & Hcnt1).
  { intros i. unfold queue_of. by rewrite Eq. } { done. }
  { intros x Hxq. apply Hiff0 in Hxq as [Hne _]. specialize (Hx x Hne). by injection Hx. } { done. }
  assert (¬ queued s1 p) as Hnq by (rewrite Hiff1, Hiff0; naive_solver).
  destruct (enqueue_task_spec s1 p Hq1 Hnq Hv Hok) as ((Hq2 & Hiff2 & Hcnt2) & [Hex Hcpu Eqn Enr'] & Hok2 & _).
  assert (∀ x, x ≠ p → tview (task (enqueue_task p s1) x) = tview (task s x)) as Hx2.
  { intros x Hne. by rewrite Hex, Hx, task_dequeue. }
  assert (same_cpus s (enqueue_task p s1)) as Hcpus.
  { transitivity s1; [|done]. split; try done.
    - intros x. destruct (decide (x = p)) as [->|Hne]; [rewrite Hon; symmetry; by apply Hd|].
      specialize (Hx x Hne). rewrite task_dequeue in Hx. by injection Hx.
    - intros c. rewrite Hcp. unfold dequeue_task. by case_bool_decide.
    - rewrite Em. unfold dequeue_task. by case_bool_decide.
    - rewrite Ei. unfold dequeue_task. by case_bool_decide.
    - rewrite Ho. unfold dequeue_task. by case_bool_decide. }
  assert (∀ x, queued (enqueue_task p s1) x ↔ queued s x) as Hiff.
  { intros x. rewrite Hiff2, Hiff1, Hiff0. destruct (decide (x = p)); naive_solver. }
  assert (qnr (grq (dequeue_task p s)) = qnr (grq s)) as Edq by (unfold dequeue_task; by case_bool_decide).
  assert (nr_running (grq (dequeue_task p s)) = nr_running (grq s)) as Edn
    by (unfold dequeue_task; by case_bool_decide).
  split; [|done]. split; try done.
  - by rewrite <- Hcpus.
  - intros x Hxq. rewrite Hiff in Hxq. rewrite (cp_on_cpu _ _ Hcpus), <- Hcpus. by apply Hd.
  - rewrite Eqn, En, Edq, Hqn. lia.
  - assert (queued_count (enqueue_task p s1) = queued_count s) as -> by lia.
    by rewrite Enr', Enr, Edn, Hnr, <- Hcpus.
  - intros x Hx'. rewrite Hiff, (cp_on_cpu _ _ Hcpus), <- Hcpus in Hx'.
    destruct (decide (x = p)) as [->|Hne]; [done|].
    specialize (Hx2 x Hne). injection Hx2 as E1 E2 E3 _. unfold task_ok. rewrite E1, E2, E3. by apply Ht.
Qed.
End free_task.
#[export] Hint Resolve same_but_refl but_task_self but_if : frame.
