(* ===== verification/Machine.v ===== *)
(** * A concrete machine

    Four CPUs on [sample_config]: CPU 0 runs the task at address 20, CPU 1 a
    real-time task (25), the others are idle; a normal task (21) and a real-time
    task (22) are queued, and two tasks (23 and 24) sleep.  It satisfies the run queue invariant; the examples
    of the files above it start here. *)

From S2P Require Import Injector.
From S2P Require Export RunQueueOps.

#[local] Existing Instance sample_config.

(** The idle task of a CPU, and a task of the given state, priority, real-time
    priority, policy and [on_cpu]. *)
Definition idle_task (cpu : Z) (running : bool) : task_struct :=
  inhabitant <| prio := PRIO_LIMIT |> <| normal_prio := IDLE_PRIO |> <| static_prio := NICE_TO_PRIO 0 |>
    <| cpus_allowed := Z.shiftl 1 cpu |> <| task_cpu := cpu |> <| on_cpu := running |>
    <| active_mm := 900 |>.
Definition user_task (st pr rtp pol : Z) (running : bool) : task_struct :=
  inhabitant <| state := st |> <| prio := pr |> <| normal_prio := pr |> <| static_prio := NICE_TO_PRIO 0 |>
    <| rt_priority := rtp |> <| policy := pol |> <| cpus_allowed := 15 |> <| on_cpu := running |>
    <| mm := 900 |> <| active_mm := 900 |> <| time_slice := 6144 |> <| deadline := 1000 |>
    <| usage := 2 |>.

Definition machine_tasks : gmap Z task_struct :=
  <[10 := idle_task 0 false]> (<[11 := idle_task 1 false]> (<[12 := idle_task 2 true]>
  (<[13 := idle_task 3 true]> (<[20 := user_task 0 NORMAL_PRIO 0 SCHED_NORMAL true]>
  (<[21 := user_task 0 NORMAL_PRIO 0 SCHED_NORMAL false]> (<[22 := user_task 0 50 50 SCHED_FIFO false]>
  (<[23 := user_task TASK_INTERRUPTIBLE NORMAL_PRIO 0 SCHED_NORMAL false]>
  (<[24 := user_task TASK_UNINTERRUPTIBLE 60 40 SCHED_RR false]>
  (<[25 := user_task 0 40 60 SCHED_FIFO true]> ∅))))))))).

Definition machine_rq (cur idl pr : Z) : rq :=
  inhabitant <| curr := cur |> <| idle := idl |> <| rq_prio := pr |> <| rq_deadline := 1000 |>
    <| rq_time_slice := 6144 |> <| rq_running := negb (cur =? idl) |> <| online := true |>
    <| cpu_locality := [0; 1; 2; 4] |> <| siblings_idle := SiblingsCpuIdle |> <| smt_siblings := 3 |>
    <| cache_idle := CacheCpuIdle |> <| cache_siblings := 7 |>.
Definition machine_rqs : gmap Z rq :=
  <[0 := machine_rq 20 10 NORMAL_PRIO]> (<[1 := machine_rq 25 11 40]>
  (<[2 := machine_rq 12 12 PRIO_LIMIT]> (<[3 := machine_rq 13 13 PRIO_LIMIT]> ∅))).

Definition machine_grq : global_rq :=
  mk_global_rq 4 1 0 (<[NORMAL_PRIO := [21]]> (<[50 := [22]]> ∅))
    (__set_bit 50 (__set_bit NORMAL_PRIO [0; 0])) 2 12 true 4 500 0 0 false.
Definition machine : sched :=
  mk_sched machine_tasks machine_rqs machine_grq sample_boot 0 ∅ 15 15 6 70 (init_prio_ratios 40)
    ∅ ∅ {[ 900 := 5 ]} ∅ [].

Lemma machine_cpus c : c ∈ cpus ↔ c = 0 ∨ c = 1 ∨ c = 2 ∨ c = 3.
Proof. unfold cpus. rewrite elem_of_seqZ. simpl. lia. Qed.

Lemma machine_task p : p ∉ [10; 11; 12; 13; 20; 21; 22; 23; 24; 25] → task machine p = inhabitant.
Proof.
  rewrite !not_elem_of_cons. intros (?&?&?&?&?&?&?&?&?&?&_). unfold task. simpl. unfold machine_tasks.
  by rewrite !lookup_total_insert_ne by done.
Qed.

(** Every CPU and every task of the machine, one by one. *)
Ltac machine_cpu c H := apply machine_cpus in H; destruct H as [->|[->|[->| ->]]].
Ltac machine_tasks_cases p :=
  destruct (decide (p ∈ [10; 11; 12; 13; 20; 21; 22; 23; 24; 25])) as [Hin|Hin];
  [repeat (apply elem_of_cons in Hin as [->|Hin]); [..|by apply not_elem_of_nil in Hin]
  |rewrite ?(machine_task p Hin)].

Lemma machine_queue i : queue_of machine i = if decide (i = NORMAL_PRIO) then [21] else if decide (i = 50) then [22] else [].
Proof.
  unfold queue_of. simpl. rewrite !lookup_total_insert. by repeat case_decide; subst.
Qed.

Lemma machine_queued p : queued machine p ↔ p = 21 ∨ p = 22.
Proof.
  unfold queued. setoid_rewrite machine_queue. split.
  - intros [i Hi]. repeat case_decide; set_solver.
  - intros [->| ->]; [exists NORMAL_PRIO|exists 50]; rewrite ?decide_True, ?decide_False by done; set_solver.
Qed.

Lemma machine_is_idle p : is_idle machine p ↔ p = 10 ∨ p = 11 ∨ p = 12 ∨ p = 13.
Proof.
  unfold is_idle. split.
  - intros (c & Hc & ->). machine_cpu c Hc; vm_compute; tauto.
  - intros [->|[->|[->| ->]]]; [exists 0|exists 1|exists 2|exists 3];
      (split; [apply machine_cpus; tauto|reflexivity]).
Qed.

Lemma machine_queue_ok : queue_ok machine.
Proof.
  split.
  - split; [|vm_compute; reflexivity]. intros i. simpl.
    destruct i as [|[|i]]; vm_compute; split; congruence.
  - intros i Hi. rewrite machine_queue. simpl. rewrite !bit_set by (lia || vm_compute; (split; congruence) || congruence || reflexivity).
    assert (bit i [0; 0] = false) as ->.
    { unfold bit. assert (BIT_WORD i < 2)%nat as Hw.
      { unfold BIT_WORD, BITS_PER_LONG. change PRIO_LIMIT with 104 in Hi. lia_mod. }
      destruct (BIT_WORD i) as [|[|n]]; [apply Z.bits_0..|lia]. }
    rewrite orb_false_r. repeat case_decide; subst; try done.
    rewrite !(proj2 (Z.eqb_neq _ _)) by done. done.
  - intros i p. rewrite machine_queue. repeat case_decide; subst; [done..|set_solver].
  - intros i p. rewrite machine_queue. repeat case_decide; subst; [| |set_solver];
      intros ->%list_elem_of_singleton; by vm_compute.
  - intros i. rewrite machine_queue. repeat case_decide; [apply NoDup_singleton..|apply NoDup_nil_2].
Qed.

Lemma machine_cpus_ok : cpus_ok machine.
Proof.
  split.
  - intros p. split.
    + machine_tasks_cases p; vm_compute; try done; intros _;
        [exists 2|exists 3|exists 0|exists 1]; (split; [apply machine_cpus; tauto|reflexivity]).
    + intros (c & Hc & <-). by machine_cpu c Hc.
  - intros c d Hc Hd. machine_cpu c Hc; machine_cpu d Hd; by vm_compute.
  - intros c d Hc Hd. machine_cpu c Hc; machine_cpu d Hd; by vm_compute.
  - intros c Hc. machine_cpu c Hc; by vm_compute.
  - done.
  - intros c d Hc Hd. machine_cpu c Hc; machine_cpu d Hd; by vm_compute.
  - intros c. simpl. intros Hb. destruct (decide (c ∈ cpus)) as [|Hc]; [done|].
    rewrite machine_cpus in Hc. assert (c < 0 ∨ 4 ≤ c) as [Hn|Hn] by lia.
    + by rewrite Z.testbit_neg_r in Hb.
    + rewrite Z.bits_above_log2 in Hb; [done|lia|]. change (Z.log2 12) with 3. lia.
  - intros c Hc. machine_cpu c Hc; by vm_compute.
Qed.

Lemma machine_ok : runqueue_ok machine.
Proof.
  split; [apply machine_queue_ok|apply machine_cpus_ok| | | | |done].
  - intros p. rewrite machine_queued, machine_is_idle. intros [->| ->]; (split; [done|lia]).
  - reflexivity.
  - reflexivity.
  - intros p. rewrite machine_queued, machine_is_idle. intros [[->| ->]|[Ho Hi]]; [by vm_compute..|].
    revert Ho Hi. machine_tasks_cases p; try (vm_compute; done); try (intros; lia).
Qed.
