(* ===== verification/Wakeup.v ===== *)
(** * Preemption and wakeups of kernel/sched_bfs.c

    [can_preempt] and [try_preempt] decide which CPU a newly queued task
    interrupts; [try_to_wake_up] and its variants queue sleeping tasks;
    [sched_fork] and [wake_up_new_task] start new ones.

    The theorems: wakeups keep the run queue invariant and do exactly what
    their return value says; the interrupted CPU is the right one; a fork splits
    the parent's time slice. *)

From S2P Require Export RunQueueOps.
From S2P Require Import Machine.

Section wakeup.
Context `{Config}.

Definition can_preempt (p : task_struct) (pr dl : Z) : bool :=
  if prio p <? pr then true
  else if pr <? prio p then false
  else if negb (deadline_before (deadline p) dl) then false
  else true.

Definition online_cpus (s : sched) (p : task_struct) : bool :=
  cpus_intersects (cpu_online_map s) (cpus_allowed p).

Definition needs_other_cpu (p : task_struct) (cpu : Z) : bool :=
  if negb (cpu_isset cpu (cpus_allowed p)) then true else false.

(** The loop of [try_preempt] over the allowed online CPUs. *)
Fixpoint preempt_scan (s : sched) (cs : list Z) (highest_prio highest_prio_rq latest_deadline : Z) :
    Z * Z :=
  match cs with
  | [] => (highest_prio, highest_prio_rq)
  | c :: cs =>
      let r := cpu_rq s c in
      if rq_prio r <? highest_prio then preempt_scan s cs highest_prio highest_prio_rq latest_deadline
      else if (highest_prio <? rq_prio r) || deadline_after (rq_deadline r) latest_deadline
      then preempt_scan s cs (rq_prio r) c (rq_deadline r)
      else preempt_scan s cs highest_prio highest_prio_rq latest_deadline
  end.

(** [this_rq] is a CPU number. *)
Definition try_preempt (me p this_rq : Z) (s : sched) : sched :=
  let s := clear_sticky p s in
  if suitable_idle_cpus p s then resched_best_idle me p s
  else if policy (task s p) =? SCHED_IDLEPRIO then s
  else if online_cpus s (task s p) then
    let tmp := cpus_and (cpu_online_map s) (cpus_allowed (task s p)) in
    let '(highest_prio, highest_prio_rq) :=
      preempt_scan s (cpus_in tmp) (prio (task s p)) this_rq (rq_deadline (cpu_rq s this_rq)) in
    if negb (can_preempt (task s p) highest_prio (rq_deadline (cpu_rq s highest_prio_rq))) then s
    else resched_task me (curr (cpu_rq s highest_prio_rq)) s
  else s.

Definition ttwu_activate (me p rqcpu : Z) (is_sync : bool) (s : sched) : sched :=
  let s := activate_task p rqcpu s in
  if negb is_sync || suitable_idle_cpus p s then try_preempt me p rqcpu s else s.

(** The notification of the workqueue code ([wq_worker_waking_up]) does not
    touch the scheduler's state. *)
Definition ttwu_post_activation (p : Z) (s : sched) : sched :=
  upd_task p (λ t, t <| state := TASK_RUNNING |>) s.

Definition WF_SYNC : Z := 0x01.

Definition try_to_wake_up (me p st wake_flags : Z) (s : sched) : bool * sched :=
  let rqcpu := task_cpu (task s p) in
  if Z.land (u32 (state (task s p))) st =? 0 then (false, s)
  else if task_queued p s || task_running p s then (false, ttwu_post_activation p s)
  else
    let s := ttwu_activate me p rqcpu (negb (Z.land wake_flags WF_SYNC =? 0)) s in
    (true, ttwu_post_activation p s).

Definition try_to_wake_up_local (me p : Z) (s : sched) : sched :=
  let rqcpu := task_cpu (task s p) in
  if Z.land (state (task s p)) TASK_NORMAL =? 0 then s
  else
    let s := if negb (task_queued p s) then ttwu_activate me p rqcpu false s else s in
    ttwu_post_activation p s.

Definition wake_up_process (me p : Z) (s : sched) : bool * sched := try_to_wake_up me p TASK_ALL 0 s.
Definition wake_up_state (me p st : Z) (s : sched) : bool * sched := try_to_wake_up me p st 0 s.

Definition kick_process (me p : Z) (s : sched) : sched :=
  let cpu := task_cpu (task s p) in
  if negb (cpu =? me) && task_curr p s then s <| ipis ::= cons cpu |> else s.

(** ** New tasks

    Lines 1922-1938. *)
Definition reset_on_fork (t : task_struct) : task_struct :=
  if sched_reset_on_fork t then
    let t := if (policy t =? SCHED_FIFO) || (policy t =? SCHED_RR) then
               let t := t <| policy := SCHED_NORMAL |> in t <| normal_prio := normal_prio_of t |>
             else t in
    let t := if PRIO_TO_NICE (static_prio t) <? 0 then
               let t := t <| static_prio := NICE_TO_PRIO 0 |> in t <| normal_prio := static_prio t |>
             else t in
    t <| sched_reset_on_fork := false |>
  else t.

(** Lines 1913-1957: everything before the time slice. *)
Definition fork_setup (me p : Z) (s : sched) : sched :=
  let s := upd_task p (λ t, t <| state := TASK_RUNNING |>) s in
  let s := set_task_cpu p me s in
  let s := upd_task p (λ t, t <| sched_time := 0 |> <| stime_pc := 0 |> <| utime_pc := 0 |>) s in
  let s := upd_task p reset_on_fork s in
  let cur := curr (cpu_rq s me) in
  let s := upd_task p (λ t, t <| prio := normal_prio (task s cur) |>) s in
  let s := upd_task p (λ t, t <| on_cpu := false |>) s in
  let s := clear_sticky p s in
  upd_task p (λ t, t <| preempt_count := 1 |>) s.

(** Lines 1970-1985: the parent shares its time slice. *)
Definition fork_share (cur p : Z) (s : sched) : sched :=
  let rqcpu := task_cpu (task s cur) in
  let s :=
    if RESCHED_US * 2 <=? rq_time_slice (cpu_rq s rqcpu) then
      let s := upd_rq rqcpu (λ r, r <| rq_time_slice ::= λ n, Z.quot n 2 |>) s in
      upd_task p (λ t, t <| time_slice := rq_time_slice (cpu_rq s rqcpu) |>) s
    else
      let s := upd_rq rqcpu (λ r, r <| rq_time_slice := 0 |>) s in
      let s := upd_task cur (λ t, t <| need_resched := true |>) s in
      time_slice_expired p s in
  upd_task p (λ t, t <| last_ran := rq_last_ran (cpu_rq s rqcpu) |>) s.

Definition sched_fork (me p : Z) (s : sched) : sched :=
  let s := fork_setup me p s in
  if policy (task s p) =? SCHED_FIFO then s else fork_share (curr (cpu_rq s me)) p s.

Definition wake_up_new_task (me p : Z) (s : sched) : sched :=
  let rqcpu := task_cpu (task s p) in
  let s := upd_task p (λ t, t <| state := TASK_RUNNING |>) s in
  let par := parent (task s p) in
  let s := set_task_cpu p (task_cpu (task s par)) s in
  let s := activate_task p rqcpu s in
  if (curr (cpu_rq s rqcpu) =? par) && negb (suitable_idle_cpus p s)
  then resched_task me par s
  else try_preempt me p rqcpu s.
End wakeup.

(** ** Frames *)
Section wakeup_frames.
Context `{Config}.
Implicit Types s : sched.
Lemma try_preempt_core s s1 me p r : same_core s s1 → same_core s (try_preempt me p r s1).
Proof.
  intros Hs. unfold try_preempt. set (s2 := clear_sticky p s1).
  assert (same_core s s2) by (subst s2; frame). clearbody s2. cbv zeta.
  destruct (suitable_idle_cpus p s2); [frame|]. destruct (_ =? _); [done|].
  destruct (online_cpus _ _); [|done]. destruct (preempt_scan _ _ _ _ _). frame.
Qed.
Lemma ttwu_post_activation_core s s1 p : same_core s s1 → same_core s (ttwu_post_activation p s1).
Proof. unfold ttwu_post_activation. frame. Qed.
End wakeup_frames.
#[export] Hint Resolve try_preempt_core ttwu_post_activation_core : frame.

(** ** What a wakeup leaves alone

    A quiet projection does not read the fields that queueing and preemption write. *)
Class Quiet {B} (φ : task_struct → B) : Prop := {
  quiet_prio : ∀ t v, φ (t <| prio := v |>) = φ t;
  quiet_normal_prio : ∀ t v, φ (t <| normal_prio := v |>) = φ t;
  quiet_need_resched : ∀ t v, φ (t <| need_resched := v |>) = φ t;
  quiet_sticky : ∀ t v, φ (t <| sticky := v |>) = φ t;
}.

Section keeps.
Context `{Config} {B : Type} {φ : task_struct → B}.
Implicit Types s : sched.

Definition keeps s s' : Prop := ∀ x, φ (task s' x) = φ (task s x).

Lemma keeps_refl s : keeps s s.
Proof. done. Qed.
Lemma keeps_trans s1 s2 s3 : keeps s1 s2 → keeps s2 s3 → keeps s1 s3.
Proof. intros H1 H2 x. by rewrite H2. Qed.
Lemma keeps_task s s1 p f : (∀ t, φ (f t) = φ t) → keeps s s1 → keeps s (upd_task p f s1).
Proof. intros Hf Hs x. rewrite <- (Hs x). by apply task_upd_proj. Qed.
Lemma keeps_if (b : bool) s s1 s2 : keeps s s1 → keeps s s2 → keeps s (if b then s1 else s2).
Proof. by destruct b. Qed.
Lemma keeps_tasks s s1 s2 : tasks s2 = tasks s1 → keeps s s1 → keeps s s2.
Proof. intros E Hs x. rewrite <- (Hs x). unfold task. by rewrite E. Qed.
Lemma keeps_clocks s s1 c : keeps s s1 → keeps s (update_clocks c s1).
Proof. by apply keeps_tasks. Qed.

Context `{!Quiet φ}.
Lemma keeps_resched s s1 me p : keeps s s1 → keeps s (resched_task me p s1).
Proof.
  intros Hs. unfold resched_task. cbv zeta. apply keeps_if; [done|].
  assert (keeps s (upd_task p (λ t, t <| need_resched := true |>) s1))
    by (apply keeps_task; [intros; apply quiet_need_resched|done]).
  by apply keeps_if; [|apply keeps_if].
Qed.
Lemma keeps_enqueue s s1 p : keeps s s1 → keeps s (enqueue_task p s1).
Proof.
  intros Hs. destruct (enqueue_task_alt p s1) as [->|[_ ->]].
  - apply (keeps_tasks _ (upd_task p (λ t, t <| prio := enqueue_prio s1 (task s1 p) |>) s1)); [done|].
    apply keeps_task; [intros; apply quiet_prio|done].
  - by apply (keeps_tasks _ s1).
Qed.
Lemma keeps_preempt s s1 me p r : keeps s s1 → keeps s (try_preempt me p r s1).
Proof.
  intros Hs. unfold try_preempt. cbv zeta.
  assert (keeps s (clear_sticky p s1)) as Hc by (apply keeps_task; [intros; apply quiet_sticky|done]).
  set (s2 := clear_sticky p s1) in *. clearbody s2.
  destruct (suitable_idle_cpus p s2); [by apply keeps_resched|].
  destruct (policy (task s2 p) =? SCHED_IDLEPRIO); [done|]. destruct (online_cpus s2 (task s2 p)); [|done].
  destruct (preempt_scan _ _ _ _ _) as [hp hr]. by apply keeps_if; [|apply keeps_resched].
Qed.
Lemma keeps_activate s p r : keeps s (activate_task p r s).
Proof.
  unfold activate_task, effective_prio. cbv zeta.
  set (s2 := upd_task p _ (update_clocks r s)).
  assert (keeps s s2) as H2 by (apply keeps_task; [intros; apply quiet_normal_prio|by apply keeps_clocks, keeps_refl]).
  destruct (negb _); (eapply keeps_tasks; [reflexivity|]; apply keeps_enqueue; apply keeps_if;
    [eapply keeps_tasks; [reflexivity|]|]; apply keeps_task; [intros; apply quiet_prio|done|intros; apply quiet_prio|done]).
Qed.
Lemma keeps_ttwu s me p r b : keeps s (ttwu_activate me p r b s).
Proof. unfold ttwu_activate. cbv zeta. apply keeps_if; [apply keeps_preempt|]; apply keeps_activate. Qed.
End keeps.
#[global] Arguments keeps {B} φ s s'.

Section wakeup_ok.
Context `{Config}.
Implicit Types s : sched.

(** What the rest of the kernel guarantees of a task it wakes. *)
Definition wakeable (s : sched) (p : Z) : Prop :=
  valid_task p ∧ ¬ is_idle s p ∧ rt_range (task s p).

#[export] Instance wakeable_proper : Proper (same_core ==> eq ==> iff) wakeable.
Proof.
  enough (∀ s s' p, same_core s s' → wakeable s p → wakeable s' p) as Hx.
  { intros s s' Hs p ? <-. split; apply Hx; [done|by symmetry]. }
  intros s s' p Hs (Hv & Hi & Hr). unfold wakeable, rt_range.
  destruct (core_tasks_eq _ _ p Hs) as (-> & _ & -> & _). by rewrite <- Hs.
Qed.

Lemma ttwu_activate_ok s me p c b :
  runqueue_ok s → ¬ queued s p → on_cpu (task s p) = false → wakeable s p →
  runqueue_ok (ttwu_activate me p c b s) ∧
  (∀ x, queued (ttwu_activate me p c b s) x ↔ x = p ∨ queued s x).
Proof.
  intros Hok Hnq Hon (Hv & Hni & Hr).
  pose proof (activate_task_ok s p c Hok Hnq Hon Hni Hv Hr) as Hok1.
  pose proof (activate_task_effect s p c (ok_queue _ Hok) Hnq Hv Hr) as Hact.
  destruct (act_inserted _ _ _ Hact) as (_ & Hiff & _).
  unfold ttwu_activate. set (s1 := activate_task p c s) in *. clearbody s1. cbv zeta.
  assert (same_core s1 (if negb b || suitable_idle_cpus p s1 then try_preempt me p c s1 else s1)) as Hs1
    by frame.
  split; [by rewrite <- Hs1|]. intros x. by rewrite <- Hs1, Hiff.
Qed.

Lemma not_queued_b s p : queue_ok s → task_queued p s = false → ¬ queued s p.
Proof. intros Hq E Hp. apply task_queued_spec in Hp; [congruence|done]. Qed.

(** C5. Waking a task up does what the return value says and keeps the run queue
    invariant.  The task is woken exactly when its state matches and it is
    neither queued nor running; then it joins the queues, and no other task
    does.  Otherwise the queues are unchanged.  Whenever the state matched, the
    task ends up TASK_RUNNING. *)
Theorem try_to_wake_up_spec (me p st wf : Z) (s : sched) :
  runqueue_ok s → wakeable s p →
  let '(success, s') := try_to_wake_up me p st wf s in
  runqueue_ok s' ∧
  (success = true ↔ Z.land (u32 (state (task s p))) st ≠ 0 ∧ ¬ queued s p ∧ on_cpu (task s p) = false) ∧
  (∀ x, queued s' x ↔ (success = true ∧ x = p) ∨ queued s x) ∧
  (Z.land (u32 (state (task s p))) st ≠ 0 → state (task s' p) = TASK_RUNNING) ∧
  (Z.land (u32 (state (task s p))) st = 0 → s' = s).
Proof.
  intros Hok Hw. unfold try_to_wake_up, task_running. cbv zeta.
  destruct (Z.eqb_spec (Z.land (u32 (state (task s p))) st) 0) as [E|E].
  { split_and!; [done|naive_solver|naive_solver|done|done]. }
  assert (∀ s1, state (task (ttwu_post_activation p s1) p) = TASK_RUNNING) as Hpost.
  { intros. unfold ttwu_post_activation. by rewrite task_upd_task_eq. }
  destruct (task_queued p s) eqn:Eq; [|destruct (on_cpu (task s p)) eqn:Eon]; cbn [orb].
  - assert (same_core s (ttwu_post_activation p s)) as Hs by frame.
    apply task_queued_spec in Eq; [|apply Hok].
    split_and!; [by rewrite <- Hs|naive_solver|intros x; rewrite <- Hs; naive_solver|auto|done].
  - assert (same_core s (ttwu_post_activation p s)) as Hs by frame.
    split_and!; [by rewrite <- Hs|naive_solver|intros x; rewrite <- Hs; naive_solver|auto|done].
  - apply not_queued_b in Eq; [|apply Hok].
    destruct (ttwu_activate_ok s me p (task_cpu (task s p)) (negb (Z.land wf WF_SYNC =? 0)) Hok Eq Eon Hw)
      as [Hok1 Hiff].
    revert Hok1 Hiff. generalize (ttwu_activate me p (task_cpu (task s p)) (negb (Z.land wf WF_SYNC =? 0)) s).
    intros s1 Hok1 Hiff. assert (same_core s1 (ttwu_post_activation p s1)) as Hs by frame.
    split_and!; [by rewrite <- Hs|naive_solver|intros x; rewrite <- Hs, Hiff; naive_solver|auto|done].
Qed.

(** [try_to_wake_up_local] does not test [on_cpu] before activating; its caller
    must pass a task that is not running. *)
Lemma try_to_wake_up_local_ok s me p :
  runqueue_ok s → wakeable s p → on_cpu (task s p) = false →
  runqueue_ok (try_to_wake_up_local me p s) ∧ (∀ x, x ≠ p → queued (try_to_wake_up_local me p s) x ↔ queued s x).
Proof.
  intros Hok Hw Hon. unfold try_to_wake_up_local. cbv zeta. destruct (_ =? 0); [done|].
  destruct (task_queued p s) eqn:Eq; cbn [negb].
  - assert (same_core s (ttwu_post_activation p s)) as Hs by frame.
    split; [by rewrite <- Hs|intros x; by rewrite <- Hs].
  - apply not_queued_b in Eq; [|apply Hok].
    destruct (ttwu_activate_ok s me p (task_cpu (task s p)) false Hok Eq Hon Hw) as [Hok1 Hiff].
    revert Hok1 Hiff. generalize (ttwu_activate me p (task_cpu (task s p)) false s).
    intros s1 Hok1 Hiff. assert (same_core s1 (ttwu_post_activation p s1)) as Hs by frame.
    split; [by rewrite <- Hs|intros x Hx; rewrite <- Hs, Hiff; naive_solver].
Qed.
End wakeup_ok.

(** ** New tasks *)
Section fork.
Context `{Config}.
Implicit Types s : sched.

Lemma but_rq p s s1 c f : (∀ r, cview (f r) = cview r) → same_but p s s1 → same_but p s (upd_rq c f s1).
Proof. intros Hf. apply but_core. frame. Qed.
Lemma but_task p s s1 q f : (∀ t, tview (f t) = tview t) → same_but p s s1 → same_but p s (upd_task q f s1).
Proof. intros Hf. apply but_core. frame. Qed.

Lemma sched_fork_but me p s : same_but p s (sched_fork me p s).
Proof.
  unfold sched_fork, fork_setup, fork_share, clear_sticky, set_task_cpu, time_slice_expired.
  repeat (cbv zeta; first
    [ reflexivity | apply same_but_refl | apply but_task_self | apply but_if
    | apply but_rq; [done|] | apply but_task; [done|] ]).
Qed.

Lemma reset_on_fork_spec t :
  state (reset_on_fork t) = state t ∧ task_cpu (reset_on_fork t) = task_cpu t ∧
  policy (reset_on_fork t) =
    (if sched_reset_on_fork t && is_rt_policy (policy t) then SCHED_NORMAL else policy t) ∧
  rt_priority (reset_on_fork t) = rt_priority t ∧ sched_reset_on_fork (reset_on_fork t) = false.
Proof.
  unfold reset_on_fork, is_rt_policy. destruct (sched_reset_on_fork t) eqn:E; [|by rewrite E].
  destruct (_ || _); cbv zeta; destruct (PRIO_TO_NICE _ <? 0); done.
Qed.

Lemma fork_setup_task me p s :
  let t := task s p in
  let t' := task (fork_setup me p s) p in
  state t' = TASK_RUNNING ∧ on_cpu t' = false ∧ task_cpu t' = me ∧
  policy t' = (if sched_reset_on_fork t && is_rt_policy (policy t) then SCHED_NORMAL else policy t) ∧
  rt_priority t' = rt_priority t ∧ sched_reset_on_fork t' = false ∧
  (p ≠ curr (cpu_rq s me) → prio t' = normal_prio (task s (curr (cpu_rq s me)))).
Proof.
  cbv zeta. unfold fork_setup, clear_sticky, set_task_cpu. rewrite !task_upd_task_eq.
  set (t1 := task s p <| state := TASK_RUNNING |> <| task_cpu := me |>
    <| sched_time := 0 |> <| stime_pc := 0 |> <| utime_pc := 0 |>).
  destruct (reset_on_fork_spec t1) as (A1 & A2 & A3 & A4 & A5).
  split_and!; [exact A1|done|exact A2|exact A3|exact A4|exact A5|].
  intros Hne. simpl. by rewrite !task_upd_task_ne.
Qed.

Lemma fork_setup_cpu me p s : cpu_rq (fork_setup me p s) = cpu_rq s ∧ grq (fork_setup me p s) = grq s.
Proof. done. Qed.

Lemma fork_share_on_cpu cur p s : on_cpu (task (fork_share cur p s) p) = on_cpu (task s p).
Proof.
  unfold fork_share. cbv zeta. rewrite task_upd_proj by done.
  destruct (_ <=? _); [by rewrite task_upd_proj by done|].
  unfold time_slice_expired. by rewrite !task_upd_proj by done.
Qed.

(** Sharing the slice: the parent's slice is on its run queue. *)
Lemma fork_share_slice cur p s :
  p ≠ cur →
  let c := task_cpu (task s cur) in
  let ts := rq_time_slice (cpu_rq s c) in
  let s' := fork_share cur p s in
  if 200 <=? ts then
    time_slice (task s' p) = Z.quot ts 2 ∧ rq_time_slice (cpu_rq s' c) = Z.quot ts 2
  else
    rq_time_slice (cpu_rq s' c) = 0 ∧ need_resched (task s' cur) = true ∧
    time_slice (task s' p) = timeslice s ∧
    deadline (task s' p) = u64 (niffies (grq s) + task_deadline_diff s (task s p)).
Proof.
  intros Hne. cbv zeta. unfold fork_share. change (RESCHED_US * 2) with 200.
  set (c := task_cpu (task s cur)). cbv zeta. destruct (200 <=? rq_time_slice (cpu_rq s c)).
  - change (cpu_rq (upd_task p _ _) c) with (cpu_rq (upd_rq c (λ r, r <| rq_time_slice ::= λ n, Z.quot n 2 |>) s) c).
    rewrite !task_upd_task_eq. simpl. by rewrite cpu_rq_upd_rq_eq.
  - unfold time_slice_expired. cbv zeta.
    change (cpu_rq (upd_task p _ _) c) with (cpu_rq (upd_rq c (λ r, r <| rq_time_slice := 0 |>) s) c).
    rewrite !task_upd_task_eq, !(task_upd_task_ne _ p cur) by done.
    rewrite !(task_upd_task_ne _ cur p), task_upd_task_eq by done. rewrite cpu_rq_upd_rq_eq. done.
Qed.

(** C20. A fork keeps the run queue invariant and splits the parent's time slice.
    The child (any copy [t] of a task structure at a free address) ends up
    TASK_RUNNING, off the queues and not running, on the parent's CPU; unless
    it is SCHED_FIFO, parent and child each get half of the parent's slice when
    at least 200 us are left, so no time is created, and otherwise the parent is
    rescheduled with an empty slice and the child starts a fresh one. *)
Theorem sched_fork_spec (me p : Z) (t : task_struct) (s : sched) :
  runqueue_ok s → ¬ queued s p → on_cpu (task s p) = false → p ≠ curr (cpu_rq s me) →
  let s0 := upd_task p (λ _, t) s in
  let s' := sched_fork me p s0 in
  let cur := curr (cpu_rq s me) in
  let c := task_cpu (task s cur) in
  let ts := rq_time_slice (cpu_rq s c) in
  runqueue_ok s' ∧ ¬ queued s' p ∧ state (task s' p) = TASK_RUNNING ∧
  task_cpu (task s' p) = me ∧
  (policy (task s' p) ≠ SCHED_FIFO →
   if 200 <=? ts then
     time_slice (task s' p) = Z.quot ts 2 ∧ rq_time_slice (cpu_rq s' c) = Z.quot ts 2 ∧
     ts - 1 ≤ time_slice (task s' p) + rq_time_slice (cpu_rq s' c) ≤ ts
   else
     rq_time_slice (cpu_rq s' c) = 0 ∧ need_resched (task s' cur) = true ∧
     time_slice (task s' p) = timeslice s).
Proof.
  intros Hok Hnq Hon Hne. cbv zeta. set (s0 := upd_task p (λ _, t) s).
  assert (same_but p s (sched_fork me p s0)) as Hbut.
  { destruct (sched_fork_but me p s0) as [Ht Hc Hg Ho]. split; try done. intros x Hx.
    rewrite Ht by done. unfold s0. by rewrite task_upd_task_ne. }
  destruct (fork_setup_task me p s0) as (A1 & A2 & A3 & _ & _ & _ & _).
  assert (task (fork_setup me p s0) (curr (cpu_rq s me)) = task s (curr (cpu_rq s me))) as Ecur.
  { unfold fork_setup, clear_sticky, set_task_cpu, s0. cbv zeta. by rewrite !task_upd_task_ne. }
  assert (∀ cur, on_cpu (task (fork_share cur p (fork_setup me p s0)) p) = false) as Hon1.
  { intros. by rewrite fork_share_on_cpu. }
  assert (∀ cur, state (task (fork_share cur p (fork_setup me p s0)) p) = TASK_RUNNING ∧
    task_cpu (task (fork_share cur p (fork_setup me p s0)) p) = me) as Hst.
  { intros cur. set (s1 := fork_setup me p s0) in *. clearbody s1. unfold fork_share. cbv zeta.
    rewrite !(task_upd_proj state), !(task_upd_proj task_cpu) by done. case_if.
    - by rewrite (task_upd_proj state), (task_upd_proj task_cpu).
    - unfold time_slice_expired. cbv zeta. by rewrite !(task_upd_proj state), !(task_upd_proj task_cpu). }
  pose proof (fork_share_slice (curr (cpu_rq s me)) p (fork_setup me p s0) Hne) as Hsl.
  cbv zeta in Hsl. rewrite Ecur in Hsl.
  change (cpu_rq (fork_setup me p s0)) with (cpu_rq s) in Hsl.
  assert (policy (task (sched_fork me p s0) p) = policy (task (fork_setup me p s0) p)) as Epol.
  { unfold sched_fork. destruct (_ =? SCHED_FIFO); [done|].
    set (s1 := fork_setup me p s0). clearbody s1. unfold fork_share. cbv zeta.
    rewrite (task_upd_proj policy) by done. case_if.
    - by rewrite (task_upd_proj policy).
    - unfold time_slice_expired. cbv zeta. by rewrite !(task_upd_proj policy). }
  destruct (runqueue_ok_but p s _ Hok Hnq Hon Hbut) as [Hok' Hiff].
  { unfold sched_fork. destruct (_ =? SCHED_FIFO); [done|apply Hon1]. }
  split_and!; [done|by rewrite Hiff| | |].
  - unfold sched_fork. destruct (_ =? SCHED_FIFO); [done|apply Hst].
  - unfold sched_fork. destruct (_ =? SCHED_FIFO); [done|apply Hst].
  - rewrite Epol. intros Hpol. unfold sched_fork. rewrite (proj2 (Z.eqb_neq _ _) Hpol).
    change (curr (cpu_rq (fork_setup me p s0) me)) with (curr (cpu_rq s me)).
    destruct (Z.leb_spec 200 (rq_time_slice (cpu_rq s (task_cpu (task s (curr (cpu_rq s me))))))).
    + destruct Hsl as [-> ->]. split_and!; [done|done|lia_mod..].
    + destruct Hsl as (? & ? & E & _). split_and!; [done|done|by rewrite E].
Qed.
End fork.

Section new_task.
Context `{Config}.
Implicit Types s : sched.

(** [wake_up_new_task] before the choice of a CPU. *)
Lemma wake_up_new_task_effect me p s :
  runqueue_ok s → ¬ queued s p → on_cpu (task s p) = false → wakeable s p →
  runqueue_ok (wake_up_new_task me p s) ∧
  (∀ x, queued (wake_up_new_task me p s) x ↔ x = p ∨ queued s x) ∧
  (rt_task (task s p) = true → prio (task (wake_up_new_task me p s) p) = prio (task s p)).
Proof.
  intros Hok Hnq Hon Hw. unfold wake_up_new_task. cbv zeta.
  set (s1 := set_task_cpu p _ _). assert (same_core s s1) as Hs1 by (subst s1; frame). clearbody s1.
  destruct (core_tasks_eq _ _ p Hs1) as (Ep & _ & _ & Eon).
  rewrite Hs1 in Hok, Hnq, Hw. rewrite <- Eon in Hon. pose proof Hw as (Hv & Hni & Hr).
  pose proof (activate_task_ok s1 p (task_cpu (task s p)) Hok Hnq Hon Hni Hv Hr) as Hok2.
  pose proof (activate_task_effect s1 p (task_cpu (task s p)) (ok_queue _ Hok) Hnq Hv Hr) as Hact.
  revert Hok2 Hact. generalize (activate_task p (task_cpu (task s p)) s1). intros s2 Hok2 Hact.
  destruct (act_inserted _ _ _ Hact) as (_ & Hiff & _).
  match goal with |- context [if ?b then ?x else ?y] =>
    assert (same_core s2 (if b then x else y)) as Hs2 by frame; revert Hs2;
    generalize (if b then x else y) end. intros s3 Hs2.
  split_and!; [by rewrite <- Hs2|intros x; by rewrite <- Hs2, Hiff, <- Hs1|].
  destruct (core_tasks_eq _ _ p Hs2) as (-> & _). unfold rt_task. rewrite <- Ep. apply Hact.
Qed.

(** SCHED_RESET_ON_FORK does not reset the priority of the child of a
    real-time task.  [sched_fork] resets the policy to SCHED_NORMAL first and then
    copies the parent's [normal_prio] into [prio]; [wake_up_new_task] keeps a
    real-time [prio], so a child with policy SCHED_NORMAL is queued among the
    real-time tasks at its parent's priority. *)
Theorem fork_reset_keeps_rt_prio (me p : Z) (t : task_struct) (s : sched) :
  runqueue_ok s → ¬ queued s p → on_cpu (task s p) = false → p ≠ curr (cpu_rq s me) →
  valid_task p → ¬ is_idle s p → 0 ≤ rt_priority t ≤ MAX_USER_RT_PRIO →
  sched_reset_on_fork t = true → policy t = SCHED_FIFO →
  0 ≤ normal_prio (task s (curr (cpu_rq s me))) < MAX_RT_PRIO →
  let s1 := sched_fork me p (upd_task p (λ _, t) s) in
  let s' := wake_up_new_task me p s1 in
  policy (task s1 p) = SCHED_NORMAL ∧
  p ∈ queue_of s' (normal_prio (task s (curr (cpu_rq s me)))).
Proof.
  intros Hok Hnq Hon Hne Hv Hni Hrp Hreset Hfifo Hnp. cbv zeta.
  set (s0 := upd_task p (λ _, t) s). set (cur := curr (cpu_rq s me)) in *.
  destruct (fork_setup_task me p s0) as (_ & B2 & _ & B4 & B5 & _ & B7). fold cur in B7.
  assert (task s0 p = t) as Et by (unfold s0; by rewrite task_upd_task_eq).
  rewrite Et, Hreset, Hfifo in B4. cbn in B4. rewrite Et in B5.
  assert (task s0 cur = task s cur) as Ec by (unfold s0; by rewrite task_upd_task_ne).
  change (curr (cpu_rq s0 me)) with cur in B7. rewrite Ec in B7. specialize (B7 Hne).
  assert (same_but p s (sched_fork me p s0)) as Hbut.
  { destruct (sched_fork_but me p s0) as [Ht Hc Hg Ho]. split; try done. intros x Hx.
    rewrite Ht by done. unfold s0. by rewrite task_upd_task_ne. }
  assert (∀ {B} (g : task_struct → B), (∀ x v, g (x <| time_slice := v |>) = g x) →
    (∀ x v, g (x <| deadline := v |>) = g x) → (∀ x v, g (x <| last_ran := v |>) = g x) →
    (∀ x v, g (x <| need_resched := v |>) = g x) →
    g (task (sched_fork me p s0) p) = g (task (fork_setup me p s0) p)) as Hkeep.
  { intros B g G1 G2 G3 G4. unfold sched_fork. case_if; [done|].
    generalize (fork_setup me p s0). intros s2. unfold fork_share. cbv zeta.
    rewrite (task_upd_proj g) by auto. case_if; [by rewrite (task_upd_proj g) by auto|].
    unfold time_slice_expired. cbv zeta. by rewrite !(task_upd_proj g) by auto. }
  assert (policy (task (sched_fork me p s0) p) = SCHED_NORMAL) as Hpol by (by rewrite Hkeep).
  destruct (runqueue_ok_but p s _ Hok Hnq Hon Hbut) as [Hok1 Hiff1]; [by rewrite Hkeep|].
  assert (on_cpu (task (sched_fork me p s0) p) = false) as Hon1 by (by rewrite Hkeep).
  assert (prio (task (sched_fork me p s0) p) = normal_prio (task s cur)) as Hprio by (by rewrite Hkeep).
  assert (rt_priority (task (sched_fork me p s0) p) = rt_priority t) as Hrtp by (by rewrite Hkeep).
  clear Hkeep. revert Hbut Hok1 Hiff1 Hon1 Hprio Hrtp Hpol. generalize (sched_fork me p s0).
  intros s1 Hbut Hok1 Hiff1 Hon1 Hprio Hrtp Hpol. split; [done|].
  assert (¬ is_idle s1 p) as Hni1.
  { intros (c & Hc & E). apply Hni. exists c. split; [done|]. rewrite E.
    pose proof (sb_cpu _ _ _ Hbut c) as Ev. by injection Ev. }
  destruct (wake_up_new_task_effect me p s1 Hok1) as (Hok2 & Hiff2 & Hrt).
  { by rewrite Hiff1. } { done. }
  { split; [done|]. split; [done|]. unfold rt_range. rewrite Hprio, Hrtp. lia. }
  assert (queued (wake_up_new_task me p s1) p) as Hq2 by (apply Hiff2; by left).
  apply (queued_prio _ _ (ok_queue _ Hok2)) in Hq2. rewrite Hrt, Hprio in Hq2; [done|].
  unfold rt_task, rt_prio. rewrite Hprio. apply Z.ltb_lt. lia.
Qed.
End new_task.

(** ** Which CPU is interrupted *)
Section preempt.
Context `{Config}.
Implicit Types s : sched.

Lemma can_preempt_spec t pr dl :
  can_preempt t pr dl = true ↔ prio t < pr ∨ prio t = pr ∧ deadline t < dl.
Proof.
  unfold can_preempt, deadline_before.
  destruct (Z.ltb_spec (prio t) pr), (Z.ltb_spec pr (prio t)), (Z.ltb_spec (deadline t) dl);
    cbn [negb]; split; try done; lia.
Qed.

(** What a CPU runs, ordered from most to least urgent. *)
Definition key (s : sched) (c : Z) : Z * Z := (rq_prio (cpu_rq s c), rq_deadline (cpu_rq s c)).
Definition key_le (a b : Z * Z) : Prop := a.1 < b.1 ∨ a.1 = b.1 ∧ a.2 ≤ b.2.

Lemma preempt_scan_spec s cs hp hr ld :
  let '(hp', hr') := preempt_scan s cs hp hr ld in
  ∃ dl', (hr' = hr ∧ hp' = hp ∧ dl' = ld ∨ hr' ∈ cs ∧ (hp', dl') = key s hr') ∧
    key_le (hp, ld) (hp', dl') ∧ ∀ c, c ∈ cs → key_le (key s c) (hp', dl').
Proof.
  revert hp hr ld. induction cs as [|c cs IH]; intros hp hr ld; cbn [preempt_scan].
  { exists ld. unfold key_le. simpl. set_solver by lia. }
  unfold deadline_after. set (pr := rq_prio (cpu_rq s c)). set (dl := rq_deadline (cpu_rq s c)).
  assert (key s c = (pr, dl)) as Ek by done.
  destruct (Z.ltb_spec pr hp); [|destruct (Z.ltb_spec hp pr); [|destruct (Z.ltb_spec ld dl)]]; cbn [orb].
  1, 4: specialize (IH hp hr ld); destruct (preempt_scan s cs hp hr ld) as [hp' hr'];
    destruct IH as (dl' & Ho & Hle & Hall); exists dl';
    (split_and!; [naive_solver set_solver|done|]);
    intros d [->|Hd]%elem_of_cons; [|by apply Hall]; rewrite Ek; unfold key_le in *; simpl in *; lia.
  1, 2: specialize (IH pr c dl); destruct (preempt_scan s cs pr c dl) as [hp' hr'];
    destruct IH as (dl' & Ho & Hle & Hall); exists dl'; split_and!;
    [right; destruct Ho as [(-> & -> & ->)|[? ?]]; set_solver
    |unfold key_le in *; simpl in *; lia
    |intros d [->|Hd]%elem_of_cons; [by rewrite Ek|by apply Hall]].
Qed.

Lemma preempt_scan_ext s s' cs hp hr ld :
  cpu_rq s' = cpu_rq s → preempt_scan s' cs hp hr ld = preempt_scan s cs hp hr ld.
Proof.
  intros E. revert hp hr ld. induction cs as [|c cs IH]; intros; cbn [preempt_scan]; [done|].
  by rewrite E, !IH.
Qed.

(** The CPUs a task may interrupt. *)
Definition allowed_online (s : sched) (p : Z) : list Z :=
  cpus_in (cpus_and (cpu_online_map s) (cpus_allowed (task s p))).


(** *** The best idle CPU *)
Lemma cpu_ranking_bound s r c : 0 ≤ cpu_ranking s r c < 63.
Proof.
  unfold cpu_ranking. set (loc := cpu_locality _ !!! _). cbv zeta.
  destruct (CONFIG_NUMA && (3 <? loc)), (2 <? loc), (CONFIG_SCHED_MC && (loc =? 2)),
    (CONFIG_SCHED_MC && negb _), (CONFIG_SCHED_SMT && (loc =? 1)), (CONFIG_SCHED_SMT && negb _);
    vm_compute; split; congruence.
Qed.

Lemma best_in_spec s r cs best br :
  (best_in s r cs best br = best ∧ ∀ c, c ∈ cs → br ≤ cpu_ranking s r c) ∨
  (best_in s r cs best br ∈ cs ∧ cpu_ranking s r (best_in s r cs best br) < br ∧
   ∀ c, c ∈ cs → cpu_ranking s r (best_in s r cs best br) ≤ cpu_ranking s r c).
Proof.
  revert best br. induction cs as [|c cs IH]; intros best br; cbn [best_in]; [left; set_solver|].
  destruct (Z.ltb_spec (cpu_ranking s r c) br).
  - right. destruct (IH c (cpu_ranking s r c)) as [[-> Hall]|(Hin & Hlt & Hall)].
    + split_and!; [set_solver|done|]. intros d [->|Hd]%elem_of_cons; [done|by apply Hall].
    + split_and!; [set_solver|lia|]. intros d [->|Hd]%elem_of_cons; [lia|by apply Hall].
  - destruct (IH best br) as [[E Hall]|(Hin & Hlt & Hall)].
    + left. split; [done|]. intros d [->|Hd]%elem_of_cons; [done|by apply Hall].
    + right. split_and!; [set_solver|done|]. intros d [->|Hd]%elem_of_cons; [lia|by apply Hall].
Qed.

(** The idle CPU chosen for a task is the closest one: the CPU it last ran
    on when that is idle and allowed, and otherwise an idle allowed CPU whose
    ranking (node, thread load, package, cache load, core, sibling, in this
    order of weight) is minimal.  [resched_best_idle] reschedules exactly that
    CPU, which is idle and allowed, and is all [try_preempt] does then. *)
Theorem best_idle_cpu (me p : Z) (s : sched) :
  (∃ c, c ∈ cpus_in (cpus_and (cpus_allowed (task s p)) (cpu_idle_map (grq s)))) →
  let mask := cpus_and (cpus_allowed (task s p)) (cpu_idle_map (grq s)) in
  let home := task_cpu (task s p) in
  let best := best_cpu_of s home home mask in
  (∀ r, idle_cpus (grq s) = true → try_preempt me p r s = resched_best_idle me p (clear_sticky p s)) ∧
  resched_best_idle me p s = resched_task me (curr (cpu_rq s best)) s ∧
  cpu_isset best (cpus_allowed (task s p)) = true ∧ cpu_isset best (cpu_idle_map (grq s)) = true ∧
  (cpu_isset home mask = true → best = home) ∧
  (cpu_isset home mask = false →
   ∀ c, c ∈ cpus_in mask → cpu_ranking s home best ≤ cpu_ranking s home c).
Proof.
  intros [c0 Hc0] mask home best. split.
  { intros r Hi. unfold try_preempt. cbv zeta. assert (suitable_idle_cpus p (clear_sticky p s) = true) as ->; [|done].
    apply cpus_in_spec in Hc0 as [_ Hc0]. unfold suitable_idle_cpus, clear_sticky. rewrite task_upd_task_eq.
    change (grq (upd_task _ _ s)) with (grq s). rewrite Hi. cbn [negb]. apply negb_true_iff, Z.eqb_neq. intros E. unfold cpus_and in Hc0. simpl in E. rewrite E, Z.bits_0 in Hc0. done. }
  split; [done|].
  assert (cpu_isset best mask = true ∧ (cpu_isset home mask = true → best = home) ∧
    (cpu_isset home mask = false →
     ∀ c, c ∈ cpus_in mask → cpu_ranking s home best ≤ cpu_ranking s home c)) as (Hb & Hh & Hm).
  { unfold best, best_cpu_of. destruct (cpu_isset home mask) eqn:E; [done|].
    destruct (best_in_spec s home (cpus_in mask) home 63) as [[_ Hall]|(Hin & _ & Hall)].
    - specialize (Hall _ Hc0). pose proof (cpu_ranking_bound s home c0). lia.
    - split_and!; [|done|done]. by apply cpus_in_spec in Hin as [_ ?]. }
  unfold mask, cpus_and, cpu_isset in Hb |- *. rewrite Z.land_spec, andb_true_iff in Hb.
  by destruct Hb.
Qed.
End preempt.

(** ** Examples *)
Section examples.
#[local] Existing Instance sample_config.

Lemma machine_wakeable p : p ∈ [23; 24] → wakeable machine p ∧ ¬ queued machine p.
Proof.
  intros Hp. unfold wakeable. rewrite machine_queued, machine_is_idle.
  repeat (apply elem_of_cons in Hp as [->|Hp]); [..|by apply not_elem_of_nil in Hp];
    (split; [|lia]); (split; [by vm_compute|]); (split; [lia|by vm_compute]).
Qed.

Lemma try_to_wake_up_spec_witness :
  let '(success, s') := try_to_wake_up 1 23 TASK_NORMAL 0 machine in
  runqueue_ok s' ∧ success = true ∧ queued s' 23.
Proof.
  destruct (machine_wakeable 23) as [Hw Hq]; [set_solver|].
  pose proof (try_to_wake_up_spec 1 23 TASK_NORMAL 0 machine machine_ok Hw) as Hs.
  destruct (try_to_wake_up 1 23 TASK_NORMAL 0 machine) as [b s']. destruct Hs as (Hok & Hb & Hi & _).
  assert (b = true) as -> by (apply Hb; split; [by vm_compute|by split]).
  split; [done|]. split; [done|]. apply Hi. by left.
Defined.

Lemma sched_fork_spec_witness :
  let s' := sched_fork 0 30 (upd_task 30 (λ _, user_task 0 NORMAL_PRIO 0 SCHED_NORMAL true) machine) in
  runqueue_ok s' ∧ time_slice (task s' 30) = 3072 ∧ rq_time_slice (cpu_rq s' 0) = 3072.
Proof.
  intros s'.
  destruct (sched_fork_spec 0 30 (user_task 0 NORMAL_PRIO 0 SCHED_NORMAL true) machine) as (Hok & _ & _ & _ & Hs).
  - apply machine_ok.
  - rewrite machine_queued. lia.
  - reflexivity.
  - by vm_compute.
  - split; [exact Hok|]. destruct Hs as (A & B & _); [by vm_compute|]. split; [exact A|exact B].
Defined.

Lemma fork_reset_keeps_rt_prio_witness :
  let t := user_task 0 40 60 SCHED_FIFO true <| sched_reset_on_fork := true |> in
  let s1 := sched_fork 1 30 (upd_task 30 (λ _, t) machine) in
  policy (task s1 30) = SCHED_NORMAL ∧ 30 ∈ queue_of (wake_up_new_task 1 30 s1) 40.
Proof.
  intros t s1. apply (fork_reset_keeps_rt_prio 1 30 t machine).
  - apply machine_ok.
  - rewrite machine_queued. lia.
  - reflexivity.
  - by vm_compute.
  - by vm_compute.
  - rewrite machine_is_idle. lia.
  - by vm_compute.
  - reflexivity.
  - reflexivity.
  - by vm_compute.
Defined.

(** A task bound to the two busy CPUs, woken with an early deadline. *)
Definition bound_task : sched :=
  upd_task 23 (λ t, t <| cpus_allowed := 3 |> <| deadline := 100 |>) machine.


Lemma best_idle_cpu_witness :
  resched_best_idle 0 21 machine = resched_task 0 (curr (cpu_rq machine 2)) machine.
Proof.
  destruct (best_idle_cpu 0 21 machine) as [_ [E _]]; [exists 2; apply cpus_in_spec; by vm_compute|].
  rewrite E. reflexivity.
Defined.

(** [try_preempt] compares deadlines with the one of the CPU the task last ran
    on even when that CPU runs at a better priority.  Here CPU 0 runs a
    real-time task with a late deadline and CPU 1 a normal task the new task
    could preempt; the real-time task is rescheduled and CPU 1 is left alone. *)
Example try_preempt_wrong_cpu :
  let s := upd_rq 0 (λ r, r <| rq_prio := 40 |> <| rq_deadline := 1000 |>)
             (upd_rq 1 (λ r, r <| rq_prio := NORMAL_PRIO |> <| rq_deadline := 500 |>) bound_task) in
  can_preempt (task s 23) (rq_prio (cpu_rq s 0)) (rq_deadline (cpu_rq s 0)) = false ∧
  can_preempt (task s 23) (rq_prio (cpu_rq s 1)) (rq_deadline (cpu_rq s 1)) = true ∧
  need_resched (task (try_preempt 2 23 0 s) (curr (cpu_rq s 0))) = true ∧
  need_resched (task (try_preempt 2 23 0 s) (curr (cpu_rq s 1))) = false.
Proof. vm_compute. split_and!; reflexivity. Qed.
End examples.
