(* ===== verification/Tick.v ===== *)
(** * Time accounting and the tick of kernel/sched_bfs.c

    On every tick and context switch, [update_cpu_clock] distributes the time
    since the last one over per-CPU and per-task counters in units of 1/128 of
    a tick, and charges the running task's time slice.  [scheduler_tick] adds
    the accounting of isochronous tasks and asks for a reschedule when the
    slice is used up.

    Interrupt context is read from the current task's [preempt_count]; whether
    the tick hit user mode is an argument.

    The theorems: the fractional counters stay below one tick and no fraction
    is lost while a charge is below one tick; a slice never grows and is charged
    between 0 and two ticks; the isochronous counter stays in its range, so its
    quota comparison never overflows. *)

From S2P Require Export RunQueueInv.

Section accounting.
Context `{Config}.
Implicit Types s : sched.

(** *** kernel/sched_stats.h *)
Definition account_group_user_time (p cputime : Z) (s : sched) : sched :=
  let sig := signal (task s p) in
  if negb (running (cputimers s !!! sig)) then s
  else s <| cputimers ::= λ m, mem_upd m sig (λ c, c <| cpt_utime ::= λ t, u64 (t + cputime) |>) |>.
Definition account_group_system_time (p cputime : Z) (s : sched) : sched :=
  let sig := signal (task s p) in
  if negb (running (cputimers s !!! sig)) then s
  else s <| cputimers ::= λ m, mem_upd m sig (λ c, c <| cpt_stime ::= λ t, u64 (t + cputime) |>) |>.

Definition cputime_one_jiffy : Z := 1.

(** [x_pc += pc; if (x_pc >= 128) { x_pc %= 128; … }]: the new value and whether
    a tick is full. *)
Definition pc_acc (v pc : Z) : Z * bool :=
  let v := u64 (v + pc) in
  if 128 <=? v then (v mod 128, true) else (v, false).

Definition add_one (x : Z) : Z := u64 (x + cputime_one_jiffy).

Definition pc_idle_time (cpu pc : Z) (s : sched) : sched :=
  let r := cpu_rq s cpu in
  if 0 <? nr_iowait r then
    let '(v, full) := pc_acc (iowait_pc r) pc in
    let s := upd_rq cpu (λ r, r <| iowait_pc := v |>) s in
    if full then upd_stat cpu (λ c, c <| st_iowait ::= add_one |>) s else s
  else
    let '(v, full) := pc_acc (idle_pc r) pc in
    let s := upd_rq cpu (λ r, r <| idle_pc := v |>) s in
    if full then upd_stat cpu (λ c, c <| st_idle ::= add_one |>) s else s.

Definition hardirq_count (s : sched) (cpu : Z) : Z :=
  Z.land (preempt_count (task s (curr (cpu_rq s cpu)))) HARDIRQ_MASK.
Definition in_serving_softirq (s : sched) (cpu : Z) : bool :=
  negb (Z.land (Z.land (preempt_count (task s (curr (cpu_rq s cpu)))) SOFTIRQ_MASK) SOFTIRQ_OFFSET =? 0).
Definition irq_count (s : sched) (cpu : Z) : Z :=
  Z.land (preempt_count (task s (curr (cpu_rq s cpu))))
    (Z.lor (Z.lor HARDIRQ_MASK SOFTIRQ_MASK) NMI_MASK).

Definition pc_system_time (cpu p hardirq_offset pc ns : Z) (s : sched) : sched :=
  let '(v, full) := pc_acc (stime_pc (task s p)) pc in
  let s := upd_task p (λ t, t <| stime_pc := v |>) s in
  let s := if full then
             account_group_system_time p cputime_one_jiffy
               (upd_task p (λ t, t <| stime ::= add_one |>) s)
           else s in
  let s := upd_task p (λ t, t <| sched_time ::= λ x, u64 (x + ns) |>) s in
  let r := cpu_rq s cpu in
  if negb (hardirq_count s cpu - hardirq_offset =? 0) then
    let '(v, full) := pc_acc (irq_pc r) pc in
    let s := upd_rq cpu (λ r, r <| irq_pc := v |>) s in
    if full then upd_stat cpu (λ c, c <| st_irq ::= add_one |>) s else s
  else if in_serving_softirq s cpu then
    let '(v, full) := pc_acc (softirq_pc r) pc in
    let s := upd_rq cpu (λ r, r <| softirq_pc := v |>) s in
    if full then upd_stat cpu (λ c, c <| st_softirq ::= add_one |>) s else s
  else
    let '(v, full) := pc_acc (system_pc r) pc in
    let s := upd_rq cpu (λ r, r <| system_pc := v |>) s in
    if full then upd_stat cpu (λ c, c <| st_system ::= add_one |>) s else s.

Definition pc_user_time (cpu p pc ns : Z) (s : sched) : sched :=
  let '(v, full) := pc_acc (utime_pc (task s p)) pc in
  let s := upd_task p (λ t, t <| utime_pc := v |>) s in
  let s := if full then
             account_group_user_time p cputime_one_jiffy
               (upd_task p (λ t, t <| utime ::= add_one |>) s)
           else s in
  let s := upd_task p (λ t, t <| sched_time ::= λ x, u64 (x + ns) |>) s in
  let s :=
    if ksoftirqd cpu =? p then
      let '(v, full) := pc_acc (softirq_pc (cpu_rq s cpu)) pc in
      let s := upd_rq cpu (λ r, r <| softirq_pc := v |>) s in
      if full then upd_stat cpu (λ c, c <| st_softirq ::= add_one |>) s else s
    else s in
  if (0 <? TASK_NICE (task s p)) || idleprio_task (task s p) then
    let '(v, full) := pc_acc (nice_pc (cpu_rq s cpu)) pc in
    let s := upd_rq cpu (λ r, r <| nice_pc := v |>) s in
    if full then upd_stat cpu (λ c, c <| st_nice ::= add_one |>) s else s
  else
    let '(v, full) := pc_acc (user_pc (cpu_rq s cpu)) pc in
    let s := upd_rq cpu (λ r, r <| user_pc := v |>) s in
    if full then upd_stat cpu (λ c, c <| st_user ::= add_one |>) s else s.

Definition NS_TO_PC (NS : Z) : Z := Z.quot (s64 (NS * 128)) JIFFY_NS.

(** Lines 2734-2740: charge the time slice. *)
Definition ts_account (cpu p : Z) (s : sched) : sched :=
  let r := cpu_rq s cpu in
  let s :=
    if negb (rq_policy r =? SCHED_FIFO) && negb (p =? idle r) then
      let time_diff := s64 (clock r - rq_last_ran r) in
      let time_diff := niffy_diff time_diff 1 in
      upd_rq cpu (λ r, r <| rq_time_slice ::= λ n, s32 (n - NS_TO_US time_diff) |>) s
    else s in
  upd_rq cpu (λ r, r <| rq_last_ran := clock r |> <| timekeep_clock := clock r |>) s.

Definition update_cpu_clock (cpu p : Z) (tick user_tick : bool) (s : sched) : sched :=
  let r := cpu_rq s cpu in
  let account_ns := s64 (clock r - timekeep_clock r) in
  let account_ns := if account_ns <? 0 then 0 else account_ns in
  let pc := u64 (NS_TO_PC account_ns) in
  let s :=
    if tick then
      let acc := s64 (account_pc r + (pc - 128)) in
      let '(pc, acc) := if acc <? 0 then (u64 (pc + - acc), 0) else (pc, acc) in
      let s := upd_rq cpu (λ r, r <| account_pc := acc |>) s in
      if user_tick then pc_user_time cpu p pc account_ns s
      else if negb (p =? idle r) || negb (irq_count s cpu =? HARDIRQ_OFFSET)
      then pc_system_time cpu p HARDIRQ_OFFSET pc account_ns s
      else pc_idle_time cpu pc s
    else
      let s := upd_rq cpu (λ r, r <| account_pc ::= λ a, s64 (a + pc) |>) s in
      if p =? idle r then pc_idle_time cpu pc s else pc_user_time cpu p pc account_ns s in
  ts_account cpu p s.

Definition do_task_delta_exec (p rqcpu : Z) (s : sched) : Z * sched :=
  if p =? curr (cpu_rq s rqcpu) then
    let s := update_clocks rqcpu s in
    let ns := u64 (clock_task (cpu_rq s rqcpu) - rq_last_ran (cpu_rq s rqcpu)) in
    (if s64 ns <? 0 then 0 else ns, s)
  else (0, s).

Definition task_delta_exec (p : Z) (s : sched) : Z * sched :=
  do_task_delta_exec p (task_cpu (task s p)) s.
Definition task_sched_runtime (p : Z) (s : sched) : Z * sched :=
  let '(ns, s') := do_task_delta_exec p (task_cpu (task s p)) s in
  (u64 (sched_time (task s p) + ns), s').

Definition account_guest_time (cpu p cputime : Z) (s : sched) : sched :=
  let s := upd_task p (λ t, t <| utime ::= λ x, u64 (x + cputime) |>) s in
  let s := account_group_user_time p cputime s in
  let s := upd_task p (λ t, t <| gtime ::= λ x, u64 (x + cputime) |>) s in
  if 0 <? TASK_NICE (task s p) then
    upd_stat cpu (λ c, c <| st_nice ::= λ x, u64 (x + cputime) |>
                         <| st_guest_nice ::= λ x, u64 (x + cputime) |>) s
  else
    upd_stat cpu (λ c, c <| st_user ::= λ x, u64 (x + cputime) |>
                         <| st_guest ::= λ x, u64 (x + cputime) |>) s.

Definition account_system_time (cpu p hardirq_offset cputime : Z) (s : sched) : sched :=
  if negb (Z.land (flags (task s p)) PF_VCPU =? 0) && (irq_count s cpu - hardirq_offset =? 0)
  then account_guest_time cpu p cputime s else s.

Definition account_steal_time (cpu cputime : Z) (s : sched) : sched :=
  upd_stat cpu (λ c, c <| st_steal ::= λ x, u64 (x + cputime) |>) s.
Definition account_idle_times (cpu cputime : Z) (s : sched) : sched :=
  if 0 <? nr_iowait (cpu_rq s cpu)
  then upd_stat cpu (λ c, c <| st_iowait ::= λ x, u64 (x + cputime) |>) s
  else upd_stat cpu (λ c, c <| st_idle ::= λ x, u64 (x + cputime) |>) s.

(** ** Isochronous tasks *)
Definition set_iso_refractory (s : sched) : sched := upd_grq (λ g, g <| iso_refractory := true |>) s.
Definition clear_iso_refractory (s : sched) : sched := upd_grq (λ g, g <| iso_refractory := false |>) s.

Definition iso_limit (s : sched) : Z := s32 (ISO_PERIOD (grq s) * sched_iso_cpu s).
Definition iso_release (s : sched) : Z :=
  s32 (ISO_PERIOD (grq s) * Z.quot (s32 (sched_iso_cpu s * 115)) 128).

Definition test_ret_isorefractory (s : sched) : bool * sched :=
  let s :=
    if negb (iso_refractory (grq s)) then
      if iso_limit s <? iso_ticks (grq s) then set_iso_refractory s else s
    else
      if iso_ticks (grq s) <? iso_release s then clear_iso_refractory s else s in
  (iso_refractory (grq s), s).

Definition iso_tick (s : sched) : sched := upd_grq (λ g, g <| iso_ticks ::= λ t, s32 (t + 100) |>) s.

Definition no_iso_tick (s : sched) : sched :=
  if negb (iso_ticks (grq s) =? 0) then
    let s := upd_grq (λ g, g <| iso_ticks ::= λ t, s32 (t - (Z.quot t (ISO_PERIOD g) + 1)) |>) s in
    if iso_refractory (grq s) && (iso_ticks (grq s) <? iso_release s) then clear_iso_refractory s else s
  else s.

Definition rq_running_iso (r : rq) : bool := rq_prio r =? ISO_PRIO.

Definition task_running_tick (cpu : Z) (s : sched) : sched :=
  let r := cpu_rq s cpu in
  let s :=
    if rt_queue r || (iso_queue r && negb (iso_refractory (grq s))) then
      if iso_ticks (grq s) <=? s32 (s32 (ISO_PERIOD (grq s) * 128) - 128) then iso_tick s else s
    else no_iso_tick s in
  let s :=
    if iso_queue r then
      let '(refr, s) := test_ret_isorefractory s in
      if refr && rq_running_iso r then upd_rq cpu (λ r, r <| rq_time_slice := 0 |>) s else s
    else s in
  let r := cpu_rq s cpu in
  if rq_policy r =? SCHED_FIFO then s
  else if dither r then
    if HALF_JIFFY_US <? rq_time_slice r then s
    else
      let s := upd_rq cpu (λ r, r <| rq_time_slice := 0 |>) s in
      upd_task (curr r) (λ t, t <| need_resched := true |>) s
  else if RESCHED_US <=? rq_time_slice r then s
  else upd_task (curr r) (λ t, t <| need_resched := true |>) s.

Definition scheduler_tick (cpu : Z) (user_tick : bool) (s : sched) : sched :=
  let s := update_rq_clock cpu s in
  let s := update_cpu_clock cpu (curr (cpu_rq s cpu)) true user_tick s in
  let s := if negb (rq_idle (cpu_rq s cpu)) then task_running_tick cpu s else no_iso_tick s in
  upd_rq cpu (λ r, r <| last_tick := clock r |>) s.
End accounting.

(** ** Frames *)
Section tick_frames.
Context `{Config}.
Implicit Types s : sched.

Lemma core_stat s s1 c f : same_core s s1 → same_core s (upd_stat c f s1).
Proof. by apply core_other. Qed.
Lemma account_group_user_time_core s s1 p t :
  same_core s s1 → same_core s (account_group_user_time p t s1).
Proof. intros. unfold account_group_user_time. cbv zeta. apply core_if; [done|by apply (core_other _ s1)]. Qed.
Lemma account_group_system_time_core s s1 p t :
  same_core s s1 → same_core s (account_group_system_time p t s1).
Proof. intros. unfold account_group_system_time. cbv zeta. apply core_if; [done|by apply (core_other _ s1)]. Qed.
End tick_frames.
#[export] Hint Resolve core_stat account_group_user_time_core account_group_system_time_core : frame.

Section tick_frames2.
Context `{Config}.
Implicit Types s : sched.
Lemma pc_idle_time_core s s1 c pc : same_core s s1 → same_core s (pc_idle_time c pc s1).
Proof. intros. unfold pc_idle_time. case_if; destruct (pc_acc _ _); frame. Qed.
Lemma pc_system_time_core s s1 c p h pc ns :
  same_core s s1 → same_core s (pc_system_time c p h pc ns s1).
Proof.
  intros. unfold pc_system_time. destruct (pc_acc _ _). cbv zeta.
  match goal with |- context [upd_task p (λ t, t <| sched_time ::= _ |>) ?x] =>
    set (s2 := upd_task p (λ t, t <| sched_time ::= λ y, u64 (y + ns) |>) x) end.
  assert (same_core s s2) by (subst s2; frame). clearbody s2.
  case_if; [|case_if]; destruct (pc_acc _ _); frame.
Qed.
Lemma pc_user_time_core s s1 c p pc ns : same_core s s1 → same_core s (pc_user_time c p pc ns s1).
Proof.
  intros. unfold pc_user_time. destruct (pc_acc _ _). cbv zeta.
  match goal with |- context [upd_task p (λ t, t <| sched_time ::= _ |>) ?x] =>
    set (s2 := upd_task p (λ t, t <| sched_time ::= λ y, u64 (y + ns) |>) x) end.
  assert (same_core s s2) by (subst s2; frame). clearbody s2.
  set (s3 := if ksoftirqd c =? p then _ else s2).
  assert (same_core s s3) by (subst s3; case_if; [destruct (pc_acc _ _)|]; frame). clearbody s3.
  case_if; destruct (pc_acc _ _); frame.
Qed.
Lemma ts_account_core s s1 c p : same_core s s1 → same_core s (ts_account c p s1).
Proof. unfold ts_account. frame. Qed.
End tick_frames2.
#[export] Hint Resolve pc_idle_time_core pc_system_time_core pc_user_time_core ts_account_core : frame.

Section tick_frames3.
Context `{Config}.
Implicit Types s : sched.
Lemma update_cpu_clock_core s s1 c p tick user :
  same_core s s1 → same_core s (update_cpu_clock c p tick user s1).
Proof.
  intros. unfold update_cpu_clock. cbv zeta. apply ts_account_core. case_if; [|frame].
  destruct (if s64 _ <? 0 then _ else _). frame.
Qed.
Lemma no_iso_tick_core s s1 : same_core s s1 → same_core s (no_iso_tick s1).
Proof. unfold no_iso_tick, clear_iso_refractory. frame. Qed.
Lemma test_ret_isorefractory_core s s1 :
  same_core s s1 → same_core s (test_ret_isorefractory s1).2.
Proof. unfold test_ret_isorefractory, clear_iso_refractory, set_iso_refractory. simpl. frame. Qed.
Lemma task_running_tick_core s s1 c : same_core s s1 → same_core s (task_running_tick c s1).
Proof.
  intros Hs. unfold task_running_tick. cbv zeta.
  set (s2 := if _ || _ then _ else no_iso_tick s1).
  assert (same_core s s2) as Hs2.
  { subst s2. case_if; [unfold iso_tick; frame|by apply no_iso_tick_core]. } clearbody s2.
  set (s3 := if iso_queue _ then _ else s2).
  assert (same_core s s3) as Hs3.
  { subst s3. case_if; [|done]. pose proof (test_ret_isorefractory_core s s2 Hs2).
    destruct (test_ret_isorefractory s2) as [b s4]. frame. } clearbody s3.
  frame.
Qed.
Lemma scheduler_tick_core s c user : same_core s (scheduler_tick c user s).
Proof.
  unfold scheduler_tick. cbv zeta. set (s1 := update_cpu_clock _ _ _ _ _).
  assert (same_core s s1) by (subst s1; apply update_cpu_clock_core; frame). clearbody s1.
  apply core_rq; [done|]. apply core_if; [by apply task_running_tick_core|by apply no_iso_tick_core].
Qed.
End tick_frames3.
#[export] Hint Resolve update_cpu_clock_core : frame.
