(* ===== verification/TickInv.v ===== *)
(** * What the tick accounts for

    Time is charged in 1/128 of a tick ([pc]).  The counters of a CPU (ticks
    times 128 plus the fraction, over all seven categories) grow by exactly what
    is charged, and together with the correction [account_pc] by exactly 128 per
    tick; the slice of a running task is used up by ticks, which then ask for a
    reschedule; the counter of isochronous time stays in its range and the
    quota takes effect. *)

From S2P Require Export Tick.
From S2P Require Import Machine.

Section fractions.
Context `{Config}.
Implicit Types s : sched.

Definition pc_range (v : Z) : Prop := 0 ≤ v < 128.

(** The fractions of a CPU and of all tasks are below one tick. *)
Definition rq_pc_ok (r : rq) : Prop :=
  pc_range (user_pc r) ∧ pc_range (nice_pc r) ∧ pc_range (irq_pc r) ∧ pc_range (softirq_pc r) ∧
  pc_range (system_pc r) ∧ pc_range (iowait_pc r) ∧ pc_range (idle_pc r).
Definition task_pc_ok (t : task_struct) : Prop := pc_range (utime_pc t) ∧ pc_range (stime_pc t).
Definition pc_ok (cpu : Z) (s : sched) : Prop :=
  rq_pc_ok (cpu_rq s cpu) ∧ ∀ p, task_pc_ok (task s p).

(** All that was charged on a CPU, in 1/128 of a tick. *)
Definition rq_fraction (r : rq) : Z :=
  user_pc r + nice_pc r + irq_pc r + softirq_pc r + system_pc r + iowait_pc r + idle_pc r.
Definition stat_ticks (c : cpu_usage_stat) : Z :=
  st_user c + st_nice c + st_irq c + st_softirq c + st_system c + st_iowait c + st_idle c.
Definition charged (cpu : Z) (s : sched) : Z :=
  128 * stat_ticks (kstat s !!! cpu) + rq_fraction (cpu_rq s cpu).

Lemma pc_acc_spec v pc :
  pc_range v → 0 ≤ pc ≤ 128 →
  let '(v', full) := pc_acc v pc in pc_range v' ∧ v' + 128 * Z_of_bool full = v + pc.
Proof.
  unfold pc_range, pc_acc. intros Hv Hpc. rewrite u64_id by lia.
  destruct (Z.leb_spec 128 (v + pc)); unfold Z_of_bool; lia_mod.
Qed.

Lemma ticks_add_one x y b : x = y - b + add_one b → u64 (128 * x) = u64 (128 * y + 128).
Proof. unfold add_one, cputime_one_jiffy. intros ->. wrap. Qed.

(** One charge: a fraction of the CPU moves from [v] to [v'] and, when it is
    full, a tick is added to the matching counter. *)
Lemma charge_step cpu s f g v v' (full : bool) pc :
  rq_pc_ok (cpu_rq s cpu) →
  rq_fraction (f (cpu_rq s cpu)) = rq_fraction (cpu_rq s cpu) - v + v' →
  (pc_range v' → rq_pc_ok (f (cpu_rq s cpu))) →
  (∀ c, u64 (128 * stat_ticks (g c)) = u64 (128 * stat_ticks c + 128)) →
  pc_range v' ∧ v' + 128 * Z_of_bool full = v + pc →
  let s1 := upd_rq cpu f s in
  let s2 := if full then upd_stat cpu g s1 else s1 in
  u64 (charged cpu s2) = u64 (charged cpu s + pc) ∧ rq_pc_ok (cpu_rq s2 cpu) ∧ tasks s2 = tasks s.
Proof.
  intros Hok Hf Hfok Hg [Hv' E]. cbv zeta.
  assert (cpu_rq (if full then upd_stat cpu g (upd_rq cpu f s) else upd_rq cpu f s) cpu = f (cpu_rq s cpu)) as Er.
  { rewrite <- (cpu_rq_upd_rq_eq s cpu f). by destruct full. }
  split_and!; [|rewrite Er; by apply Hfok|by destruct full].
  unfold charged. rewrite Er, Hf. destruct full; unfold Z_of_bool in E.
  - unfold upd_stat. simpl. rewrite mem_upd_eq.
    change (kstat (upd_rq cpu f s)) with (kstat s). specialize (Hg (kstat s !!! cpu)). wrap.
  - simpl. f_equal. lia.
Qed.
End fractions.

(** Discharges the conditions of [charge_step] for one category. *)
Ltac charge Ha :=
  eapply charge_step; [done|..|exact Ha];
  [ unfold rq_fraction; simpl; lia
  | unfold rq_pc_ok in *; simpl; tauto
  | intros c; unfold stat_ticks; simpl;
    match goal with |- context [add_one ?b] => apply (ticks_add_one _ _ b); lia end ].

Section accounting_inv.
Context `{Config}.
Implicit Types s : sched.

Lemma tasks_pc_ok s s' : (∀ q, task_pc_ok (task s q)) → tasks s' = tasks s → ∀ q, task_pc_ok (task s' q).
Proof. intros Ht E q. unfold task. rewrite E. apply Ht. Qed.

Lemma pc_idle_time_charged cpu pc s :
  pc_ok cpu s → 0 ≤ pc ≤ 128 →
  u64 (charged cpu (pc_idle_time cpu pc s)) = u64 (charged cpu s + pc) ∧ pc_ok cpu (pc_idle_time cpu pc s).
Proof.
  intros [Hr Ht] Hpc. pose proof Hr as (?&?&?&?&?&?&?).
  assert (u64 (charged cpu (pc_idle_time cpu pc s)) = u64 (charged cpu s + pc) ∧
    rq_pc_ok (cpu_rq (pc_idle_time cpu pc s) cpu) ∧ tasks (pc_idle_time cpu pc s) = tasks s) as (A & B & C).
  { unfold pc_idle_time. case_if.
    - pose proof (pc_acc_spec (iowait_pc (cpu_rq s cpu)) pc ltac:(done) Hpc) as Ha.
      destruct (pc_acc _ _) as [v full]. charge Ha.
    - pose proof (pc_acc_spec (idle_pc (cpu_rq s cpu)) pc ltac:(done) Hpc) as Ha.
      destruct (pc_acc _ _) as [v full]. charge Ha. }
  split; [done|]. split; [done|]. by apply (tasks_pc_ok s).
Qed.
(** The part of a charge that concerns the task. *)
Definition task_charge (s s2 : sched) : Prop :=
  runqueues s2 = runqueues s ∧ kstat s2 = kstat s ∧ grq s2 = grq s ∧ ∀ q, task_pc_ok (task s2 q).

Lemma charged_task_charge cpu s s2 : task_charge s s2 → rq_pc_ok (cpu_rq s cpu) →
  charged cpu s2 = charged cpu s ∧ rq_pc_ok (cpu_rq s2 cpu).
Proof. intros (Er & Ek & _ & _) Hr. unfold charged, cpu_rq. by rewrite Er, Ek. Qed.

Lemma task_charge_upd s s2 p f :
  task_charge s s2 → (∀ t, task_pc_ok t → task_pc_ok (f t)) → task_charge s (upd_task p f s2).
Proof.
  intros (? & ? & ? & Ht) Hf. split_and!; [done..|]. intros q. rewrite task_upd_task.
  case_decide; [by apply Hf|done].
Qed.
Lemma task_charge_user s s2 p t : task_charge s s2 → task_charge s (account_group_user_time p t s2).
Proof. intros Htc. unfold account_group_user_time. cbv zeta. case_if; [done|]. by destruct Htc as (?&?&?&?). Qed.
Lemma task_charge_system s s2 p t : task_charge s s2 → task_charge s (account_group_system_time p t s2).
Proof. intros Htc. unfold account_group_system_time. cbv zeta. case_if; [done|]. by destruct Htc as (?&?&?&?). Qed.

Lemma pc_system_time_charged cpu p off pc ns s :
  pc_ok cpu s → 0 ≤ pc ≤ 128 →
  u64 (charged cpu (pc_system_time cpu p off pc ns s)) = u64 (charged cpu s + pc) ∧
  pc_ok cpu (pc_system_time cpu p off pc ns s).
Proof.
  intros [Hr Ht] Hpc. unfold pc_system_time.
  pose proof (pc_acc_spec (stime_pc (task s p)) pc (proj2 (Ht p)) Hpc) as Ha.
  destruct (pc_acc (stime_pc (task s p)) pc) as [v full]. cbv zeta.
  match goal with |- context [upd_task p (λ t, t <| sched_time ::= _ |>) ?x] =>
    set (s2 := upd_task p (λ t, t <| sched_time ::= λ y, u64 (y + ns) |>) x) end.
  assert (task_charge s s2) as Htc.
  { subst s2. apply task_charge_upd; [|done].
    assert (task_charge s (upd_task p (λ t, t <| stime_pc := v |>) s)) as H1.
    { apply task_charge_upd; [done|]. intros t [Hu _]. split; [done|apply Ha]. }
    destruct full; [|done]. apply task_charge_system, task_charge_upd; [done|done]. }
  destruct (charged_task_charge cpu s s2 Htc Hr) as [E2 Hr2]. destruct Htc as (_ & _ & _ & Ht2).
  rewrite <- E2. clearbody s2. pose proof Hr2 as (?&?&?&?&?&?&?). clear Ha v full.
  match goal with |- u64 (charged cpu ?x) = _ ∧ pc_ok cpu ?x =>
    assert (u64 (charged cpu x) = u64 (charged cpu s2 + pc) ∧ rq_pc_ok (cpu_rq x cpu) ∧ tasks x = tasks s2)
      as (A & B & C) end.
  { case_if; [|case_if].
    - pose proof (pc_acc_spec (irq_pc (cpu_rq s2 cpu)) pc ltac:(done) Hpc) as Ha.
      destruct (pc_acc _ _) as [v full]. charge Ha.
    - pose proof (pc_acc_spec (softirq_pc (cpu_rq s2 cpu)) pc ltac:(done) Hpc) as Ha.
      destruct (pc_acc _ _) as [v full]. charge Ha.
    - pose proof (pc_acc_spec (system_pc (cpu_rq s2 cpu)) pc ltac:(done) Hpc) as Ha.
      destruct (pc_acc _ _) as [v full]. charge Ha. }
  split; [done|]. split; [done|]. by apply (tasks_pc_ok s2).
Qed.

Lemma pc_user_time_charged cpu p pc ns s :
  pc_ok cpu s → 0 ≤ pc ≤ 128 → ksoftirqd cpu ≠ p →
  u64 (charged cpu (pc_user_time cpu p pc ns s)) = u64 (charged cpu s + pc) ∧
  pc_ok cpu (pc_user_time cpu p pc ns s).
Proof.
  intros [Hr Ht] Hpc Hk. unfold pc_user_time. rewrite (proj2 (Z.eqb_neq _ _) Hk).
  pose proof (pc_acc_spec (utime_pc (task s p)) pc (proj1 (Ht p)) Hpc) as Ha.
  destruct (pc_acc (utime_pc (task s p)) pc) as [v full]. cbv zeta.
  match goal with |- context [upd_task p (λ t, t <| sched_time ::= _ |>) ?x] =>
    set (s2 := upd_task p (λ t, t <| sched_time ::= λ y, u64 (y + ns) |>) x) end.
  assert (task_charge s s2) as Htc.
  { subst s2. apply task_charge_upd; [|done].
    assert (task_charge s (upd_task p (λ t, t <| utime_pc := v |>) s)) as H1.
    { apply task_charge_upd; [done|]. intros t [_ Hu]. split; [apply Ha|done]. }
    destruct full; [|done]. apply task_charge_user, task_charge_upd; [done|done]. }
  destruct (charged_task_charge cpu s s2 Htc Hr) as [E2 Hr2]. destruct Htc as (_ & _ & _ & Ht2).
  rewrite <- E2. clearbody s2. pose proof Hr2 as (?&?&?&?&?&?&?). clear Ha v full.
  match goal with |- u64 (charged cpu ?x) = _ ∧ pc_ok cpu ?x =>
    assert (u64 (charged cpu x) = u64 (charged cpu s2 + pc) ∧ rq_pc_ok (cpu_rq x cpu) ∧ tasks x = tasks s2)
      as (A & B & C) end.
  { case_if.
    - pose proof (pc_acc_spec (nice_pc (cpu_rq s2 cpu)) pc ltac:(done) Hpc) as Ha.
      destruct (pc_acc _ _) as [v full]. charge Ha.
    - pose proof (pc_acc_spec (user_pc (cpu_rq s2 cpu)) pc ltac:(done) Hpc) as Ha.
      destruct (pc_acc _ _) as [v full]. charge Ha. }
  split; [done|]. split; [done|]. by apply (tasks_pc_ok s2).
Qed.

(** Neither the clocks nor the slice are part of what is charged. *)
Lemma ts_account_charged cpu p s :
  charged cpu (ts_account cpu p s) = charged cpu s ∧ (pc_ok cpu s → pc_ok cpu (ts_account cpu p s)) ∧
  account_pc (cpu_rq (ts_account cpu p s) cpu) = account_pc (cpu_rq s cpu).
Proof.
  assert (∀ B (g : rq → B), (∀ r x, g (r <| rq_time_slice := x |>) = g r) →
    (∀ r x, g (r <| rq_last_ran := x |>) = g r) → (∀ r x, g (r <| timekeep_clock := x |>) = g r) →
    g (cpu_rq (ts_account cpu p s) cpu) = g (cpu_rq s cpu)) as Hg.
  { intros B g G1 G2 G3. unfold ts_account. cbv zeta. rewrite (rq_upd_proj g) by (intros; by rewrite G3, G2).
    case_if; [|done]. apply rq_upd_proj. intros x. apply G1. }
  assert (tasks (ts_account cpu p s) = tasks s ∧ kstat (ts_account cpu p s) = kstat s) as [Et Ek]
    by (unfold ts_account; cbv zeta; by case_if).
  split_and!; [|intros [Hr Ht]; split|by apply Hg].
  - unfold charged. by rewrite Ek, (Hg _ rq_fraction).
  - unfold rq_pc_ok in *. by rewrite (Hg _ user_pc), (Hg _ nice_pc), (Hg _ irq_pc), (Hg _ softirq_pc),
      (Hg _ system_pc), (Hg _ iowait_pc), (Hg _ idle_pc).
  - by apply (tasks_pc_ok s).
Qed.

(** The correction is not touched by a charge. *)
Lemma account_upd_stat cpu f g (full : bool) s :
  (∀ r, account_pc (f r) = account_pc r) →
  account_pc (cpu_rq (if full then upd_stat cpu g (upd_rq cpu f s) else upd_rq cpu f s) cpu) =
  account_pc (cpu_rq s cpu).
Proof. intros Hf. destruct full; exact (rq_upd_proj account_pc s cpu cpu f Hf). Qed.

Lemma pc_idle_time_account cpu pc s : account_pc (cpu_rq (pc_idle_time cpu pc s) cpu) = account_pc (cpu_rq s cpu).
Proof. unfold pc_idle_time. case_if; destruct (pc_acc _ _) as [v full]; by apply account_upd_stat. Qed.

Lemma account_task_charge cpu s s2 : runqueues s2 = runqueues s → account_pc (cpu_rq s2 cpu) = account_pc (cpu_rq s cpu).
Proof. unfold cpu_rq. by intros ->. Qed.

Lemma pc_system_time_account cpu p off pc ns s :
  account_pc (cpu_rq (pc_system_time cpu p off pc ns s) cpu) = account_pc (cpu_rq s cpu).
Proof.
  unfold pc_system_time. destruct (pc_acc (stime_pc (task s p)) pc) as [v full]. cbv zeta.
  match goal with |- context [upd_task p (λ t, t <| sched_time ::= _ |>) ?x] =>
    set (s2 := upd_task p (λ t, t <| sched_time ::= λ y, u64 (y + ns) |>) x) end.
  transitivity (account_pc (cpu_rq s2 cpu)).
  - clearbody s2. case_if; [|case_if]; destruct (pc_acc _ _) as [w full']; by apply account_upd_stat.
  - apply account_task_charge. subst s2. destruct full; [|done].
    unfold account_group_system_time. cbv zeta. by case_if.
Qed.
Lemma pc_user_time_account cpu p pc ns s :
  ksoftirqd cpu ≠ p →
  account_pc (cpu_rq (pc_user_time cpu p pc ns s) cpu) = account_pc (cpu_rq s cpu).
Proof.
  intros Hk. unfold pc_user_time. rewrite (proj2 (Z.eqb_neq _ _) Hk).
  destruct (pc_acc (utime_pc (task s p)) pc) as [v full]. cbv zeta.
  match goal with |- context [upd_task p (λ t, t <| sched_time ::= _ |>) ?x] =>
    set (s2 := upd_task p (λ t, t <| sched_time ::= λ y, u64 (y + ns) |>) x) end.
  transitivity (account_pc (cpu_rq s2 cpu)).
  - clearbody s2. case_if; destruct (pc_acc _ _) as [w full']; by apply account_upd_stat.
  - apply account_task_charge. subst s2. destruct full; [|done].
    unfold account_group_user_time. cbv zeta. by case_if.
Qed.

Lemma set_account cpu s f :
  (∀ r, rq_fraction (f r) = rq_fraction r) → (∀ r, rq_pc_ok r → rq_pc_ok (f r)) → pc_ok cpu s →
  charged cpu (upd_rq cpu f s) = charged cpu s ∧ pc_ok cpu (upd_rq cpu f s).
Proof.
  intros Hf Hok [Hr Ht]. unfold charged, pc_ok. rewrite cpu_rq_upd_rq_eq, Hf. by auto.
Qed.

Lemma NS_TO_PC_range ns : 0 < JIFFY_NS ≤ 1000000000 → 0 ≤ ns ≤ JIFFY_NS → 0 ≤ NS_TO_PC ns ≤ 128.
Proof.
  intros Hj Hns. unfold NS_TO_PC. rewrite s64_id by lia. split; [apply Z.quot_pos; lia|].
  rewrite Z.quot_div_nonneg by lia. apply Z.div_le_upper_bound; lia.
Qed.

End accounting_inv.

(** ** What charging leaves alone *)
Section acct.
Context `{Config}.
Implicit Types s : sched.

Definition aview (r : rq) : Z * Z * Z * Z * Z * Z * Z * bool :=
  (curr r, idle r, rq_policy r, rq_prio r, rq_time_slice r, rq_last_ran r, clock r, dither r).

Record acct (s s' : sched) : Prop := {
  ac_task : ∀ p, need_resched (task s' p) = need_resched (task s p);
  ac_rq : ∀ c, aview (cpu_rq s' c) = aview (cpu_rq s c);
  ac_grq : grq s' = grq s;
  ac_iso : sched_iso_cpu s' = sched_iso_cpu s;
}.

Lemma acct_refl s : acct s s.
Proof. by split. Qed.
Lemma acct_task s s1 p f : (∀ t, need_resched (f t) = need_resched t) → acct s s1 → acct s (upd_task p f s1).
Proof. intros Hf [Ht Hr Hg Hi]. split; try done. intros q. rewrite <- Ht. by apply task_upd_proj. Qed.
Lemma acct_rq s s1 c f : (∀ r, aview (f r) = aview r) → acct s s1 → acct s (upd_rq c f s1).
Proof. intros Hf [Ht Hr Hg Hi]. split; try done. intros d. rewrite <- Hr. by apply rq_upd_proj. Qed.
Lemma acct_stat s s1 c f : acct s s1 → acct s (upd_stat c f s1).
Proof. by intros []. Qed.
Lemma acct_if (b : bool) s s1 s2 : acct s s1 → acct s s2 → acct s (if b then s1 else s2).
Proof. by destruct b. Qed.
Lemma acct_user s s1 p t : acct s s1 → acct s (account_group_user_time p t s1).
Proof. intros Ha. unfold account_group_user_time. cbv zeta. apply acct_if; [done|]. by destruct Ha. Qed.
Lemma acct_system s s1 p t : acct s s1 → acct s (account_group_system_time p t s1).
Proof. intros Ha. unfold account_group_system_time. cbv zeta. apply acct_if; [done|]. by destruct Ha. Qed.
End acct.
Create HintDb acct discriminated.
#[export] Hint Resolve acct_refl acct_task acct_rq acct_stat acct_if acct_user acct_system : acct.
#[export] Hint Extern 1 (∀ _, _ = _) => intros; reflexivity : acct.
Ltac acct := intros; cbv zeta; eauto 20 with acct.

Section acct_ops.
Context `{Config}.
Implicit Types s : sched.

Lemma pc_idle_time_acct s s1 cpu pc : acct s s1 → acct s (pc_idle_time cpu pc s1).
Proof. intros. unfold pc_idle_time. case_if; destruct (pc_acc _ _) as [v full]; acct. Qed.
Lemma pc_system_time_acct s s1 cpu p off pc ns : acct s s1 → acct s (pc_system_time cpu p off pc ns s1).
Proof.
  intros. unfold pc_system_time. destruct (pc_acc _ _) as [v full]. cbv zeta.
  match goal with |- context [upd_task p (λ t, t <| sched_time ::= _ |>) ?x] =>
    set (s2 := upd_task p (λ t, t <| sched_time ::= λ y, u64 (y + ns) |>) x) end.
  assert (acct s s2) by (subst s2; acct). clearbody s2.
  case_if; [|case_if]; destruct (pc_acc _ _) as [w full']; acct.
Qed.
Lemma pc_user_time_acct s s1 cpu p pc ns : acct s s1 → acct s (pc_user_time cpu p pc ns s1).
Proof.
  intros. unfold pc_user_time. destruct (pc_acc _ _) as [v full]. cbv zeta.
  match goal with |- context [upd_task p (λ t, t <| sched_time ::= _ |>) ?x] =>
    set (s2 := upd_task p (λ t, t <| sched_time ::= λ y, u64 (y + ns) |>) x) end.
  assert (acct s s2) by (subst s2; acct). clearbody s2.
  set (s3 := if ksoftirqd cpu =? p then _ else s2).
  assert (acct s s3) by (subst s3; case_if; [destruct (pc_acc _ _) as [w full']|]; acct). clearbody s3.
  case_if; destruct (pc_acc _ _) as [w full']; acct.
Qed.

(** All of [update_cpu_clock] but the slice. *)
Lemma update_cpu_clock_acct cpu p tick user s :
  ∃ s1, acct s s1 ∧ update_cpu_clock cpu p tick user s = ts_account cpu p s1.
Proof.
  unfold update_cpu_clock. cbv zeta.
  match goal with |- ∃ s1, _ ∧ ts_account cpu p ?x = _ => exists x end. split; [|done].
  case_if.
  - destruct (if s64 _ <? 0 then _ else _) as [q acc].
    repeat case_if; first [apply pc_user_time_acct|apply pc_system_time_acct|apply pc_idle_time_acct]; acct.
  - repeat case_if; first [apply pc_idle_time_acct|apply pc_user_time_acct]; acct.
Qed.
End acct_ops.

(** ** The quota of isochronous tasks *)
Section iso.
Context `{Config}.
Implicit Types s : sched.

(** The configuration is small enough for an [int] and at least one CPU is
    online. *)
Record iso_ok (s : sched) : Prop := {
  iso_noc : 0 < HZ ∧ 1 ≤ HZ * noc (grq s);
  iso_small : 5 * (HZ * noc (grq s)) < 0x7fffff;
  iso_cpu : 0 ≤ sched_iso_cpu s ≤ 100;
  iso_range : 0 ≤ iso_ticks (grq s) ≤ (5 * (HZ * noc (grq s)) + 1) * 128 - 28;
}.

(** The period, the quota and the level at which it is granted again. *)
Lemma iso_numbers s : iso_ok s →
  let P := 5 * (HZ * noc (grq s)) + 1 in
  ISO_PERIOD (grq s) = P ∧ iso_limit s = P * sched_iso_cpu s ∧
  iso_release s = P * (sched_iso_cpu s * 115 / 128) ∧ iso_release s ≤ iso_limit s.
Proof.
  intros [Hn Hs Hc _]. cbv zeta.
  assert (ISO_PERIOD (grq s) = 5 * (HZ * noc (grq s)) + 1) as EP.
  { unfold ISO_PERIOD. rewrite (s32_id (5 * HZ * noc (grq s))) by lia. rewrite s32_id; lia. }
  unfold iso_limit, iso_release. rewrite EP. set (P := 5 * (HZ * noc (grq s)) + 1) in *.
  assert (0 < P < 0x800000) as HP by (subst P; lia). clearbody P.
  rewrite (s32_id (sched_iso_cpu s * 115)) by lia. rewrite Z.quot_div_nonneg by lia.
  assert (0 ≤ sched_iso_cpu s * 115 / 128 ≤ sched_iso_cpu s) as Hd by lia_mod.
  rewrite (s32_id (P * sched_iso_cpu s)) by nia. rewrite (s32_id (P * (sched_iso_cpu s * 115 / 128))) by nia.
  split_and!; [done|done|done|nia].
Qed.

(** One step of the counter: what changes is the counter and the flag. *)
Record iso_step (s s' : sched) : Prop := {
  is_ok : iso_ok s';
  is_noc : noc (grq s') = noc (grq s);
  is_cpu : sched_iso_cpu s' = sched_iso_cpu s;
  is_set : iso_refractory (grq s) = false → iso_refractory (grq s') = true → iso_limit s' < iso_ticks (grq s');
  is_clear : iso_refractory (grq s) = true → iso_refractory (grq s') = false → iso_ticks (grq s') < iso_release s';
}.

Lemma no_iso_tick_step s : iso_ok s → iso_step s (no_iso_tick s).
Proof.
  intros Hok. pose proof (iso_numbers s Hok) as (EP & _). pose proof Hok as [Hn Hs Hc Hr].
  unfold no_iso_tick. destruct (Z.eqb_spec (iso_ticks (grq s)) 0) as [|Hne]; cbn [negb].
  { split; [done|done|done|congruence|congruence]. }
  assert (0 ≤ iso_ticks (grq s) / ISO_PERIOD (grq s) < iso_ticks (grq s)) as Hd.
  { rewrite EP. split; [apply Z.div_pos; lia|apply Z.div_lt; lia]. }
  cbv zeta. set (s1 := upd_grq _ s).
  assert (iso_ticks (grq s1) = iso_ticks (grq s) - (iso_ticks (grq s) / ISO_PERIOD (grq s) + 1)) as Et.
  { subst s1. simpl. rewrite Z.quot_div_nonneg by lia. apply s32_id. lia. }
  assert (iso_ok s1) as Hok1.
  { split; [done|done|done|]. change (noc (grq s1)) with (noc (grq s)). rewrite Et. lia. }
  change (iso_refractory (grq s1)) with (iso_refractory (grq s)).
  assert (iso_refractory (grq s1) = iso_refractory (grq s)) as E1 by done.
  destruct (iso_refractory (grq s)) eqn:Er; cbn [andb]; [|split; [done|done|done|congruence|congruence]].
  destruct (Z.ltb_spec (iso_ticks (grq s1)) (iso_release s1)).
  - split; [by destruct Hok1|done|done|congruence|done].
  - split; [done|done|done|congruence|congruence].
Qed.

Lemma iso_step_trans s1 s2 s3 :
  iso_step s1 s2 → iso_step s2 s3 →
  (iso_refractory (grq s2) = iso_refractory (grq s1) ∨ iso_refractory (grq s3) = iso_refractory (grq s2) ∧ iso_ticks (grq s3) = iso_ticks (grq s2)) →
  iso_step s1 s3.
Proof.
  intros [O1 N1 C1 S1 L1] [O2 N2 C2 S2 L2] Hx. split; [done|congruence|congruence|..].
  all: destruct Hx as [E|[E1 E2]]; intros A B; [first [apply S2|apply L2]; congruence|].
  all: assert (iso_limit s3 = iso_limit s2 ∧ iso_release s3 = iso_release s2) as [El Ere]
    by (unfold iso_limit, iso_release, ISO_PERIOD; by rewrite N2, C2).
  - rewrite El, E2. apply S1; congruence.
  - rewrite Ere, E2. apply L1; congruence.
Qed.

Lemma iso_step_eq s s1 s' s2 :
  grq s1 = grq s → sched_iso_cpu s1 = sched_iso_cpu s → grq s2 = grq s' → sched_iso_cpu s2 = sched_iso_cpu s' →
  iso_step s1 s' → iso_step s s2.
Proof.
  intros E1 E2 E3 E4 [[O1 O2 O3 O4] N C S L]. unfold iso_limit, iso_release in *.
  rewrite E1 in *. rewrite E2 in *.
  split; [split|..]; unfold iso_limit, iso_release; rewrite ?E3, ?E4; done.
Qed.
Lemma iso_step_refl s : iso_ok s → iso_step s s.
Proof. intros Hok. split; [done|done|done|congruence|congruence]. Qed.

Lemma iso_tick_step s :
  iso_ok s → iso_ticks (grq s) <= s32 (s32 (ISO_PERIOD (grq s) * 128) - 128) → iso_step s (iso_tick s).
Proof.
  intros Hok Hle. pose proof (iso_numbers s Hok) as (EP & _). pose proof Hok as [Hn Hs Hc Hr].
  rewrite EP, !s32_id in Hle by (rewrite ?s32_id; lia).
  assert (iso_ticks (grq (iso_tick s)) = iso_ticks (grq s) + 100) as Et by (apply s32_id; lia).
  split; [|done|done|simpl; congruence|simpl; congruence].
  split; [done|done|done|]. change (noc (grq (iso_tick s))) with (noc (grq s)). lia.
Qed.

Lemma test_ret_step s : iso_ok s →
  let '(b, s') := test_ret_isorefractory s in
  iso_step s s' ∧ b = iso_refractory (grq s') ∧ iso_ticks (grq s') = iso_ticks (grq s) ∧
  cpu_rq s' = cpu_rq s ∧ task s' = task s ∧
  (iso_limit s < iso_ticks (grq s) → b = true) ∧
  (b ≠ iso_refractory (grq s) → iso_limit s < iso_ticks (grq s) ∨ iso_ticks (grq s) < iso_release s).
Proof.
  intros Hok. pose proof (iso_numbers s Hok) as (_ & _ & _ & Hrl). unfold test_ret_isorefractory. cbv zeta.
  destruct (iso_refractory (grq s)) eqn:Er; cbn [negb].
  - destruct (Z.ltb_spec (iso_ticks (grq s)) (iso_release s)).
    + split_and!; try done; [|simpl; lia|by auto]. split; [by destruct Hok|done|done|congruence|done].
    + rewrite Er. split_and!; try done. by apply iso_step_refl.
  - destruct (Z.ltb_spec (iso_limit s) (iso_ticks (grq s))).
    + split_and!; try done; [|by auto]. split; [by destruct Hok|done|done|done|congruence].
    + rewrite Er. split_and!; try done; [by apply iso_step_refl|lia].
Qed.

(** The isochronous part of a tick. *)
Lemma task_running_tick_iso cpu s :
  iso_ok s →
  let s' := task_running_tick cpu s in
  let r := cpu_rq s cpu in
  iso_step s s' ∧
  (rq_policy r = SCHED_ISO → iso_limit s' < iso_ticks (grq s') → iso_refractory (grq s') = true) ∧
  (rq_policy r = SCHED_ISO → rq_prio r = ISO_PRIO → iso_refractory (grq s') = true →
   need_resched (task s' (curr r)) = true).
Proof.
  intros Hok. cbv zeta. unfold task_running_tick. cbv zeta. set (r := cpu_rq s cpu).
  set (s1 := if rt_queue r || _ then _ else no_iso_tick s).
  assert (iso_step s s1 ∧ cpu_rq s1 = cpu_rq s ∧ task s1 = task s ∧
    (iso_refractory (grq s1) = iso_refractory (grq s) ∨
     iso_refractory (grq s1) = false ∧ iso_ticks (grq s1) < iso_release s1)) as (H1 & R1 & T1 & F1).
  { subst s1. case_if; [destruct (Z.leb_spec (iso_ticks (grq s)) (s32 (s32 (ISO_PERIOD (grq s) * 128) - 128)))|].
    - split_and!; [by apply iso_tick_step|done|done|by left].
    - split_and!; [by apply iso_step_refl|done|done|by left].
    - pose proof (no_iso_tick_step s Hok) as Hst. split_and!; [done|by unfold no_iso_tick; repeat case_if..|].
      destruct (iso_refractory (grq (no_iso_tick s))) eqn:E2, (iso_refractory (grq s)) eqn:E3; auto.
      + exfalso. revert E2. unfold no_iso_tick. destruct (negb _); [|congruence]. simpl. rewrite E3. simpl. congruence.
      + right. split; [done|]. by apply (is_clear _ _ Hst). }
  clearbody s1. pose proof (iso_numbers s1 (is_ok _ _ H1)) as (_ & _ & _ & Hrl).
  set (s2 := if iso_queue r then _ else s1).
  assert (iso_step s s2 ∧ curr (cpu_rq s2 cpu) = curr r ∧ rq_policy (cpu_rq s2 cpu) = rq_policy r ∧
    (rq_policy r = SCHED_ISO → iso_limit s2 < iso_ticks (grq s2) → iso_refractory (grq s2) = true) ∧
    (rq_policy r = SCHED_ISO → rq_prio r = ISO_PRIO → iso_refractory (grq s2) = true →
     rq_time_slice (cpu_rq s2 cpu) = 0)) as (H2 & C2 & P2 & L2 & Z2).
  { subst s2. unfold iso_queue, rq_running_iso. destruct (Z.eqb_spec (rq_policy r) SCHED_ISO) as [Ep|].
    2: { rewrite R1. split_and!; done. }
    pose proof (test_ret_step s1 (is_ok _ _ H1)) as Ht. destruct (test_ret_isorefractory s1) as [b s3].
    destruct Ht as (H3 & -> & Et & R3 & T3 & Hlim & Hch).
    assert (iso_step s s3) as Hs3.
    { apply (iso_step_trans s s1 s3); [done..|]. destruct F1 as [?|[Ef Hlt]]; [by left|right]. split; [|done].
      rewrite Ef. apply not_true_iff_false. intros E3. pose proof (is_set _ _ H3 Ef E3) as Hl.
      assert (iso_limit s3 = iso_limit s1) as El
        by (unfold iso_limit, ISO_PERIOD; by rewrite (is_noc _ _ H3), (is_cpu _ _ H3)). lia. }
    assert (iso_limit s3 = iso_limit s1) as El
      by (unfold iso_limit, ISO_PERIOD; by rewrite (is_noc _ _ H3), (is_cpu _ _ H3)).
    destruct (iso_refractory (grq s3)) eqn:E3; cbn [andb].
    2: { rewrite R3, R1, E3. split_and!; [exact Hs3|reflexivity|reflexivity| |intros; congruence].
         intros _ Hl. apply Hlim. lia. }
    destruct (Z.eqb_spec (rq_prio r) ISO_PRIO) as [Epr|Hpr].
    2: { rewrite R3, R1, E3. split_and!; [exact Hs3|reflexivity|reflexivity|reflexivity|intros; congruence]. }
    rewrite cpu_rq_upd_rq_eq, R3, R1.
    split_and!; [by apply (iso_step_eq s s s3 _)|reflexivity|reflexivity|by intros|by intros]. }
  clearbody s2. clear s1 H1 R1 T1 F1 Hrl. rewrite P2, C2.
  assert (∀ s3, grq s3 = grq s2 → sched_iso_cpu s3 = sched_iso_cpu s2 →
    (need_resched (task s3 (curr r)) = true ∨ (rq_policy r = SCHED_ISO → rq_prio r = ISO_PRIO → iso_refractory (grq s2) = true → False)) →
    iso_step s s3 ∧
    (rq_policy r = SCHED_ISO → iso_limit s3 < iso_ticks (grq s3) → iso_refractory (grq s3) = true) ∧
    (rq_policy r = SCHED_ISO → rq_prio r = ISO_PRIO → iso_refractory (grq s3) = true →
     need_resched (task s3 (curr r)) = true)) as Hfin.
  { intros s3 E1 E2 Hn. assert (iso_limit s3 = iso_limit s2) as -> by (unfold iso_limit; by rewrite E1, E2).
    rewrite E1. split_and!; [by apply (iso_step_eq s s s2 s3)|done|]. intros A B C. destruct Hn as [|Hn]; [done|].
    by destruct (Hn A B C). }
  assert (∀ s3, need_resched (task (upd_task (curr r) (λ t, t <| need_resched := true |>) s3) (curr r)) = true) as Hset
    by (intros; by rewrite task_upd_task_eq).
  destruct (Z.eqb_spec (rq_policy r) SCHED_FIFO) as [Ef|].
  { apply Hfin; [done|done|]. right. rewrite Ef. done. }
  destruct (dither (cpu_rq s2 cpu)).
  - destruct (Z.ltb_spec HALF_JIFFY_US (rq_time_slice (cpu_rq s2 cpu))) as [Hlt|]; apply Hfin; try done; [|by left; apply Hset].
    right. intros A B C. rewrite (Z2 A B C) in Hlt. destruct (iso_noc _ Hok) as [Hz _].
    assert (0 ≤ HALF_JIFFY_US); [|lia]. unfold HALF_JIFFY_US. apply Z.div_pos; [apply Z.div_pos|]; lia.
  - destruct (Z.leb_spec RESCHED_US (rq_time_slice (cpu_rq s2 cpu))) as [Hle|]; apply Hfin; try done; [|by left; apply Hset].
    right. intros A B C. rewrite (Z2 A B C) in Hle. by vm_compute in Hle.
Qed.

End iso.

Section iso_example.
#[local] Existing Instance sample_config.


End iso_example.


(** ** A slice is used up *)
Section slices.
Context `{Config}.
Implicit Types s : sched.

(** A tick [d] nanoseconds after the last update of the clock. *)
Definition tick_after (cpu : Z) (user_tick : bool) (d : Z) (s : sched) : sched :=
  scheduler_tick cpu user_tick (s <| sched_clock_cpu ::= <[cpu := clock (cpu_rq s cpu) + d]> |>).
Fixpoint ticks_after (cpu : Z) (user_tick : bool) (ds : list Z) (s : sched) : sched :=
  match ds with
  | [] => s
  | d :: ds => ticks_after cpu user_tick ds (tick_after cpu user_tick d s)
  end.

(** A CPU whose task runs on a slice, charged up to its clock. *)
Record on_slice (cpu : Z) (s : sched) : Prop := {
  os_clock : 0 ≤ clock (cpu_rq s cpu) ∧ rq_last_ran (cpu_rq s cpu) = clock (cpu_rq s cpu);
  os_policy : rq_policy (cpu_rq s cpu) ≠ SCHED_FIFO;
  os_task : curr (cpu_rq s cpu) ≠ idle (cpu_rq s cpu) ∧ rq_idle (cpu_rq s cpu) = false;
}.

Definition flagged (cpu : Z) (s : sched) : Prop := need_resched (task s (curr (cpu_rq s cpu))) = true.

(** The end of a tick: flagged, or the slice is not exhausted. *)
Lemma task_running_tick_slice cpu s :
  0 < HZ → rq_policy (cpu_rq s cpu) ≠ SCHED_FIFO →
  let s' := task_running_tick cpu s in
  (∀ B (g : rq → B), (∀ r x, g (r <| rq_time_slice := x |>) = g r) → g (cpu_rq s' cpu) = g (cpu_rq s cpu)) ∧
  (flagged cpu s → flagged cpu s') ∧
  (flagged cpu s' ∨ rq_time_slice (cpu_rq s' cpu) = rq_time_slice (cpu_rq s cpu) ∧ 0 < rq_time_slice (cpu_rq s' cpu)).
Proof.
  intros Hz Hp. cbv zeta. unfold task_running_tick. cbv zeta.
  set (s1 := if rt_queue _ || _ then _ else no_iso_tick s).
  assert (cpu_rq s1 = cpu_rq s ∧ task s1 = task s) as [R1 T1].
  { subst s1. unfold iso_tick, no_iso_tick. by repeat case_if. }
  clearbody s1. set (s2 := if iso_queue _ then _ else s1).
  assert (task s2 = task s ∧ (∀ B (g : rq → B), (∀ r x, g (r <| rq_time_slice := x |>) = g r) →
      g (cpu_rq s2 cpu) = g (cpu_rq s cpu)) ∧
    (rq_time_slice (cpu_rq s2 cpu) = rq_time_slice (cpu_rq s cpu) ∨ rq_time_slice (cpu_rq s2 cpu) = 0)) as (T2 & R2 & Z2).
  { subst s2. destruct (iso_queue _); [|rewrite R1; auto].
    assert (cpu_rq (test_ret_isorefractory s1).2 = cpu_rq s ∧ task (test_ret_isorefractory s1).2 = task s) as [R3 T3].
    { unfold test_ret_isorefractory. cbn [snd]. rewrite <- R1, <- T1. by repeat case_if. }
    destruct (test_ret_isorefractory s1) as [b s3]. cbn [snd] in R3, T3. case_if; [|rewrite R3; auto].
    split_and!; [done| |right; by rewrite cpu_rq_upd_rq_eq].
    intros B g G. rewrite cpu_rq_upd_rq_eq, R3. apply G. }
  clearbody s2. unfold flagged. rewrite (R2 _ rq_policy), (proj2 (Z.eqb_neq _ _) Hp) by done.
  set (r := cpu_rq s2 cpu). assert (curr r = curr (cpu_rq s cpu)) as Ec by (by apply (R2 _ curr)).
  assert (∀ s3, cpu_rq s3 = cpu_rq s2 →
    let s' := upd_task (curr r) (λ t, t <| need_resched := true |>) s3 in
    (∀ B (g : rq → B), (∀ r x, g (r <| rq_time_slice := x |>) = g r) → g (cpu_rq s' cpu) = g (cpu_rq s cpu)) ∧
    need_resched (task s' (curr (cpu_rq s' cpu))) = true) as Hset.
  { intros s3 E3. cbv zeta. change (cpu_rq (upd_task ?p ?f s3)) with (cpu_rq s3). rewrite E3. split; [done|].
    fold r. by rewrite task_upd_task_eq. }
  assert (0 ≤ HALF_JIFFY_US) as Hhj by (unfold HALF_JIFFY_US; apply Z.div_pos; [apply Z.div_pos|]; lia).
  destruct (dither r).
  - destruct (Z.ltb_spec HALF_JIFFY_US (rq_time_slice r)) as [Hlt|].
    + fold r. rewrite T2, Ec. split_and!; [done|done|]. right. destruct Z2 as [E|E]; subst r; lia.
    + set (s3 := upd_rq cpu _ s2). change (cpu_rq (upd_task ?p ?f s3)) with (cpu_rq s3).
      assert (curr (cpu_rq s3 cpu) = curr r) as Ec3 by (unfold s3; by rewrite cpu_rq_upd_rq_eq).
      rewrite Ec3, task_upd_task_eq. split_and!; [|done|by left].
      intros B g G. unfold s3. rewrite cpu_rq_upd_rq_eq. fold r. rewrite G. by apply R2.
  - destruct (Z.leb_spec RESCHED_US (rq_time_slice r)) as [Hle|].
    + fold r. rewrite T2, Ec. split_and!; [done|done|]. right. unfold RESCHED_US in Hle.
      destruct Z2 as [E|E]; subst r; lia.
    + destruct (Hset s2 eq_refl) as [A B]. split_and!; [done|done|by left].
Qed.

(** The parts of a tick: the clock is read, the time is charged, then the slice is
    looked at. *)
Lemma tick_after_body cpu user d s :
  ∃ s1 s3, s1 = update_rq_clock cpu (s <| sched_clock_cpu ::= <[cpu := clock (cpu_rq s cpu) + d]> |>) ∧
    s3 = update_cpu_clock cpu (curr (cpu_rq s1 cpu)) true user s1 ∧
    tick_after cpu user d s = upd_rq cpu (λ r, r <| last_tick := clock r |>)
      (if negb (rq_idle (cpu_rq s3 cpu)) then task_running_tick cpu s3 else no_iso_tick s3).
Proof. do 2 eexists. split_and!; reflexivity. Qed.

(** The clock and the charge of a tick. *)
Lemma tick_charge cpu user d s s1 s3 :
  0 < HZ ≤ 1000000 → JIFFY_NS ≤ d ≤ 2 * JIFFY_NS → on_slice cpu s →
  clock (cpu_rq s cpu) + d < 0x8000000000000000 →
  s1 = update_rq_clock cpu (s <| sched_clock_cpu ::= <[cpu := clock (cpu_rq s cpu) + d]> |>) →
  s3 = update_cpu_clock cpu (curr (cpu_rq s1 cpu)) true user s1 →
  let r := cpu_rq s cpu in let r' := cpu_rq s3 cpu in
  (curr r' = curr r ∧ idle r' = idle r ∧ rq_policy r' = rq_policy r ∧ rq_prio r' = rq_prio r) ∧
  (clock r' = clock r + d ∧ rq_last_ran r' = clock r') ∧
  rq_time_slice r' = s32 (rq_time_slice r - NS_TO_US d) ∧
  (∀ p, need_resched (task s3 p) = need_resched (task s p)).
Proof.
  intros Hz Hd [[Hc0 Hlr] Hp [Hne Hni]] Hc Es1 ->. cbv zeta.
  assert (1000 ≤ JIFFY_NS ≤ 1000000000) as Hj.
  { unfold JIFFY_NS. split; [apply Z.div_le_lower_bound|apply Z.div_le_upper_bound]; lia. }
  set (s0 := s <| sched_clock_cpu ::= _ |>) in Es1.
  assert (cpu_rq s1 cpu = cpu_rq s cpu <| clock := clock (cpu_rq s cpu) + d |>
    <| clock_task := u64 (clock_task (cpu_rq s cpu) + d) |>) as E1.
  { rewrite Es1. unfold update_rq_clock, update_rq_clock_task. cbv zeta. rewrite !cpu_rq_upd_rq_eq.
    change (cpu_rq s0 cpu) with (cpu_rq s cpu).
    assert (sched_clock_cpu s0 !!! cpu = clock (cpu_rq s cpu) + d) as -> by (unfold s0; simpl; apply lookup_total_insert_eq).
    assert (s64 (clock (cpu_rq s cpu) + d - clock (cpu_rq s cpu)) = d) as -> by (rewrite s64_id; lia).
    unfold update. simpl. rewrite u64_id by lia. done. }
  assert (task s1 = task s) as T1 by (by rewrite Es1). clear Es1 s0.
  destruct (update_cpu_clock_acct cpu (curr (cpu_rq s1 cpu)) true user s1) as (s2 & [At Ar Ag Ai] & ->).
  specialize (Ar cpu). rewrite E1 in Ar. injection Ar as A1 A2 A3 A4 A5 A6 A7 A8. rewrite E1. simpl.
  unfold ts_account. cbv zeta. rewrite A3, A2, A7, A6, Hlr, (proj2 (Z.eqb_neq _ _) Hp), (proj2 (Z.eqb_neq _ _) Hne).
  cbn [negb andb]. rewrite (s64_id (clock (cpu_rq s cpu) + d - clock (cpu_rq s cpu))) by lia.
  replace (clock (cpu_rq s cpu) + d - clock (cpu_rq s cpu)) with d by lia.
  assert (niffy_diff d 1 = d) as ->.
  { unfold niffy_diff. change (1 <? 1) with false. unfold JIFFIES_TO_NS.
    change (s32 (1 + 1)) with 2. rewrite (s32_id (2 * JIFFY_NS)), (u64_id (2 * JIFFY_NS)), (u64_id d) by lia.
    rewrite (proj2 (Z.ltb_ge d 1)), (proj2 (Z.ltb_ge (2 * JIFFY_NS) d)) by lia. done. }
  rewrite !cpu_rq_upd_rq_eq. split_and!; try done.
  - simpl. by rewrite A5.
  - intros p. rewrite <- T1. apply At.
Qed.

Lemma tick_after_slice cpu user d s :
  0 < HZ ≤ 1000000 → JIFFY_NS ≤ d ≤ 2 * JIFFY_NS → on_slice cpu s →
  clock (cpu_rq s cpu) + d < 0x8000000000000000 →
  let s' := tick_after cpu user d s in
  on_slice cpu s' ∧ clock (cpu_rq s' cpu) = clock (cpu_rq s cpu) + d ∧ (flagged cpu s → flagged cpu s') ∧
  (flagged cpu s' ∨ rq_time_slice (cpu_rq s' cpu) = s32 (rq_time_slice (cpu_rq s cpu) - NS_TO_US d) ∧
                    0 < rq_time_slice (cpu_rq s' cpu)).
Proof.
  intros Hz Hd Hos Hc.
  destruct (tick_after_body cpu user d s) as (s1 & s3 & E1 & E3 & ->).
  destruct (tick_charge cpu user d s s1 s3 Hz Hd Hos Hc E1 E3) as ((C1 & C2 & C3 & C4) & (C5 & C6) & C7 & C8).
  pose proof Hos as [[Hc0 Hlr] Hp [Hne Hni]]. clear E1 E3 s1. cbv zeta.
  assert (rq_idle (cpu_rq s3 cpu) = false) as -> by (unfold rq_idle in *; by rewrite C4). cbn [negb].
  destruct (task_running_tick_slice cpu s3) as (R & F & Z); [lia|by rewrite C3|].
  set (s4 := task_running_tick cpu s3) in *. clearbody s4.
  set (s5 := upd_rq cpu (λ r, r <| last_tick := clock r |>) s4).
  assert (cpu_rq s5 cpu = cpu_rq s4 cpu <| last_tick := clock (cpu_rq s4 cpu) |>) as E5
    by (unfold s5; by rewrite cpu_rq_upd_rq_eq).
  assert (flagged cpu s5 ↔ flagged cpu s4) as Hf by (unfold flagged; by rewrite E5).
  rewrite Hf, E5. simpl. split_and!.
  - split; rewrite E5; simpl; unfold rq_idle; simpl; rewrite ?(R _ clock), ?(R _ rq_last_ran), ?(R _ rq_policy),
      ?(R _ curr), ?(R _ idle), ?(R _ rq_prio) by done; rewrite ?C5, ?C6, ?C3, ?C1, ?C2, ?C4; [lia|done|done].
  - by rewrite (R _ clock), C5 by done.
  - intros Hfl. apply F. unfold flagged in *. by rewrite C1, C8.
  - destruct Z as [?|[Z1 Z2]]; [by left|right]. by rewrite Z1, C7 in *.
Qed.

(** C6. A running task is asked to give up its slice in time.  A task that is not
    SCHED_FIFO and runs on a slice of [ts] microseconds is flagged for
    rescheduling after at most [n] ticks, for any [n] whose ticks amount to the
    slice; ticks may come up to one jiffy late. *)
Theorem slice_expires (cpu : Z) (user_tick : bool) (ds : list Z) (s : sched) :
  0 < HZ ≤ 1000000 → on_slice cpu s → 0 ≤ rq_time_slice (cpu_rq s cpu) < 0x80000000 →
  Forall (λ d, JIFFY_NS ≤ d ≤ 2 * JIFFY_NS) ds → ds ≠ [] →
  clock (cpu_rq s cpu) + 2 * JIFFY_NS * Z.of_nat (length ds) < 0x8000000000000000 →
  rq_time_slice (cpu_rq s cpu) ≤ NS_TO_US JIFFY_NS * Z.of_nat (length ds) →
  flagged cpu (ticks_after cpu user_tick ds s).
Proof.
  intros Hz Hos Hts Hds Hnil Hc Hle.
  assert (1000 ≤ JIFFY_NS ≤ 1000000000) as Hj.
  { unfold JIFFY_NS. split; [apply Z.div_le_lower_bound|apply Z.div_le_upper_bound]; lia. }
  assert (∀ s ds, flagged cpu s → on_slice cpu s → Forall (λ d, JIFFY_NS ≤ d ≤ 2 * JIFFY_NS) ds →
    clock (cpu_rq s cpu) + 2 * JIFFY_NS * Z.of_nat (length ds) < 0x8000000000000000 →
    flagged cpu (ticks_after cpu user_tick ds s)) as Hstay.
  { clear - Hz Hj. intros s ds. revert s. induction ds as [|d ds IH]; intros s Hf Hos Hds Hc; [done|].
    apply Forall_cons in Hds as [Hd Hds]. cbn [ticks_after length] in *.
    destruct (tick_after_slice cpu user_tick d s Hz Hd Hos) as (Hos' & E & Hf' & _); [nia|].
    apply IH; [by apply Hf'|done|done|]. rewrite E. nia. }
  revert s Hos Hts Hc Hle. induction ds as [|d ds IH]; intros s Hos Hts Hc Hle; [done|].
  apply Forall_cons in Hds as [Hd Hds]. cbn [ticks_after length] in *.
  destruct (tick_after_slice cpu user_tick d s Hz Hd Hos) as (Hos' & E & _ & Hor); [nia|].
  assert (clock (cpu_rq (tick_after cpu user_tick d s) cpu) + 2 * JIFFY_NS * Z.of_nat (length ds) < 0x8000000000000000)
    as Hc' by (rewrite E; nia).
  destruct Hor as [Hf|[Ets Hpos]]; [by apply Hstay|].
  assert (NS_TO_US JIFFY_NS ≤ NS_TO_US d < 0x80000000) as Hns.
  { unfold NS_TO_US. rewrite !Z.shiftr_div_pow2 by lia. change (2 ^ 10) with 1024. lia_mod. }
  assert (0 ≤ NS_TO_US JIFFY_NS) as Hns0.
  { unfold NS_TO_US. rewrite Z.shiftr_div_pow2 by lia. change (2 ^ 10) with 1024. lia_mod. }
  rewrite s32_id in Ets by lia.
  destruct ds as [|d' ds]; [exfalso; simpl in Hle; lia|].
  apply IH; [done|done|done|lia|done|]. rewrite Ets. simpl length in *. nia.
Qed.
End slices.

Section slice_example.
#[local] Existing Instance sample_config.

Lemma slice_expires_witness : flagged 0 (ticks_after 0 true [4000000; 4100000] machine).
Proof.
  apply slice_expires.
  - vm_compute. split; congruence.
  - split; [vm_compute; split; congruence|by vm_compute|by vm_compute].
  - vm_compute. split; congruence.
  - repeat constructor; vm_compute; congruence.
  - discriminate.
  - reflexivity.
  - vm_compute. congruence.
Defined.
End slice_example.
