(* ===== verification/CpuTimes.v ===== *)
(** * The CPU times a task is reported to have used

    [task_times] and [thread_group_times] of kernel/sched_bfs.c, as built without
    CONFIG_VIRT_CPU_ACCOUNTING, with [nsecs_to_jiffies] of kernel/time.c and
    [thread_group_cputime] of kernel/posix-cpu-timers.c.  They split the precise
    run time by the ratio of the sampled user and system times, and keep what was
    reported before in [prev_utime] and [prev_stime].  A [cputime_t] is an
    [unsigned long] of jiffies; [do_div] of asm-generic/div64.h divides by the low
    32 bits of its divisor, and [None] is its division by zero.

    The theorem: as long as the sampled times are below 2^32 jiffies and the
    product does not overflow, reports never decrease and never miss run time. *)

From Stdlib Require Import Sorting.Sorted.
From S2P Require Export Tick.
From S2P Require Import KTime Injector Machine.

Section times.
Context `{Config}.
Implicit Types s : sched.

Definition nsecs_to_jiffies64 (n : Z) : Z :=
  if NSEC_PER_SEC mod HZ =? 0 then n / (NSEC_PER_SEC / HZ)
  else if HZ mod 512 =? 0 then u64 (n * HZ) / 512 / (NSEC_PER_SEC / 512)
  else u64 (n * 9) / ((9 * NSEC_PER_SEC + HZ / 2) / HZ).
Definition nsecs_to_cputime (n : Z) : Z := nsecs_to_jiffies64 n.

Definition do_div (n base : Z) : option Z :=
  if u32 base =? 0 then None else Some (n / u32 base).

(** The common part: the new [prev_utime] and [prev_stime], which are also what is
    reported. *)
Definition scale_times (rtime utime stime : Z) (prev : Z * Z) : option (Z * Z) :=
  let total := u64 (utime + stime) in
  ut ← (if negb (total =? 0) then do_div (u64 (rtime * utime)) total else Some rtime);
  let prev_utime := Z.max prev.1 ut in
  Some (prev_utime, Z.max prev.2 (u64 (rtime - prev_utime))).

Definition task_times (p : Z) (prev : Z * Z) (s : sched) : option (Z * Z) :=
  let t := task s p in scale_times (nsecs_to_cputime (sched_time t)) (utime t) (stime t) prev.

(** The times of the dead threads, in [signal_struct]. *)
Record task_cputime := mk_cputime { ct_utime : Z; ct_stime : Z; sum_exec_runtime : Z }.
#[export] Instance eta_task_cputime : Eta task_cputime :=
  ctor mk_cputime <+> ct_utime <+> ct_stime <+> sum_exec_runtime.

Definition add_thread (a : task_cputime * sched) (t : Z) : task_cputime * sched :=
  let '(times, s) := a in
  let '(ns, s') := task_sched_runtime t s in
  (mk_cputime (u64 (ct_utime times + utime (task s t))) (u64 (ct_stime times + stime (task s t)))
     (u64 (sum_exec_runtime times + ns)), s').

(** [alive] is [pid_alive(tsk)], [threads] the thread group from [tsk] on. *)
Definition thread_group_cputime (alive : bool) (threads : list Z) (sig : task_cputime) (s : sched) :
    task_cputime * sched :=
  if negb alive then (sig, s) else foldl add_thread (sig, s) threads.

Definition thread_group_times (alive : bool) (threads : list Z) (sig : task_cputime) (prev : Z * Z) (s : sched) :
    option (Z * Z) * sched :=
  let '(cputime, s) := thread_group_cputime alive threads sig s in
  (scale_times (nsecs_to_cputime (sum_exec_runtime cputime)) (ct_utime cputime) (ct_stime cputime) prev, s).

(** ** Reports *)

(** What can be divided and multiplied without loss. *)
Definition scalable (rtime utime stime : Z) : Prop :=
  0 ≤ rtime < 0x10000000000000000 ∧ 0 ≤ utime ∧ 0 ≤ stime ∧ utime + stime < 0x100000000 ∧
  rtime * utime < 0x10000000000000000.

(** A report is at most, and together at least, the run time. *)
Definition fair (rtime : Z) (rep : Z * Z) : Prop :=
  0 ≤ rep.1 ≤ rtime ∧ 0 ≤ rep.2 ≤ rtime ∧ rtime ≤ rep.1 + rep.2.
Definition le_times (a b : Z * Z) : Prop := a.1 ≤ b.1 ∧ a.2 ≤ b.2.

#[export] Instance le_times_preorder : PreOrder le_times.
Proof. split; unfold le_times; red; intros; lia. Qed.

Lemma scale_times_spec rtime utime stime prev :
  scalable rtime utime stime → 0 ≤ prev.1 ≤ rtime → 0 ≤ prev.2 ≤ rtime →
  ∃ rep, scale_times rtime utime stime prev = Some rep ∧ fair rtime rep ∧ le_times prev rep ∧
    rep.1 = Z.max prev.1 (if utime + stime =? 0 then rtime else rtime * utime / (utime + stime)).
Proof.
  intros (Hr & Hu & Hst & Htot & Hm) H1 H2. unfold scale_times, do_div.
  rewrite (u64_id (utime + stime)), (u64_id (rtime * utime)), (u32_id (utime + stime)) by nia.
  set (ut := if utime + stime =? 0 then rtime else rtime * utime / (utime + stime)).
  assert (0 ≤ ut ≤ rtime) as Hut.
  { subst ut. destruct (Z.eqb_spec (utime + stime) 0); [lia|].
    split; [apply Z.div_pos; nia|]. apply Z.div_le_upper_bound; nia. }
  exists (Z.max prev.1 ut, Z.max prev.2 (rtime - Z.max prev.1 ut)). split.
  { rewrite <- (u64_id (rtime - Z.max prev.1 ut)) by lia. subst ut. by destruct (utime + stime =? 0). }
  unfold fair, le_times. simpl. split_and!; lia.
Qed.

Lemma nsecs_to_cputime_mono m n :
  0 < HZ → NSEC_PER_SEC mod HZ = 0 → m ≤ n → nsecs_to_cputime m ≤ nsecs_to_cputime n.
Proof.
  intros Hz Hd Hmn. unfold nsecs_to_cputime, nsecs_to_jiffies64. rewrite Hd. simpl.
  apply Z.div_le_mono; [|done]. apply Z.mod_divide in Hd as [k Hk]; [|lia].
  rewrite Hk, Z.div_mul by lia. unfold NSEC_PER_SEC in Hk. nia.
Qed.

(** The reports of [task_times] about [p] in a sequence of states. *)
Fixpoint reports (p : Z) (prev : Z * Z) (l : list sched) : option (list (Z * Z)) :=
  match l with
  | [] => Some []
  | s :: l => rep ← task_times p prev s; reps ← reports p rep l; Some (rep :: reps)
  end.

Definition rtime (p : Z) (s : sched) : Z := nsecs_to_cputime (sched_time (task s p)).
Definition samples_ok (p : Z) (s : sched) : Prop := scalable (rtime p s) (utime (task s p)) (stime (task s p)).

Lemma reports_spec p prev l :
  0 < HZ → NSEC_PER_SEC mod HZ = 0 → Forall (samples_ok p) l →
  StronglySorted (λ s s', sched_time (task s p) ≤ sched_time (task s' p)) l →
  0 ≤ prev.1 → 0 ≤ prev.2 → Forall (λ s, prev.1 ≤ rtime p s ∧ prev.2 ≤ rtime p s) l →
  ∃ reps, reports p prev l = Some reps ∧ Forall2 (λ s rep, fair (rtime p s) rep) l reps ∧
    Forall (le_times prev) reps ∧ StronglySorted le_times reps.
Proof.
  intros Hz Hd Hok. revert prev. induction Hok as [|s l Hs Hok IH]; intros prev Hsort H1 H2 Hprev.
  { exists []. split_and!; constructor. }
  apply StronglySorted_inv in Hsort as [Hsort Hle]. apply Forall_cons in Hprev as [Hp Hprev].
  destruct (scale_times_spec _ _ _ prev Hs) as (rep & E & Hf & Hm & _); [lia..|].
  destruct (IH rep Hsort) as (reps & E' & HF & HP & HS); [apply Hf..| |].
  { eapply Forall_impl; [exact Hle|]. intros s' Hs'. apply (nsecs_to_cputime_mono _ _ Hz Hd) in Hs'.
    destruct Hf as (? & ? & _). unfold rtime in *. lia. }
  exists (rep :: reps). simpl. unfold task_times, rtime in *. rewrite E. simpl. rewrite E'. split_and!; [done| | |].
  - by constructor.
  - constructor; [done|]. eapply Forall_impl; [exact HP|]. intros r Hr. by transitivity rep.
  - by constructor.
Qed.

(** C36. Reported CPU times are monotone and account for all run time.  If the tick
    rate divides a second, the run time of the task does not decrease and the
    sampled times stay in the range in which nothing overflows, then every call
    of [task_times] succeeds; user and system time are each at most the run time
    and together at least the run time; and neither is ever smaller than in an
    earlier report, whatever the ratio of the samples does. *)
Theorem task_times_monotone (p : Z) (l : list sched) :
  0 < HZ → NSEC_PER_SEC mod HZ = 0 → Forall (samples_ok p) l →
  StronglySorted (λ s s', sched_time (task s p) ≤ sched_time (task s' p)) l →
  ∃ reps, reports p (0, 0) l = Some reps ∧ Forall2 (λ s rep, fair (rtime p s) rep) l reps ∧
    StronglySorted le_times reps.
Proof.
  intros Hz Hd Hok Hsort. destruct (reports_spec p (0, 0) l) as (reps & ? & ? & _ & ?); try done.
  - eapply Forall_impl; [exact Hok|]. intros s (? & _). simpl. lia.
  - by exists reps.
Qed.

(** A group that has used exactly 2^32 jiffies of CPU time: the divisor is cut to
    zero. *)
Example scale_times_divide_error : scale_times 4294967296 2147483648 2147483648 (0, 0) = None.
Proof. reflexivity. Qed.
End times.

Section example.
#[local] Existing Instance sample_config.

(** Task 20 has run for 40 ms, then 80 ms, with 6 user and 4 system ticks and then
    6 and 14. *)
Definition sampled (ns u st : Z) : sched :=
  upd_task 20 (λ t, t <| sched_time := ns |> <| utime := u |> <| stime := st |>) machine.

Lemma task_times_monotone_witness :
  ∃ reps, reports 20 (0, 0) [sampled 40000000 6 4; sampled 80000000 6 14] = Some reps ∧ StronglySorted le_times reps.
Proof.
  destruct (task_times_monotone 20 [sampled 40000000 6 4; sampled 80000000 6 14]) as (reps & E & _ & HS).
  - done.
  - done.
  - repeat constructor; done.
  - repeat constructor; done.
  - exists reps. exact (conj E HS).
Defined.
End example.
