(* ===== verification/Schedule.v ===== *)
(** * The scheduler proper of kernel/sched_bfs.c

    [earliest_deadline_task] picks the next task from the global queue,
    [context_switch] moves the lazily borrowed address spaces, and [schedule]
    puts the two together with the idle injector.

    One iteration of [schedule] between its label [need_resched] and the test at
    its end is the function [schedule_pass]; the lock is held for all of it but
    the tail of [finish_task_switch], so it is one transition.  After
    [switch_to] the code continues on the stack of the next task, which left it
    in the same place: on the CPU the pass runs to its end.  The loop [schedule]
    has fuel; Termination.v shows how much is enough.

    [preempt_disable] and [preempt_enable_no_resched] are balanced in every pass
    and leave no trace.  [schedule_debug], RCU and statistics do not touch the
    modelled state. *)

From S2P Require Import Injector.
From S2P Require Import Machine.
From S2P Require Export Wakeup Tick.

Section schedule.
Context `{Config}.
Implicit Types s : sched.

(** ** Choosing a task *)

(** The walk over a real-time queue: the first task allowed on the CPU. *)
Fixpoint first_allowed (s : sched) (cpu : Z) (l : list Z) : option Z :=
  match l with
  | [] => None
  | p :: l => if needs_other_cpu (task s p) cpu then first_allowed s cpu l else Some p
  end.

(** The walk over another queue: [edt] and [earliest_deadline] so far ([None]
    stands for [edt == idle], where [earliest_deadline] is not initialised). *)
Fixpoint edt_walk (s : sched) (cpu : Z) (l : list Z) (edt : option (Z * Z)) : option (Z * Z) :=
  match l with
  | [] => edt
  | p :: l =>
      if needs_other_cpu (task s p) cpu then edt_walk s cpu l edt
      else
        let away := negb (task_cpu (task s p) =? cpu) && task_sticky (task s p) in
        if away && scaling_rq (cpu_rq s cpu) then edt_walk s cpu l edt
        else
          let dl := if away then u64 (deadline (task s p) + longest_deadline_diff s)
                    else deadline (task s p) in
          match edt with
          | None => edt_walk s cpu l (Some (p, dl))
          | Some (_, earliest_deadline) =>
              edt_walk s cpu l (if deadline_before dl earliest_deadline then Some (p, dl) else edt)
          end
  end.

(** Lines 3222-3276, [retry] included: the task and whether it was found on a
    real-time queue. *)
Fixpoint edt_retry (fuel : nat) (s : sched) (cpu idx : Z) : option (Z * bool) :=
  match fuel with
  | O => None
  | S fuel =>
      let idx := find_next_bit (prio_bitmap (grq s)) PRIO_LIMIT idx in
      if PRIO_LIMIT <=? idx then None
      else if idx <? MAX_RT_PRIO then
        match first_allowed s cpu (queue_of s idx) with
        | Some p => Some (p, true)
        | None => edt_retry fuel s cpu (idx + 1)
        end
      else
        match edt_walk s cpu (queue_of s idx) None with
        | Some (p, _) => Some (p, false)
        | None => if idx + 1 <? PRIO_LIMIT then edt_retry fuel s cpu (idx + 1) else None
        end
  end.

(** [idx] grows on every retry and is below [PRIO_LIMIT]. *)
Definition edt_fuel : nat := Z.to_nat PRIO_LIMIT + 1.

Definition earliest_deadline_task (cpu idle : Z) (s : sched) : Z * sched :=
  match edt_retry edt_fuel s cpu 0 with
  | None => (idle, s)
  | Some (edt, true) => (edt, take_task cpu edt s)
  | Some (edt, false) =>
      let '(injected, i) := inject_pid (tgid (task s edt)) (SchedTypes.pid (task s edt)) (inj s) in
      let s := s <| inj := i |> in
      if injected then (idle, s) else (edt, take_task cpu edt s)
  end.

(** ** Switching *)
Definition set_rq_task (cpu p : Z) (s : sched) : sched :=
  let t := task s p in
  let s := upd_task p (λ t, t <| last_ran := clock (cpu_rq s cpu) |>) s in
  upd_rq cpu (λ r, r <| rq_time_slice := time_slice t |> <| rq_deadline := deadline t |>
                     <| rq_last_ran := clock r |> <| rq_policy := policy t |>
                     <| rq_prio := prio t |> <| rq_running := negb (p =? idle r) |>) s.

Definition reset_rq_task (cpu p : Z) (s : sched) : sched :=
  upd_rq cpu (λ r, r <| rq_policy := policy (task s p) |> <| rq_prio := prio (task s p) |>) s.

Definition mm_add (m d : Z) (s : sched) : sched :=
  s <| mm_count ::= λ c, mem_upd c m (λ n, s32 (n + d)) |>.

Definition finish_task_switch (cpu prev : Z) (s : sched) : sched :=
  let m := prev_mm (cpu_rq s cpu) in
  let s := upd_rq cpu (λ r, r <| prev_mm := NULL |>) s in
  let prev_state := state (task s prev) in
  let s := if negb (m =? NULL) then mm_add m (-1) s else s in
  if prev_state =? TASK_DEAD then upd_task prev (λ t, t <| usage ::= λ n, s32 (n - 1) |>) s else s.

Definition context_switch (cpu prev next : Z) (s : sched) : sched :=
  let m := mm (task s next) in
  let oldmm := active_mm (task s prev) in
  let s := if m =? NULL
           then mm_add oldmm 1 (upd_task next (λ t, t <| active_mm := oldmm |>) s) else s in
  let s := if mm (task s prev) =? NULL then
             upd_rq cpu (λ r, r <| prev_mm := oldmm |>) (upd_task prev (λ t, t <| active_mm := NULL |>) s)
           else s in
  finish_task_switch cpu prev s.

(** ** One pass *)

(** Lines 3394-3419: the state of [prev].  The result is [deactivate], whether
    [switch_count] is [nvcsw], and the state. *)
Definition prev_sleeps (cpu prev : Z) (s : sched) : bool * bool * sched :=
  let t := task s prev in
  if negb (state t =? 0) && (Z.land (preempt_count t) PREEMPT_ACTIVE =? 0) then
    if signal_pending_state (state t) t
    then (false, true, upd_task prev (λ t, t <| state := TASK_RUNNING |>) s)
    else if negb (Z.land (flags t) PF_WQ_WORKER =? 0) then
      let to_wakeup := wq_worker_sleeping prev cpu in
      if to_wakeup =? NULL then (true, true, s)
      else if to_wakeup =? prev then (false, true, s)
      else (true, true, try_to_wake_up_local cpu to_wakeup s)
    else (true, true, s)
  else (false, false, s).

(** Lines 3432-3439. *)
Definition account_prev (cpu prev : Z) (s : sched) : sched :=
  let s := update_clocks cpu s in
  let s := update_cpu_clock cpu prev false false s in
  let s := upd_rq cpu (λ r, r <| dither := negb (HALF_JIFFY_NS <? u64 (clock r - last_tick r)) |>) s in
  upd_task prev (λ t, t <| need_resched := false |>) s.

(** Lines 3443-3446. *)
Definition store_prev (cpu prev : Z) (s : sched) : sched :=
  let r := cpu_rq s cpu in
  let s := upd_task prev (λ t, t <| time_slice := rq_time_slice r |> <| deadline := rq_deadline r |>) s in
  let s := check_deadline prev s in
  upd_task prev (λ t, t <| last_ran := clock r |>) s.

(** Lines 3448-3464: [None] when [prev] runs again right away. *)
Definition put_prev (cpu prev : Z) (deactivate : bool) (s : sched) : option sched :=
  if needs_other_cpu (task s prev) cpu then
    Some (return_task prev deactivate (resched_suitable_idle cpu prev s))
  else if negb deactivate then
    if queued_notrunning s =? 0 then None
    else Some (return_task prev deactivate (swap_sticky cpu cpu prev s))
  else Some (return_task prev deactivate s).

(** Lines 3466-3499: the next task. *)
Definition pick_next (cpu : Z) (s : sched) : Z * sched :=
  let idle := idle (cpu_rq s cpu) in
  let '(go_idle, i) := inject_global pidList_addr proc_dir proc_global proc_pid
                         (negb (queued_notrunning s =? 0)) (inj s) in
  let s := s <| inj := i |> in
  if go_idle then (idle, set_cpuidle_map cpu s)
  else
    let '(next, s) := earliest_deadline_task cpu idle s in
    if negb (next =? idle) then
      if negb (prio (task s next) =? PRIO_LIMIT) then (next, clear_cpuidle_map cpu s)
      else (next, set_cpuidle_map cpu s)
    else (next, set_cpuidle_map cpu s).

(** Lines 3501-3527. *)
Definition switch (cpu prev next : Z) (voluntary : bool) (s : sched) : sched :=
  if negb (prev =? next) then
    let s := if rt_task (task s next) then unstick_task cpu prev s else s in
    let s := set_rq_task cpu next s in
    let s := upd_grq (λ g, g <| nr_switches ::= λ n, u64 (n + 1) |>) s in
    let s := upd_task prev (λ t, t <| on_cpu := false |>) s in
    let s := upd_task next (λ t, t <| on_cpu := true |>) s in
    let s := upd_rq cpu (λ r, r <| curr := next |>) s in
    let s := if voluntary then upd_task prev (λ t, t <| nvcsw ::= λ n, u64 (n + 1) |>) s
             else upd_task prev (λ t, t <| nivcsw ::= λ n, u64 (n + 1) |>) s in
    context_switch cpu prev next s
  else s.

(** The rest of a pass once the clocks are up to date. *)
Definition choose_and_switch (cpu prev : Z) (deactivate voluntary : bool) (s : sched) : sched :=
  let go s := let '(next, s) := pick_next cpu s in switch cpu prev next voluntary s in
  if negb (prev =? idle (cpu_rq s cpu)) then
    let s := store_prev cpu prev s in
    match put_prev cpu prev deactivate s with
    | None => s
    | Some s => go s
    end
  else go s.

(** The flag says that the plugged block I/O was flushed and the pass must start
    over. *)
Definition schedule_pass (cpu : Z) (s : sched) : bool * sched :=
  let prev := curr (cpu_rq s cpu) in
  let '(deactivate, voluntary, s) := prev_sleeps cpu prev s in
  if deactivate && plugged (task s prev) then
    (true, upd_task prev (λ t, t <| plugged := false |>) s)
  else (false, choose_and_switch cpu prev deactivate voluntary (account_prev cpu prev s)).

Fixpoint schedule (fuel : nat) (cpu : Z) (s : sched) : option sched :=
  match fuel with
  | O => None
  | S fuel =>
      let '(again, s) := schedule_pass cpu s in
      if again || need_resched (task s (curr (cpu_rq s cpu))) then schedule fuel cpu s else Some s
  end.
End schedule.

(** ** What is chosen *)
Section selection.
Context `{Config}.
Implicit Types s : sched.

(** A sticky task that last ran elsewhere. *)
Definition away (s : sched) (cpu p : Z) : bool :=
  negb (task_cpu (task s p) =? cpu) && task_sticky (task s p).

(** Whether [cpu] may take [p], and the order in which it prefers tasks. *)
Definition runnable_on (s : sched) (cpu p : Z) : bool :=
  cpu_isset cpu (cpus_allowed (task s p)) &&
  (rt_task (task s p) || negb (away s cpu p && scaling_rq (cpu_rq s cpu))).
Definition eff_deadline (s : sched) (cpu p : Z) : Z :=
  if away s cpu p then u64 (deadline (task s p) + longest_deadline_diff s) else deadline (task s p).
Definition sel_key (s : sched) (cpu p : Z) : Z * Z :=
  (prio (task s p), if rt_task (task s p) then 0 else eff_deadline s cpu p).

(** [p] is the first of the best elements of [l]. *)
Definition first_best (s : sched) (cpu : Z) (l : list Z) (p : Z) : Prop :=
  ∃ l1 l2, l = l1 ++ p :: l2 ∧ runnable_on s cpu p = true ∧
    (∀ q, q ∈ l1 → runnable_on s cpu q = true → key_le (sel_key s cpu p) (sel_key s cpu q) ∧
                   sel_key s cpu q ≠ sel_key s cpu p) ∧
    (∀ q, q ∈ l2 → runnable_on s cpu q = true → key_le (sel_key s cpu p) (sel_key s cpu q)).

Lemma needs_other_cpu_false t cpu : needs_other_cpu t cpu = negb (cpu_isset cpu (cpus_allowed t)).
Proof. unfold needs_other_cpu. by destruct (cpu_isset _ _). Qed.

Lemma first_allowed_spec s cpu i l :
  i < MAX_RT_PRIO → (∀ p, p ∈ l → prio (task s p) = i) →
  match first_allowed s cpu l with
  | Some p => first_best s cpu l p
  | None => ∀ p, p ∈ l → runnable_on s cpu p = false
  end.
Proof.
  intros Hi Hl. assert (∀ p, p ∈ l → rt_task (task s p) = true) as Hrt.
  { intros p Hp. unfold rt_task, rt_prio. rewrite (Hl p Hp). by apply Z.ltb_lt. }
  assert (∀ p q, p ∈ l → q ∈ l → key_le (sel_key s cpu p) (sel_key s cpu q)) as Hkey.
  { intros p q Hp Hq. unfold sel_key, key_le. rewrite !Hl, !Hrt by done. simpl. lia. }
  induction l as [|p l IH]; cbn [first_allowed]; [set_solver|]. rewrite needs_other_cpu_false.
  assert (runnable_on s cpu p = cpu_isset cpu (cpus_allowed (task s p))) as E.
  { unfold runnable_on. rewrite (Hrt p) by set_solver. by rewrite andb_true_r. }
  destruct (cpu_isset cpu (cpus_allowed (task s p))); cbn [negb].
  - exists [], l. split_and!; [done|done|set_solver|]. intros q Hq _. apply Hkey; set_solver.
  - ospecialize* IH; [set_solver..|]. destruct (first_allowed s cpu l) as [r|]; [|set_solver].
    destruct IH as (l1 & l2 & -> & Hr & H1 & H2). exists (p :: l1), l2. split_and!; [done|done| |done].
    intros q [->|Hq]%elem_of_cons; [congruence|by apply H1].
Qed.

(** The walk keeps the first task with the earliest deadline. *)
Lemma edt_walk_spec s cpu i l l0 edt :
  MAX_RT_PRIO ≤ i → (∀ p, p ∈ l0 ++ l → prio (task s p) = i) →
  match edt with
  | Some (p, dl) => first_best s cpu l0 p ∧ dl = eff_deadline s cpu p
  | None => ∀ p, p ∈ l0 → runnable_on s cpu p = false
  end →
  match edt_walk s cpu l edt with
  | Some (p, dl) => first_best s cpu (l0 ++ l) p ∧ dl = eff_deadline s cpu p
  | None => ∀ p, p ∈ l0 ++ l → runnable_on s cpu p = false
  end.
Proof.
  intros Hi. revert l0 edt. induction l as [|p l IH]; intros l0 edt Hl Hedt; cbn [edt_walk].
  { rewrite app_nil_r. done. }
  replace (l0 ++ p :: l) with ((l0 ++ [p]) ++ l) in * by (by rewrite <- app_assoc).
  assert (∀ x, x ∈ l0 ++ [p] → rt_task (task s x) = false ∧ prio (task s x) = i) as Hnrt.
  { intros x Hx. unfold rt_task, rt_prio. rewrite (Hl x) by set_solver. split; [by apply Z.ltb_ge|done]. }
  assert (runnable_on s cpu p =
    cpu_isset cpu (cpus_allowed (task s p)) && negb (away s cpu p && scaling_rq (cpu_rq s cpu))) as Er.
  { unfold runnable_on. by rewrite (proj1 (Hnrt p ltac:(set_solver))). }
  rewrite needs_other_cpu_false. fold (away s cpu p). fold (eff_deadline s cpu p). cbv zeta.
  (* a task that cannot run leaves the choice alone *)
  assert (runnable_on s cpu p = false →
    match edt_walk s cpu l edt with
    | Some (p0, dl) => first_best s cpu ((l0 ++ [p]) ++ l) p0 ∧ dl = eff_deadline s cpu p0
    | None => ∀ p0, p0 ∈ (l0 ++ [p]) ++ l → runnable_on s cpu p0 = false
    end) as Hskip.
  { intros E. apply IH; [done|]. destruct edt as [[r dl]|]; [|set_solver].
    destruct Hedt as ((l1 & l2 & -> & Hr & H1 & H2) & ->). split; [|done].
    exists l1, (l2 ++ [p]). split_and!; [by rewrite <- app_assoc|done|done|].
    intros q [Hq| ->%list_elem_of_singleton]%elem_of_app; [by apply H2|congruence]. }
  destruct (cpu_isset cpu (cpus_allowed (task s p))); cbn [negb andb] in *; [|by apply Hskip].
  destruct (away s cpu p && scaling_rq (cpu_rq s cpu)); cbn [negb] in *; [by apply Hskip|].
  destruct edt as [[r dl]|].
  - destruct Hedt as ((l1 & l2 & -> & Hr & H1 & H2) & ->).
    assert (∀ x, x ∈ (l1 ++ r :: l2) ++ [p] → sel_key s cpu x = (i, eff_deadline s cpu x)) as Hk.
    { intros x Hx. unfold sel_key. by destruct (Hnrt x Hx) as [-> ->]. }
    unfold deadline_before.
    destruct (Z.ltb_spec (eff_deadline s cpu p) (eff_deadline s cpu r)) as [Hlt|Hge]; (apply IH; [done|]).
    + split; [|done]. exists (l1 ++ r :: l2), []. split_and!; [done|done| |set_solver].
      intros q Hq Hrq. assert (key_le (sel_key s cpu r) (sel_key s cpu q)) as Hle.
      { apply elem_of_app in Hq as [Hq|[->|Hq]%elem_of_cons]; [by apply H1| |by apply H2].
        unfold key_le. lia. }
      rewrite !Hk in * by set_solver. unfold key_le in *. simpl in *. split; [lia|]. intros [=]. lia.
    + split; [|done]. exists l1, (l2 ++ [p]). split_and!; [by rewrite <- app_assoc|done|done|].
      intros q [Hq| ->%list_elem_of_singleton]%elem_of_app Hrq; [by apply H2|].
      rewrite !Hk by set_solver. unfold key_le. simpl. lia.
  - apply IH; [done|]. split; [|done]. exists l0, []. split_and!; [done|done| |set_solver].
    intros q Hq Hrq. by rewrite Hedt in Hrq.
Qed.

(** The retry loop: the lowest priority index with a runnable task. *)
Lemma edt_retry_spec s cpu fuel idx :
  queue_ok s → 0 ≤ idx ≤ PRIO_LIMIT → PRIO_LIMIT - idx < Z.of_nat fuel →
  match edt_retry fuel s cpu idx with
  | Some (p, rt) => ∃ i, idx ≤ i < PRIO_LIMIT ∧ rt = (i <? MAX_RT_PRIO) ∧
      first_best s cpu (queue_of s i) p ∧
      (∀ j q, idx ≤ j < i → q ∈ queue_of s j → runnable_on s cpu q = false)
  | None => ∀ j q, idx ≤ j → q ∈ queue_of s j → runnable_on s cpu q = false
  end.
Proof.
  intros Hq. revert idx. induction fuel as [|fuel IH]; intros idx Hidx Hf; [lia|]. cbn [edt_retry]. cbv zeta.
  destruct (find_next_bit_spec (prio_bitmap (grq s)) PRIO_LIMIT idx (proj1 (q_words _ Hq)) Hidx)
    as (Hr & Hlow & Hbit).
  set (i := find_next_bit _ _ _) in *. clearbody i.
  assert (∀ j q, idx ≤ j < i → q ∈ queue_of s j → runnable_on s cpu q = false) as Hempty.
  { intros j q Hj Hin. specialize (Hlow j Hj). rewrite (q_bit _ Hq) in Hlow by lia.
    apply bool_decide_eq_false in Hlow. apply dec_stable in Hlow. rewrite Hlow in Hin. set_solver. }
  destruct (Z.leb_spec PRIO_LIMIT i).
  { intros j q Hj Hin. pose proof (q_range _ Hq j q Hin). apply (Hempty j); [lia|done]. }
  assert (∀ p, p ∈ queue_of s i → prio (task s p) = i) as Hp by (intros p Hin; by apply (q_prio _ Hq)).
  (* nothing at this index *)
  assert ((∀ p, p ∈ queue_of s i → runnable_on s cpu p = false) →
    match edt_retry fuel s cpu (i + 1) with
    | Some (p, rt) => ∃ k, idx ≤ k < PRIO_LIMIT ∧ rt = (k <? MAX_RT_PRIO) ∧
        first_best s cpu (queue_of s k) p ∧
        (∀ j q, idx ≤ j < k → q ∈ queue_of s j → runnable_on s cpu q = false)
    | None => ∀ j q, idx ≤ j → q ∈ queue_of s j → runnable_on s cpu q = false
    end) as Hnext.
  { intros Hnone. assert (∀ j q, idx ≤ j < i + 1 → q ∈ queue_of s j → runnable_on s cpu q = false) as He'.
    { intros j q Hj. destruct (decide (j = i)) as [->|]; [apply Hnone|apply Hempty; lia]. }
    specialize (IH (i + 1) ltac:(lia) ltac:(lia)). destruct (edt_retry fuel s cpu (i + 1)) as [[p rt]|].
    - destruct IH as (k & Hk & -> & Hb & Hlt). exists k. split_and!; [lia|lia|done|done|].
      intros j q Hj. destruct (decide (j < i + 1)); [apply He'; lia|apply Hlt; lia].
    - intros j q Hj. destruct (decide (j < i + 1)); [apply He'; lia|apply IH; lia]. }
  destruct (Z.ltb_spec i MAX_RT_PRIO).
  - pose proof (first_allowed_spec s cpu i (queue_of s i) ltac:(lia) Hp) as Hfa.
    destruct (first_allowed s cpu (queue_of s i)) as [p|]; [|by apply Hnext].
    exists i. split_and!; [lia|lia|symmetry; by apply Z.ltb_lt|done|done].
  - pose proof (edt_walk_spec s cpu i (queue_of s i) [] None ltac:(lia) Hp) as Hw.
    destruct (edt_walk s cpu (queue_of s i) None) as [[p dl]|].
    + exists i. split_and!; [lia|lia|symmetry; by apply Z.ltb_ge|apply Hw; set_solver|done].
    + specialize (Hw ltac:(set_solver)). destruct (Z.ltb_spec (i + 1) PRIO_LIMIT); [by apply Hnext|].
      intros j q Hj Hin. pose proof (q_range _ Hq j q Hin).
      destruct (decide (j = i)) as [->|]; [by apply Hw|apply (Hempty j); [lia|done]].
Qed.

(** The choice over all queues. *)
Definition best_queued (s : sched) (cpu p : Z) : Prop :=
  queued s p ∧ runnable_on s cpu p = true ∧
  ∀ q, queued s q → runnable_on s cpu q = true →
    key_le (sel_key s cpu p) (sel_key s cpu q) ∧
    (sel_key s cpu q = sel_key s cpu p →
     ∃ l1 l2, queue_of s (prio (task s p)) = l1 ++ p :: l2 ∧ q ∈ p :: l2).

Lemma edt_choice s cpu :
  queue_ok s →
  match edt_retry edt_fuel s cpu 0 with
  | Some (p, rt) => best_queued s cpu p ∧ rt = rt_task (task s p)
  | None => ∀ q, queued s q → runnable_on s cpu q = false
  end.
Proof.
  intros Hq. pose proof (edt_retry_spec s cpu edt_fuel 0 Hq) as Hr.
  specialize (Hr ltac:(vm_compute; split; congruence) ltac:(vm_compute; congruence)).
  destruct (edt_retry edt_fuel s cpu 0) as [[p rt]|].
  - destruct Hr as (i & Hi & -> & (l1 & l2 & Eq & Hrun & H1 & H2) & Hlow).
    assert (p ∈ queue_of s i) as Hin by (rewrite Eq; set_solver).
    destruct (q_prio _ Hq _ _ Hin) as [Ep _].
    split; [|unfold rt_task, rt_prio; by rewrite Ep]. split_and!; [by exists i|done|].
    intros q [j Hj] Hrq. destruct (q_prio _ Hq _ _ Hj) as [Eqp _].
    pose proof (q_range _ Hq _ _ Hj). destruct (Z.lt_trichotomy j i) as [Hji|[->|Hji]].
    + rewrite (Hlow j q) in Hrq by (done || lia). done.
    + rewrite Ep. rewrite Eq in Hj. apply elem_of_app in Hj as [Hj|Hj].
      { destruct (H1 q Hj Hrq). done. }
      split; [|by exists l1, l2]. apply elem_of_cons in Hj as [->|Hj]; [unfold key_le; lia|by apply H2].
    + split; [unfold key_le, sel_key; simpl; lia|]. unfold sel_key. intros [=]. lia.
  - intros q [j Hj]. apply (Hr j q); [|done]. by apply (q_range _ Hq) in Hj as [? _].
Qed.

(** C2. The scheduler runs the right task.  When some queued task may run on the
    CPU, [earliest_deadline_task] selects the one with the best priority, then
    the earliest deadline (a task sticky elsewhere is biased by the longest
    deadline, or skipped when this CPU is scaling; real-time tasks have no
    deadline), then the one queued first.  The selected task leaves the queues
    for the CPU, unless it is not real-time and the injector asks for an idle
    cycle: then the idle task is returned and the queues are as before.  When no
    queued task may run, the idle task is returned and nothing changes. *)
Theorem earliest_deadline_task_spec (cpu idle : Z) (s : sched) :
  queue_ok s →
  let '(next, s') := earliest_deadline_task cpu idle s in
  ((∀ q, queued s q → runnable_on s cpu q = false) ∧ next = idle ∧ s' = s) ∨
  (∃ p, best_queued s cpu p ∧
    let '(injected, i) := inject_pid (tgid (task s p)) (SchedTypes.pid (task s p)) (inj s) in
    if negb (rt_task (task s p)) && injected
    then next = idle ∧ s' = s <| inj := i |>
    else next = p ∧ task_cpu (task s' p) = cpu ∧ (∀ x, queued s' x ↔ x ≠ p ∧ queued s x) ∧
         inj s' = (if rt_task (task s p) then inj s else i)).
Proof.
  intros Hq. unfold earliest_deadline_task. pose proof (edt_choice s cpu Hq) as Hc.
  assert (∀ p s1, queue_ok s1 → queued s1 p → task_cpu (task (take_task cpu p s1) p) = cpu ∧
    (∀ x, queued (take_task cpu p s1) x ↔ x ≠ p ∧ queued s1 x) ∧ inj (take_task cpu p s1) = inj s1) as Htk.
  { intros p s1 Hq1 Hp1. split_and!.
    - change (task_cpu (task (clear_sticky p (dequeue_task p (set_task_cpu p cpu s1))) p) = cpu).
      unfold clear_sticky. rewrite (task_upd_proj task_cpu), task_dequeue by done.
      unfold set_task_cpu. by rewrite task_upd_task_eq.
    - destruct (take_task_effect s1 p cpu Hq1 Hp1) as [(_ & Hi & _) _ _ _ _]. done.
    - change (inj (dequeue_task p (set_task_cpu p cpu s1)) = inj s1). unfold dequeue_task. by case_bool_decide. }
  destruct (edt_retry edt_fuel s cpu 0) as [[p rt]|].
  2: { left. done. }
  destruct Hc as [Hb ->]. destruct (Htk p s Hq (proj1 Hb)) as (T1 & T2 & T3).
  destruct (rt_task (task s p)) eqn:Ert.
  - right. exists p. split; [done|]. rewrite Ert. by destruct (inject_pid _ _ _).
  - destruct (inject_pid (tgid (task s p)) (SchedTypes.pid (task s p)) (inj s)) as [injected i] eqn:Ei.
    destruct injected; cbv zeta; right; exists p; (split; [done|]); rewrite Ei, Ert; [done|].
    cbn [negb andb]. destruct (Htk p (s <| inj := i |>)) as (U1 & U2 & U3); [by destruct Hq; split|apply Hb|].
    split_and!; done.
Qed.
End selection.

Section example.
#[local] Existing Instance sample_config.

Lemma earliest_deadline_task_spec_witness :
  let '(next, s') := earliest_deadline_task 2 12 machine in
  next = 22 ∧ task_cpu (task s' 22) = 2 ∧ ¬ queued s' 22 ∧ queued s' 21.
Proof.
  pose proof (earliest_deadline_task_spec 2 12 machine (ok_queue _ machine_ok)) as Hs.
  destruct (earliest_deadline_task 2 12 machine) as [next s'].
  destruct Hs as [[Hn _]|(p & (Hq & _ & Hb) & Hs)].
  { assert (runnable_on machine 2 22 = false) as E by (apply Hn, machine_queued; by right). discriminate E. }
  apply machine_queued in Hq as [->| ->].
  { destruct (Hb 22) as [Hk _]; [apply machine_queued; by right|reflexivity|].
    exfalso. clear - Hk. vm_compute in Hk. destruct Hk as [Hk|[Hk _]]; discriminate Hk. }
  destruct (inject_pid _ _ _). destruct Hs as (-> & E & Hi & _). split_and!; [done|done| |].
  - rewrite Hi. tauto.
  - apply Hi. rewrite machine_queued. lia.
Defined.
End example.
