(* ===== verification/ScheduleInv.v ===== *)
(** * [schedule] keeps the run queue invariant

    During a pass the invariant is broken on one CPU: its current task may be
    queued while it still runs, and the idle map already describes the next
    task.  [off_cpu] is the invariant of that phase and [picked] adds the task
    about to run; the stages of [schedule_pass] lead from [runqueue_ok] through
    these two back to [runqueue_ok], and no runnable task is lost on the way. *)

From S2P Require Export Schedule.
From S2P Require Import Injector Machine.

Section off_cpu.
Context `{Config}.
Implicit Types s : sched.

(** The CPUs other than [cpu] that run a task. *)
Definition busy_others (cpu : Z) (s : sched) : Z :=
  Z.of_nat (length (filter (λ c, c ≠ cpu ∧ curr (cpu_rq s c) ≠ idle (cpu_rq s c)) cpus)).

#[export] Instance busy_others_cpus cpu : Proper (same_cpus ==> eq) (busy_others cpu).
Proof.
  intros s s' Hs. unfold busy_others. do 2 f_equal. apply list_filter_iff. intros c.
  pose proof (cp_cpu _ _ Hs c) as E. by injection E as -> ->.
Qed.
#[export] Instance busy_others_proper cpu : Proper (same_core ==> eq) (busy_others cpu).
Proof. intros s s' Hs%same_core_cpus. by rewrite Hs. Qed.

(** [cpus_ok] except for the bit of [cpu] in the idle map. *)
Record cpus_off (cpu : Z) (s : sched) : Prop := {
  co_on_cpu : ∀ p, on_cpu (task s p) = true ↔ ∃ c, c ∈ cpus ∧ curr (cpu_rq s c) = p;
  co_inj : ∀ c d, c ∈ cpus → d ∈ cpus → curr (cpu_rq s c) = curr (cpu_rq s d) → c = d;
  co_idle : ∀ c d, c ∈ cpus → d ∈ cpus → curr (cpu_rq s c) = idle (cpu_rq s d) → c = d;
  co_map : ∀ c, c ∈ cpus → c ≠ cpu → Z.testbit (cpu_idle_map (grq s)) c = true →
    curr (cpu_rq s c) = idle (cpu_rq s c);
  co_idle_cpus : idle_cpus (grq s) = negb (cpu_idle_map (grq s) =? 0);
  co_idle_inj : ∀ c d, c ∈ cpus → d ∈ cpus → idle (cpu_rq s c) = idle (cpu_rq s d) → c = d;
  co_bits : ∀ c, Z.testbit (cpu_idle_map (grq s)) c = true → c ∈ cpus;
  co_valid : ∀ c, c ∈ cpus → valid_task (curr (cpu_rq s c)) ∧ valid_task (idle (cpu_rq s c));
}.

Record off_cpu (cpu : Z) (s : sched) : Prop := {
  off_queue : queue_ok s;
  off_cpus : cpus_off cpu s;
  off_disjoint : ∀ p, queued s p →
    (p = curr (cpu_rq s cpu) ∨ on_cpu (task s p) = false) ∧ ¬ is_idle s p;
  off_qnr : qnr (grq s) = queued_count s;
  off_nr : nr_running (grq s) = queued_count s + busy_others cpu s;
  off_tasks : ∀ p, queued s p ∨ (on_cpu (task s p) = true ∧ p ≠ curr (cpu_rq s cpu) ∧ ¬ is_idle s p) →
    task_ok (task s p);
  off_ncpus : 0 < nr_cpu_ids ≤ 4096;
}.

(** The next task is off the queues and the map describes it. *)
Record picked (cpu next : Z) (s : sched) : Prop := {
  pk_queue : queue_ok s;
  pk_cpus : cpus_off cpu s;
  pk_map : Z.testbit (cpu_idle_map (grq s)) cpu = true → next = idle (cpu_rq s cpu);
  pk_disjoint : ∀ p, queued s p →
    (p = curr (cpu_rq s cpu) ∨ on_cpu (task s p) = false) ∧ p ≠ next ∧ ¬ is_idle s p;
  pk_next : next = idle (cpu_rq s cpu) ∨
    (next = curr (cpu_rq s cpu) ∨ on_cpu (task s next) = false) ∧ ¬ is_idle s next ∧ task_ok (task s next);
  pk_valid : valid_task next;
  pk_qnr : qnr (grq s) = queued_count s;
  pk_nr : nr_running (grq s) =
    queued_count s + busy_others cpu s + (if decide (next = idle (cpu_rq s cpu)) then 0 else 1);
  pk_tasks : ∀ p, queued s p ∨ (on_cpu (task s p) = true ∧ p ≠ curr (cpu_rq s cpu) ∧ ¬ is_idle s p) →
    task_ok (task s p);
  pk_ncpus : 0 < nr_cpu_ids ≤ 4096;
}.

#[export] Instance cpus_off_proper cpu : Proper (same_cpus ==> iff) (cpus_off cpu).
Proof.
  enough (∀ s s', same_cpus s s' → cpus_off cpu s → cpus_off cpu s') as Hx.
  { intros s s' Hs. split; apply Hx; [done|by symmetry]. }
  intros s s' Hs [Hon Hinj Hid Hmap Hic Hii Hbits Hv].
  assert (∀ c, curr (cpu_rq s' c) = curr (cpu_rq s c) ∧ idle (cpu_rq s' c) = idle (cpu_rq s c)) as Hc.
  { intros c. pose proof (cp_cpu _ _ Hs c) as E. by injection E as -> ->. }
  split.
  - intros p. rewrite (cp_on_cpu _ _ Hs), Hon. by setoid_rewrite (λ c, proj1 (Hc c)).
  - intros c d. rewrite (proj1 (Hc c)), (proj1 (Hc d)). apply Hinj.
  - intros c d. rewrite (proj1 (Hc c)), (proj2 (Hc d)). apply Hid.
  - intros c. rewrite (cp_map _ _ Hs). destruct (Hc c) as [-> ->]. apply Hmap.
  - by rewrite (cp_map _ _ Hs), (cp_idle _ _ Hs).
  - intros c d. rewrite (proj2 (Hc c)), (proj2 (Hc d)). apply Hii.
  - by rewrite (cp_map _ _ Hs).
  - intros c. destruct (Hc c) as [-> ->]. apply Hv.
Qed.

#[export] Instance off_cpu_proper cpu : Proper (same_core ==> iff) (off_cpu cpu).
Proof.
  enough (∀ s s', same_core s s' → off_cpu cpu s → off_cpu cpu s') as Hx.
  { intros s s' Hs. split; apply Hx; [done|by symmetry]. }
  intros s s' Hs [Hq Hcp Hd Hqn Hnr Ht Hn].
  destruct (core_grq_eq _ _ Hs) as (_&_&Eqn&Enr&_). pose proof (core_cpu_eq _ _ cpu Hs) as [Ec _].
  split; try done.
  - by rewrite <- Hs.
  - apply same_core_cpus in Hs. by rewrite <- Hs.
  - intros p. destruct (core_tasks_eq _ _ p Hs) as (_&_&_&->). rewrite Ec, <- Hs. apply Hd.
  - by rewrite Eqn, <- Hs.
  - by rewrite Enr, <- Hs.
  - intros p. destruct (core_tasks_eq _ _ p Hs) as (Ep&En&Er&->).
    unfold task_ok. rewrite Ep, En, Er, Ec, <- Hs. apply Ht.
Qed.

Lemma NoDup_cpus : NoDup cpus.
Proof. apply NoDup_seqZ. Qed.

(** Counting the busy CPUs around [cpu]. *)
Lemma filter_split (P : Z → Prop) `{∀ c, Decision (P c)} (l : list Z) cpu :
  NoDup l → cpu ∈ l →
  length (filter P l) =
    (length (filter (λ c, c ≠ cpu ∧ P c) l) + if decide (P cpu) then 1 else 0)%nat.
Proof.
  intros Hnd (l1 & l2 & ->)%list_elem_of_split.
  apply NoDup_app in Hnd as (_ & Hd & [Hp2 _]%NoDup_cons).
  assert (∀ l : list Z, cpu ∉ l → filter (λ c, c ≠ cpu ∧ P c) l = filter P l) as Hf.
  { intros l. induction l as [|x l IH]; [done|]. rewrite not_elem_of_cons. intros [??].
    rewrite !filter_cons, IH by done. repeat case_decide; naive_solver. }
  rewrite !filter_app, !filter_cons, !length_app, !Hf by (set_solver || done).
  rewrite (decide_False (P := cpu ≠ cpu ∧ _)) by tauto.
  case_decide; simpl; lia.
Qed.

Lemma busy_split s cpu : cpu ∈ cpus →
  busy_count s = busy_others cpu s +
    (if decide (curr (cpu_rq s cpu) = idle (cpu_rq s cpu)) then 0 else 1).
Proof.
  intros Hc. unfold busy_count, busy_cpus, busy_others.
  rewrite (filter_split (λ c, curr (cpu_rq s c) ≠ idle (cpu_rq s c)) cpus cpu NoDup_cpus Hc).
  repeat case_decide; try lia; tauto.
Qed.

Lemma busy_others_bound s cpu : 0 < nr_cpu_ids ≤ 4096 → 0 ≤ busy_others cpu s ≤ 4096.
Proof.
  intros Hn. unfold busy_others. split; [lia|].
  pose proof (length_filter (λ c, c ≠ cpu ∧ curr (cpu_rq s c) ≠ idle (cpu_rq s c)) cpus) as Hl.
  unfold cpus in *. rewrite length_seqZ in Hl. lia.
Qed.

(** A CPU that runs its idle task is ready to pick. *)
Lemma off_cpu_idle s cpu :
  runqueue_ok s → cpu ∈ cpus → curr (cpu_rq s cpu) = idle (cpu_rq s cpu) → off_cpu cpu s.
Proof.
  intros [Hq [Hon Hinj Hid Hmap Hic Hii Hbits Hv] Hd Hqn Hnr Ht Hn] Hc E. split; try done.
  - split; try done. intros c Hcc _. by apply Hmap.
  - intros p Hp. destruct (Hd p Hp). auto.
  - rewrite Hnr, (busy_split s cpu Hc), decide_True by done. lia.
  - intros p [Hp|(Ho & _ & Hi)]; apply Ht; auto.
Qed.

(** The current task of another CPU. *)
Lemma on_cpu_curr s cpu : runqueue_ok s → cpu ∈ cpus → on_cpu (task s (curr (cpu_rq s cpu))) = true.
Proof. intros Hok Hc. apply (c_on_cpu _ (ok_cpus _ Hok)). eauto. Qed.

Lemma curr_not_idle s cpu : runqueue_ok s → cpu ∈ cpus →
  curr (cpu_rq s cpu) ≠ idle (cpu_rq s cpu) → ¬ is_idle s (curr (cpu_rq s cpu)).
Proof.
  intros Hok Hc Hne (d & Hd & E). pose proof (c_idle _ (ok_cpus _ Hok) cpu d Hc Hd E). by subst d.
Qed.

Lemma idle_not_queued_curr s cpu p : runqueue_ok s → cpu ∈ cpus → queued s p → p ≠ curr (cpu_rq s cpu).
Proof.
  intros Hok Hc Hq ->. destruct (ok_disjoint _ Hok _ Hq) as [E _].
  rewrite on_cpu_curr in E by done. done.
Qed.

(** ** Giving the CPU back *)
Lemma deactivate_off s cpu :
  runqueue_ok s → cpu ∈ cpus → curr (cpu_rq s cpu) ≠ idle (cpu_rq s cpu) →
  off_cpu cpu (deactivate_task (curr (cpu_rq s cpu)) s) ∧
  (∀ x, queued (deactivate_task (curr (cpu_rq s cpu)) s) x ↔ queued s x) ∧
  same_cpus s (deactivate_task (curr (cpu_rq s cpu)) s).
Proof.
  intros Hok Hc Hne. set (prev := curr (cpu_rq s cpu)) in *. unfold deactivate_task. cbv zeta.
  set (s1 := if task_contributes_to_load (task s prev) then _ else s).
  assert (same_core s s1) as Hs1 by (subst s1; frame). clearbody s1.
  set (s2 := upd_grq _ s1).
  assert (same_core s2 (clear_sticky prev s2)) as Hs3 by frame.
  assert (off_cpu cpu s2 ∧ (∀ x, queued s2 x ↔ queued s1 x) ∧ same_cpus s1 s2) as (Ho & Hi & Hcp).
  { split_and!; [|done|by split]. rewrite Hs1 in Hok.
    pose proof (core_cpu_eq _ _ cpu Hs1) as [Ec Ei].
    pose proof Hok as [Hq [Hon Hinj Hid Hmap Hic Hii Hbits Hv] Hd Hqn Hnr Ht Hn].
    pose proof (queued_count_bound _ Hq). pose proof (busy_others_bound s1 cpu Hn).
    split; try done.
    - by destruct Hq; split.
    - split; try done. intros c Hcc _. by apply Hmap.
    - intros p Hp. destruct (Hd p Hp). by split; [right|].
    - change (u64 (nr_running (grq s1) - 1) = queued_count s1 + busy_others cpu s1).
      rewrite Hnr, (busy_split s1 cpu Hc), decide_False by (by rewrite Ec, Ei).
      rewrite u64_id; lia.
    - intros p [Hp|(Hp & _ & Hp')]; apply Ht; auto. }
  split_and!; [by rewrite <- Hs3|intros x; by rewrite <- Hs3, Hi, <- Hs1|].
  transitivity s1; [by apply same_core_cpus|]. transitivity s2; [done|by apply same_core_cpus].
Qed.

Lemma requeue_off s cpu :
  runqueue_ok s → cpu ∈ cpus → curr (cpu_rq s cpu) ≠ idle (cpu_rq s cpu) →
  off_cpu cpu (enqueue_task (curr (cpu_rq s cpu)) (inc_qnr s)) ∧
  (∀ x, queued (enqueue_task (curr (cpu_rq s cpu)) (inc_qnr s)) x ↔ x = curr (cpu_rq s cpu) ∨ queued s x) ∧
  same_cpus s (enqueue_task (curr (cpu_rq s cpu)) (inc_qnr s)).
Proof.
  intros Hok Hc Hne. set (prev := curr (cpu_rq s cpu)) in *.
  pose proof (curr_not_idle s cpu Hok Hc Hne) as Hni.
  pose proof Hok as [Hq Hcp Hd Hqn Hnr Ht Hn]. pose proof (queued_count_bound _ Hq).
  assert (task_ok (task s prev)) as Htok by (apply Ht; right; split; [by apply on_cpu_curr|done]).
  destruct (enqueue_task_spec (inc_qnr s) prev) as ((Hq' & Hiff & Hcnt) & Hex & Hok' & _).
  { by destruct Hq; split. }
  { intros Hx. by apply (idle_not_queued_curr s cpu prev Hok Hc). }
  { by apply (c_valid _ Hcp cpu). } { done. }
  revert Hq' Hiff Hcnt Hex Hok'. generalize (enqueue_task prev (inc_qnr s)).
  intros s' Hq' Hiff Hcnt [Hx Hcp' Eqn Enr] Hok'.
  change (queued_count (inc_qnr s)) with (queued_count s) in Hcnt.
  assert (same_cpus s s') as Hsc by (by destruct Hcp'; split). clear Hcp'.
  assert (∀ x, queued s' x ↔ x = prev ∨ queued s x) as Hi by done. clear Hiff.
  assert (curr (cpu_rq s' cpu) = prev) as Ecur by (pose proof (cp_cpu _ _ Hsc cpu) as E; by injection E).
  split_and!; [|done|done]. split; try done.
  - rewrite <- Hsc. destruct Hcp as [Hon Hinj Hid Hmap Hic Hii Hbits Hv]. split; try done.
    intros c Hcc _. by apply Hmap.
  - intros p Hp. rewrite Ecur, (cp_on_cpu _ _ Hsc), <- Hsc. apply Hi in Hp as [->|Hp]; [by split; [left|]|].
    destruct (Hd p Hp). by split; [right|].
  - rewrite Eqn. change (u64 (qnr (grq s) + 1) = queued_count s'). rewrite Hqn, Hcnt. apply u64_id. lia.
  - rewrite Enr, Hcnt. change (nr_running (grq s) = queued_count s + 1 + busy_others cpu s').
    rewrite Hnr, (busy_split s cpu Hc), decide_False, <- Hsc by done. lia.
  - intros p Hp. rewrite Ecur, (cp_on_cpu _ _ Hsc), Hi, <- Hsc in Hp.
    destruct (decide (p = prev)) as [->|Hne']; [done|]. specialize (Hx p Hne').
    injection Hx as E1 E2 E3 _. unfold task_ok. rewrite E1, E2, E3.
    change (task_ok (task s p)). apply Ht. naive_solver.
Qed.

(** Both cases of [return_task]. *)
Lemma return_task_off s cpu deactivate :
  runqueue_ok s → cpu ∈ cpus → curr (cpu_rq s cpu) ≠ idle (cpu_rq s cpu) →
  off_cpu cpu (return_task (curr (cpu_rq s cpu)) deactivate s) ∧
  (∀ x, queued (return_task (curr (cpu_rq s cpu)) deactivate s) x ↔
        (deactivate = false ∧ x = curr (cpu_rq s cpu)) ∨ queued s x) ∧
  same_cpus s (return_task (curr (cpu_rq s cpu)) deactivate s).
Proof.
  intros Hok Hc Hne. destruct deactivate; cbn [return_task].
  - destruct (deactivate_off s cpu Hok Hc Hne) as (Ho & Hi & Hcp).
    split_and!; [done| |done]. intros x. rewrite Hi. naive_solver.
  - destruct (requeue_off s cpu Hok Hc Hne) as (Ho & Hi & Hcp).
    split_and!; [done| |done]. intros x. rewrite Hi. naive_solver.
Qed.
End off_cpu.

(** ** Picking *)
Section pick.
Context `{Config}.
Implicit Types s : sched.

(** Changing the bit of one CPU in the idle map. *)
Record map_changed (cpu : Z) (s s' : sched) : Prop := {
  mc_task : tasks s' = tasks s;
  mc_rq : runqueues s' = runqueues s;
  mc_online : cpu_online_map s' = cpu_online_map s;
  mc_grq : queue (grq s') = queue (grq s) ∧ prio_bitmap (grq s') = prio_bitmap (grq s) ∧
    qnr (grq s') = qnr (grq s) ∧ nr_running (grq s') = nr_running (grq s);
  mc_bits : ∀ c, c ≠ cpu → Z.testbit (cpu_idle_map (grq s')) c = Z.testbit (cpu_idle_map (grq s)) c;
  mc_idle : idle_cpus (grq s) = negb (cpu_idle_map (grq s) =? 0) →
    idle_cpus (grq s') = negb (cpu_idle_map (grq s') =? 0);
}.

Lemma testbit_nonzero x i : Z.testbit x i = true → (x =? 0) = false.
Proof. intros Hb. apply Z.eqb_neq. intros ->. by rewrite Z.bits_0 in Hb. Qed.

Lemma set_cpuidle_map_changed cpu s : 0 ≤ cpu →
  map_changed cpu s (set_cpuidle_map cpu s) ∧
  (cpu_online s cpu = true → Z.testbit (cpu_idle_map (grq (set_cpuidle_map cpu s))) cpu = true).
Proof.
  intros Hc. unfold set_cpuidle_map. destruct (cpu_online s cpu); [|by split; [split|]].
  assert (Z.testbit (Z.setbit (cpu_idle_map (grq s)) cpu) cpu = true) as Hb by (by apply Z.setbit_eq).
  split; [|done]. split; try done; simpl.
  - intros c Hne. rewrite Z.setbit_neq by done. done.
  - by rewrite (testbit_nonzero _ _ Hb).
Qed.

Lemma clear_cpuidle_map_changed cpu s :
  map_changed cpu s (clear_cpuidle_map cpu s) ∧
  Z.testbit (cpu_idle_map (grq (clear_cpuidle_map cpu s))) cpu = false.
Proof.
  unfold clear_cpuidle_map. cbv zeta. set (s1 := upd_grq _ s).
  assert (cpu_idle_map (grq s1) = Z.clearbit (cpu_idle_map (grq s)) cpu) as Em by done.
  assert (∀ c, c ≠ cpu → Z.testbit (cpu_idle_map (grq s1)) c = Z.testbit (cpu_idle_map (grq s)) c) as Hb.
  { intros c Hne. rewrite Em. by apply Z.clearbit_neq. }
  assert (Z.testbit (cpu_idle_map (grq s1)) cpu = false) as Hb' by (rewrite Em; apply Z.clearbit_eq).
  unfold cpus_empty. destruct (Z.eqb_spec (cpu_idle_map (grq s1)) 0) as [E|E].
  - split; [|done]. split; try done. simpl. intros _. by rewrite <- Em, E.
  - split; [|done]. split; try done. intros E'. simpl. rewrite <- Em, (proj2 (Z.eqb_neq _ _) E), E'.
    apply negb_true_iff, Z.eqb_neq. intros E0. apply E. rewrite Em, E0. by destruct cpu.
Qed.

Lemma map_changed_cpus cpu s s' :
  map_changed cpu s s' → cpu ∈ cpus → cpus_off cpu s → cpus_off cpu s'.
Proof.
  intros [Et Er Eo _ Hb Hi] Hcpu [Hon Hinj Hid Hmap Hic Hii Hbits Hv].
  split; unfold task, cpu_rq, cpu_online in *; rewrite ?Et, ?Er, ?Eo; auto.
  - intros c Hcc Hne. rewrite Hb by done. by apply Hmap.
  - intros c. destruct (decide (c = cpu)) as [->|]; [done|]. rewrite Hb by done. apply Hbits.
Qed.

Lemma map_changed_queue cpu s s' : map_changed cpu s s' → queue_ok s →
  queue_ok s' ∧ (∀ x, queued s' x ↔ queued s x) ∧ queued_count s' = queued_count s.
Proof.
  intros [Et Er Eo (Eq & Eb & _) _ _]. apply queue_ok_frame; [|done|].
  - intros i. unfold queue_of. by rewrite Eq.
  - intros x _. unfold task. by rewrite Et.
Qed.

Lemma picked_idle cpu s :
  off_cpu cpu s → cpu ∈ cpus → ¬ queued s (idle (cpu_rq s cpu)) →
  picked cpu (idle (cpu_rq s cpu)) (set_cpuidle_map cpu s).
Proof.
  intros [Hq Hcp Hd Hqn Hnr Ht Hn] Hc Hnq.
  destruct (set_cpuidle_map_changed cpu s) as [Hmc Hbit]; [apply elem_of_seqZ in Hc; lia|].
  revert Hmc Hbit. generalize (set_cpuidle_map cpu s). intros s' Hmc Hbit.
  destruct (map_changed_queue _ _ _ Hmc Hq) as (Hq' & Hiff & Hcnt).
  pose proof (map_changed_cpus _ _ _ Hmc Hc Hcp) as Hcp'.
  destruct Hmc as [Et Er Eo (_ & _ & Eqn & Enr) _ _].
  assert (∀ x, task s' x = task s x) as Htask by (intros; unfold task; by rewrite Et).
  assert (cpu_rq s' = cpu_rq s) as Hrq by (unfold cpu_rq; by rewrite Er).
  assert (∀ x, is_idle s' x ↔ is_idle s x) as Hidl by (intros; unfold is_idle; by rewrite Hrq).
  split; rewrite ?Hrq; try done.
  - intros p Hp. rewrite Hiff in Hp. rewrite Htask, Hidl. destruct (Hd p Hp).
    split_and!; [done| |done]. by intros ->.
  - by left.
  - by apply (co_valid _ _ Hcp).
  - by rewrite Eqn, Hcnt.
  - rewrite Enr, Hcnt, Hnr, decide_True by done. unfold busy_others. rewrite Hrq. lia.
  - intros p. rewrite Hiff, Htask, Hidl. apply Ht.
Qed.

Lemma off_disjoint_idle cpu s : off_cpu cpu s → cpu ∈ cpus → ¬ queued s (idle (cpu_rq s cpu)).
Proof. intros Ho Hc Hq. destruct (off_disjoint _ _ Ho _ Hq) as [_ Hi]. apply Hi. by exists cpu. Qed.

Lemma picked_task cpu p s :
  off_cpu cpu s → cpu ∈ cpus → queued s p → picked cpu p (clear_cpuidle_map cpu (take_task cpu p s)).
Proof.
  intros [Hq Hcp Hd Hqn Hnr Ht Hn] Hc Hp.
  pose proof (queued_count_bound _ Hq) as Hb.
  destruct (take_task_effect s p cpu Hq Hp) as [(Hq1 & Hi1 & Hc1) Hsc Htv Eqn1 Enr1].
  revert Hq1 Hi1 Hc1 Hsc Htv Eqn1 Enr1. generalize (take_task cpu p s). intros s1 Hq1 Hi1 Hc1 Hsc Htv Eqn1 Enr1.
  pose proof (queued_count_bound _ Hq1) as Hb1. rewrite Hsc in Hcp.
  destruct (clear_cpuidle_map_changed cpu s1) as [Hmc Hbit].
  revert Hmc Hbit. generalize (clear_cpuidle_map cpu s1). intros s' Hmc Hbit.
  destruct (map_changed_queue _ _ _ Hmc Hq1) as (Hq' & Hiff & Hcnt).
  pose proof (map_changed_cpus _ _ _ Hmc Hc Hcp) as Hcp'.
  destruct Hmc as [Et Er Eo (_ & _ & Eqn & Enr) _ _].
  assert (∀ x, tview (task s' x) = tview (task s x)) as Htask by (intros; unfold task; rewrite Et; apply Htv).
  assert (∀ c, cview (cpu_rq s' c) = cview (cpu_rq s c)) as Hrq.
  { intros c. unfold cpu_rq. rewrite Er. apply (cp_cpu _ _ Hsc). }
  assert (∀ c, curr (cpu_rq s' c) = curr (cpu_rq s c) ∧ idle (cpu_rq s' c) = idle (cpu_rq s c)) as Hrq'.
  { intros c. specialize (Hrq c). by injection Hrq as -> ->. }
  assert (∀ x, is_idle s' x ↔ is_idle s x) as Hidl.
  { intros x. unfold is_idle. by setoid_rewrite (λ c, proj2 (Hrq' c)). }
  assert (∀ x, task_ok (task s x) → task_ok (task s' x)) as Htok.
  { intros x. specialize (Htask x). injection Htask as E1 E2 E3 _. unfold task_ok. by rewrite E1, E2, E3. }
  assert (∀ x, on_cpu (task s' x) = on_cpu (task s x)) as Hon.
  { intros x. specialize (Htask x). by injection Htask. }
  destruct (Hd p Hp) as [Hpc Hpi].
  assert (p ≠ idle (cpu_rq s cpu)) as Hne by (intros ->; apply Hpi; by exists cpu).
  assert (∀ x, queued s' x ↔ x ≠ p ∧ queued s x) as Hi' by (intros; by rewrite Hiff, Hi1).
  split; rewrite ?(proj1 (Hrq' cpu)), ?(proj2 (Hrq' cpu)), ?Hon; try done.
  - by rewrite Hbit.
  - intros x Hx. rewrite Hon, Hidl. apply Hi' in Hx as [Hxp Hx]. by destruct (Hd x Hx).
  - right. split_and!; [done|by rewrite Hidl|apply Htok, Ht; by left].
  - destruct Hp as [i Hi]. by destruct (q_prio _ Hq _ _ Hi).
  - rewrite Eqn, Eqn1, Hcnt, Hc1, Hqn. apply u64_id. lia.
  - rewrite Enr, Enr1, Hcnt, Hc1, Hnr, decide_False by done.
    assert (busy_others cpu s' = busy_others cpu s) as ->; [|lia].
    unfold busy_others. do 2 f_equal. apply list_filter_iff. intros c. by destruct (Hrq' c) as [-> ->].
  - intros x. rewrite Hi', Hon, Hidl. intros Hx. apply Htok, Ht. naive_solver.
Qed.
End pick.

(** ** Switching *)
Section switching.
Context `{Config}.
Implicit Types s : sched.

#[export] Instance picked_proper cpu next : Proper (same_core ==> iff) (picked cpu next).
Proof.
  enough (∀ s s', same_core s s' → picked cpu next s → picked cpu next s') as Hx.
  { intros s s' Hs. split; apply Hx; [done|by symmetry]. }
  intros s s' Hs [Hq Hcp Hm Hd Hnx Hv Hqn Hnr Ht Hn].
  destruct (core_grq_eq _ _ Hs) as (_&_&Eqn&Enr&Em&_). pose proof (core_cpu_eq _ _ cpu Hs) as [Ec Ei].
  assert (∀ x, task_ok (task s x) → task_ok (task s' x)) as Htok.
  { intros x. destruct (core_tasks_eq _ _ x Hs) as (E1&E2&E3&_). unfold task_ok. by rewrite E1, E2, E3. }
  assert (∀ x, on_cpu (task s' x) = on_cpu (task s x)) as Hon by (intros; apply (core_tasks_eq _ _ _ Hs)).
  split; rewrite ?Ec, ?Ei; try done.
  - by rewrite <- Hs.
  - pose proof (same_core_cpus _ _ Hs) as Hsc. by rewrite <- Hsc.
  - by rewrite Em.
  - intros p. rewrite Hon, <- Hs. apply Hd.
  - destruct Hnx as [?|(?&?&?)]; [by left|right]. rewrite Hon. split_and!; [done|by rewrite <- Hs|auto].
  - by rewrite Eqn, <- Hs.
  - by rewrite Enr, <- Hs.
  - intros p Hp. rewrite Hon, <- Hs in Hp. auto.
Qed.

(** The moment of the switch. *)
Definition swap (cpu prev next : Z) (s : sched) : sched :=
  upd_rq cpu (λ r, r <| curr := next |>)
    (upd_task next (λ t, t <| on_cpu := true |>) (upd_task prev (λ t, t <| on_cpu := false |>) s)).

Lemma swap_task cpu prev next s x : prev ≠ next →
  on_cpu (task (swap cpu prev next s) x) =
    (if decide (x = next) then true else if decide (x = prev) then false else on_cpu (task s x)) ∧
  (task_ok (task s x) → task_ok (task (swap cpu prev next s) x)) ∧
  prio (task (swap cpu prev next s) x) = prio (task s x).
Proof.
  intros Hne. change (task (swap cpu prev next s) x) with
    (task (upd_task next (λ t, t <| on_cpu := true |>) (upd_task prev (λ t, t <| on_cpu := false |>) s)) x).
  rewrite !task_upd_task. repeat case_decide; subst; done.
Qed.

Lemma swap_rq cpu prev next s c :
  curr (cpu_rq (swap cpu prev next s) c) = (if decide (c = cpu) then next else curr (cpu_rq s c)) ∧
  idle (cpu_rq (swap cpu prev next s) c) = idle (cpu_rq s c).
Proof.
  unfold swap. rewrite cpu_rq_upd_rq. split.
  - repeat case_decide; subst; done.
  - case_decide; subst; done.
Qed.

Lemma picked_same cpu next s :
  picked cpu next s → cpu ∈ cpus → curr (cpu_rq s cpu) = next → runqueue_ok s.
Proof.
  intros [Hq [Hon Hinj Hid Hmap Hic Hii Hbits Hv] Hm Hd Hnx Hvn Hqn Hnr Ht Hn] Hc E. split; try done.
  - split; try done. intros c Hcc Ho. destruct (decide (c = cpu)) as [->|]; [|by apply Hmap].
    rewrite E. by apply Hm.
  - intros p Hp. destruct (Hd p Hp) as ([->|Ho] & Hne & Hi); [by rewrite E in Hne|done].
  - rewrite Hnr, (busy_split s cpu Hc), E. lia.
  - intros p [Hp|[Ho Hi]]; [apply Ht; by left|].
    destruct (decide (p = next)) as [->|Hne]; [|apply Ht; right; by rewrite E].
    destruct Hnx as [->|(_&_&?)]; [|done]. destruct Hi. by exists cpu.
Qed.

Lemma swap_cpus cpu next s :
  picked cpu next s → cpu ∈ cpus → curr (cpu_rq s cpu) ≠ next →
  cpus_ok (swap cpu (curr (cpu_rq s cpu)) next s).
Proof.
  intros [_ [Hon Hinj Hid Hmap Hic Hii Hbits Hv] Hm _ Hnx Hvn _ _ _ _] Hc Hne.
  set (prev := curr (cpu_rq s cpu)) in *. set (s' := swap cpu prev next s).
  assert (∀ c, curr (cpu_rq s' c) = if decide (c = cpu) then next else curr (cpu_rq s c)) as Hcur
    by apply swap_rq.
  assert (∀ c, idle (cpu_rq s' c) = idle (cpu_rq s c)) as Hidl by apply swap_rq.
  assert (∀ d, d ∈ cpus → d ≠ cpu → curr (cpu_rq s d) ≠ next) as Hnd.
  { intros d Hd Hdc E. destruct Hnx as [->|([->|Ho] & _)]; [by apply Hdc, Hid|by destruct Hne|].
    assert (on_cpu (task s next) = true) by (apply Hon; eauto). congruence. }
  split.
  - intros p. destruct (swap_task cpu prev next s p Hne) as [E _]. fold s' in E. rewrite E. clear E.
    setoid_rewrite Hcur.
    destruct (decide (p = next)) as [->|E1]; [split; [intros _; exists cpu; by rewrite decide_True|done]|].
    destruct (decide (p = prev)) as [->|E2].
    + split; [done|]. intros (c & Hcc & E). destruct (decide (c = cpu)) as [->|Hcn]; [by destruct Hne|].
      by pose proof (Hinj c cpu Hcc Hc E).
    + rewrite Hon. split; intros (c & Hcc & E); exists c; (split; [done|]); destruct (decide (c = cpu)); subst; done.
  - intros c d Hcc Hd. rewrite !Hcur.
    destruct (decide (c = cpu)) as [->|], (decide (d = cpu)) as [->|]; intros E;
      [done|by destruct (Hnd d)|by destruct (Hnd c)|by apply Hinj].
  - intros c d Hcc Hd. rewrite Hcur, Hidl. destruct (decide (c = cpu)) as [->|]; [|by apply Hid]. intros E.
    destruct Hnx as [->|(_ & Hi & _)]; [by apply Hii|]. destruct Hi. by exists d.
  - intros c Hcc Ho. rewrite Hcur, Hidl. destruct (decide (c = cpu)) as [->|]; [by apply Hm|by apply Hmap].
  - done.
  - intros c d. rewrite !Hidl. apply Hii.
  - exact Hbits.
  - intros c Hcc. rewrite Hcur, Hidl. destruct (Hv c Hcc). by destruct (decide (c = cpu)).
Qed.

Lemma swap_ok cpu next s :
  picked cpu next s → cpu ∈ cpus → curr (cpu_rq s cpu) ≠ next →
  runqueue_ok (swap cpu (curr (cpu_rq s cpu)) next s).
Proof.
  intros Hpk Hc Hne. pose proof (swap_cpus cpu next s Hpk Hc Hne) as Hcpus.
  destruct Hpk as [Hq Hcp Hm Hd Hnx Hvn Hqn Hnr Ht Hn].
  set (prev := curr (cpu_rq s cpu)) in *.
  pose proof (λ x, swap_task cpu prev next s x Hne) as Hts.
  pose proof (swap_rq cpu prev next s) as Hrq.
  destruct (queue_ok_frame s (swap cpu prev next s)) as (Hq' & Hiff & Hcnt); [done|done| |done|].
  { intros x _. apply Hts. }
  assert (∀ x, is_idle (swap cpu prev next s) x ↔ is_idle s x) as Hidl.
  { intros x. unfold is_idle. by setoid_rewrite (λ c, proj2 (Hrq c)). }
  split; try done.
  - intros p Hp. rewrite Hiff in Hp. rewrite Hidl. destruct (Hd p Hp) as (Ho & Hnn & Hi).
    split; [|done]. destruct (Hts p) as [-> _]. rewrite decide_False by done.
    destruct (decide (p = prev)); [done|]. by destruct Ho.
  - rewrite Hcnt, (busy_split _ cpu Hc). destruct (Hrq cpu) as [-> ->]. rewrite (decide_True (P := cpu = cpu)) by done.
    change (nr_running (grq s) = queued_count s +
      (busy_others cpu (swap cpu prev next s) + if decide (next = idle (cpu_rq s cpu)) then 0 else 1)).
    rewrite Hnr. assert (busy_others cpu (swap cpu prev next s) = busy_others cpu s) as ->; [|lia].
    unfold busy_others. do 2 f_equal. apply list_filter_iff. intros c. destruct (Hrq c) as [-> ->].
    destruct (decide (c = cpu)); naive_solver.
  - intros p Hp. apply Hts. rewrite Hiff, Hidl in Hp. destruct Hp as [Hp|[Ho Hi]]; [apply Ht; by left|].
    destruct (Hts p) as [Eo _]. rewrite Eo in Ho. destruct (decide (p = next)) as [->|E1].
    + destruct Hnx as [->|(_&_&?)]; [|done]. destruct Hi. by exists cpu.
    + destruct (decide (p = prev)); [done|]. apply Ht. by right.
Qed.
End switching.

(** ** The stages of a pass *)
Section stages.
Context `{Config}.
Implicit Types s : sched.

Lemma core_inj s s1 i : same_core s s1 → same_core s (s1 <| inj := i |>).
Proof. by apply core_other. Qed.
Lemma mm_add_core s s1 m d : same_core s s1 → same_core s (mm_add m d s1).
Proof. by apply core_other. Qed.
Lemma set_rq_task_core s s1 c p : same_core s s1 → same_core s (set_rq_task c p s1).
Proof. unfold set_rq_task. frame. Qed.
End stages.
#[export] Hint Resolve core_inj mm_add_core set_rq_task_core : frame.

Section stages2.
Context `{Config}.
Implicit Types s : sched.

Lemma finish_task_switch_core s s1 c p : same_core s s1 → same_core s (finish_task_switch c p s1).
Proof. unfold finish_task_switch. frame. Qed.
Lemma context_switch_core s s1 c p q : same_core s s1 → same_core s (context_switch c p q s1).
Proof. intros. unfold context_switch. apply finish_task_switch_core. frame. Qed.
Lemma account_prev_core s s1 c p : same_core s s1 → same_core s (account_prev c p s1).
Proof. unfold account_prev. frame. Qed.
Lemma store_prev_core s s1 c p : same_core s s1 → same_core s (store_prev c p s1).
Proof. unfold store_prev. frame. Qed.

(** The tasks that want the CPU: queued or running. *)
Definition runs_elsewhere (cpu : Z) (s : sched) (x : Z) : Prop :=
  ∃ c, c ∈ cpus ∧ c ≠ cpu ∧ curr (cpu_rq s c) = x ∧ x ≠ idle (cpu_rq s c).
Definition runnable (s : sched) (x : Z) : Prop :=
  queued s x ∨ ∃ c, c ∈ cpus ∧ curr (cpu_rq s c) = x ∧ x ≠ idle (cpu_rq s c).

#[export] Instance runnable_proper : Proper (same_core ==> eq ==> iff) runnable.
Proof.
  intros s s' Hs x ? <-. unfold runnable. rewrite Hs.
  setoid_rewrite (λ c, proj1 (core_cpu_eq _ _ c Hs)). by setoid_rewrite (λ c, proj2 (core_cpu_eq _ _ c Hs)).
Qed.

Lemma runnable_split s cpu x : cpu ∈ cpus →
  runnable s x ↔ queued s x ∨ (x = curr (cpu_rq s cpu) ∧ x ≠ idle (cpu_rq s cpu)) ∨ runs_elsewhere cpu s x.
Proof.
  intros Hc. unfold runnable, runs_elsewhere. split.
  - intros [?|(c & ? & ? & ?)]; [by left|]. right.
    destruct (decide (c = cpu)) as [->|]; [by left|right; eauto].
  - intros [?|[[??]|(c & ? & ? & ? & ?)]]; [by left|right; eauto..].
Qed.

Lemma elsewhere_cview cpu s s' x :
  (∀ c, c ≠ cpu → cview (cpu_rq s' c) = cview (cpu_rq s c)) → runs_elsewhere cpu s' x ↔ runs_elsewhere cpu s x.
Proof.
  intros Hc. unfold runs_elsewhere. split; intros (c & Hcc & Hne & E1 & E2); exists c;
    specialize (Hc c Hne); injection Hc as A B; rewrite ?A, ?B in *; done.
Qed.

(** What a pass on [cpu] leaves alone, and an idle CPU that is in the idle map. *)
Record others (cpu : Z) (s s' : sched) : Prop := {
  ot_cpu : ∀ c, c ≠ cpu → cview (cpu_rq s' c) = cview (cpu_rq s c);
  ot_bit : ∀ c, c ≠ cpu → Z.testbit (cpu_idle_map (grq s')) c = Z.testbit (cpu_idle_map (grq s)) c;
  ot_online : cpu_online_map s' = cpu_online_map s;
}.
Definition marked (s : sched) (c : Z) : Prop :=
  cpu_online s c = true → curr (cpu_rq s c) = idle (cpu_rq s c) → Z.testbit (cpu_idle_map (grq s)) c = true.

#[export] Instance others_preorder cpu : PreOrder (others cpu).
Proof.
  split; [by split|]. intros s1 s2 s3 [A1 B1 C1] [A2 B2 C2].
  split; intros; [rewrite A2, A1|rewrite B2, B1|rewrite C2, C1]; done.
Qed.
Lemma others_cpus cpu s s' : same_cpus s s' → others cpu s s'.
Proof. intros Hs. split; intros; [apply Hs|by rewrite (cp_map _ _ Hs)|apply Hs]. Qed.
Lemma others_core cpu s s' : same_core s s' → others cpu s s'.
Proof. intros. by apply others_cpus, same_core_cpus. Qed.
Lemma others_marked cpu s s' c : others cpu s s' → c ≠ cpu → marked s c → marked s' c.
Proof.
  intros [Hc Hb Ho] Hne Hm. specialize (Hc c Hne). injection Hc as E1 E2. unfold marked, cpu_online in *.
  by rewrite Ho, E1, E2, Hb.
Qed.

(** The three ways [pick_next] ends. *)
Definition pick_ok (cpu next : Z) (s s' : sched) : Prop :=
  picked cpu next s' ∧ (∀ c, cview (cpu_rq s' c) = cview (cpu_rq s c)) ∧
  (∀ x, queued s x ↔ queued s' x ∨ x = next ∧ next ≠ idle (cpu_rq s cpu)) ∧ others cpu s s' ∧
  (cpu_online s' cpu = true → next = idle (cpu_rq s cpu) → Z.testbit (cpu_idle_map (grq s')) cpu = true).

Lemma pick_idle cpu s :
  off_cpu cpu s → cpu ∈ cpus → pick_ok cpu (idle (cpu_rq s cpu)) s (set_cpuidle_map cpu s).
Proof.
  intros Ho Hc. split_and!.
  - exact (picked_idle cpu _ Ho Hc (off_disjoint_idle cpu _ Ho Hc)).
  - intros c. unfold set_cpuidle_map. by destruct (cpu_online _ _).
  - intros x. assert (queued (set_cpuidle_map cpu s) x ↔ queued s x) as ->; [|naive_solver].
    unfold set_cpuidle_map. by destruct (cpu_online _ _).
  - destruct (set_cpuidle_map_changed cpu s) as [[Et Er Eo _ Hb _] _]; [apply elem_of_seqZ in Hc; lia|].
    split; [intros c _; unfold cpu_rq; by rewrite Er|apply Hb|apply Eo].
  - intros Hon _. destruct (set_cpuidle_map_changed cpu s) as [Hm Hbit]; [apply elem_of_seqZ in Hc; lia|].
    apply Hbit. unfold cpu_online in *. by rewrite <- (mc_online _ _ _ Hm).
Qed.

Lemma pick_take cpu p s :
  off_cpu cpu s → cpu ∈ cpus → queued s p →
  p ≠ idle (cpu_rq s cpu) ∧ prio (task (take_task cpu p s) p) ≠ PRIO_LIMIT ∧
  pick_ok cpu p s (clear_cpuidle_map cpu (take_task cpu p s)).
Proof.
  intros Ho Hc Hp. destruct (off_disjoint _ _ Ho p Hp) as [_ Hni].
  assert (p ≠ idle (cpu_rq s cpu)) as Hne by (intros E; apply Hni; by exists cpu).
  destruct (take_task_effect s p cpu (off_queue _ _ Ho) Hp) as [(Hq3 & Hi3 & _) Hsc Htv _ _].
  destruct (clear_cpuidle_map_changed cpu (take_task cpu p s)) as [Hmc _].
  destruct (map_changed_queue _ _ _ Hmc Hq3) as (_ & Hi4 & _).
  split; [done|]. split; [|split_and!; [by apply picked_task|..]].
  - specialize (Htv p). injection Htv as -> _ _ _. destruct Hp as [j Hj].
    destruct (q_prio _ (off_queue _ _ Ho) _ _ Hj) as [-> _].
    pose proof (q_range _ (off_queue _ _ Ho) _ _ Hj). lia.
  - intros c. unfold cpu_rq at 1. rewrite (mc_rq _ _ _ Hmc). apply (cp_cpu _ _ Hsc).
  - intros x. rewrite Hi4, Hi3. split; [|intros [[_ ?]|[-> _]]; done].
    intros Hx. destruct (decide (x = p)) as [->|]; [by right|by left].
  - transitivity (take_task cpu p s); [by apply others_cpus|]. destruct Hmc as [Et Er Eo _ Hb _].
    split; [intros c _; unfold cpu_rq; by rewrite Er|apply Hb|apply Eo].
  - by intros _ ?.
Qed.

Lemma pick_ok_inj cpu next s i s' : pick_ok cpu next (s <| inj := i |>) s' → pick_ok cpu next s s'.
Proof. intros (Hp & Hc & Hq & [Ho1 Ho2 Ho3] & Hm). by split_and!. Qed.

Lemma pick_next_picked cpu s :
  off_cpu cpu s → cpu ∈ cpus → let '(next, s') := pick_next cpu s in pick_ok cpu next s s'.
Proof.
  intros Ho Hc. unfold pick_next. cbv zeta.
  destruct (inject_global pidList_addr proc_dir proc_global proc_pid (negb (queued_notrunning s =? 0)) (inj s))
    as [go_idle i].
  assert (∀ i', off_cpu cpu (s <| inj := i' |>)) as Hoi.
  { intros i'. assert (same_core s (s <| inj := i' |>)) as Hsi by frame. by rewrite <- Hsi. }
  pose proof (λ i', pick_ok_inj _ _ _ _ _ (pick_idle cpu _ (Hoi i') Hc)) as Hidle.
  pose proof (λ p i', pick_take cpu p _ (Hoi i') Hc) as Htake.
  destruct go_idle; [apply (Hidle i)|].
  unfold earliest_deadline_task. pose proof (edt_choice _ cpu (off_queue _ _ (Hoi i))) as Hch.
  destruct (edt_retry edt_fuel (s <| inj := i |>) cpu 0) as [[p [|]]|].
  - destruct Hch as [[Hp _] _]. destruct (Htake p i Hp) as (Hne & Hpr & Hok).
    change (p ≠ idle (cpu_rq s cpu)) in Hne. rewrite (proj2 (Z.eqb_neq _ _) Hne), (proj2 (Z.eqb_neq _ _) Hpr). exact (pick_ok_inj _ _ _ _ _ Hok).
  - destruct Hch as [[Hp _] _]. destruct (inject_pid _ _ _) as [injected i']. cbv zeta. destruct injected.
    + rewrite Z.eqb_refl. apply (Hidle i').
    + destruct (Htake p i' Hp) as (Hne & Hpr & Hok).
      change (p ≠ idle (cpu_rq s cpu)) in Hne. change (s <| inj := i |> <| inj := i' |>) with (s <| inj := i' |>).
      rewrite (proj2 (Z.eqb_neq _ _) Hne), (proj2 (Z.eqb_neq _ _) Hpr). exact (pick_ok_inj _ _ _ _ _ Hok).
  - rewrite Z.eqb_refl. apply (Hidle i).
Qed.
End stages2.
#[export] Hint Resolve finish_task_switch_core context_switch_core account_prev_core store_prev_core : frame.

Section pass.
Context `{Config}.
Implicit Types s : sched.

Lemma switch_ok cpu next voluntary s :
  picked cpu next s → cpu ∈ cpus →
  let s' := switch cpu (curr (cpu_rq s cpu)) next voluntary s in
  runqueue_ok s' ∧ (∀ x, queued s' x ↔ queued s x) ∧ curr (cpu_rq s' cpu) = next ∧
  (∀ c, idle (cpu_rq s' c) = idle (cpu_rq s c)) ∧
  (∀ c, c ≠ cpu → cview (cpu_rq s' c) = cview (cpu_rq s c)) ∧
  cpu_idle_map (grq s') = cpu_idle_map (grq s) ∧ cpu_online_map s' = cpu_online_map s.
Proof.
  intros Hpk Hc. cbv zeta. set (prev := curr (cpu_rq s cpu)). unfold switch.
  destruct (Z.eqb_spec prev next) as [E|Hne]; cbn [negb].
  { split_and!; try done. by eapply picked_same. }
  set (s1 := if rt_task (task s next) then unstick_task cpu prev s else s).
  assert (same_core s s1) as Hs1 by (subst s1; frame). clearbody s1.
  set (s2 := upd_grq _ (set_rq_task cpu next s1)).
  assert (same_core s s2) as Hs2 by (subst s2; frame). clearbody s2. clear s1 Hs1.
  destruct (core_cpu_eq _ _ cpu Hs2) as [Ecur _]. fold prev in Ecur.
  fold (swap cpu prev next s2). rewrite Hs2 in Hpk. rewrite <- Ecur in Hne |- *.
  pose proof (swap_ok cpu next s2 Hpk Hc Hne) as Hok.
  pose proof (swap_rq cpu (curr (cpu_rq s2 cpu)) next s2) as Hrq.
  assert (∀ x, queued (swap cpu (curr (cpu_rq s2 cpu)) next s2) x ↔ queued s x) as Hi.
  { intros x. by rewrite Hs2. }
  assert (cpu_idle_map (grq s2) = cpu_idle_map (grq s)) as Em by apply (core_grq_eq _ _ Hs2).
  assert (cpu_idle_map (grq (swap cpu (curr (cpu_rq s2 cpu)) next s2)) = cpu_idle_map (grq s)) as Em3 by done.
  assert (cpu_online_map (swap cpu (curr (cpu_rq s2 cpu)) next s2) = cpu_online_map s) as Eo3 by apply Hs2.
  revert Hok Hrq Hi Em3 Eo3. generalize (swap cpu (curr (cpu_rq s2 cpu)) next s2). intros s3 Hok Hrq Hi Em3 Eo3.
  set (s4 := context_switch _ _ _ _). assert (same_core s3 s4) as Hs4 by (subst s4; frame). clearbody s4.
  split_and!.
  - by rewrite <- Hs4.
  - intros x. by rewrite <- Hs4, Hi.
  - rewrite (proj1 (core_cpu_eq _ _ _ Hs4)), (proj1 (Hrq cpu)). by rewrite decide_True.
  - intros c. rewrite (proj2 (core_cpu_eq _ _ _ Hs4)), (proj2 (Hrq c)).
    apply (core_cpu_eq _ _ c Hs2).
  - intros c Hcc. rewrite (sc_cpu _ _ Hs4). unfold cview. destruct (Hrq c) as [-> ->].
    rewrite decide_False by done. apply (sc_cpu _ _ Hs2).
  - rewrite <- Em3. apply (core_grq_eq _ _ Hs4).
  - rewrite <- Eo3. apply Hs4.
Qed.

(** From [off_cpu] to the end of the pass. *)
Lemma go_ok cpu prev voluntary s :
  off_cpu cpu s → cpu ∈ cpus → prev = curr (cpu_rq s cpu) →
  let s' := (let '(next, s1) := pick_next cpu s in switch cpu prev next voluntary s1) in
  runqueue_ok s' ∧ (∀ x, runnable s' x ↔ queued s x ∨ runs_elsewhere cpu s x) ∧ others cpu s s' ∧ marked s' cpu.
Proof.
  intros Ho Hc ->. cbv zeta. pose proof (pick_next_picked cpu s Ho Hc) as Hpk.
  destruct (pick_next cpu s) as [next s1]. destruct Hpk as (Hpk & Hcv & Hi & Hot & Hmk).
  pose proof (Hcv cpu) as E. injection E as Ecur Eidle. rewrite <- Ecur.
  destruct (switch_ok cpu next voluntary s1 Hpk Hc) as (Hok & Hi' & Hcur & Hid & Hcv' & Em & Eo).
  revert Hok Hi' Hcur Hid Hcv' Em Eo. generalize (switch cpu (curr (cpu_rq s1 cpu)) next voluntary s1).
  intros s2 Hok Hi' Hcur Hid Hcv' Em Eo. split_and!; [done| |
    transitivity s1; [done|]; by split; [|rewrite Em|]
    |unfold marked, cpu_online in *; by rewrite Em, Eo, Hcur, Hid, Eidle]. intros x.
  rewrite (runnable_split s2 cpu x Hc), Hi', Hcur, Hid, Eidle, Hi.
  rewrite (elsewhere_cview cpu s s2) by (intros c Hne; by rewrite Hcv', Hcv).
  split; naive_solver.
Qed.

(** What the workqueue code promises of the task it asks to wake. *)
Definition wq_ok (cpu : Z) (s : sched) : Prop :=
  let w := wq_worker_sleeping (curr (cpu_rq s cpu)) cpu in
  w = NULL ∨ w = curr (cpu_rq s cpu) ∨ (wakeable s w ∧ on_cpu (task s w) = false).

(** Whether the pass puts [prev] to sleep. *)
Definition sleeps (cpu : Z) (s : sched) : bool := (prev_sleeps cpu (curr (cpu_rq s cpu)) s).1.1.

Lemma try_to_wake_up_local_cpus s me p :
  runqueue_ok s → wakeable s p → on_cpu (task s p) = false → same_cpus s (try_to_wake_up_local me p s).
Proof.
  intros Hok Hw Hon. unfold try_to_wake_up_local. cbv zeta. case_if; [done|].
  destruct (task_queued p s) eqn:Eq; cbn [negb]; [apply same_core_cpus; unfold ttwu_post_activation; frame|].
  apply not_queued_b in Eq; [|apply Hok]. destruct Hw as (Hv & _ & Hr). unfold ttwu_activate.
  pose proof (activate_task_effect s p (task_cpu (task s p)) (ok_queue _ Hok) Eq Hv Hr) as Hact.
  revert Hact. generalize (activate_task p (task_cpu (task s p)) s). intros s1 Hact. cbv zeta.
  transitivity s1; [apply (act_cpus _ _ _ Hact)|]. apply same_core_cpus. unfold ttwu_post_activation. frame.
Qed.

Lemma prev_sleeps_ok cpu s :
  runqueue_ok s → wq_ok cpu s → cpu ∈ cpus →
  let '(d, v, s') := prev_sleeps cpu (curr (cpu_rq s cpu)) s in
  runqueue_ok s' ∧ same_cpus s s' ∧
  (∀ x, x ≠ wq_worker_sleeping (curr (cpu_rq s cpu)) cpu → queued s' x ↔ queued s x).
Proof.
  intros Hok Hw Hc. unfold prev_sleeps. cbv zeta. set (prev := curr (cpu_rq s cpu)) in *.
  case_if; [|done]. case_if.
  { set (s1 := upd_task prev _ s). assert (same_core s s1) as Hs1 by (subst s1; frame). clearbody s1.
    split_and!; [by rewrite <- Hs1|by apply same_core_cpus|intros x _; by rewrite <- Hs1]. }
  case_if; [|done]. unfold wq_ok in Hw. fold prev in Hw. cbv zeta in Hw.
  set (w := wq_worker_sleeping prev cpu) in *. clearbody w.
  destruct (Z.eqb_spec w NULL); [done|]. destruct (Z.eqb_spec w prev); [done|].
  destruct Hw as [?|[?|[Hw Hon]]]; [done..|].
  destruct (try_to_wake_up_local_ok s cpu w Hok Hw Hon) as [Hok' Hi].
  pose proof (try_to_wake_up_local_cpus s cpu w Hok Hw Hon) as Hcv.
  revert Hok' Hi Hcv. generalize (try_to_wake_up_local cpu w s). intros. by split_and!.
Qed.

(** Giving the CPU back and choosing. *)
Lemma choose_and_switch_ok cpu prev d v s :
  runqueue_ok s → cpu ∈ cpus → prev = curr (cpu_rq s cpu) →
  let s' := choose_and_switch cpu prev d v s in
  runqueue_ok s' ∧ (∀ x, runnable s' x ↔ runnable s x ∧ ¬ (d = true ∧ x = prev)) ∧
  others cpu s s' ∧ marked s' cpu.
Proof.
  intros Hok Hc Hprev. unfold choose_and_switch. cbv zeta.
  assert (∀ x, queued s x ∨ runs_elsewhere cpu s x ↔ runnable s x ∧ x ≠ prev) as Hrest.
  { intros x. rewrite (runnable_split s cpu x Hc), <- Hprev. split; [|naive_solver].
    intros [Hx|Hx]; (split; [tauto|]).
    - rewrite Hprev. by apply idle_not_queued_curr.
    - destruct Hx as (c & Hcc & Hne & <- & _). rewrite Hprev. intros E.
      by pose proof (c_inj _ (ok_cpus _ Hok) _ _ Hcc Hc E). }
  assert (runnable s prev ↔ prev ≠ idle (cpu_rq s cpu)) as Hrp.
  { rewrite (runnable_split s cpu _ Hc), <- Hprev. specialize (Hrest prev). naive_solver. }
  destruct (Z.eqb_spec prev (idle (cpu_rq s cpu))) as [E|Hne]; cbn [negb].
  { destruct (go_ok cpu prev v s) as (Hok' & Hr & Hot & Hmk); [apply off_cpu_idle; congruence|done|done|].
    split_and!; [done| |done|done]. intros x. rewrite Hr, Hrest. split; [naive_solver|].
    intros [Hx _]. split; [done|]. intros ->. tauto. }
  set (s1 := store_prev cpu prev s). assert (same_core s s1) as Hs1 by (subst s1; frame). clearbody s1.
  destruct (core_cpu_eq _ _ cpu Hs1) as [Ec1 Ei1].
  assert (∀ s2, same_core s1 s2 → let s' := (let '(next, s3) := pick_next cpu (return_task prev d s2) in
    switch cpu prev next v s3) in
    runqueue_ok s' ∧ (∀ x, runnable s' x ↔ runnable s x ∧ ¬ (d = true ∧ x = prev)) ∧
    others cpu s s' ∧ marked s' cpu) as Hgo.
  { intros s2 Hs2. assert (same_core s s2) as Hs by (by transitivity s1). clear Hs2.
    destruct (core_cpu_eq _ _ cpu Hs) as [Ec Ei]. rewrite Hs in Hok.
    assert (prev = curr (cpu_rq s2 cpu)) as Hp2 by congruence.
    destruct (return_task_off s2 cpu d Hok Hc) as (Ho & Hi & Hcp); [congruence|]. rewrite <- Hp2 in Ho, Hi, Hcp.
    destruct (go_ok cpu prev v (return_task prev d s2) Ho Hc) as (Hok' & Hr & Hot & Hmk).
    { pose proof (cp_cpu _ _ Hcp cpu) as E. injection E as E _. congruence. }
    split_and!; [done| |transitivity (return_task prev d s2); [|done]; apply others_cpus;
      transitivity s2; [by apply same_core_cpus|done]|done].
    intros x. rewrite Hr, Hi.
    rewrite (elsewhere_cview cpu s2) by (intros c _; apply Hcp).
    rewrite (elsewhere_cview cpu s s2) by (intros c _; apply Hs). rewrite <- Hs.
    specialize (Hrest x). clear - Hrest Hrp Hne. destruct (decide (x = prev)) as [->|]; destruct d;
      intuition congruence. }
  unfold put_prev. case_if; [apply Hgo; frame|].
  destruct d; cbn [negb]; [apply Hgo; done|]. case_if; [|apply Hgo; frame].
  split_and!; [by rewrite <- Hs1| |by apply others_core|unfold marked; by rewrite Ec1, Ei1, <- Hprev].
  intros x. rewrite <- Hs1. clear. intuition congruence.
Qed.

Lemma schedule_pass_inv (cpu : Z) (s : sched) :
  runqueue_ok s → cpu ∈ cpus → wq_ok cpu s →
  let prev := curr (cpu_rq s cpu) in
  let '(again, s') := schedule_pass cpu s in
  runqueue_ok s' ∧
  (∀ x, x ≠ wq_worker_sleeping prev cpu →
     runnable s' x ↔ runnable s x ∧ ¬ (again = false ∧ sleeps cpu s = true ∧ x = prev)) ∧
  others cpu s s' ∧ (again = false → marked s' cpu).
Proof.
  intros Hok Hc Hw prev. unfold schedule_pass. fold prev. unfold sleeps. fold prev.
  pose proof (prev_sleeps_ok cpu s Hok Hw Hc) as Hps. fold prev in Hps.
  destruct (prev_sleeps cpu prev s) as [[d v] s1]. destruct Hps as (Hok1 & Hcp & Hi). pose proof (cp_cpu _ _ Hcp) as Hcv. cbn [fst].
  pose proof (others_cpus cpu _ _ Hcp) as Hot1.
  assert (∀ x, x ≠ wq_worker_sleeping prev cpu → runnable s1 x ↔ runnable s x) as Hr1.
  { intros x Hx. unfold runnable. rewrite Hi by done.
    setoid_rewrite (λ c, f_equal fst (Hcv c) : curr _ = _).
    by setoid_rewrite (λ c, f_equal snd (Hcv c) : idle _ = _). }
  destruct (d && plugged (task s1 prev)).
  - set (s2 := upd_task prev _ s1). assert (same_core s1 s2) as Hs2 by (subst s2; frame). clearbody s2.
    split_and!; [by rewrite <- Hs2| |transitivity s1; [done|by apply others_core]|done].
    intros x Hx. rewrite <- Hs2, Hr1 by done. naive_solver.
  - assert (same_core s1 (account_prev cpu prev s1)) as Hs2 by frame.
    destruct (choose_and_switch_ok cpu prev d v (account_prev cpu prev s1)) as (Hok' & Hr & Hot & Hmk).
    { by rewrite <- Hs2. } { done. }
    { rewrite (proj1 (core_cpu_eq _ _ cpu Hs2)). symmetry. exact (f_equal fst (Hcv cpu)). }
    split_and!; [done| |transitivity s1; [done|]; transitivity (account_prev cpu prev s1); [by apply others_core|done]|done].
    intros x Hx. rewrite Hr, <- Hs2, Hr1 by done. naive_solver.
Qed.

(** C1. [schedule] keeps the run queue consistent and loses no task.  One pass,
    on any CPU and whatever the current task's state, pending signals, workqueue
    wakeups, affinity, stickiness and injected idle cycles, leaves bitmap,
    queues, counters, [on_cpu] flags, current tasks and the idle map
    consistent (a CPU in the idle map is idle, and the CPU of a finished pass
    is in the map if it is idle and online); and apart from the task the workqueue code wakes, the set of
    runnable tasks changes by exactly the current task when it goes to sleep.
    In particular an injected idle cycle leaves every task runnable. *)
Theorem schedule_pass_ok (cpu : Z) (s : sched) :
  runqueue_ok s → cpu ∈ cpus → wq_ok cpu s →
  let prev := curr (cpu_rq s cpu) in
  let '(again, s') := schedule_pass cpu s in
  runqueue_ok s' ∧
  (∀ x, x ≠ wq_worker_sleeping prev cpu →
     runnable s' x ↔ runnable s x ∧ ¬ (again = false ∧ sleeps cpu s = true ∧ x = prev)) ∧
  (again = false → marked s' cpu) ∧ (∀ c, c ≠ cpu → marked s c → marked s' c).
Proof.
  intros Hok Hc Hw. pose proof (schedule_pass_inv cpu s Hok Hc Hw) as Hp. cbv zeta in *.
  destruct (schedule_pass cpu s) as [again s']. destruct Hp as (Hok' & Hr & Hot & Hm).
  split_and!; [done..|]. intros c. by apply others_marked.
Qed.
End pass.

Section example.
#[local] Existing Instance sample_config.

Lemma schedule_pass_ok_witness :
  let '(again, s') := schedule_pass 2 machine in runqueue_ok s' ∧ runnable s' 21 ∧ runnable s' 22.
Proof.
  pose proof (schedule_pass_ok 2 machine machine_ok ltac:(apply machine_cpus; tauto) ltac:(by left)) as Hs.
  cbv zeta in Hs. assert (sleeps 2 machine = false) as Esl by reflexivity.
  destruct (schedule_pass 2 machine) as [again s']. destruct Hs as (Hok & Hr & _).
  assert (∀ x, x = 21 ∨ x = 22 → runnable s' x) as Hx.
  { intros x Hx. apply Hr; [by destruct Hx as [->| ->]|]. rewrite Esl.
    split; [left; by apply machine_queued|naive_solver]. }
  split; [done|]. split; apply Hx; auto.
Defined.
End example.
