(* ===== verification/Termination.v ===== *)
(** * [schedule] returns

    [schedule] starts over while the task it switched to has its need-resched
    flag set, or after flushing block I/O.  During a pass flags are only set on
    the current tasks of other CPUs ([calm]), and the flag of the task that
    leaves is cleared, so each repetition uses up one pending flag or one plug:
    their number is a bound on the iterations. *)

From S2P Require Export ScheduleInv.
From S2P Require Import Injector Machine.

Section calm.
Context `{Config}.
Implicit Types s : sched.

(** The fields no part of a pass writes on its way to the switch. *)
Definition kept (t : task_struct) : bool * Z := (plugged t, preempt_count t).

Record calm (cpu : Z) (s s' : sched) : Prop := {
  cm_flag : ∀ x, need_resched (task s' x) = true →
    need_resched (task s x) = true ∨ ∃ c, c ∈ cpus ∧ c ≠ cpu ∧ curr (cpu_rq s c) = x;
  cm_kept : ∀ x, kept (task s' x) = kept (task s x);
  cm_curr : ∀ c, c ≠ cpu → curr (cpu_rq s' c) = curr (cpu_rq s c);
}.

#[export] Instance calm_preorder cpu : PreOrder (calm cpu).
Proof.
  split; [split; by auto|]. intros s1 s2 s3 [F1 P1 C1] [F2 P2 C2]. split.
  - intros x [Hx|(c & Hc & Hne & <-)]%F2; [by apply F1|]. right. exists c. by rewrite C1.
  - intros x. by rewrite P2, P1.
  - intros c Hc. by rewrite C2, C1.
Qed.

Lemma calm_task cpu s s1 p f :
  (∀ t, need_resched (f t) = true → need_resched t = true) → (∀ t, kept (f t) = kept t) →
  calm cpu s s1 → calm cpu s (upd_task p f s1).
Proof.
  intros Hf Hp Hs. transitivity s1; [done|]. split; [|intros x; by apply task_upd_proj|done].
  intros x Hx. left. rewrite task_upd_task in Hx. case_decide; [subst; by apply Hf|done].
Qed.
Lemma calm_rq cpu s s1 c f : (∀ r, curr (f r) = curr r) → calm cpu s s1 → calm cpu s (upd_rq c f s1).
Proof.
  intros Hf Hs. transitivity s1; [done|]. split; [by left|done|]. intros d _. by apply rq_upd_proj.
Qed.
Lemma calm_grq cpu s s1 f : calm cpu s s1 → calm cpu s (upd_grq f s1).
Proof. intros Hs. transitivity s1; [done|]. split; by auto. Qed.
Lemma calm_if cpu (b : bool) s s1 s2 : calm cpu s s1 → calm cpu s s2 → calm cpu s (if b then s1 else s2).
Proof. by destruct b. Qed.
Lemma calm_other cpu s s1 s2 :
  tasks s2 = tasks s1 → runqueues s2 = runqueues s1 → calm cpu s s1 → calm cpu s s2.
Proof.
  intros Et Er Hs. transitivity s1; [done|]. split; unfold task, cpu_rq; rewrite ?Et, ?Er; auto.
Qed.

(** Rescheduling the current task of another CPU. *)
Lemma calm_resched cpu me c s s1 :
  c ∈ cpus → c ≠ cpu → calm cpu s s1 → calm cpu s (resched_task me (curr (cpu_rq s1 c)) s1).
Proof.
  intros Hc Hne Hs. transitivity s1; [done|]. clear Hs. unfold resched_task. case_if; [done|]. cbv zeta.
  set (q := curr (cpu_rq s1 c)). set (s2 := upd_task q _ s1). assert (calm cpu s1 s2) as Hs2.
  { split; [|intros x; by apply task_upd_proj|done]. intros x. unfold s2. rewrite task_upd_task.
    case_decide; [subst x; right; eauto|by left]. }
  case_if; [done|]. case_if; [by apply (calm_other _ _ s2)|done].
Qed.

Lemma some_bit x : x ≠ 0 → ∃ i, Z.testbit x i = true.
Proof.
  intros Hx. destruct (Z.lt_total x 0) as [Hneg|[?|Hpos]]; [|done|].
  - exists (Z.log2 (Z.pred (- x)) + 1). apply Z.bits_above_log2_neg; lia.
  - exists (Z.log2 x). by apply Z.bit_log2.
Qed.

(** The CPU chosen from a mask is in the mask. *)
Lemma best_cpu_in s best r mask :
  mask ≠ 0 → (∀ c, Z.testbit mask c = true → c ∈ cpus) →
  Z.testbit mask (best_cpu_of s best r mask) = true.
Proof.
  intros Hm Hb. unfold best_cpu_of, cpu_isset. destruct (Z.testbit mask best) eqn:E; [done|].
  destruct (some_bit mask Hm) as [c Hc].
  assert (c ∈ cpus_in mask) as Hin.
  { apply cpus_in_spec. split; [|done]. specialize (Hb c Hc). apply elem_of_seqZ in Hb. lia. }
  destruct (best_in_spec s r (cpus_in mask) best 63) as [[_ Hall]|(Hin' & _)].
  - specialize (Hall c Hin). pose proof (cpu_ranking_bound s r c). lia.
  - by apply cpus_in_spec in Hin' as [_ ?].
Qed.

Definition map_ok (s : sched) : Prop := ∀ c, Z.testbit (cpu_idle_map (grq s)) c = true → c ∈ cpus.

Lemma resched_closest_idle_calm cpu me r p s s1 :
  map_ok s1 → calm cpu s s1 → calm cpu s (resched_closest_idle me r cpu p s1).
Proof.
  intros Hm Hs. unfold resched_closest_idle, cpus_empty. cbv zeta.
  set (mask := Z.clearbit (cpus_and _ _) cpu).
  assert (∀ c, Z.testbit mask c = true → c ∈ cpus ∧ c ≠ cpu) as Hmask.
  { intros c. unfold mask, cpus_and. rewrite Z.clearbit_eqb, Z.land_spec, !andb_true_iff, negb_true_iff.
    intros [[_ Hc] Hne%Z.eqb_neq]. split; [by apply Hm|congruence]. }
  destruct (Z.eqb_spec mask 0) as [|Hne]; [done|].
  assert (Z.testbit mask (best_cpu_of s1 cpu r mask) = true) as Hb by (apply best_cpu_in; [done|apply Hmask]).
  apply Hmask in Hb as [Hin Hcn]. by apply calm_resched.
Qed.

Lemma resched_suitable_idle_calm cpu me p s s1 :
  map_ok s1 → needs_other_cpu (task s1 p) cpu = true → calm cpu s s1 →
  calm cpu s (resched_suitable_idle me p s1).
Proof.
  intros Hm Hn Hs. unfold resched_suitable_idle, suitable_idle_cpus. destruct (idle_cpus (grq s1)); cbn [negb]; [|done].
  unfold cpus_intersects. rewrite needs_other_cpu_false in Hn. apply negb_true_iff in Hn.
  unfold resched_best_idle. cbv zeta. unfold cpus_and.
  set (mask := Z.land (cpus_allowed (task s1 p)) (cpu_idle_map (grq s1))).
  destruct (Z.eqb_spec mask 0) as [|Hne]; cbn [negb]; [done|].
  assert (∀ c, Z.testbit mask c = true → c ∈ cpus ∧ c ≠ cpu) as Hmask.
  { intros c. unfold mask. rewrite Z.land_spec, andb_true_iff. intros [Ha Hc]. split; [by apply Hm|].
    intros ->. unfold cpu_isset in Hn. congruence. }
  assert (Z.testbit mask (best_cpu_of s1 (task_cpu (task s1 p)) (task_cpu (task s1 p)) mask) = true) as Hb
    by (apply best_cpu_in; [done|apply Hmask]).
  apply Hmask in Hb as [Hin Hcn]. by apply calm_resched.
Qed.
End calm.

Create HintDb calm discriminated.
#[export] Hint Resolve calm_task calm_rq calm_grq calm_if resched_closest_idle_calm
  resched_suitable_idle_calm : calm.
#[export] Hint Extern 0 (calm _ ?s ?s) => reflexivity : calm.
#[export] Hint Extern 1 (∀ _, _ = _) => intros; reflexivity : calm.
#[export] Hint Extern 1 (∀ _, _ = _ → _ = _) => intros ? E; exact E : calm.
#[export] Hint Extern 2 (∀ _, _ = _ → _ = _) => intros ? E; discriminate E : calm.
#[export] Hint Extern 1 (map_ok _) => assumption : calm.
(** [calm] proves that a composition of updates sets no flag here. *)
Ltac calm := intros; cbv zeta; eauto 30 with calm.

Section calm_ops.
Context `{Config}.
Implicit Types s : sched.

Lemma update_clocks_calm cpu s s1 c : calm cpu s s1 → calm cpu s (update_clocks c s1).
Proof. unfold update_clocks, update_rq_clock, update_rq_clock_task. calm. Qed.
Lemma calm_stat cpu s s1 c f : calm cpu s s1 → calm cpu s (upd_stat c f s1).
Proof. by apply calm_other. Qed.
Lemma account_group_user_time_calm cpu s s1 p t :
  calm cpu s s1 → calm cpu s (account_group_user_time p t s1).
Proof. intros. unfold account_group_user_time. cbv zeta. apply calm_if; [done|by apply (calm_other _ _ s1)]. Qed.
Lemma clear_sticky_calm cpu s s1 p : calm cpu s s1 → calm cpu s (clear_sticky p s1).
Proof. unfold clear_sticky. calm. Qed.
Lemma check_deadline_calm cpu s s1 p : calm cpu s s1 → calm cpu s (check_deadline p s1).
Proof. unfold check_deadline, time_slice_expired. calm. Qed.
Lemma calm_inj cpu s s1 i : calm cpu s s1 → calm cpu s (s1 <| inj := i |>).
Proof. by apply calm_other. Qed.
Lemma mm_add_calm cpu s s1 m d : calm cpu s s1 → calm cpu s (mm_add m d s1).
Proof. by apply calm_other. Qed.
Lemma enqueue_task_calm cpu s s1 p : calm cpu s s1 → calm cpu s (enqueue_task p s1).
Proof. unfold enqueue_task, queue_tail. calm. Qed.
Lemma dequeue_task_calm cpu s s1 p : calm cpu s s1 → calm cpu s (dequeue_task p s1).
Proof. unfold dequeue_task. calm. Qed.
Lemma set_cpuidle_map_calm cpu s s1 c : calm cpu s s1 → calm cpu s (set_cpuidle_map c s1).
Proof. unfold set_cpuidle_map. calm. Qed.
Lemma clear_cpuidle_map_calm cpu s s1 c : calm cpu s s1 → calm cpu s (clear_cpuidle_map c s1).
Proof. unfold clear_cpuidle_map. calm. Qed.
End calm_ops.
#[export] Hint Resolve update_clocks_calm calm_stat account_group_user_time_calm clear_sticky_calm
  check_deadline_calm calm_inj mm_add_calm enqueue_task_calm dequeue_task_calm set_cpuidle_map_calm
  clear_cpuidle_map_calm : calm.

Section calm_stages.
Context `{Config}.
Implicit Types s : sched.

Lemma pc_idle_time_calm cpu s s1 c pc : calm cpu s s1 → calm cpu s (pc_idle_time c pc s1).
Proof. intros. unfold pc_idle_time. case_if; destruct (pc_acc _ _); calm. Qed.
Lemma pc_user_time_calm cpu s s1 c p pc ns : calm cpu s s1 → calm cpu s (pc_user_time c p pc ns s1).
Proof.
  intros. unfold pc_user_time. destruct (pc_acc _ _). cbv zeta.
  match goal with |- context [upd_task p (λ t, t <| sched_time ::= _ |>) ?x] =>
    set (s2 := upd_task p (λ t, t <| sched_time ::= λ y, u64 (y + ns) |>) x) end.
  assert (calm cpu s s2) by (subst s2; calm). clearbody s2.
  set (s3 := if ksoftirqd c =? p then _ else s2).
  assert (calm cpu s s3) by (subst s3; case_if; [destruct (pc_acc _ _)|]; calm). clearbody s3.
  case_if; destruct (pc_acc _ _); calm.
Qed.
Lemma switch_clock_calm cpu s s1 c p : calm cpu s s1 → calm cpu s (update_cpu_clock c p false false s1).
Proof.
  intros. unfold update_cpu_clock, ts_account. cbv zeta.
  set (s2 := if p =? _ then _ else _).
  assert (calm cpu s s2); [|clearbody s2; calm].
  subst s2. case_if; [apply pc_idle_time_calm|apply pc_user_time_calm]; calm.
Qed.
Lemma take_task_calm cpu s s1 c p : calm cpu s s1 → calm cpu s (take_task c p s1).
Proof. unfold take_task, set_task_cpu, dec_qnr. calm. Qed.
Lemma return_task_calm cpu s s1 p d : calm cpu s s1 → calm cpu s (return_task p d s1).
Proof. intros. unfold return_task. case_if; [unfold deactivate_task|unfold inc_qnr]; calm. Qed.
Lemma swap_sticky_calm cpu s s1 p : map_ok s1 → calm cpu s s1 → calm cpu s (swap_sticky cpu cpu p s1).
Proof.
  intros Hm Hs. unfold swap_sticky. cbv zeta. case_if; [calm|].
  set (s2 := if _ && _ then _ else s1).
  assert (calm cpu s s2 ∧ map_ok s2) as [Hs2 Hm2].
  { subst s2. case_if; [|done]. set (q := sticky_task _). set (s3 := clear_sticky q s1).
    assert (calm cpu s s3) by (subst s3; calm). assert (map_ok s3) by done.
    split; [calm|]. assert (same_core s3 (resched_closest_idle cpu cpu cpu q s3)) as Hc by frame.
    unfold map_ok. by destruct (core_grq_eq _ _ Hc) as (_&_&_&_&->&_). }
  clearbody s2. calm.
Qed.
Lemma pick_next_calm cpu s s1 : calm cpu s s1 → calm cpu s (pick_next cpu s1).2.
Proof.
  intros Hs. unfold pick_next. cbv zeta. destruct (inject_global _ _ _ _ _ _) as [go i].
  set (s2 := s1 <| inj := i |>). assert (calm cpu s s2) by (subst s2; calm). clearbody s2.
  destruct go; cbn [snd]; [calm|].
  set (r := earliest_deadline_task _ _ _). assert (calm cpu s r.2) as Hr.
  { subst r. unfold earliest_deadline_task. destruct (edt_retry _ _ _ _) as [[p [|]]|]; cbn [snd]; [by apply take_task_calm| |done].
    destruct (inject_pid _ _ _) as [b i']. cbv zeta. destruct b; cbn [snd]; [calm|apply take_task_calm; calm]. }
  destruct r as [next s3]. cbn [snd] in Hr. case_if; [case_if|]; cbn [snd]; calm.
Qed.
Lemma finish_task_switch_calm cpu s s1 c p : calm cpu s s1 → calm cpu s (finish_task_switch c p s1).
Proof. unfold finish_task_switch. calm. Qed.
Lemma context_switch_calm cpu s s1 c p q : calm cpu s s1 → calm cpu s (context_switch c p q s1).
Proof. intros. unfold context_switch. apply finish_task_switch_calm. calm. Qed.
Lemma switch_calm cpu s s1 prev next v : calm cpu s s1 → calm cpu s (switch cpu prev next v s1).
Proof.
  intros Hs. unfold switch. case_if; [|done]. cbv zeta.
  set (s2 := upd_task next _ _).
  assert (calm cpu s s2) as Hs2 by (subst s2; unfold unstick_task, set_rq_task; calm). clearbody s2.
  set (s3 := upd_rq cpu (λ r, r <| curr := next |>) s2). assert (calm cpu s s3) as Hs3.
  { transitivity s2; [done|]. split; [by left|done|]. intros c Hc. unfold s3. by rewrite cpu_rq_upd_rq_ne. }
  clearbody s3. apply context_switch_calm. calm.
Qed.
End calm_stages.

(** ** The measure *)
Section measure.
Context `{Config}.
Implicit Types s : sched.

(** Tasks that are flagged without being current, and tasks with plugged I/O. *)
Definition currs (s : sched) : list Z := NULL :: ((λ cr, curr cr.2) <$> map_to_list (runqueues s)).
Definition pending (s : sched) : gset Z :=
  filter (λ x, need_resched (task s x) = true ∧ x ∉ currs s) (dom (tasks s)).
Definition plugs (s : sched) : gset Z := filter (λ x, plugged (task s x) = true) (dom (tasks s)).
Definition resched_bound (s : sched) : nat := size (pending s) + size (plugs s).

Lemma elem_of_currs s x : x ∈ currs s ↔ x = NULL ∨ ∃ c, curr (cpu_rq s c) = x.
Proof.
  unfold currs. rewrite elem_of_cons, list_elem_of_fmap. split.
  - intros [->|([c r] & -> & Hc%elem_of_map_to_list)]; [by left|right]. exists c.
    unfold cpu_rq. by rewrite lookup_total_alt, Hc.
  - intros [->|[c <-]]; [by left|]. unfold cpu_rq. rewrite lookup_total_alt.
    destruct (runqueues s !! c) as [r|] eqn:E; [right|by left].
    exists (c, r). by rewrite elem_of_map_to_list.
Qed.

Lemma task_dom s x (b : task_struct → bool) :
  b inhabitant = false → b (task s x) = true → x ∈ dom (tasks s).
Proof.
  intros Hb Ht. apply elem_of_dom. unfold task in Ht. rewrite lookup_total_alt in Ht.
  destruct (tasks s !! x) eqn:E; [by eexists|]. cbn [default] in Ht. congruence.
Qed.
Lemma elem_of_pending s x : x ∈ pending s ↔ need_resched (task s x) = true ∧ x ∉ currs s.
Proof.
  unfold pending. rewrite elem_of_filter. split; [tauto|]. intros [Hn Hx]. split; [done|].
  by apply (task_dom s x need_resched).
Qed.
Lemma elem_of_plugs s x : x ∈ plugs s ↔ plugged (task s x) = true.
Proof.
  unfold plugs. rewrite elem_of_filter. split; [tauto|]. intros Hn. split; [done|].
  by apply (task_dom s x plugged).
Qed.

(** CPU numbers beyond the machine have no run queue. *)
Definition no_spare_cpus (s : sched) : Prop := ∀ c, c ∉ cpus → curr (cpu_rq s c) = NULL.

(** A pass that must be repeated after a switch used up a pending flag. *)
Lemma pending_decreases cpu s s' :
  runqueue_ok s' → cpu ∈ cpus → no_spare_cpus s → calm cpu s s' →
  need_resched (task s' (curr (cpu_rq s cpu))) = false →
  need_resched (task s' (curr (cpu_rq s' cpu))) = true →
  (size (pending s') < size (pending s))%nat.
Proof.
  intros Hok Hc Hsp [Hf _ Hcur] Hprev Hnext. set (prev := curr (cpu_rq s cpu)) in *.
  set (next := curr (cpu_rq s' cpu)) in *.
  assert (∀ c, c ∈ cpus → c ≠ cpu → curr (cpu_rq s c) ≠ next) as Hother.
  { intros c Hcc Hne. rewrite <- Hcur by done. intros E. by pose proof (c_inj _ (ok_cpus _ Hok) _ _ Hcc Hc E). }
  assert (next ≠ NULL) as Hnn.
  { destruct (c_valid _ (ok_cpus _ Hok) cpu Hc) as [[Hv _] _]. fold next in Hv. unfold NULL. lia. }
  assert (next ≠ prev) as Hnp by (intros E; rewrite E, Hprev in Hnext; done).
  assert (next ∉ currs s) as Hncur.
  { rewrite elem_of_currs. intros [?|[c E]]; [done|]. destruct (decide (c = cpu)) as [->|Hne]; [by apply Hnp|].
    destruct (decide (c ∈ cpus)) as [Hin|Hnin]; [by apply (Hother c)|]. rewrite Hsp in E by done. done. }
  assert (∀ x, need_resched (task s' x) = true → x ∉ currs s' → x ≠ next →
    need_resched (task s x) = true ∧ x ∉ currs s) as Hold.
  { intros x Hx Hxc Hxn. assert (x ∉ currs s) as Hxs.
    { rewrite elem_of_currs in *. intros [->|[c E]]; [by apply Hxc; left|]. apply Hxc. right. exists c.
      destruct (decide (c = cpu)) as [->|Hne]; [|by rewrite Hcur]. subst x. fold prev in Hx. by rewrite Hprev in Hx. }
    split; [|done]. destruct (Hf x Hx) as [?|(c & _ & _ & E)]; [done|]. destruct Hxs.
    apply elem_of_currs. right. by exists c. }
  apply subset_size, strict_spec_alt. split.
  - intros x Hx%elem_of_pending. apply elem_of_pending. destruct Hx as [Hx Hxc]. apply Hold; [done|done|].
    intros ->. apply Hxc, elem_of_currs. right. by exists cpu.
  - intros E. assert (next ∈ pending s) as Hin.
    { apply elem_of_pending. split; [|done]. destruct (Hf next Hnext) as [?|(c & ? & ? & ?)]; [done|].
      by destruct (Hother c). }
    rewrite <- E in Hin. apply elem_of_pending in Hin as [_ Hin]. apply Hin, elem_of_currs. right. by exists cpu.
Qed.
End measure.

(** ** The loop *)
Section loop.
Context `{Config}.
Implicit Types s : sched.

(** No worker is waiting to be woken (the pass that wakes one is covered by
    [schedule_pass_ok]). *)
Definition wq_quiet : Prop := ∀ p c, wq_worker_sleeping p c = NULL ∨ wq_worker_sleeping p c = p.

Lemma wq_quiet_ok cpu s : wq_quiet → wq_ok cpu s.
Proof. intros Hw. unfold wq_ok. cbv zeta. destruct (Hw (curr (cpu_rq s cpu)) cpu); auto. Qed.

Lemma prev_sleeps_quiet cpu s :
  wq_quiet → let '(d, v, s') := prev_sleeps cpu (curr (cpu_rq s cpu)) s in calm cpu s s' ∧ same_core s s'.
Proof.
  intros Hw. unfold prev_sleeps. cbv zeta. case_if; [|done]. case_if; [split; [calm|frame]|].
  case_if; [|done]. destruct (Hw (curr (cpu_rq s cpu)) cpu) as [-> | ->]; [done|].
  rewrite Z.eqb_refl. by destruct (_ =? NULL).
Qed.

Lemma choose_and_switch_calm cpu prev d v s :
  map_ok s → calm cpu s (choose_and_switch cpu prev d v s).
Proof.
  intros Hm. unfold choose_and_switch. cbv zeta.
  assert (∀ s1, calm cpu s s1 →
    calm cpu s (let '(next, s2) := pick_next cpu s1 in switch cpu prev next v s2)) as Hgo.
  { intros s1 Hs1. apply pick_next_calm in Hs1. destruct (pick_next cpu s1). by apply switch_calm. }
  case_if; [|by apply Hgo].
  set (s1 := store_prev cpu prev s).
  assert (calm cpu s s1) by (subst s1; unfold store_prev; calm).
  assert (map_ok s1).
  { assert (same_core s s1) as Hc by (subst s1; frame). unfold map_ok.
    by destruct (core_grq_eq _ _ Hc) as (_&_&_&_&->&_). }
  clearbody s1. unfold put_prev. destruct (needs_other_cpu _ _) eqn:En.
  { apply Hgo, return_task_calm. calm. }
  destruct d; cbn [negb]; [by apply Hgo, return_task_calm|].
  case_if; [done|]. by apply Hgo, return_task_calm, swap_sticky_calm.
Qed.

Lemma account_prev_flag cpu prev s : need_resched (task (account_prev cpu prev s) prev) = false.
Proof. unfold account_prev. cbv zeta. by rewrite task_upd_task_eq. Qed.
Lemma account_prev_calm cpu prev s : calm cpu s (account_prev cpu prev s).
Proof.
  unfold account_prev. cbv zeta. apply calm_task; [done|done|]. apply calm_rq; [done|].
  apply switch_clock_calm. calm.
Qed.

Lemma cm_plug cpu s s' x : calm cpu s s' → plugged (task s' x) = plugged (task s x).
Proof. intros Hs. by pose proof (cm_kept _ _ _ Hs x) as [= ? _]. Qed.
Lemma cm_count cpu s s' x : calm cpu s s' → preempt_count (task s' x) = preempt_count (task s x).
Proof. intros Hs. by pose proof (cm_kept _ _ _ Hs x) as [= _ ?]. Qed.

Lemma plugs_calm cpu s s' : calm cpu s s' → size (plugs s') = size (plugs s).
Proof.
  intros Hs. f_equal. apply set_eq. intros x. by rewrite !elem_of_plugs, (cm_plug _ _ _ _ Hs).
Qed.

(** A pass that flushed uses up a plug. *)
Lemma flush_decreases prev s :
  plugged (task s prev) = true →
  (resched_bound (upd_task prev (λ t, t <| plugged := false |>) s) < resched_bound s)%nat.
Proof.
  intros Hp. set (s' := upd_task _ _ s). unfold resched_bound.
  assert (∀ x, plugged (task s' x) = plugged (task s x) && negb (bool_decide (x = prev))) as Hpl.
  { intros x. unfold s'. rewrite task_upd_task. case_decide as E.
    - subst x. rewrite bool_decide_eq_true_2, andb_false_r by done. done.
    - rewrite bool_decide_eq_false_2, andb_true_r by congruence. done. }
  assert (pending s' = pending s) as ->.
  { apply set_eq. intros x. rewrite !elem_of_pending.
    assert (need_resched (task s' x) = need_resched (task s x)) as -> by (by apply task_upd_proj). done. }
  assert (size (plugs s') < size (plugs s))%nat; [|lia].
  apply subset_size, strict_spec_alt. split.
  - intros x. rewrite !elem_of_plugs, Hpl, andb_true_iff. tauto.
  - intros E. assert (prev ∈ plugs s) as Hin by (by apply elem_of_plugs). rewrite <- E, elem_of_plugs, Hpl in Hin.
    rewrite bool_decide_eq_true_2, andb_false_r in Hin by done. done.
Qed.

Lemma pass_progress cpu s :
  runqueue_ok s → cpu ∈ cpus → wq_quiet → no_spare_cpus s →
  let '(again, s') := schedule_pass cpu s in
  no_spare_cpus s' ∧
  (again = true ∨ need_resched (task s' (curr (cpu_rq s' cpu))) = true →
   (resched_bound s' < resched_bound s)%nat).
Proof.
  intros Hok Hc Hw Hsp.
  assert (runqueue_ok (schedule_pass cpu s).2) as Hok'.
  { pose proof (schedule_pass_inv cpu s Hok Hc) as Hp. destruct (schedule_pass cpu s).
    apply Hp. by apply wq_quiet_ok. }
  revert Hok'. unfold schedule_pass. pose proof (prev_sleeps_quiet cpu s Hw) as Hps.
  set (prev := curr (cpu_rq s cpu)) in *. destruct (prev_sleeps cpu prev s) as [[d v] s1].
  destruct Hps as [Hcalm1 Hcore1].
  assert (∀ s2, calm cpu s s2 → no_spare_cpus s2) as Hspare.
  { intros s2 Hs2 c Hcn. rewrite (cm_curr _ _ _ Hs2); [by apply Hsp|]. by intros ->. }
  assert (size (pending s1) ≤ size (pending s))%nat as Hle.
  { apply subseteq_size. intros x. rewrite !elem_of_pending, !elem_of_currs.
    assert (∀ c, curr (cpu_rq s1 c) = curr (cpu_rq s c)) as Ec by (intros c; apply (core_cpu_eq _ _ c Hcore1)).
    setoid_rewrite Ec. intros [Hx Hnx]. split; [|done].
    destruct (cm_flag _ _ _ Hcalm1 x Hx) as [?|(c & _ & _ & E)]; [done|]. destruct Hnx. right. by exists c. }
  destruct (d && plugged (task s1 prev)) eqn:Ep; cbn [snd].
  - intros _. apply andb_true_iff in Ep as [_ Ep]. pose proof (flush_decreases prev s1 Ep) as Hlt.
    pose proof (plugs_calm _ _ _ Hcalm1). unfold resched_bound in *.
    split; [by apply (Hspare s1)|lia].
  - intros Hok'. pose proof (account_prev_calm cpu prev s1) as Hcalm2.
    assert (same_core s1 (account_prev cpu prev s1)) as Hcore2 by frame.
    pose proof (account_prev_flag cpu prev s1) as Hf2.
    assert (map_ok (account_prev cpu prev s1)) as Hm.
    { intros c. destruct (core_grq_eq _ _ Hcore2) as (_&_&_&_&->&_).
      destruct (core_grq_eq _ _ Hcore1) as (_&_&_&_&->&_). apply (c_bits _ (ok_cpus _ Hok)). }
    pose proof (choose_and_switch_calm cpu prev d v _ Hm) as Hcalm3.
    assert (∀ c, curr (cpu_rq (account_prev cpu prev s1) c) = curr (cpu_rq s c)) as Ec2.
    { intros c. rewrite (proj1 (core_cpu_eq _ _ c Hcore2)). apply (core_cpu_eq _ _ c Hcore1). }
    revert Hok' Hcalm3. generalize (choose_and_switch cpu prev d v (account_prev cpu prev s1)). intros s' Hok' Hcalm3.
    assert (calm cpu s s') as Hcalm by (transitivity s1; [done|]; transitivity (account_prev cpu prev s1); done).
    split; [by apply Hspare|]. intros [?|Hn]; [done|].
    pose proof (plugs_calm _ _ _ Hcalm). unfold resched_bound.
    assert (size (pending s') < size (pending s))%nat; [|lia].
    apply (pending_decreases cpu); [done..| |done]. fold prev. apply not_true_iff_false. intros Hx.
    destruct (cm_flag _ _ _ Hcalm3 prev Hx) as [?|(c & Hcc & Hne & E)]; [congruence|].
    rewrite Ec2 in E. by pose proof (c_inj _ (ok_cpus _ Hok) _ _ Hcc Hc E).
Qed.

(** The loop, with any property of the state that the passes preserve. *)
Lemma schedule_loop (cpu : Z) (P : sched → Prop) (s : sched) :
  cpu ∈ cpus → wq_quiet → (∀ s, runqueue_ok s → P s → P (schedule_pass cpu s).2) →
  runqueue_ok s → no_spare_cpus s → P s →
  ∃ s', schedule (S (resched_bound s)) cpu s = Some s' ∧ runqueue_ok s' ∧
    need_resched (task s' (curr (cpu_rq s' cpu))) = false ∧ P s'.
Proof.
  intros Hc Hw Hpres Hok Hsp HP. remember (S (resched_bound s)) as n eqn:En.
  assert (resched_bound s < n)%nat as Hn by lia. clear En.
  revert s Hok Hsp HP Hn. induction n as [|n IH]; intros s Hok Hsp HP Hn; [lia|]. cbn [schedule].
  pose proof (schedule_pass_inv cpu s Hok Hc) as Hp. pose proof (pass_progress cpu s Hok Hc Hw Hsp) as Hpp.
  specialize (Hpres s Hok HP). destruct (schedule_pass cpu s) as [again s'].
  assert (runqueue_ok s') as Hok' by (apply Hp, wq_quiet_ok, Hw).
  destruct Hpp as [Hsp' Hlt]. destruct (again || need_resched (task s' (curr (cpu_rq s' cpu)))) eqn:E.
  - apply orb_true_iff, Hlt in E. apply IH; [done|done|done|lia].
  - exists s'. apply orb_false_iff in E as [_ E]. done.
Qed.

End loop.

Section example.
#[local] Existing Instance sample_config.

Lemma machine_no_spare : no_spare_cpus machine.
Proof.
  intros c Hc. rewrite machine_cpus in Hc. unfold cpu_rq. simpl. unfold machine_rqs.
  rewrite !lookup_total_insert_ne by (intros <-; tauto). reflexivity.
Qed.

End example.
