(* ===== verification/LazyMm.v ===== *)
(** * Lazily borrowed address spaces

    A kernel thread has no address space of its own ([mm == NULL]) and runs on
    the one of the task before it ([active_mm]), holding a reference.
    [context_switch] takes the reference for the next task and leaves the one of
    the previous task in [rq->prev_mm] for [finish_task_switch] to drop.  The
    theorem: the reference counts follow the number of borrowing CPUs exactly. *)

From S2P Require Export ScheduleInv.
From S2P Require Import Machine.

(** Updates that do not concern address spaces. *)
Section same_mm.
Context `{Config}.
Implicit Types s : sched.

Record same_mm (s s' : sched) : Prop := {
  sm_task : ∀ x, mm (task s' x) = mm (task s x) ∧ active_mm (task s' x) = active_mm (task s x);
  sm_rq : ∀ c, prev_mm (cpu_rq s' c) = prev_mm (cpu_rq s c);
  sm_count : mm_count s' = mm_count s;
}.

Lemma mm_upd_task s s1 p f :
  (∀ t, (mm (f t), active_mm (f t)) = (mm t, active_mm t)) → same_mm s s1 → same_mm s (upd_task p f s1).
Proof.
  intros Hf [Ht Hr Hc]. split; [|done|done]. intros x. destruct (Ht x) as [<- <-].
  pose proof (task_upd_proj (λ t, (mm t, active_mm t)) s1 p x f Hf) as E. by injection E.
Qed.
Lemma mm_upd_rq s s1 c f :
  (∀ r, prev_mm (f r) = prev_mm r) → same_mm s s1 → same_mm s (upd_rq c f s1).
Proof. intros Hf [Ht Hr Hc]. split; [done| |done]. intros d. rewrite <- (Hr d). by apply rq_upd_proj. Qed.
Lemma mm_upd_grq s s1 f : same_mm s s1 → same_mm s (upd_grq f s1).
Proof. by intros []. Qed.
Lemma mm_if (b : bool) s s1 s2 : same_mm s s1 → same_mm s s2 → same_mm s (if b then s1 else s2).
Proof. by destruct b. Qed.
Lemma mm_refl s : same_mm s s.
Proof. by split. Qed.
End same_mm.
Create HintDb lazymm discriminated.
#[export] Hint Resolve mm_upd_task mm_upd_rq mm_upd_grq mm_if mm_refl : lazymm.
#[export] Hint Extern 1 (∀ _, _ = _) => intros; reflexivity : lazymm.

Section same_mm_ops.
Context `{Config}.
Implicit Types s : sched.
Lemma unstick_task_mm s s1 c p : same_mm s s1 → same_mm s (unstick_task c p s1).
Proof. unfold unstick_task, clear_sticky. eauto with lazymm. Qed.
Lemma set_rq_task_mm s s1 c p : same_mm s s1 → same_mm s (set_rq_task c p s1).
Proof. unfold set_rq_task. eauto with lazymm. Qed.
End same_mm_ops.
#[export] Hint Resolve unstick_task_mm set_rq_task_mm : lazymm.

Section lazy_mm.
Context `{Config}.
Implicit Types s : sched.

Definition borrows (m : Z) (t : task_struct) : Prop := mm t = NULL ∧ active_mm t = m.
#[local] Instance borrows_dec m t : Decision (borrows m t) := _.

(** The CPUs whose current task runs on a borrowed [m]. *)
Definition borrowed (s : sched) (m : Z) : Z :=
  Z.of_nat (length (filter (λ c, borrows m (task s (curr (cpu_rq s c)))) cpus)).

Lemma borrowed_split s cpu m : cpu ∈ cpus →
  borrowed s m =
    Z.of_nat (length (filter (λ c, c ≠ cpu ∧ borrows m (task s (curr (cpu_rq s c)))) cpus)) +
    (if decide (borrows m (task s (curr (cpu_rq s cpu)))) then 1 else 0).
Proof.
  intros Hc. unfold borrowed.
  rewrite (filter_split (λ c, borrows m (task s (curr (cpu_rq s c)))) cpus cpu NoDup_cpus Hc).
  case_decide; lia.
Qed.

Lemma borrowed_change s s' cpu m : cpu ∈ cpus →
  (∀ c, c ∈ cpus → c ≠ cpu → borrows m (task s' (curr (cpu_rq s' c))) ↔ borrows m (task s (curr (cpu_rq s c)))) →
  borrowed s' m - borrowed s m =
    (if decide (borrows m (task s' (curr (cpu_rq s' cpu)))) then 1 else 0) -
    (if decide (borrows m (task s (curr (cpu_rq s cpu)))) then 1 else 0).
Proof.
  intros Hc Ho. rewrite !(borrowed_split _ cpu m Hc).
  assert (length (filter (λ c, c ≠ cpu ∧ borrows m (task s' (curr (cpu_rq s' c)))) cpus) =
          length (filter (λ c, c ≠ cpu ∧ borrows m (task s (curr (cpu_rq s c)))) cpus)) as ->; [|lia].
  assert (∀ l, (∀ c, c ∈ l → c ∈ cpus) →
    length (filter (λ c, c ≠ cpu ∧ borrows m (task s' (curr (cpu_rq s' c)))) l) =
    length (filter (λ c, c ≠ cpu ∧ borrows m (task s (curr (cpu_rq s c)))) l)) as Hl; [|by apply Hl].
  induction l as [|c l IH]; [done|]. intros Hin. rewrite !filter_cons.
  specialize (Ho c (Hin c ltac:(set_solver))). specialize (IH ltac:(set_solver)).
  destruct (decide (c = cpu)) as [->|Hne]; [rewrite !(decide_False (P := _ ∧ _)) by tauto; done|].
  specialize (Ho Hne).
  destruct (decide (borrows m (task s (curr (cpu_rq s c))))) as [Hb|Hb].
  - rewrite !decide_True by tauto. simpl. lia.
  - rewrite !decide_False by tauto. done.
Qed.

Lemma mm_add_count m d s x :
  mm_count (mm_add m d s) !!! x = if decide (m = x) then s32 (mm_count s !!! x + d) else mm_count s !!! x.
Proof. unfold mm_add. simpl. rewrite mem_upd_get. by case_decide; subst. Qed.

(** What a context switch does to the counts and to the two tasks. *)
Lemma context_switch_effect cpu prev next s :
  prev ≠ next → prev_mm (cpu_rq s cpu) = NULL → active_mm (task s prev) ≠ NULL →
  let s' := context_switch cpu prev next s in
  let oldmm := active_mm (task s prev) in
  prev_mm (cpu_rq s' cpu) = NULL ∧
  (∀ x, x ≠ prev → x ≠ next → mm (task s' x) = mm (task s x) ∧ active_mm (task s' x) = active_mm (task s x)) ∧
  (mm (task s' next) = mm (task s next) ∧
   active_mm (task s' next) = if mm (task s next) =? NULL then oldmm else active_mm (task s next)) ∧
  (∀ m, s32 (mm_count s' !!! m) = s32 (mm_count s !!! m +
     (if decide (m = oldmm) then Z_of_bool (mm (task s next) =? NULL) - Z_of_bool (mm (task s prev) =? NULL)
      else 0))).
Proof.
  intros Hne Hpm Ham. cbv zeta. unfold context_switch. cbv zeta.
  set (oldmm := active_mm (task s prev)) in *.
  set (s1 := if mm (task s next) =? NULL then _ else s).
  assert (mm (task s1 prev) = mm (task s prev)) as Emm.
  { subst s1. case_if; [|done]. change (task (mm_add oldmm 1 ?x)) with (task x).
    by rewrite task_upd_task_ne. }
  set (s2 := if mm (task s1 prev) =? NULL then _ else s1).
  assert (prev_mm (cpu_rq s2 cpu) = if mm (task s prev) =? NULL then oldmm else NULL) as Epm.
  { subst s2. rewrite Emm. case_if; [by rewrite cpu_rq_upd_rq_eq|]. subst s1. by case_if. }
  assert (∀ m, mm_count s2 !!! m = mm_count s1 !!! m) as Ecnt by (intros; subst s2; by case_if).
  assert (∀ x, x ≠ prev → task s2 x = task s1 x) as Ht2.
  { intros x Hx. subst s2. case_if; [|done]. change (task (upd_rq cpu ?f ?x)) with (task x).
    by rewrite task_upd_task_ne. }
  assert (∀ x, x ≠ next → task s1 x = task s x) as Ht1.
  { intros x Hx. subst s1. case_if; [|done]. change (task (mm_add oldmm 1 ?x)) with (task x).
    by rewrite task_upd_task_ne. }
  assert (task s1 next = if mm (task s next) =? NULL then task s next <| active_mm := oldmm |> else task s next) as Htn.
  { subst s1. case_if; [|done]. change (task (mm_add oldmm 1 ?x)) with (task x). by rewrite task_upd_task_eq. }
  assert (∀ m, mm_count s1 !!! m =
    if decide (oldmm = m) then (if mm (task s next) =? NULL then s32 (mm_count s !!! m + 1) else mm_count s !!! m)
    else mm_count s !!! m) as Ec1.
  { intros m. subst s1. case_if; [rewrite mm_add_count|]; by case_decide. }
  clearbody s2. unfold finish_task_switch. cbv zeta. rewrite Epm.
  set (s3 := upd_rq cpu (λ r, r <| prev_mm := NULL |>) s2).
  set (s4 := if negb _ then _ else s3).
  assert (∀ x, task s4 x = task s2 x) as Ht4 by (intros; subst s4; by case_if).
  assert (cpu_rq s4 = cpu_rq s3) as Hr4 by (subst s4; by case_if).
  assert (∀ m, mm_count s4 !!! m = if decide (oldmm = m) then
      (if mm (task s prev) =? NULL then s32 (mm_count s2 !!! m + -1) else mm_count s2 !!! m)
    else mm_count s2 !!! m) as Ec4.
  { intros m. subst s4. destruct (mm (task s prev) =? NULL).
    - rewrite (proj2 (Z.eqb_neq _ _) Ham). cbn [negb]. rewrite mm_add_count. done.
    - change (NULL =? NULL) with true. cbn [negb]. by case_decide. }
  set (s5 := if state _ =? TASK_DEAD then _ else s4).
  assert (∀ x, mm (task s5 x) = mm (task s4 x) ∧ active_mm (task s5 x) = active_mm (task s4 x)) as Ht5.
  { intros x. subst s5. case_if; [|done]. split; by apply task_upd_proj. }
  assert (cpu_rq s5 = cpu_rq s4 ∧ mm_count s5 = mm_count s4) as [Hr5 Hc5] by (subst s5; by case_if).
  split_and!.
  - rewrite Hr5, Hr4. subst s3. by rewrite cpu_rq_upd_rq_eq.
  - intros x Hx Hx'. destruct (Ht5 x) as [-> ->]. by rewrite Ht4, Ht2, Ht1.
  - destruct (Ht5 next) as [-> _]. rewrite Ht4, Ht2, Htn by congruence. by case_if.
  - destruct (Ht5 next) as [_ ->]. rewrite Ht4, Ht2, Htn by congruence. by case_if.
  - intros m. rewrite Hc5, Ec4, Ecnt, Ec1. destruct (decide (oldmm = m)), (decide (m = oldmm)); try congruence.
    + clear. destruct (mm (task s next) =? NULL), (mm (task s prev) =? NULL); unfold Z_of_bool; wrap.
    + by rewrite Z.add_0_r.
Qed.

(** What every running task has: an address space to run on. *)
Definition mm_ok (s : sched) (p : Z) : Prop :=
  active_mm (task s p) ≠ NULL ∧ (mm (task s p) ≠ NULL → active_mm (task s p) = mm (task s p)).

(** C8. Reference counts of address spaces follow the CPUs that borrow them.
    When a CPU switches from its current task to another one, the count of
    every address space changes by exactly the change in the number of CPUs
    running on it without owning it, so a borrowed address space is never
    dropped early or leaked; the next task has an address space to run on, and
    no reference is left behind in [prev_mm]. *)
Theorem switch_mm_count (cpu next : Z) (voluntary : bool) (s : sched) :
  picked cpu next s → cpu ∈ cpus → curr (cpu_rq s cpu) ≠ next →
  prev_mm (cpu_rq s cpu) = NULL → mm_ok s (curr (cpu_rq s cpu)) →
  (mm (task s next) ≠ NULL → active_mm (task s next) = mm (task s next)) →
  let s' := switch cpu (curr (cpu_rq s cpu)) next voluntary s in
  (∀ m, s32 (mm_count s' !!! m - borrowed s' m) = s32 (mm_count s !!! m - borrowed s m)) ∧
  mm_ok s' next ∧ prev_mm (cpu_rq s' cpu) = NULL.
Proof.
  intros Hpk Hc Hne Hpm [Ham Hmm] Hnx. cbv zeta.
  pose proof (switch_ok cpu next voluntary s Hpk Hc) as (Hok' & _ & Hcur' & _ & Hcv' & _).
  set (prev := curr (cpu_rq s cpu)) in *. revert Hok' Hcur' Hcv'.
  unfold switch. rewrite (proj2 (Z.eqb_neq _ _) Hne). cbn [negb]. cbv zeta.
  set (s1 := if voluntary then _ else _).
  assert (same_mm s s1) as [Ht1 Hr1 Hc1].
  { subst s1. eauto 20 with lazymm. }
  pose proof (Hr1 cpu) as Hp1. rewrite Hpm in Hp1.
  clearbody s1.
  destruct (context_switch_effect cpu prev next s1 Hne Hp1) as (Hpm' & Hoth & [Hnm Hna] & Hcnt).
  { by rewrite (proj2 (Ht1 prev)). }
  revert Hpm' Hoth Hnm Hna Hcnt. generalize (context_switch cpu prev next s1).
  intros s' Hpm' Hoth Hnm Hna Hcnt Hok' Hcur' Hcv'.
  rewrite (proj1 (Ht1 next)) in Hnm. rewrite (proj1 (Ht1 next)), !(proj2 (Ht1 _)) in Hna.
  assert (∀ c, c ∈ cpus → c ≠ cpu → curr (cpu_rq s' c) = curr (cpu_rq s c) ∧
    curr (cpu_rq s c) ≠ prev ∧ curr (cpu_rq s c) ≠ next) as Hcpu.
  { intros c Hcc Hcn. specialize (Hcv' c Hcn). injection Hcv' as Ec _. split_and!; [done| |].
    - intros E. by pose proof (co_inj _ _ (pk_cpus _ _ _ Hpk) _ _ Hcc Hc E).
    - rewrite <- Ec, <- Hcur'. intros E. by pose proof (c_inj _ (ok_cpus _ Hok') _ _ Hcc Hc E). }
  split_and!; [| |done].
  - intros m. pose proof (borrowed_change s s' cpu m Hc) as Hb.
    specialize (Hcnt m). rewrite Hc1, (proj1 (Ht1 next)), (proj1 (Ht1 prev)), (proj2 (Ht1 prev)) in Hcnt.
    assert (borrowed s' m - borrowed s m = if decide (m = active_mm (task s prev))
      then Z_of_bool (mm (task s next) =? NULL) - Z_of_bool (mm (task s prev) =? NULL) else 0) as Hd.
    { rewrite Hb.
      - rewrite Hcur'. fold prev. unfold Z_of_bool.
        destruct (decide (borrows m (task s' next))) as [B1|B1], (decide (borrows m (task s prev))) as [B2|B2];
          unfold borrows in B1, B2; rewrite Hnm, Hna in B1; clear - B1 B2 Hnx;
          destruct (Z.eqb_spec (mm (task s next)) NULL), (Z.eqb_spec (mm (task s prev)) NULL);
          destruct (decide (m = active_mm (task s prev))); try lia; intuition congruence.
      - intros c Hcc Hcn. destruct (Hcpu c Hcc Hcn) as (-> & Hcp & Hcx). unfold borrows.
        destruct (Hoth _ Hcp Hcx) as [-> ->]. by destruct (Ht1 (curr (cpu_rq s c))) as [-> ->]. }
    rewrite <- Hd in Hcnt. clear - Hcnt. revert Hcnt. generalize (mm_count s' !!! m), (mm_count s !!! m), (borrowed s' m), (borrowed s m).
    intros a b c d. wrap.
  - split; rewrite Hna, ?Hnm; destruct (Z.eqb_spec (mm (task s next)) NULL) as [|Hn]; try done.
    by rewrite (Hnx Hn).
Qed.
End lazy_mm.

Section example.
#[local] Existing Instance sample_config.

(** CPU 2 leaves its idle task, which borrowed the address space 900, for the
    real-time task 22. *)
Lemma switch_mm_count_witness :
  let s := clear_cpuidle_map 2 (take_task 2 22 machine) in
  let s' := switch 2 12 22 false s in
  s32 (mm_count s' !!! 900 - borrowed s' 900) = s32 (5 - 2) ∧ mm_ok s' 22 ∧ prev_mm (cpu_rq s' 2) = NULL.
Proof.
  intros s s'. assert (2 ∈ cpus) as Hc by (apply machine_cpus; tauto).
  assert (picked 2 22 s) as Hpk.
  { apply picked_task; [apply off_cpu_idle; [apply machine_ok|done|reflexivity]|done|].
    apply machine_queued. tauto. }
  destruct (switch_mm_count 2 22 false s Hpk Hc) as (Hm & Hok & Hp).
  - by vm_compute.
  - reflexivity.
  - split; [by vm_compute|]. by vm_compute.
  - reflexivity.
  - split; [|split; [exact Hok|exact Hp]]. exact (Hm 900).
Defined.
End example.
