(* ===== verification/Load.v ===== *)
(** * Task counts and load averages of kernel/sched_bfs.c

    The counters exported to the rest of the kernel, [calc_load] and
    [calc_global_load].  [avenrun] and [calc_load_update] are the state [loads];
    the counters read the scheduler's state.

    The theorems: on a consistent run queue the counters are the number of
    runnable tasks; and under a constant number of active tasks each load
    average reaches a fixed value below the number of tasks and less than
    1/(2048 - exp) away from it, whatever it was before. *)

From S2P Require Export RunQueueOps.
From S2P Require Import Machine.

(** ** include/linux/sched.h, lines 135-140 *)
Definition FSHIFT : Z := 11.
Definition FIXED_1 : Z := Z.shiftl 1 FSHIFT.
Definition EXP_1 : Z := 1884.
Definition EXP_5 : Z := 2014.
Definition EXP_15 : Z := 2037.

(** include/linux/jiffies.h *)
Definition time_after (a b : Z) : bool := s64 (s64 b - s64 a) <? 0.
Definition time_before (a b : Z) : bool := time_after b a.

Record loads := mk_loads { avenrun : list Z; calc_load_update : Z }.
#[export] Instance eta_loads : Eta loads := ctor mk_loads <+> avenrun <+> calc_load_update.

Module Count.
Section count.
Context `{Config}.

Definition nr_running (s : sched) : Z :=
  let nr := s64 (SchedTypes.nr_running (grq s)) in
  u64 (if nr <? 0 then 0 else nr).

Definition nr_uninterruptible (s : sched) : Z :=
  let nu := s64 (SchedTypes.nr_uninterruptible (grq s)) in
  u64 (if nu <? 0 then 0 else nu).

Definition nr_context_switches (s : sched) : Z :=
  let ns := s64 (nr_switches (grq s)) in
  u64 (if ns <? 0 then 1 else ns).

(** Every id below [nr_cpu_ids] is a possible CPU. *)
Definition nr_iowait (s : sched) : Z :=
  foldl (λ sum i, u64 (sum + SchedTypes.nr_iowait (cpu_rq s i))) 0 (seqZ 0 nr_cpu_ids).

Definition nr_iowait_cpu (cpu : Z) (s : sched) : Z := u64 (SchedTypes.nr_iowait (cpu_rq s cpu)).

Definition nr_active (s : sched) : Z := u64 (nr_running s + nr_uninterruptible s).

(** [noc] is an [int], converted to [unsigned long] for the division. *)
Definition this_cpu_load (me : Z) (s : sched) : Z :=
  u64 (Z_of_bool (rq_running (cpu_rq s me)) +
       Z.quot (u64 (queued_notrunning s + nr_uninterruptible s)) (u64 (noc (grq s)))).

Definition above_background_load (s : sched) : bool :=
  existsb (λ cpu, negb (curr (cpu_rq s cpu) =? NULL) &&
                  (PRIO_TO_NICE (static_prio (task s (curr (cpu_rq s cpu)))) <? 1))
    (cpus_in (cpu_online_map s)).
End count.
End Count.

Section load.
Context `{Config}.

Definition LOAD_FREQ : Z := 5 * HZ + 1.

Definition get_avenrun (l : loads) (offset shift : Z) : list Z :=
  (λ a, u64 (Z.shiftl (u64 (a + offset)) shift)) <$> avenrun l.

Definition calc_load (load exp active : Z) : Z :=
  let load := u64 (load * exp) in
  let load := u64 (load + u64 (active * (FIXED_1 - exp))) in
  Z.shiftr load FSHIFT.

Definition calc_global_load (s : sched) (l : loads) : loads :=
  if time_before (jiffies s) (calc_load_update l) then l
  else
    let active := s64 (Count.nr_active s * FIXED_1) in
    l <| avenrun := [calc_load (avenrun l !!! 0%nat) EXP_1 (u64 active);
                     calc_load (avenrun l !!! 1%nat) EXP_5 (u64 active);
                     calc_load (avenrun l !!! 2%nat) EXP_15 (u64 active)] |>
      <| calc_load_update := u64 (jiffies s + LOAD_FREQ) |>.
End load.

(** ** What the counters count *)
Section counts.
Context `{Config}.
Implicit Types s : sched.

(** The exported counters are the numbers of tasks.  On a consistent run queue
    with fewer than 2^31 queued tasks, [nr_running] is the number of queued and
    running tasks, [queued_notrunning] the number of queued ones, [nr_active] adds
    the uninterruptible sleepers, and [this_cpu_load] is the CPU's own task plus
    the waiting ones divided over the online CPUs. *)
Theorem load_counts (me : Z) (s : sched) :
  runqueue_ok s → queued_count s < 0x80000000 →
  0 ≤ SchedTypes.nr_uninterruptible (grq s) < 0x80000000 → 0 < noc (grq s) < 0x80000000 →
  let waiting := queued_count s + SchedTypes.nr_uninterruptible (grq s) in
  Count.nr_running s = queued_count s + busy_count s ∧
  queued_notrunning s = queued_count s ∧
  Count.nr_active s = waiting + busy_count s ∧
  Count.this_cpu_load me s = Z_of_bool (rq_running (cpu_rq s me)) + waiting / noc (grq s).
Proof.
  intros Hok Hq Hu Hn. cbv zeta.
  pose proof (queued_count_bound s (ok_queue s Hok)) as Hqb.
  pose proof (busy_count_bound s (ok_ncpus s Hok)) as Hb.
  assert (Count.nr_running s = queued_count s + busy_count s) as E1.
  { unfold Count.nr_running. rewrite (ok_nr s Hok), s64_id by lia. cbv zeta.
    rewrite (proj2 (Z.ltb_ge _ 0)), u64_id by lia. done. }
  assert (Count.nr_uninterruptible s = SchedTypes.nr_uninterruptible (grq s)) as E2.
  { unfold Count.nr_uninterruptible. rewrite s64_id by lia. cbv zeta.
    rewrite (proj2 (Z.ltb_ge _ 0)), u64_id by lia. done. }
  assert (queued_notrunning s = queued_count s) as E3.
  { unfold queued_notrunning. rewrite (ok_qnr s Hok), s32_id by lia. done. }
  split_and!; [done|done| |].
  - unfold Count.nr_active. rewrite E1, E2, u64_id by lia. lia.
  - unfold Count.this_cpu_load. rewrite E2, E3, (u64_id (queued_count s + _)), (u64_id (noc _)) by lia.
    rewrite Z.quot_div_nonneg by lia.
    assert (0 ≤ (queued_count s + SchedTypes.nr_uninterruptible (grq s)) / noc (grq s) < 0x100000000).
    { split; [apply Z.div_pos; lia|apply Z.div_lt_upper_bound; nia]. }
    apply u64_id. destruct (rq_running _); simpl; lia.
Qed.
End counts.

(** ** Convergence *)
Section converge.
Context `{Config}.

(** One update moves the average by the rounded-down fraction of its distance. *)
Lemma calc_load_step load exp a :
  0 ≤ load < 0x4000000000000 → 0 ≤ a < 0x4000000000000 → 0 < exp < FIXED_1 →
  calc_load load exp a = load + (a - load) * (FIXED_1 - exp) / FIXED_1.
Proof.
  intros Hl Ha He. change FIXED_1 with 2048 in *. unfold calc_load. change FIXED_1 with 2048.
  rewrite (u64_id (load * exp)), (u64_id (a * _)), u64_id by nia.
  rewrite Z.shiftr_div_pow2 by (vm_compute; congruence). change (2 ^ FSHIFT) with 2048.
  replace (load * exp + a * (2048 - exp)) with ((a - load) * (2048 - exp) + load * 2048) by lia.
  rewrite Z.div_add by lia. lia.
Qed.

(** The value at which an average rests. *)
Definition rests (exp a load : Z) : Prop :=
  load ≤ a ∧ (a - load) * (FIXED_1 - exp) < FIXED_1.

Lemma calc_load_closer load exp a :
  0 ≤ load < 0x4000000000000 → 0 ≤ a < 0x4000000000000 → 0 < exp < FIXED_1 →
  let load' := calc_load load exp a in
  0 ≤ load' < 0x4000000000000 ∧ (rests exp a load → load' = load) ∧
  (rests exp a load ∨ Z.abs (a - load') < Z.abs (a - load)).
Proof.
  intros Hl Ha He. cbv zeta. rewrite calc_load_step by done. unfold rests.
  change FIXED_1 with 2048 in *.
  pose proof (Z.div_mod ((a - load) * (2048 - exp)) 2048 ltac:(lia)) as Ed.
  pose proof (Z.mod_pos_bound ((a - load) * (2048 - exp)) 2048 ltac:(lia)) as Hm.
  set (q := _ / 2048) in *. set (r := _ mod 2048) in *.
  split_and!; [nia|nia|nia|].
  destruct (decide (load ≤ a ∧ (a - load) * (2048 - exp) < 2048)); [by left|right]. nia.
Qed.

Lemma calc_load_iter exp a : 0 ≤ a < 0x4000000000000 → 0 < exp < FIXED_1 →
  ∀ (k : nat) load, 0 ≤ load < 0x4000000000000 → Z.abs (a - load) ≤ Z.of_nat k →
  let load' := Nat.iter k (λ l, calc_load l exp a) load in
  0 ≤ load' < 0x4000000000000 ∧ rests exp a load'.
Proof.
  intros Ha He k. induction k as [|k IH]; intros load Hl Hk; cbv zeta.
  - simpl. unfold rests. change FIXED_1 with 2048 in *. nia.
  - rewrite Nat.iter_succ_r. destruct (calc_load_closer load exp a Hl Ha He) as (Hr & Hfix & [Hs|Hd]).
    + rewrite (Hfix Hs). clear Hk IH.
      assert (∀ k, Nat.iter k (λ l, calc_load l exp a) load = load) as ->.
      { intros j. induction j as [|j IHj]; [done|]. simpl. by rewrite IHj, Hfix. }
      done.
    + apply IH; [done|lia].
Qed.

(** The averages after calls in the scheduler states [ss], and how many of the
    calls were due. *)
Definition loads_after (ss : list sched) (l : loads) : loads := foldl (λ l s, calc_global_load s l) l ss.
Fixpoint due (ss : list sched) (l : loads) : nat :=
  match ss with
  | [] => 0
  | s :: ss => (if time_before (jiffies s) (calc_load_update l) then 0 else 1)
               + due ss (calc_global_load s l)
  end%nat.

Definition three (l : loads) : list Z := [avenrun l !!! 0%nat; avenrun l !!! 1%nat; avenrun l !!! 2%nat].

Lemma loads_after_iter n ss l :
  0 ≤ n < 0x4000000000 → Forall (λ s, Count.nr_active s = n) ss → length (avenrun l) = 3%nat →
  avenrun (loads_after ss l) =
    zip_with (λ e v, Nat.iter (due ss l) (λ v, calc_load v e (n * FIXED_1)) v) [EXP_1; EXP_5; EXP_15] (avenrun l).
Proof.
  intros Hn Hss. revert l. induction Hss as [|s ss Es Hss IH]; intros l Hlen.
  - destruct l as [[|a [|b [|c []]]] u]; done.
  - unfold loads_after. cbn [foldl due]. fold (loads_after ss (calc_global_load s l)).
    destruct l as [[|a [|b [|c []]]] u]; try done. rewrite IH.
    + unfold calc_global_load. cbn [calc_load_update avenrun]. rewrite Es.
      assert (u64 (s64 (n * FIXED_1)) = n * FIXED_1) as ->
        by (change FIXED_1 with 2048; rewrite s64_id, u64_id by lia; done).
      destruct (time_before _ _); [done|]. unfold update.
      cbn [zip_with avenrun]. change (1 + ?k)%nat with (S k). by rewrite !Nat.iter_succ_r.
    + unfold calc_global_load. by destruct (time_before _ _).
Qed.
(** C37. Load averages settle.  While [n] tasks are active, and once as many updates
    were due as an average is units of 1/2048 away from [n], the average is at a
    value that further updates do not change: at most [n], and below it by at
    most [FIXED_1 / (FIXED_1 - exp)] units, which is 12, 60 and 186 units for the
    1, 5 and 15 minute averages.  Calls between the updates change nothing. *)
Theorem load_average_settles (n : Z) (ss : list sched) (l : loads) :
  0 ≤ n < 0x4000000000 → Forall (λ s, Count.nr_active s = n) ss → length (avenrun l) = 3%nat →
  Forall (λ v, 0 ≤ v < 0x4000000000000 ∧ Z.abs (n * FIXED_1 - v) ≤ Z.of_nat (due ss l)) (avenrun l) →
  Forall2 (λ e v, rests e (n * FIXED_1) v ∧ calc_load v e (n * FIXED_1) = v ∧
                  n * FIXED_1 - FIXED_1 / (FIXED_1 - e) - 1 < v ≤ n * FIXED_1)
    [EXP_1; EXP_5; EXP_15] (avenrun (loads_after ss l)).
Proof.
  intros Hn Hss Hlen Hv. rewrite (loads_after_iter n) by done. set (k := due ss l) in *. clearbody k.
  destruct l as [[|a [|b [|c []]]] u]; try done. cbn [avenrun zip_with] in *.
  assert (0 ≤ n * FIXED_1 < 0x4000000000000) as Ha by (change FIXED_1 with 2048; lia).
  assert (∀ e v, 0 < e < FIXED_1 → 0 ≤ v < 0x4000000000000 ∧ Z.abs (n * FIXED_1 - v) ≤ Z.of_nat k →
    let w := Nat.iter k (λ v, calc_load v e (n * FIXED_1)) v in
    rests e (n * FIXED_1) w ∧ calc_load w e (n * FIXED_1) = w ∧
    n * FIXED_1 - FIXED_1 / (FIXED_1 - e) - 1 < w ≤ n * FIXED_1) as Hone.
  { intros e v He [Hv1 Hv2] w. destruct (calc_load_iter e _ Ha He k v Hv1 Hv2) as [Hw Hr]. fold w in Hw, Hr.
    split_and!; [done|by apply calc_load_closer| |apply Hr].
    destruct Hr as [Hr1 Hr2]. assert (n * FIXED_1 - w ≤ FIXED_1 / (FIXED_1 - e)); [|lia].
    apply Z.div_le_lower_bound; lia. }
  rewrite !Forall_cons in Hv. destruct Hv as (H1 & H2 & H3 & _).
  repeat constructor; apply Hone; done || (vm_compute; split; congruence).
Qed.
End converge.

Section load_examples.
#[local] Existing Instance sample_config.

Lemma load_counts_witness : Count.nr_active machine = 5 ∧ Count.this_cpu_load 0 machine = 1.
Proof.
  destruct (load_counts 0 machine machine_ok) as (_ & _ & E1 & E2);
    [by vm_compute|by vm_compute|by vm_compute|].
  rewrite E1, E2. split; vm_compute; reflexivity.
Defined.

(** The averages of five active tasks, slightly off, after two updates. *)
Definition off_loads : loads := mk_loads [10241; 10238; 10239] 0.
Definition two_updates : list sched := [machine; machine <| jiffies := 2000 |>].

Lemma load_average_settles_witness :
  Forall2 (λ e v, rests e 10240 v ∧ calc_load v e 10240 = v ∧ 10240 - FIXED_1 / (FIXED_1 - e) - 1 < v ≤ 10240)
    [EXP_1; EXP_5; EXP_15] (avenrun (loads_after two_updates off_loads)).
Proof.
  apply (load_average_settles 5).
  - lia.
  - repeat constructor; vm_compute; reflexivity.
  - reflexivity.
  - repeat constructor; vm_compute; congruence.
Defined.
End load_examples.
