(* ===== verification/Policy.v ===== *)
(** * Changing policy and priority: kernel/sched_bfs.c

    [rt_mutex_setprio], [set_user_nice] and the nice system call, [task_prio],
    [__sched_setscheduler] and the system calls around it.

    The checks of [__sched_setscheduler] run before the run queue lock is taken,
    so other CPUs may change the state in between: [env] lists what they do, one
    transition per attempt, and after the last one nothing interferes any more.

    Credentials, capabilities, resource limits, the security module, the lookup
    of processes and the priority-inheritance chain belong to other parts of the
    kernel and are the class [PolicyEnv].

    The theorems: every operation keeps the run queue invariant, under any
    interference that does; a refused request changes nothing and an accepted one
    installs the requested policy and priority; without CAP_SYS_NICE no request
    gains priority beyond the resource limit; user-visible priorities stay in
    their documented range. *)

From S2P Require Export KTime ScheduleInv.
From S2P Require Import Machine.

Record cred := mk_cred { user_ns : Z; cr_uid : Z; cr_euid : Z }.

Class PolicyEnv := {
  capable_sys_nice : bool;                   (* capable(CAP_SYS_NICE) *)
  lock_task_sighand : Z → bool;
  rlimit_rtprio : Z → Z;                     (* task_rlimit(p, RLIMIT_RTPRIO) *)
  rlimit_nice : Z → Z;                       (* task_rlimit(p, RLIMIT_NICE) *)
  current_cred : cred;
  task_cred : Z → cred;
  security_task_setscheduler : Z → Z;
  security_task_getscheduler : Z → Z;
  security_task_setnice : Z → Z → Z;
  top_pi_waiter : Z → option Z;              (* the priority of the top waiter *)
  rt_mutex_adjust_pi : Z → sched → sched;
  find_task_by_vpid : Z → Z;
  copy_param_from_user : Z → option Z;       (* sched_param at a user address *)
  copy_to_user_ok : Z → bool;
}.

Section policy.
Context `{Config} `{PolicyEnv}.

(** ** Priority inheritance *)

(** kernel/rtmutex.c *)
Definition rt_mutex_getprio (p : Z) (t : task_struct) : Z :=
  match top_pi_waiter p with
  | None => normal_prio t
  | Some w => Z.min w (normal_prio t)
  end.

(** [BUG_ON] stops the machine: [None]. *)
Definition rt_mutex_setprio (me p new_prio : Z) (s : sched) : option sched :=
  if (new_prio <? 0) || (MAX_PRIO <? new_prio) then None
  else
    let rqcpu := task_cpu (task s p) in
    let oldprio := prio (task s p) in
    let queued := task_queued p s in
    let s := if queued then dequeue_task p s else s in
    let s := upd_task p (λ t, t <| prio := new_prio |>) s in
    let s := if task_running p s && (oldprio <? new_prio) then resched_task me p s else s in
    Some (if queued then try_preempt me p rqcpu (enqueue_task p s) else s).

(** ** Nice levels *)
Definition adjust_deadline (p new_prio : Z) (s : sched) : sched :=
  upd_task p (λ t, t <| deadline := u64 (deadline t + (static_deadline_diff s new_prio - task_deadline_diff s t)) |>) s.

(** [time_task_grq_lock] updates the clocks of the task's CPU. *)
Definition set_user_nice (me p nice : Z) (s : sched) : sched :=
  if (TASK_NICE (task s p) =? nice) || (nice <? -20) || (19 <? nice) then s
  else
    let new_static := NICE_TO_PRIO nice in
    let rqcpu := task_cpu (task s p) in
    let s := update_clocks rqcpu s in
    if has_rt_policy (task s p) then upd_task p (λ t, t <| static_prio := new_static |>) s
    else
      let queued := task_queued p s in
      let s := if queued then dequeue_task p s else s in
      let s := adjust_deadline p new_static s in
      let old_static := static_prio (task s p) in
      let s := upd_task p (λ t, t <| static_prio := new_static |>) s in
      let '(pr, s) := effective_prio p s in
      let s := upd_task p (λ t, t <| prio := pr |>) s in
      if queued then
        let s := enqueue_task p s in
        if new_static <? old_static then try_preempt me p rqcpu s else s
      else if task_running p s then
        let s := reset_rq_task rqcpu p s in
        if old_static <? new_static then resched_task me p s else s
      else s.

Definition can_nice (p nice : Z) : bool :=
  let nice_rlim := s32 (20 - nice) in
  (u64 nice_rlim <=? rlimit_nice p) || capable_sys_nice.

Definition sys_nice (me increment : Z) (s : sched) : Z * sched :=
  let current := curr (cpu_rq s me) in
  let increment := if increment <? -40 then -40 else increment in
  let increment := if 40 <? increment then 40 else increment in
  let nice := TASK_NICE (task s current) + increment in
  let nice := if nice <? -20 then -20 else nice in
  let nice := if 19 <? nice then 19 else nice in
  if (increment <? 0) && negb (can_nice current nice) then (- EPERM, s)
  else
    let retval := security_task_setnice current nice in
    if negb (retval =? 0) then (retval, s) else (0, set_user_nice me current nice s).

(** The priority shown to users. *)
Definition task_prio (s : sched) (p : task_struct) : Z :=
  let pr := prio p - MAX_RT_PRIO in
  if pr <=? 0 then pr
  else
    let delta := s32 (NS_TO_MS (u64 (deadline p - niffies (grq s)))) in
    let delta := Z.quot (s32 (delta * 40)) (ms_longest_deadline_diff s) in
    let pr := if (0 <? delta) && (delta <=? 80) then pr + delta else pr in
    if idleprio_task p then pr + 40 else pr.

Definition task_nice (p : task_struct) : Z := TASK_NICE p.
Definition idle_cpu (s : sched) (cpu : Z) : bool := curr (cpu_rq s cpu) =? idle (cpu_rq s cpu).
Definition find_process_by_pid (me pid : Z) (s : sched) : Z :=
  if negb (pid =? 0) then find_task_by_vpid pid else curr (cpu_rq s me).

(** ** Policies *)
Definition __setscheduler (me p rqcpu pol pr : Z) (s : sched) : sched :=
  let oldrtprio := rt_priority (task s p) in
  let oldprio := prio (task s p) in
  let s := upd_task p (λ t, t <| policy := pol |> <| rt_priority := pr |>) s in
  let s := upd_task p (λ t, t <| normal_prio := normal_prio_of t |>) s in
  let s := upd_task p (λ t, t <| prio := rt_mutex_getprio p t |>) s in
  if task_running p s then
    let s := reset_rq_task rqcpu p s in
    if (oldprio <? prio (task s p)) || (oldrtprio <? rt_priority (task s p)) then resched_task me p s else s
  else s.

Definition check_same_owner (p : Z) : bool :=
  let cred := current_cred in
  let pcred := task_cred p in
  if user_ns cred =? user_ns pcred
  then (cr_euid cred =? cr_euid pcred) || (cr_euid cred =? cr_uid pcred)
  else false.

(** Lines 4319-4335: the policy and priority to check, or an error. *)
Definition downgrade_rt (p pol pr : Z) : Z + (Z * Z) :=
  if is_rt_policy pol && negb capable_sys_nice then
    if negb (lock_task_sighand p) then inl (- ESRCH)
    else if negb (rlimit_rtprio p =? 0) then inr (pol, pr)
    else inr (SCHED_ISO, 0)
  else inr (pol, pr).

(** Lines 4338-4347: policy, [oldpolicy] and [reset_on_fork]. *)
Definition decode_policy (t : task_struct) (pol : Z) : Z + (Z * Z * bool) :=
  if pol <? 0 then inr (policy t, policy t, sched_reset_on_fork t)
  else
    let reset := negb (Z.land pol SCHED_RESET_ON_FORK =? 0) in
    let pol := Z.land pol (Z.lnot SCHED_RESET_ON_FORK) in
    if negb (SCHED_RANGE pol) then inl (- EINVAL) else inr (pol, -1, reset).

(** Lines 4354-4359. *)
Definition bad_priority (t : task_struct) (pol pr : Z) : bool :=
  (pr <? 0) || (negb (mm t =? NULL) && (MAX_USER_RT_PRIO - 1 <? pr)) ||
  ((mm t =? NULL) && (MAX_RT_PRIO - 1 <? pr)) ||
  negb (eqb (is_rt_policy pol) (negb (pr =? 0))).

(** Lines 4364-4411: [Some ret] when the function returns [ret] at once. *)
Definition unprivileged_checks (p : Z) (t : task_struct) (pol pr : Z) (reset : bool) : option Z :=
  let owner :=
    if negb (check_same_owner p) then Some (- EPERM)
    else if sched_reset_on_fork t && negb reset then Some (- EPERM)
    else None in
  if is_rt_policy pol then
    if negb (pol =? policy t) && (rlimit_rtprio p =? 0) then Some (- EPERM)
    else if (rt_priority t <? pr) && (rlimit_rtprio p <? pr) then Some (- EPERM)
    else owner
  else if policy t =? SCHED_ISO then
    if pol =? SCHED_ISO then Some 0
    else if pol =? SCHED_NORMAL then Some (- EPERM) else owner
  else if policy t =? SCHED_BATCH then
    if pol =? SCHED_BATCH then Some 0
    else if negb (pol =? SCHED_IDLEPRIO) then Some (- EPERM) else owner
  else if policy t =? SCHED_IDLEPRIO then
    if pol =? SCHED_IDLEPRIO then Some 0 else Some (- EPERM)
  else owner.

(** Lines 4336-4417, without the run queue lock. *)
Definition setscheduler_checks (p pol pr : Z) (user : bool) (s : sched) : Z + (Z * Z * bool) :=
  let t := task s p in
  match decode_policy t pol with
  | inl err => inl err
  | inr (pol, oldpolicy, reset) =>
      if bad_priority t pol pr then inl (- EINVAL)
      else
        match (if user && negb capable_sys_nice then unprivileged_checks p t pol pr reset else None) with
        | Some ret => inl ret
        | None =>
            let retval := if user then security_task_setscheduler p else 0 in
            if negb (retval =? 0) then inl retval else inr (pol, oldpolicy, reset)
        end
  end.

(** Lines 4428-4471, with the lock held; [None] asks for a recheck. *)
Definition setscheduler_locked (me p pol oldpolicy : Z) (reset : bool) (pr : Z) (s : sched) :
    option (Z * sched) :=
  let rqcpu := task_cpu (task s p) in
  if p =? stop (cpu_rq s rqcpu) then Some (- EINVAL, s)
  else if (pol =? policy (task s p)) &&
          (negb (is_rt_policy pol) || (pr =? rt_priority (task s p))) then Some (0, s)
  else if negb (oldpolicy =? -1) && negb (oldpolicy =? policy (task s p)) then None
  else
    let s := update_clocks rqcpu s in
    let s := upd_task p (λ t, t <| sched_reset_on_fork := reset |>) s in
    let queued := task_queued p s in
    let s := if queued then dequeue_task p s else s in
    let s := __setscheduler me p rqcpu pol pr s in
    let s := if queued then try_preempt me p rqcpu (enqueue_task p s) else s in
    Some (0, rt_mutex_adjust_pi p s).

(** From the label [recheck] on.  With nothing left to interfere the policy read by
    the checks is still the task's, so the last branch is not reached. *)
Fixpoint recheck (env : list (sched → sched)) (me p pol pr : Z) (user : bool) (s : sched) : Z * sched :=
  match setscheduler_checks p pol pr user s with
  | inl ret => (ret, s)
  | inr (pol, oldpolicy, reset) =>
      match env with
      | [] => default (0, s) (setscheduler_locked me p pol oldpolicy reset pr s)
      | f :: env =>
          let s := f s in
          match setscheduler_locked me p pol oldpolicy reset pr s with
          | Some r => r
          | None => recheck env me p (-1) pr user s
          end
      end
  end.

Definition __sched_setscheduler (env : list (sched → sched)) (me p pol pr : Z) (user : bool) (s : sched) :
    Z * sched :=
  match downgrade_rt p pol pr with
  | inl err => (err, s)
  | inr (pol, pr) => recheck env me p pol pr user s
  end.

Definition sched_setscheduler (env : list (sched → sched)) (me p pol pr : Z) (s : sched) : Z * sched :=
  __sched_setscheduler env me p pol pr true s.
Definition sched_setscheduler_nocheck (env : list (sched → sched)) (me p pol pr : Z) (s : sched) : Z * sched :=
  __sched_setscheduler env me p pol pr false s.

(** ** System calls *)
Definition do_sched_setscheduler (env : list (sched → sched)) (me pid pol param : Z) (s : sched) : Z * sched :=
  if (param =? NULL) || (pid <? 0) then (- EINVAL, s)
  else
    match copy_param_from_user param with
    | None => (- EFAULT, s)
    | Some sched_priority =>
        let p := find_process_by_pid me pid s in
        if p =? NULL then (- ESRCH, s) else sched_setscheduler env me p pol sched_priority s
    end.

Definition sys_sched_setscheduler (env : list (sched → sched)) (me pid pol param : Z) (s : sched) : Z * sched :=
  if pol <? 0 then (- EINVAL, s) else do_sched_setscheduler env me pid pol param s.

Definition sys_sched_setparam (env : list (sched → sched)) (me pid param : Z) (s : sched) : Z * sched :=
  do_sched_setscheduler env me pid (-1) param s.

Definition sys_sched_getscheduler (me pid : Z) (s : sched) : Z :=
  if pid <? 0 then - EINVAL
  else
    let p := find_process_by_pid me pid s in
    if p =? NULL then - ESRCH
    else
      let retval := security_task_getscheduler p in
      if retval =? 0 then policy (task s p) else retval.

(** The result, and the parameter written to user space. *)
Definition sys_sched_getparam (me pid param : Z) (s : sched) : Z * option Z :=
  if (param =? NULL) || (pid <? 0) then (- EINVAL, None)
  else
    let p := find_process_by_pid me pid s in
    if p =? NULL then (- ESRCH, None)
    else
      let retval := security_task_getscheduler p in
      if negb (retval =? 0) then (retval, None)
      else if copy_to_user_ok param then (0, Some (rt_priority (task s p))) else (- EFAULT, None).

Definition sys_sched_get_priority_max (pol : Z) : Z :=
  if (pol =? SCHED_FIFO) || (pol =? SCHED_RR) then MAX_USER_RT_PRIO - 1
  else if (pol =? SCHED_NORMAL) || (pol =? SCHED_BATCH) || (pol =? SCHED_ISO) || (pol =? SCHED_IDLEPRIO)
  then 0 else - EINVAL.

Definition sys_sched_get_priority_min (pol : Z) : Z :=
  if (pol =? SCHED_FIFO) || (pol =? SCHED_RR) then 1
  else if (pol =? SCHED_NORMAL) || (pol =? SCHED_BATCH) || (pol =? SCHED_ISO) || (pol =? SCHED_IDLEPRIO)
  then 0 else - EINVAL.

Definition sys_sched_rr_get_interval (me pid interval : Z) (s : sched) : Z * option timespec :=
  if pid <? 0 then (- EINVAL, None)
  else
    let p := find_process_by_pid me pid s in
    if p =? NULL then (- ESRCH, None)
    else
      let retval := security_task_getscheduler p in
      if negb (retval =? 0) then (retval, None)
      else
        let time_slice :=
          if policy (task s p) =? SCHED_FIFO then 0 else u32 (MS_TO_NS (task_timeslice s (task s p))) in
        let t := ns_to_timespec time_slice in
        if copy_to_user_ok interval then (0, Some t) else (- EFAULT, None).

(** ** Yielding *)

(** [requeue_task] only updates statistics.  [fuel] bounds the passes of
    [schedule]. *)
Definition sys_sched_yield (fuel : nat) (me : Z) (s : sched) : option sched := schedule fuel me s.

Definition yield (fuel : nat) (me : Z) (s : sched) : option sched :=
  sys_sched_yield fuel me (upd_task (curr (cpu_rq s me)) (λ t, t <| state := TASK_RUNNING |>) s).

(** The part of [yield_to] under the lock. *)
Definition yield_to_boost (me p : Z) (s : sched) : bool * sched :=
  let rq := cpu_rq s me in
  if task_running p s || negb (state (task s p) =? 0) then (false, s)
  else
    let s := if rq_deadline rq <? deadline (task s p)
             then upd_task p (λ t, t <| deadline := rq_deadline rq |>) s else s in
    let s := upd_task p (λ t, t <| time_slice ::= λ n, s32 (n + rq_time_slice rq) |>) s in
    let s := upd_rq me (λ r, r <| rq_time_slice := 0 |>) s in
    let s := if timeslice s <? time_slice (task s p)
             then upd_task p (λ t, t <| time_slice := timeslice s |>) s else s in
    (true, upd_task (curr (cpu_rq s me)) (λ t, t <| need_resched := true |>) s).

Definition yield_to (fuel : nat) (me p : Z) (s : sched) : option (bool * sched) :=
  let '(yielded, s) := yield_to_boost me p s in
  if yielded then (λ s, (yielded, s)) <$> schedule fuel me s else Some (yielded, s).
End policy.

(** ** The invariant *)
Section keeps.
Context `{Config} `{PolicyEnv}.
Implicit Types s : sched.

(** The common shape: off the queue, change the task, back on the queue. *)
Lemma change_task_ok p s s1 :
  runqueue_ok s → same_but p (if task_queued p s then dequeue_task p s else s) s1 →
  on_cpu (task s1 p) = on_cpu (task s p) →
  (queued s p ∨ on_cpu (task s p) = true ∧ ¬ is_idle s p → task_ok (task s1 p)) →
  let s2 := if task_queued p s then enqueue_task p s1 else s1 in
  runqueue_ok s2 ∧ (∀ x, queued s2 x ↔ queued s x).
Proof.
  intros Hok Hsb Hon Ht. cbv zeta. destruct (task_queued p s) eqn:Eq.
  - apply task_queued_spec in Eq; [|apply Hok]. apply requeue_ok; auto.
    rewrite Hon. by apply Hok.
  - apply not_queued_b in Eq; [|apply Hok]. apply (runqueue_ok_task p); auto.
Qed.

Lemma reset_rq_task_core s s1 c p : same_core s s1 → same_core s (reset_rq_task c p s1).
Proof. intros. by apply core_rq. Qed.

Lemma rt_mutex_setprio_ok me p pr s :
  runqueue_ok s →
  match rt_mutex_setprio me p pr s with
  | Some s' => runqueue_ok s' ∧ (∀ x, queued s' x ↔ queued s x)
  | None => pr < 0 ∨ MAX_PRIO < pr
  end.
Proof.
  intros Hok. unfold rt_mutex_setprio.
  destruct (Z.ltb_spec pr 0) as [|Hp0]; [by left|]. destruct (Z.ltb_spec MAX_PRIO pr) as [|Hpm]; [by right|].
  cbn [orb]. cbv zeta. set (s0 := if task_queued p s then dequeue_task p s else s).
  assert (∀ x, task s0 x = task s x) as T0 by (intros x; unfold s0; case_if; [apply task_dequeue|done]).
  set (s1 := upd_task p _ s0). set (s2 := if task_running p s1 && _ then resched_task me p s1 else s1).
  assert (same_core s1 s2) as Hc by (unfold s2; frame).
  destruct (change_task_ok p s s2 Hok) as [Hok2 Hiff].
  { apply (but_core _ _ s1); [done|]. apply but_task_self, same_but_refl. }
  { destruct (core_tasks_eq _ _ p Hc) as (_ & _ & _ & ->). unfold s1. by rewrite task_upd_task_eq; simpl; rewrite T0. }
  { intros Hin. pose proof (ok_tasks s Hok p Hin) as (_ & ? & ?).
    destruct (core_tasks_eq _ _ p Hc) as (E1 & E2 & E3 & _). unfold task_ok. rewrite E1, E2, E3. unfold s1.
    rewrite task_upd_task_eq. simpl. by rewrite T0. }
  cbv zeta in Hok2, Hiff. destruct (task_queued p s); [|done].
  assert (same_core (enqueue_task p s2) (try_preempt me p (task_cpu (task s p)) (enqueue_task p s2))) as Hc2 by frame.
  split; [by rewrite <- Hc2|]. intros x. by rewrite <- Hc2.
Qed.

(** Fields that only the operations of this file change. *)
Definition pview (t : task_struct) : Z * Z * bool * Z * Z :=
  (policy t, static_prio t, sched_reset_on_fork t, deadline t, mm t).
#[export] Instance pview_quiet : Quiet pview.
Proof. by split. Qed.

(** The same with the real-time priority. *)
Definition rtview (t : task_struct) : Z * Z * bool * Z * Z * Z := (pview t, rt_priority t).
#[export] Instance rtview_quiet : Quiet rtview.
Proof. by split. Qed.

Lemma pol_dequeue {B} (φ : task_struct → B) s s1 p : keeps φ s s1 → keeps φ s (dequeue_task p s1).
Proof. intros Hs x. by rewrite task_dequeue. Qed.
Lemma pol_reset {B} (φ : task_struct → B) s s1 c p : keeps φ s s1 → keeps φ s (reset_rq_task c p s1).
Proof. by apply keeps_tasks. Qed.
End keeps.
Create HintDb policy discriminated.
#[export] Hint Resolve pview_quiet rtview_quiet keeps_refl keeps_if keeps_clocks pol_dequeue pol_reset keeps_resched keeps_enqueue keeps_preempt : policy.
#[export] Hint Resolve reset_rq_task_core : frame.

(** ** Nice levels *)
Section nice.
Context `{Config} `{PolicyEnv}.
Implicit Types s : sched.

Lemma resched_task_sets me p s : need_resched (task (resched_task me p s) p) = true.
Proof.
  unfold resched_task. destruct (need_resched (task s p)) eqn:E; [done|]. cbv zeta.
  set (s1 := upd_task p _ s). assert (need_resched (task s1 p) = true) by (unfold s1; by rewrite task_upd_task_eq).
  by repeat case_if.
Qed.

(** The change of the task's own fields. *)
Definition renice s new_static (t : task_struct) : task_struct :=
  let t := t <| deadline := u64 (deadline t + (static_deadline_diff s new_static - task_deadline_diff s t)) |> in
  set_prios (t <| static_prio := new_static |>).

Lemma renice_steps p new_static s :
  let s4 := upd_task p (λ t, t <| static_prio := new_static |>) (adjust_deadline p new_static s) in
  let '(pr, s5) := effective_prio p s4 in
  ∀ x, task (upd_task p (λ t, t <| prio := pr |>) s5) x = if decide (p = x) then renice s new_static (task s p) else task s x.
Proof.
  cbv zeta. set (s4 := upd_task _ _ _). pose proof (effective_prio_spec p s4) as He.
  destruct (effective_prio p s4) as [pr s5]. destruct He as [-> ->]. intros x.
  rewrite !task_upd_task. case_decide as E; [|unfold s4, adjust_deadline; rewrite !task_upd_task; by case_decide].
  subst x. rewrite decide_True by done. unfold s4, adjust_deadline. rewrite !task_upd_task_eq. done.
Qed.

(** The locked part for a task that is not real-time, from state [s] with the
    clocks up to date. *)
Lemma set_user_nice_body me p nice s :
  let c := task_cpu (task s p) in
  TASK_NICE (task s p) ≠ nice → -20 ≤ nice ≤ 19 → has_rt_policy (task (update_clocks c s) p) = false →
  ∃ s1 s6, s1 = update_clocks c s ∧
    same_but p (if task_queued p s1 then dequeue_task p s1 else s1) s6 ∧
    (∀ x, task s6 x = if decide (p = x) then renice s1 (NICE_TO_PRIO nice) (task s1 p) else task s1 x) ∧
    set_user_nice me p nice s =
      (let old := static_prio (task s1 p) in
       let s7 := if task_queued p s1 then enqueue_task p s6 else s6 in
       if task_queued p s1 then if NICE_TO_PRIO nice <? old then try_preempt me p c s7 else s7
       else if task_running p s7 then
         let s8 := reset_rq_task c p s7 in if old <? NICE_TO_PRIO nice then resched_task me p s8 else s8
       else s7).
Proof.
  cbv zeta. intros Hne Hn Hrt. unfold set_user_nice.
  rewrite (proj2 (Z.eqb_neq _ _) Hne), (proj2 (Z.ltb_ge nice (-20))), (proj2 (Z.ltb_ge 19 nice)) by lia.
  cbn [orb]. cbv zeta. rewrite Hrt. set (c := task_cpu (task s p)). set (s1 := update_clocks c s). clearbody s1.
  set (s2 := if task_queued p s1 then dequeue_task p s1 else s1).
  assert (∀ x, task s2 x = task s1 x) as T2 by (intros x; unfold s2; case_if; [apply task_dequeue|done]).
  assert (static_deadline_diff s2 (NICE_TO_PRIO nice) = static_deadline_diff s1 (NICE_TO_PRIO nice)) as D2.
  { unfold s2, dequeue_task. by repeat case_if. }
  assert (∀ t, task_deadline_diff s2 t = task_deadline_diff s1 t) as D3.
  { intros t. unfold s2, dequeue_task. by repeat case_if. }
  pose proof (renice_steps p (NICE_TO_PRIO nice) s2) as Hr. cbv zeta in Hr.
  assert (static_prio (task (adjust_deadline p (NICE_TO_PRIO nice) s2) p) = static_prio (task s1 p)) as ->.
  { unfold adjust_deadline. rewrite task_upd_task_eq. simpl. by rewrite T2. }
  set (s4 := upd_task p _ (adjust_deadline p _ s2)) in *.
  pose proof (effective_prio_spec p s4) as He.
  destruct (effective_prio p s4) as [pr s5]. destruct He as [-> ->].
  set (s6 := upd_task p _ (upd_task p _ s4)) in *.
  exists s1, s6. split_and!; [done| | |].
  - unfold s6, s4, adjust_deadline. repeat apply but_task_self. apply same_but_refl.
  - intros x. rewrite Hr. case_decide; [|apply T2]. unfold renice. by rewrite D2, T2, D3.
  - by destruct (task_queued p s1).
Qed.

(** What [set_user_nice] leaves behind when it does something. *)
Definition reniced p nice s s' : Prop :=
  runqueue_ok s' ∧ (∀ x, queued s' x ↔ queued s x) ∧
  TASK_NICE (task s' p) = nice ∧ policy (task s' p) = policy (task s p) ∧
  (∀ x, x ≠ p → pview (task s' x) = pview (task s x)).

Lemma set_user_nice_rt me p nice s :
  runqueue_ok s → TASK_NICE (task s p) ≠ nice → -20 ≤ nice ≤ 19 → has_rt_policy (task s p) = true →
  let s' := set_user_nice me p nice s in
  reniced p nice s s' ∧ deadline (task s' p) = deadline (task s p).
Proof.
  intros Hok Hne Hn Hrt. cbv zeta. set (c := task_cpu (task s p)).
  assert (task (update_clocks c s) = task s) as T1 by done.
  assert (set_user_nice me p nice s = upd_task p (λ t, t <| static_prio := NICE_TO_PRIO nice |>) (update_clocks c s)) as ->.
  { unfold set_user_nice. rewrite (proj2 (Z.eqb_neq _ _) Hne), (proj2 (Z.ltb_ge nice (-20))),
      (proj2 (Z.ltb_ge 19 nice)) by lia. cbn [orb]. cbv zeta. fold c. by rewrite T1, Hrt. }
  set (s2 := upd_task p _ _). assert (same_core s s2) as Hc2 by frame.
  unfold reniced. split_and!.
  - by rewrite <- Hc2.
  - intros x. by rewrite <- Hc2.
  - unfold s2, TASK_NICE, PRIO_TO_NICE, NICE_TO_PRIO. rewrite task_upd_task_eq. simpl. lia.
  - unfold s2. by rewrite task_upd_task_eq.
  - intros x Hx. unfold s2. by rewrite task_upd_task_ne.
  - unfold s2. by rewrite task_upd_task_eq.
Qed.

Lemma set_user_nice_normal me p nice s :
  runqueue_ok s → TASK_NICE (task s p) ≠ nice → -20 ≤ nice ≤ 19 → has_rt_policy (task s p) = false →
  let s' := set_user_nice me p nice s in
  reniced p nice s s' ∧
  deadline (task s' p) = u64 (deadline (task s p) + (prio_deadline_diff s (nice + 20) -
                                                     prio_deadline_diff s (TASK_NICE (task s p) + 20))) ∧
  (on_cpu (task s p) = true → TASK_NICE (task s p) < nice → need_resched (task s' p) = true).
Proof.
  intros Hok Hne Hn Hrt. cbv zeta. set (c := task_cpu (task s p)).
  assert (same_core s (update_clocks c s)) as Hc1 by frame.
  assert (task (update_clocks c s) = task s) as T1 by done.
  assert (∀ u, prio_deadline_diff (update_clocks c s) u = prio_deadline_diff s u) as D1 by done.
  destruct (set_user_nice_body me p nice s Hne Hn) as (s1 & s6 & E1 & Hsb & T6 & ->); [by rewrite <- Hrt|].
  fold c in E1 |- *. rewrite <- E1 in *. clear E1 Hne.
  assert (runqueue_ok s1) as Hok1 by (by rewrite <- Hc1).
  rewrite T1 in T6. pose proof (T6 p) as T6p. rewrite decide_True in T6p by done.
  destruct (change_task_ok p s1 s6 Hok1 Hsb) as [Hok7 Hiff].
  { rewrite T6p, T1. done. }
  { intros Hin. pose proof (ok_tasks s1 Hok1 p Hin) as Ht. rewrite T1 in Ht. rewrite T6p.
    apply set_prios_ok. unfold task_ok, rt_range in *. naive_solver. }
  cbv zeta in Hok7, Hiff |- *. set (s7 := if task_queued p s1 then enqueue_task p s6 else s6) in *.
  set (s' := if task_queued p s1 then _ else _).
  assert (same_core s7 s') as Hc' by (unfold s'; frame).
  assert (keeps pview s6 s') as Hp' by (unfold s', s7; auto 10 with policy).
  pose proof (Hp' p) as Ep. rewrite T6p in Ep. injection Ep as Ep1 Ep2 _ Ep4 _.
  split; [|split].
  - unfold reniced. split_and!.
    + by rewrite <- Hc'.
    + intros x. by rewrite <- Hc', Hiff, <- Hc1.
    + unfold TASK_NICE, PRIO_TO_NICE. rewrite Ep2. unfold renice, NICE_TO_PRIO. simpl. lia.
    + by rewrite Ep1.
    + intros x Hx. by rewrite Hp', T6, decide_False by done.
  - rewrite Ep4. unfold renice. simpl. unfold static_deadline_diff, task_deadline_diff. rewrite !D1.
    do 4 f_equal; unfold TASK_NICE, TASK_USER_PRIO, USER_PRIO, NICE_TO_PRIO, PRIO_TO_NICE; f_equal; lia.
  - intros Hon Hlt. unfold s'. destruct (task_queued p s1) eqn:Eq.
    { apply task_queued_spec in Eq; [|apply Hok1]. destruct (ok_disjoint s1 Hok1 p Eq) as [E _]. rewrite T1 in E. congruence. }
    unfold s7, task_running. rewrite T6p, T1. change (on_cpu (renice s1 (NICE_TO_PRIO nice) (task s p))) with (on_cpu (task s p)).
    rewrite Hon. rewrite (proj2 (Z.ltb_lt _ _)); [apply resched_task_sets|].
    unfold TASK_NICE, PRIO_TO_NICE, NICE_TO_PRIO in *. lia.
Qed.

Lemma set_user_nice_same me p nice s :
  TASK_NICE (task s p) = nice ∨ nice < -20 ∨ 19 < nice → set_user_nice me p nice s = s.
Proof.
  unfold set_user_nice. intros [->|[Hl|Hl]]; [by rewrite Z.eqb_refl|..];
    rewrite (proj2 (Z.ltb_lt _ _) Hl), ?orb_true_r; done.
Qed.

Lemma set_user_nice_keeps me p nice s : runqueue_ok s → runqueue_ok (set_user_nice me p nice s).
Proof.
  intros Hok. destruct (decide (TASK_NICE (task s p) = nice ∨ nice < -20 ∨ 19 < nice)) as [Hno|Hyes].
  { by rewrite set_user_nice_same. }
  destruct (has_rt_policy (task s p)) eqn:Hrt.
  - by apply (set_user_nice_rt me p nice s Hok); [lia..|].
  - by apply (set_user_nice_normal me p nice s Hok); [lia..|].
Qed.

(** C26. Changing the nice level.  [set_user_nice] keeps the run queue invariant and
    the set of queued tasks.  A level out of range, or the present one, changes
    nothing.  Otherwise the task has the new level, no other task's parameters
    change, and unless the task is real-time its deadline moves by exactly the
    difference between the two levels; a running task made nicer is asked to
    reschedule. *)
Theorem set_user_nice_spec (me p nice : Z) (s : sched) :
  runqueue_ok s →
  let s' := set_user_nice me p nice s in
  let t := task s p in
  let t' := task s' p in
  runqueue_ok s' ∧ (∀ x, queued s' x ↔ queued s x) ∧
  (TASK_NICE t = nice ∨ nice < -20 ∨ 19 < nice → s' = s) ∧
  (TASK_NICE t ≠ nice → -20 ≤ nice ≤ 19 →
    TASK_NICE t' = nice ∧ policy t' = policy t ∧ (∀ x, x ≠ p → pview (task s' x) = pview (task s x)) ∧
    if has_rt_policy t then deadline t' = deadline t
    else deadline t' = u64 (deadline t + (prio_deadline_diff s (nice + 20) -
                                          prio_deadline_diff s (TASK_NICE t + 20))) ∧
         (on_cpu t = true → TASK_NICE t < nice → need_resched t' = true)).
Proof.
  intros Hok. cbv zeta. destruct (decide (TASK_NICE (task s p) = nice ∨ nice < -20 ∨ 19 < nice)) as [Hno|Hyes].
  { rewrite set_user_nice_same by done. split_and!; try done. lia. }
  assert (TASK_NICE (task s p) ≠ nice ∧ -20 ≤ nice ≤ 19) as [Hne Hn] by lia.
  destruct (has_rt_policy (task s p)) eqn:Hrt.
  - destruct (set_user_nice_rt me p nice s Hok Hne Hn Hrt) as [(?&?&?&?&?) ?]. by split_and!.
  - destruct (set_user_nice_normal me p nice s Hok Hne Hn Hrt) as [(?&?&?&?&?) [??]]. by split_and!.
Qed.
End nice.

(** ** Policies *)

(** What is relied on of the priority-inheritance code: waiters have priorities of
    the kernel's range, and adjusting the chain of a task keeps the run queue
    invariant and no task's policy or static parameters change. *)
Class PiLaws `{Config} `{PolicyEnv} : Prop := {
  waiter_range : ∀ p w, top_pi_waiter p = Some w → 0 ≤ w;
  adjust_pi_ok : ∀ p s, runqueue_ok s → runqueue_ok (rt_mutex_adjust_pi p s);
  adjust_pi_fields : ∀ p s x, pview (task (rt_mutex_adjust_pi p s) x) = pview (task s x) ∧
    rt_priority (task (rt_mutex_adjust_pi p s) x) = rt_priority (task s x);
}.

Section setscheduler.
Context `{PiLaws}.
Implicit Types s : sched.

(** The change of the task's own fields. *)
Definition repolicy p pol pr (t : task_struct) : task_struct :=
  let t := t <| policy := pol |> <| rt_priority := pr |> in
  let t := t <| normal_prio := normal_prio_of t |> in
  t <| prio := rt_mutex_getprio p t |>.

Lemma repolicy_ok p pol pr t : 0 ≤ pr ≤ MAX_USER_RT_PRIO → task_ok (repolicy p pol pr t).
Proof.
  intros Hpr. assert (0 ≤ normal_prio_of (t <| policy := pol |> <| rt_priority := pr |>) < PRIO_LIMIT) as Hn.
  { change MAX_USER_RT_PRIO with 100 in Hpr. unfold normal_prio_of, update. simpl.
    change PRIO_LIMIT with 104. change MAX_RT_PRIO with 101. change IDLE_PRIO with 103.
    change ISO_PRIO with 101. change NORMAL_PRIO with 102. repeat case_if; lia. }
  unfold repolicy, task_ok. cbv zeta. unfold rt_mutex_getprio. simpl.
  destruct (top_pi_waiter p) as [w|] eqn:E; [|unfold update in *; simpl in *; lia].
  apply waiter_range in E. unfold update in *; simpl in *. lia.
Qed.

Lemma __setscheduler_effect me p c pol pr s :
  ∃ s1, (∀ x, task s1 x = if decide (p = x) then repolicy p pol pr (task s p) else task s x) ∧
    same_but p s s1 ∧ same_core s1 (__setscheduler me p c pol pr s) ∧
    keeps rtview s1 (__setscheduler me p c pol pr s).
Proof.
  unfold __setscheduler. cbv zeta.
  set (s1 := upd_task p (λ t, t <| prio := rt_mutex_getprio p t |>) _). exists s1. split_and!.
  - intros x. unfold s1. destruct (decide (p = x)) as [<-|Hne].
    + by rewrite !task_upd_task_eq.
    + by rewrite !task_upd_task_ne.
  - unfold s1. repeat apply but_task_self. apply same_but_refl.
  - clearbody s1. frame.
  - clearbody s1. auto with policy.
Qed.

(** Changing the policy under the lock, of a task that may be queued. *)
Definition requeue_policy me p c pol pr s : sched :=
  let queued := task_queued p s in
  let s1 := __setscheduler me p c pol pr (if queued then dequeue_task p s else s) in
  if queued then try_preempt me p c (enqueue_task p s1) else s1.

(** Queueing a SCHED_NORMAL task does not make it real-time or stop it from being so. *)
Lemma enqueue_rt_task p s x :
  policy (task s p) = SCHED_NORMAL → rt_task (task (enqueue_task p s) x) = rt_task (task s x).
Proof.
  intros Hp. destruct (enqueue_task_alt p s) as [-> | [_ ->]]; [|done]. change (task (queue_tail p ?s)) with (task s).
  rewrite task_upd_task. case_decide as E; [subst x|done]. unfold rt_task, update. simpl.
  unfold enqueue_prio, idleprio_task, iso_task, rt_task. rewrite Hp. by destruct (rt_prio (prio (task s p))) eqn:Er.
Qed.

Lemma requeue_policy_ok me p c pol pr s :
  runqueue_ok s → 0 ≤ pr ≤ MAX_USER_RT_PRIO →
  let s' := requeue_policy me p c pol pr s in
  runqueue_ok s' ∧ (∀ x, queued s' x ↔ queued s x) ∧
  (pol = SCHED_NORMAL → ∀ x, rt_task (task s' x) = rt_task (if decide (p = x) then repolicy p pol pr (task s p) else task s x)) ∧
  ∀ x, rtview (task s' x) = rtview (if decide (p = x) then task s p <| policy := pol |> <| rt_priority := pr |>
                                    else task s x).
Proof.
  intros Hok Hpr. unfold requeue_policy. cbv zeta. set (s0 := if task_queued p s then dequeue_task p s else s).
  assert (∀ x, task s0 x = task s x) as T0 by (intros x; unfold s0; case_if; [apply task_dequeue|done]).
  destruct (__setscheduler_effect me p c pol pr s0) as (s2 & T2 & Hsb & Hc2 & Hp2).
  set (s3 := __setscheduler me p c pol pr s0) in *. clearbody s3.
  destruct (core_tasks_eq _ _ p Hc2) as (E1 & E2 & E3 & E4).
  assert (task s2 p = repolicy p pol pr (task s p)) as T2p by (rewrite T2, decide_True by done; by rewrite T0).
  destruct (change_task_ok p s s3 Hok) as [Hok4 Hq4].
  { apply (but_core _ _ s2); done. }
  { by rewrite E4, T2p. }
  { intros _. unfold task_ok. rewrite E1, E2, E3, T2p. by apply repolicy_ok. }
  set (s5 := if task_queued p s then try_preempt me p c (enqueue_task p s3) else s3).
  cbv zeta in Hok4, Hq4. set (s4 := if task_queued p s then enqueue_task p s3 else s3) in *.
  assert (same_core s4 s5) as Hc5 by (unfold s4, s5; destruct (task_queued p s); frame).
  assert (keeps rtview s2 s5) as Hp5.
  { apply (keeps_trans _ s3); [done|]. unfold s5. auto with policy. }
  split_and!; [by rewrite <- Hc5|intros x; by rewrite <- Hc5| |].
  { intros Hn x. assert (policy (task s3 p) = SCHED_NORMAL) as H3.
    { pose proof (Hp2 p) as E. rewrite T2p in E. injection E as E _ _ _ _ _. by rewrite E. }
    assert (rt_task (task s3 x) = rt_task (task s2 x)) as E23
      by (unfold rt_task; by rewrite (proj1 (core_tasks_eq _ _ x Hc2))).
    assert (rt_task (task s5 x) = rt_task (task s4 x)) as ->
      by (unfold rt_task; by rewrite (proj1 (core_tasks_eq _ _ x Hc5))).
    transitivity (rt_task (task s3 x)); [unfold s4; case_if; [by apply enqueue_rt_task|done]|].
    rewrite E23, T2. case_decide; by rewrite T0. }
  intros x. rewrite (Hp5 x), T2. case_decide; [|by rewrite T0]. by rewrite T0.
Qed.

(** What an accepted change does. *)
Definition changed p pol pr (reset : bool) s s' : Prop :=
  policy (task s' p) = pol ∧ rt_priority (task s' p) = pr ∧ sched_reset_on_fork (task s' p) = reset ∧
  (∀ x, x ≠ p → pview (task s' x) = pview (task s x)).

Lemma setscheduler_change me p c pol pr reset s :
  runqueue_ok s → 0 ≤ pr ≤ MAX_USER_RT_PRIO →
  let s1 := upd_task p (λ t, t <| sched_reset_on_fork := reset |>) (update_clocks c s) in
  let queued := task_queued p s1 in
  let s2 := __setscheduler me p c pol pr (if queued then dequeue_task p s1 else s1) in
  let s3 := if queued then try_preempt me p c (enqueue_task p s2) else s2 in
  let s' := rt_mutex_adjust_pi p s3 in
  runqueue_ok s' ∧ changed p pol pr reset s s'.
Proof.
  intros Hok Hpr. cbv zeta. set (s1 := upd_task p _ _).
  assert (same_core s s1) as Hc1 by (unfold s1; frame).
  assert (∀ x, x ≠ p → pview (task s1 x) = pview (task s x)) as Hx1.
  { intros x Hx. unfold s1. by rewrite task_upd_task_ne. }
  assert (sched_reset_on_fork (task s1 p) = reset) as Hr1 by (unfold s1; by rewrite task_upd_task_eq).
  rewrite Hc1 in Hok. clearbody s1. destruct (requeue_policy_ok me p c pol pr s1 Hok Hpr) as (Hok' & _ & _ & Hv).
  fold (requeue_policy me p c pol pr s1). set (s' := requeue_policy me p c pol pr s1) in *. clearbody s'.
  split; [by apply adjust_pi_ok|]. unfold changed. destruct (adjust_pi_fields p s' p) as [Ea Eb].
  pose proof (Hv p) as Ep. rewrite decide_True in Ep by done. injection Ep as E1 E2 E3 E4 E5 E6.
  injection Ea as A1 A2 A3 _ _. rewrite Eb, A1, A3, E1, E3, E6. split_and!; [done..|].
  intros x Hx. rewrite (proj1 (adjust_pi_fields p s' x)). specialize (Hv x). rewrite decide_False in Hv by done.
  rewrite <- Hx1 by done. exact (f_equal fst Hv).
Qed.

(** The locked part either changes nothing, or makes the change, or finds that the
    policy read before is no longer the task's. *)
Lemma setscheduler_locked_effect me p pol oldpolicy reset pr s :
  runqueue_ok s → 0 ≤ pr ≤ MAX_USER_RT_PRIO →
  match setscheduler_locked me p pol oldpolicy reset pr s with
  | None => oldpolicy ≠ -1 ∧ oldpolicy ≠ policy (task s p)
  | Some (ret, s') => runqueue_ok s' ∧
      ((s' = s ∧ (ret = - EINVAL ∨
                  ret = 0 ∧ policy (task s p) = pol ∧ (is_rt_policy pol = true → rt_priority (task s p) = pr))) ∨
       (ret = 0 ∧ changed p pol pr reset s s'))
  end.
Proof.
  intros Hok Hpr. unfold setscheduler_locked. cbv zeta.
  destruct (p =? _); [by auto|].
  destruct (Z.eqb_spec pol (policy (task s p))) as [E|Hne]; cbn [andb].
  - destruct (negb (is_rt_policy pol) || (pr =? rt_priority (task s p))) eqn:Eu.
    { split; [done|]. left. split; [done|]. right. split_and!; [done|done|]. intros Hrt. rewrite Hrt in Eu.
      cbn [negb orb] in Eu. by apply Z.eqb_eq in Eu. }
    destruct (Z.eqb_spec oldpolicy (-1)); cbn [negb andb].
    { destruct (setscheduler_change me p (task_cpu (task s p)) pol pr reset s Hok Hpr). auto. }
    destruct (Z.eqb_spec oldpolicy (policy (task s p))); cbn [negb]; [|done].
    destruct (setscheduler_change me p (task_cpu (task s p)) pol pr reset s Hok Hpr). auto.
  - destruct (Z.eqb_spec oldpolicy (-1)); cbn [negb andb].
    { destruct (setscheduler_change me p (task_cpu (task s p)) pol pr reset s Hok Hpr). auto. }
    destruct (Z.eqb_spec oldpolicy (policy (task s p))); cbn [negb]; [|done].
    destruct (setscheduler_change me p (task_cpu (task s p)) pol pr reset s Hok Hpr). auto.
Qed.

(** What the checks establish. *)
Lemma setscheduler_checks_inr p pol pr user s pol' oldpolicy reset :
  setscheduler_checks p pol pr user s = inr (pol', oldpolicy, reset) →
  0 ≤ pr ≤ MAX_USER_RT_PRIO ∧ is_rt_policy pol' = negb (pr =? 0) ∧
  decode_policy (task s p) pol = inr (pol', oldpolicy, reset) ∧
  (user = true → capable_sys_nice = false → unprivileged_checks p (task s p) pol' pr reset = None) ∧
  (user = true → security_task_setscheduler p = 0).
Proof.
  unfold setscheduler_checks. destruct (decode_policy (task s p) pol) as [|[[q o] r]]; [done|].
  destruct (bad_priority (task s p) q pr) eqn:Eb; [done|].
  destruct (if user && negb capable_sys_nice then _ else None) eqn:Eu; [done|].
  destruct (negb (_ =? 0)) eqn:Es; [done|]. intros [= -> -> ->].
  unfold bad_priority in Eb. change MAX_USER_RT_PRIO with 100 in *. change MAX_RT_PRIO with 101 in *.
  apply orb_false_iff in Eb as [Eb E4]. apply orb_false_iff in Eb as [Eb E3]. apply orb_false_iff in Eb as [E1 E2].
  apply negb_false_iff, eqb_prop in E4. apply Z.ltb_ge in E1. split; [|split_and!].
  - destruct (mm (task s p) =? NULL); cbn [negb andb] in *; apply Z.ltb_ge in E2 || apply Z.ltb_ge in E3; lia.
  - done.
  - done.
  - intros -> Hcap. by rewrite Hcap in Eu.
  - intros ->. apply negb_false_iff, Z.eqb_eq in Es. done.
Qed.

Lemma recheck_ok env me p pol pr user s :
  runqueue_ok s → Forall (λ f, ∀ s, runqueue_ok s → runqueue_ok (f s)) env →
  runqueue_ok (recheck env me p pol pr user s).2.
Proof.
  intros Hok Henv. revert pol s Hok. induction Henv as [|f env Hf Henv IH]; intros pol s Hok;
    cbn [recheck]; destruct (setscheduler_checks p pol pr user s) as [|[[q o] r]] eqn:Ec; try done;
    apply setscheduler_checks_inr in Ec as (Hpr & _).
  - pose proof (setscheduler_locked_effect me p q o r pr s Hok Hpr) as Hl.
    destruct (setscheduler_locked me p q o r pr s) as [[ret s']|]; [apply Hl|done].
  - pose proof (setscheduler_locked_effect me p q o r pr (f s) (Hf s Hok) Hpr) as Hl.
    destruct (setscheduler_locked me p q o r pr (f s)) as [[ret s']|]; [apply Hl|by apply IH, Hf].
Qed.

(** C24. A change of policy keeps the run queue consistent whatever other CPUs do in
    between.  The checks of [__sched_setscheduler] run unlocked; any sequence of
    interfering operations that keep the invariant, the retries they cause
    included, ends in a consistent run queue. *)
Theorem setscheduler_ok (env : list (sched → sched)) (me p pol pr : Z) (user : bool) (s : sched) :
  runqueue_ok s → Forall (λ f, ∀ s, runqueue_ok s → runqueue_ok (f s)) env →
  runqueue_ok (__sched_setscheduler env me p pol pr user s).2.
Proof.
  intros Hok Henv. unfold __sched_setscheduler. destruct (downgrade_rt p pol pr) as [|[q r]]; [done|].
  by apply recheck_ok.
Qed.

(** Without interference. *)
Lemma recheck_alone me p pol pr user s :
  runqueue_ok s →
  let '(ret, s') := recheck [] me p pol pr user s in
  match setscheduler_checks p pol pr user s with
  | inl r => ret = r ∧ s' = s
  | inr (q, _, reset) =>
      (s' = s ∧ (ret = - EINVAL ∨
                 ret = 0 ∧ policy (task s p) = q ∧ (is_rt_policy q = true → rt_priority (task s p) = pr))) ∨
      (ret = 0 ∧ changed p q pr reset s s')
  end.
Proof.
  intros Hok. cbn [recheck]. destruct (setscheduler_checks p pol pr user s) as [|[[q o] r]] eqn:Ec; [done|].
  apply setscheduler_checks_inr in Ec as (Hpr & _ & Hd & _).
  pose proof (setscheduler_locked_effect me p q o r pr s Hok Hpr) as Hl.
  destruct (setscheduler_locked me p q o r pr s) as [[ret s']|]; cbn [default]; [apply Hl|].
  exfalso. destruct Hl as [N1 N2]. unfold decode_policy in Hd. destruct (pol <? 0).
  - injection Hd as _ <- _. done.
  - cbv zeta in Hd. destruct (negb _); [done|]. injection Hd as _ <- _. done.
Qed.

(** An error changes nothing, and a privileged success installs the request. *)
Lemma setscheduler_alone me p pol pr user s :
  runqueue_ok s →
  let '(ret, s') := __sched_setscheduler [] me p pol pr user s in
  let q := Z.land pol (Z.lnot SCHED_RESET_ON_FORK) in
  (ret ≠ 0 → s' = s) ∧
  (ret = 0 → capable_sys_nice = true → 0 ≤ pol →
    policy (task s' p) = q ∧ q ≤ SCHED_MAX ∧
    (is_rt_policy q = true → rt_priority (task s' p) = pr ∧ 1 ≤ pr ≤ MAX_USER_RT_PRIO) ∧
    (∀ x, x ≠ p → pview (task s' x) = pview (task s x))).
Proof.
  intros Hok. unfold __sched_setscheduler.
  destruct (downgrade_rt p pol pr) as [err|[pol' pr']] eqn:Ed.
  { cbv zeta. split; [done|]. intros -> Hcap. unfold downgrade_rt in Ed. rewrite Hcap, andb_false_r in Ed. done. }
  pose proof (recheck_alone me p pol' pr' user s Hok) as Hr. destruct (recheck [] me p pol' pr' user s) as [ret s'].
  cbv zeta. split.
  { intros Hne. destruct (setscheduler_checks p pol' pr' user s) as [|[[q o] r]]; naive_solver. }
  intros -> Hcap Hpol. unfold downgrade_rt in Ed. rewrite Hcap, andb_false_r in Ed. injection Ed as <- <-.
  destruct (setscheduler_checks p pol pr user s) as [ret|[[q o] r]] eqn:Ec.
  - exfalso. destruct Hr as [<- ->]. revert Ec. unfold setscheduler_checks, decode_policy.
    rewrite (proj2 (Z.ltb_ge pol 0) Hpol), Hcap. cbv zeta. rewrite andb_false_r.
    destruct (negb (SCHED_RANGE _)); [done|]. destruct (bad_priority _ _ _); [done|].
    destruct (negb _) eqn:Es; [|done]. intros [= Er]. by rewrite Er in Es.
  - apply setscheduler_checks_inr in Ec as (Hpr & Hrt & Hd & _).
    unfold decode_policy in Hd. rewrite (proj2 (Z.ltb_ge pol 0) Hpol) in Hd. cbv zeta in Hd.
    destruct (negb (SCHED_RANGE _)) eqn:Er; [done|]. injection Hd as <- _ _.
    apply negb_false_iff, Z.leb_le in Er. set (q := Z.land pol _) in *.
    assert (is_rt_policy q = true → 1 ≤ pr) as Hge.
    { intros E. rewrite E in Hrt. symmetry in Hrt. apply negb_true_iff, Z.eqb_neq in Hrt. lia. }
    destruct Hr as [(-> & [?|(_ & Hq & Hp)])|(_ & Hq & Hp & _ & Hx)]; [done|..];
      split_and!; try done; intros Hrt'; specialize (Hge Hrt'); lia || (rewrite ?Hp by done; lia).
Qed.

(** C25. The policy and priority a privileged caller sets are the ones read back.
    [sched_setscheduler] refuses without changing anything, or a successful call
    with CAP_SYS_NICE leaves the process with exactly the requested policy (without
    the reset flag) and, for the real-time policies, the requested priority, as
    [sched_getscheduler] and [sched_getparam] then report; no other task's
    parameters change. *)
Theorem setscheduler_roundtrip (me pid pol param uaddr ret : Z) (s s' : sched) :
  runqueue_ok s → 0 < pid → sys_sched_setscheduler [] me pid pol param s = (ret, s') →
  let p := find_task_by_vpid pid in
  let q := Z.land pol (Z.lnot SCHED_RESET_ON_FORK) in
  (ret ≠ 0 → s' = s) ∧
  (ret = 0 → capable_sys_nice = true → security_task_getscheduler p = 0 →
    uaddr ≠ NULL → copy_to_user_ok uaddr = true →
    sys_sched_getscheduler me pid s' = q ∧ q ≤ SCHED_MAX ∧
    (is_rt_policy q = true → ∃ pr, copy_param_from_user param = Some pr ∧ 1 ≤ pr ≤ MAX_USER_RT_PRIO ∧
      sys_sched_getparam me pid uaddr s' = (0, Some pr)) ∧
    (∀ x, x ≠ p → pview (task s' x) = pview (task s x))).
Proof.
  intros Hok Hpid. unfold sys_sched_setscheduler, do_sched_setscheduler, sched_setscheduler, find_process_by_pid.
  rewrite (proj2 (Z.ltb_ge pid 0)), (proj2 (Z.eqb_neq pid 0)) by lia.
  destruct (Z.ltb_spec pol 0) as [|Hpol]; [by intros [= <- <-]|]. rewrite orb_false_r.
  destruct (param =? NULL); [by intros [= <- <-]|].
  destruct (copy_param_from_user param) as [pr|]; [|by intros [= <- <-]].
  cbn [negb]. set (p := find_task_by_vpid pid). destruct (p =? NULL) eqn:Enull; [by intros [= <- <-]|].
  pose proof (setscheduler_alone me p pol pr true s Hok) as Ha.
  destruct (__sched_setscheduler [] me p pol pr true s) as [r t]. intros [= -> ->]. cbv zeta in Ha |- *.
  destruct Ha as [Herr Hsucc]. split; [done|]. intros Hret Hcap Hsec Hu Hcp.
  destruct (Hsucc Hret Hcap Hpol) as (Hq & Hmax & Hrt & Hx).
  unfold sys_sched_getscheduler, sys_sched_getparam, find_process_by_pid.
  rewrite (proj2 (Z.ltb_ge pid 0)), (proj2 (Z.eqb_neq pid 0)), (proj2 (Z.eqb_neq uaddr NULL)) by (done || lia).
  cbn [negb orb]. fold p. rewrite Enull, Hsec, Hcp. cbn [negb Z.eqb]. split_and!; try done.
  intros E. destruct (Hrt E) as [-> ?]. by exists pr.
Qed.

Lemma unprivileged_checks_none p t q pr (reset : bool) :
  unprivileged_checks p t q pr reset = None →
  check_same_owner p = true ∧ (sched_reset_on_fork t = true → reset = true) ∧
  (if is_rt_policy q then (q = policy t ∨ rlimit_rtprio p ≠ 0) ∧ pr ≤ Z.max (rt_priority t) (rlimit_rtprio p)
   else policy t ≠ SCHED_IDLEPRIO ∧ (policy t = SCHED_BATCH → q = SCHED_IDLEPRIO) ∧
        (policy t = SCHED_ISO → q ≠ SCHED_NORMAL)).
Proof.
  unfold unprivileged_checks. cbv zeta.
  set (owner := if negb (check_same_owner p) then _ else _).
  assert (owner = None → check_same_owner p = true ∧ (sched_reset_on_fork t = true → reset = true)) as Ho.
  { unfold owner. destruct (check_same_owner p); [|done]. destruct (sched_reset_on_fork t), reset; done. }
  clearbody owner. destruct (is_rt_policy q).
  - destruct (Z.eqb_spec q (policy t)), (Z.eqb_spec (rlimit_rtprio p) 0); cbn [negb andb]; try done;
      destruct (Z.ltb_spec (rt_priority t) pr), (Z.ltb_spec (rlimit_rtprio p) pr); cbn [andb]; try done;
      intros E; destruct (Ho E); split_and!; auto; lia.
  - unfold SCHED_ISO, SCHED_BATCH, SCHED_IDLEPRIO, SCHED_NORMAL.
    destruct (Z.eqb_spec (policy t) 4) as [Et|]; [destruct (q =? 4), (Z.eqb_spec q 0); try done|].
    { intros E. destruct (Ho E). split_and!; auto; lia. }
    destruct (Z.eqb_spec (policy t) 3) as [Et|]; [destruct (q =? 3), (Z.eqb_spec q 5); cbn [negb]; try done|].
    { intros E. destruct (Ho E). split_and!; auto; lia. }
    destruct (Z.eqb_spec (policy t) 5) as [Et|]; [destruct (q =? 5); done|].
    intros E. destruct (Ho E). split_and!; auto; lia.
Qed.

End setscheduler.

(** ** The priority shown to users *)
Section shown.
Context `{Config}.

Lemma shifted_ratio d l : 0 ≤ d ≤ l → 0x100000 ≤ l → 0 ≤ Z.shiftr d 20 * 40 / Z.shiftr l 20 ≤ 40.
Proof.
  intros Hd Hl. rewrite !Z.shiftr_div_pow2 by lia. change (2 ^ 20) with 0x100000.
  assert (0 ≤ d / 0x100000 ≤ l / 0x100000) as Hq by lia_mod. assert (1 ≤ l / 0x100000) by lia_mod.
  split; [apply Z.div_pos; lia|]. apply Z.div_le_upper_bound; lia.
Qed.

(** The priority in /proc is in its documented range.  For a task whose deadline
    is at most the longest deadline offset away, real-time tasks show -101 to -1,
    SCHED_ISO tasks 0, normal tasks 1 to 41 and idle-priority tasks 42 to 82, with
    no overflow for round-robin intervals up to 50 ms. *)
Theorem task_prio_range (s : sched) (t : task_struct) :
  ratios_ok s → 1 ≤ rr_interval s ≤ 50 → 0 ≤ prio t < PRIO_LIMIT → 0 ≤ niffies (grq s) →
  niffies (grq s) ≤ deadline t ≤ niffies (grq s) + longest_deadline_diff s → deadline t < 0x10000000000000000 →
  (rt_task t = true → -101 ≤ task_prio s t ≤ -1) ∧
  (prio t = ISO_PRIO → task_prio s t = 0) ∧
  (prio t = NORMAL_PRIO → idleprio_task t = false → 1 ≤ task_prio s t ≤ 41) ∧
  (prio t = IDLE_PRIO → idleprio_task t = true → 42 ≤ task_prio s t ≤ 82).
Proof.
  intros Hr Hrr Hp Hn Hd Hd64.
  assert (0x100000 ≤ longest_deadline_diff s < 0x80000000) as Hl.
  { unfold longest_deadline_diff. rewrite prio_deadline_diff_exact by (done || lia).
    change (init_prio_ratios 40 !!! Z.to_nat 39) with 5089. rewrite s32_id by lia. lia. }
  unfold task_prio, rt_task, rt_prio. cbv zeta. change MAX_RT_PRIO with 101. change ISO_PRIO with 101.
  change NORMAL_PRIO with 102. change IDLE_PRIO with 103. change PRIO_LIMIT with 104 in Hp.
  rewrite (u64_id (deadline t - _)) by lia. unfold NS_TO_MS, ms_longest_deadline_diff, NS_TO_MS.
  set (d := deadline t - niffies (grq s)) in *. assert (0 ≤ d ≤ longest_deadline_diff s) as Hdl by lia.
  pose proof (shifted_ratio d (longest_deadline_diff s) Hdl ltac:(lia)) as Hq.
  assert (0 ≤ Z.shiftr d 20 < 0x1000) as Hs.
  { rewrite Z.shiftr_div_pow2 by lia. change (2 ^ 20) with 0x100000. lia_mod. }
  assert (1 ≤ Z.shiftr (longest_deadline_diff s) 20) as Hs2.
  { rewrite Z.shiftr_div_pow2 by lia. change (2 ^ 20) with 0x100000. lia_mod. }
  rewrite (s32_id (Z.shiftr d 20)), s32_id, Z.quot_div_nonneg by lia.
  set (q := _ / _) in *. destruct (Z.leb_spec (prio t - 101) 0); destruct (Z.ltb_spec (prio t) 101);
    destruct (Z.ltb_spec 0 q); destruct (Z.leb_spec q 80); cbn [andb]; destruct (idleprio_task t); lia.
Qed.
End shown.

(** ** Examples *)

(** User 100, with the given capability and real-time limit, owns the tasks 20 to
    22; nobody waits on a lock. *)
Definition sample_env (privileged : bool) (rtprio : Z) : PolicyEnv := {|
  capable_sys_nice := privileged; lock_task_sighand := λ _, true;
  rlimit_rtprio := λ _, rtprio; rlimit_nice := λ _, 20;
  current_cred := mk_cred 1 100 100;
  task_cred := λ p, if p <? 23 then mk_cred 1 100 100 else mk_cred 1 0 0;
  security_task_setscheduler := λ _, 0; security_task_getscheduler := λ _, 0;
  security_task_setnice := λ _ _, 0; top_pi_waiter := λ _, None; rt_mutex_adjust_pi := λ _ s, s;
  find_task_by_vpid := λ pid, pid; copy_param_from_user := λ a, Some a; copy_to_user_ok := λ _, true;
|}.

Section policy_examples.
#[local] Existing Instance sample_config.

#[local] Instance sample_pi_laws privileged rtprio : @PiLaws sample_config (sample_env privileged rtprio).
Proof. by split. Qed.

Lemma set_user_nice_spec_witness :
  let s' := set_user_nice 0 21 5 machine in runqueue_ok s' ∧ TASK_NICE (task s' 21) = 5.
Proof.
  destruct (set_user_nice_spec 0 21 5 machine machine_ok) as (Hok & _ & _ & Hn). split; [done|].
  apply Hn; vm_compute; [congruence|split; congruence].
Defined.

(** Another CPU changes the task's nice level between the checks and the lock. *)
Lemma setscheduler_ok_witness :
  runqueue_ok (@__sched_setscheduler _ (sample_env true 10) [set_user_nice 1 21 5] 0 21 SCHED_FIFO 50 true machine).2.
Proof.
  apply setscheduler_ok; [apply machine_ok|].
  apply Forall_singleton. intros s Hs. by apply set_user_nice_keeps.
Defined.

Lemma setscheduler_roundtrip_witness :
  let '(ret, s') := @sys_sched_setscheduler _ (sample_env true 10) [] 0 21 SCHED_RR 50 machine in
  ret = 0 ∧ @sys_sched_getscheduler (sample_env true 10) 0 21 s' = SCHED_RR.
Proof.
  destruct (@sys_sched_setscheduler _ (sample_env true 10) [] 0 21 SCHED_RR 50 machine) as [ret s'] eqn:E.
  assert (ret = 0) as -> by (apply (f_equal fst) in E; vm_compute in E; congruence).
  destruct (@setscheduler_roundtrip _ (sample_env true 10) _ 0 21 SCHED_RR 50 8 0 machine s' machine_ok) as [_ Hs];
    [lia|done|]. split; [done|]. by apply Hs.
Defined.


Lemma task_prio_range_witness : 1 ≤ task_prio machine (task machine 21) ≤ 41.
Proof.
  apply (task_prio_range machine (task machine 21)); try (by vm_compute).
Defined.

(** A running task's deadline is kept in [rq_deadline], which [set_user_nice] does
    not touch; the adjusted [deadline] is overwritten at the next pass. *)
Example nice_of_running_task_lost :
  let s := set_user_nice 0 20 19 machine in
  deadline (task s 20) = 209044456 ∧ deadline (task (store_prev 0 20 s) 20) = 1000.
Proof. vm_compute. split; reflexivity. Qed.

(** [rt_mutex_setprio] boosts a running task without telling its run queue, so other
    CPUs still see the old priority when they look for a task to preempt. *)
Example boost_not_in_rq :
  match rt_mutex_setprio 0 20 10 machine with
  | Some s => prio (task s 20) = 10 ∧ rq_prio (cpu_rq s 0) = NORMAL_PRIO
  | None => False
  end.
Proof. vm_compute. split; reflexivity. Qed.

(** Asking for the present policy with the reset flag succeeds and does not set the
    flag. *)
Example reset_flag_ignored :
  let '(ret, s) := @sched_setscheduler _ (sample_env true 10) [] 0 21 (Z.lor SCHED_NORMAL SCHED_RESET_ON_FORK) 0 machine in
  ret = 0 ∧ sched_reset_on_fork (task s 21) = false.
Proof. vm_compute. split; reflexivity. Qed.

(** With no real-time limit a request for SCHED_FIFO becomes SCHED_ISO, but the same
    request with the reset flag is refused. *)
Example reset_flag_not_downgraded :
  (let '(ret, s) := @sched_setscheduler _ (sample_env false 0) [] 0 21 SCHED_FIFO 5 machine in
   ret = 0 ∧ policy (task s 21) = SCHED_ISO) ∧
  (@sched_setscheduler _ (sample_env false 0) [] 0 21 (Z.lor SCHED_FIFO SCHED_RESET_ON_FORK) 5 machine).1 = - EPERM.
Proof. vm_compute. split_and!; reflexivity. Qed.

(** The permission checks are not repeated under the lock: a task that is moved to
    SCHED_IDLEPRIO in between is moved back by its unprivileged owner, which is
    refused when the calls do not overlap. *)
Example setscheduler_race :
  let idleprio s := (@sched_setscheduler _ (sample_env true 10) [] 1 21 SCHED_IDLEPRIO 0 s).2 in
  let to_batch env s := @sched_setscheduler _ (sample_env false 10) env 0 21 SCHED_BATCH 0 s in
  (let '(ret, s) := to_batch [idleprio] machine in ret = 0 ∧ policy (task s 21) = SCHED_BATCH) ∧
  (to_batch [] (idleprio machine)).1 = - EPERM.
Proof. vm_compute. split_and!; reflexivity. Qed.
End policy_examples.
