(* ===== verification/Preempt.v ===== *)
(** * Preemption, waiting for a task to stop, and resetting real-time tasks

    The entries to [schedule] that preempt the current task in the kernel
    ([preempt_schedule], [preempt_schedule_irq], the [cond_resched] family of
    kernel/sched_bfs.c), [wait_task_inactive], [normalize_rt_tasks].

    [schedule] returns on another task's stack, so a function that calls it is
    cut there: [*_begin] runs up to and including the call, [*_end] is what the
    task does once it is switched back to.  [wait_task_inactive] runs without
    the lock against a changing system: it is a machine that reads one state of
    a run [nat → sched] at each step.

    The theorems: a task preempted in the kernel stays runnable whatever its
    state says; [wait_task_inactive] reports a task only if the task was seen
    off its CPU and off the queues, and returns once the task stays there;
    [normalize_rt_tasks] keeps the run queue invariant and leaves no real-time
    policy. *)

From S2P Require Export Policy Termination.
From S2P Require Import Injector Machine.

(** ** Kernel preemption *)
Section preempt.
Context `{Config}.
Implicit Types s : sched.

(** [add_preempt_count] and [sub_preempt_count] of task [p]. *)
Definition add_preempt_count (p val : Z) (s : sched) : sched :=
  upd_task p (λ t, t <| preempt_count := s32 (preempt_count t + val) |>) s.
Definition sub_preempt_count (p val : Z) (s : sched) : sched :=
  upd_task p (λ t, t <| preempt_count := s32 (preempt_count t - val) |>) s.

(** The part of the loops and of [__cond_resched] before the switch ... *)
Definition schedule_active (fuel : nat) (me : Z) (s : sched) : option sched :=
  schedule fuel me (add_preempt_count (curr (cpu_rq s me)) PREEMPT_ACTIVE s).

(** ... and after it, in the task [p] that was preempted; the flag says that the
    loop of [preempt_schedule] goes round again. *)
Definition schedule_active_end (p : Z) (s : sched) : bool * sched :=
  let s := sub_preempt_count p PREEMPT_ACTIVE s in (need_resched (task s p), s).

Definition preempt_schedule_begin (fuel : nat) (me : Z) (irqs_disabled : bool) (s : sched) : option sched :=
  if negb (preempt_count (task s (curr (cpu_rq s me))) =? 0) || irqs_disabled then Some s
  else schedule_active fuel me s.

(** [inl tt] is the [BUG_ON]. *)
Definition preempt_schedule_irq_begin (fuel : nat) (me : Z) (irqs_disabled : bool) (s : sched) :
    unit + option sched :=
  if negb (preempt_count (task s (curr (cpu_rq s me))) =? 0) || negb irqs_disabled then inl tt
  else inr (schedule_active fuel me s).

Definition should_resched (me : Z) (s : sched) : bool :=
  let t := task s (curr (cpu_rq s me)) in
  need_resched t && (Z.land (preempt_count t) PREEMPT_ACTIVE =? 0).

(** [system_running] is [system_state == SYSTEM_RUNNING]. *)
Definition __cond_resched_begin (fuel : nat) (me : Z) (system_running : bool) (s : sched) : option sched :=
  if negb system_running then Some s else schedule_active fuel me s.

Definition _cond_resched_begin (fuel : nat) (me : Z) (system_running : bool) (s : sched) : option (Z * sched) :=
  if should_resched me s then (λ s, (1, s)) <$> __cond_resched_begin fuel me system_running s else Some (0, s).

(** ** What preemption does *)

Lemma land_active x : (Z.land x PREEMPT_ACTIVE =? 0) = negb (Z.testbit x 28).
Proof.
  change PREEMPT_ACTIVE with (2 ^ 28). destruct (Z.testbit x 28) eqn:E.
  - apply Z.eqb_neq. intros H0. apply (f_equal (λ y, Z.testbit y 28)) in H0. rewrite Z.land_spec, E in H0.
    by rewrite Z.pow2_bits_true, Z.bits_0 in H0.
  - apply Z.eqb_eq, Z.bits_inj'. intros n Hn. rewrite Z.land_spec, Z.bits_0.
    destruct (decide (n = 28)) as [->|Hne]; [by rewrite E|]. by rewrite Z.pow2_bits_false, andb_false_r by lia.
Qed.

(** Entering with [PREEMPT_ACTIVE] clear sets it, and leaving restores the count. *)
Lemma active_bit x : Z.testbit x 28 = false → Z.testbit (s32 (x + PREEMPT_ACTIVE)) 28 = true.
Proof.
  change PREEMPT_ACTIVE with (2 ^ 28). rewrite !Z.testbit_eqb by lia. rewrite Z.eqb_neq, Z.eqb_eq.
  unfold s32. intros Hx. Z.to_euclidean_division_equations. lia.
Qed.
Lemma active_restored x : - 0x80000000 ≤ x < 0x80000000 → s32 (s32 (x + PREEMPT_ACTIVE) - PREEMPT_ACTIVE) = x.
Proof. change PREEMPT_ACTIVE with 0x10000000. unfold s32. intros Hx. Z.to_euclidean_division_equations. lia. Qed.

(** A pass that wakes no worker: exactly the sleeping current task stops being
    runnable, and no preemption count changes. *)
Lemma pass_quiet cpu s :
  runqueue_ok s → cpu ∈ cpus → wq_quiet →
  let '(again, s') := schedule_pass cpu s in
  (∀ x, runnable s' x ↔ runnable s x ∧ ¬ (again = false ∧ sleeps cpu s = true ∧ x = curr (cpu_rq s cpu))) ∧
  (∀ x, preempt_count (task s' x) = preempt_count (task s x)).
Proof.
  intros Hok Hc Hw. unfold schedule_pass, sleeps. pose proof (prev_sleeps_quiet cpu s Hw) as Hps.
  set (prev := curr (cpu_rq s cpu)) in *. destruct (prev_sleeps cpu prev s) as [[d v] s1].
  destruct Hps as [Hcalm1 Hcore1]. cbn [fst]. destruct (d && plugged (task s1 prev)).
  - split; intros x.
    + assert (same_core s1 (upd_task prev (λ t, t <| plugged := false |>) s1)) as Hc2 by frame.
      rewrite <- Hc2, <- Hcore1. naive_solver.
    + rewrite <- (cm_count _ _ _ _ Hcalm1). by apply (task_upd_proj preempt_count).
  - assert (same_core s (account_prev cpu prev s1)) as Hcore2 by (transitivity s1; [done|frame]).
    destruct (choose_and_switch_ok cpu prev d v (account_prev cpu prev s1)) as (_ & Hr & _).
    { by rewrite <- Hcore2. } { done. } { by rewrite (proj1 (core_cpu_eq _ _ cpu Hcore2)). }
    split; intros x; [rewrite Hr, <- Hcore2; naive_solver|].
    rewrite <- (cm_count _ _ _ x Hcalm1), <- (cm_count _ _ _ x (account_prev_calm cpu prev s1)).
    apply (cm_count cpu), choose_and_switch_calm. intros c.
    destruct (core_grq_eq _ _ Hcore2) as (_&_&_&_&->&_). apply (c_bits _ (ok_cpus _ Hok)).
Qed.

(** A current task with [PREEMPT_ACTIVE] set does not go to sleep. *)
Lemma active_stays cpu s :
  Z.testbit (preempt_count (task s (curr (cpu_rq s cpu)))) 28 = true → sleeps cpu s = false.
Proof. intros Hb. unfold sleeps, prev_sleeps. cbv zeta. by rewrite land_active, Hb, andb_false_r. Qed.

(** Marking the current task changes nothing the scheduler counts. *)
Lemma resched_bound_count p n s :
  resched_bound (upd_task p (λ t, t <| preempt_count := n t |>) s) = resched_bound s.
Proof.
  set (s' := upd_task _ _ s). unfold resched_bound. f_equal; f_equal; apply set_eq; intros x.
  - rewrite !elem_of_pending.
    by assert (need_resched (task s' x) = need_resched (task s x)) as -> by (by apply task_upd_proj).
  - rewrite !elem_of_plugs. by assert (plugged (task s' x) = plugged (task s x)) as -> by (by apply task_upd_proj).
Qed.

Lemma schedule_active_ok cpu s :
  let p := curr (cpu_rq s cpu) in
  runqueue_ok s → cpu ∈ cpus → wq_quiet → no_spare_cpus s → p ≠ idle (cpu_rq s cpu) →
  Z.testbit (preempt_count (task s p)) 28 = false →
  ∃ s', schedule_active (S (resched_bound s)) cpu s = Some s' ∧ runqueue_ok s' ∧
    need_resched (task s' (curr (cpu_rq s' cpu))) = false ∧ runnable s' p ∧
    preempt_count (task s' p) = s32 (preempt_count (task s p) + PREEMPT_ACTIVE).
Proof.
  intros p Hok Hc Hw Hsp Hni Hb. unfold schedule_active, add_preempt_count. fold p.
  rewrite <- (resched_bound_count p (λ t, s32 (preempt_count t + PREEMPT_ACTIVE)) s).
  set (s1 := upd_task p _ s). assert (same_core s s1) as Hs1 by (subst s1; frame).
  assert (preempt_count (task s1 p) = s32 (preempt_count (task s p) + PREEMPT_ACTIVE)) as Ec
    by (unfold s1; by rewrite task_upd_task_eq).
  destruct (schedule_loop cpu (λ s, runnable s p ∧ preempt_count (task s p) = preempt_count (task s1 p)) s1)
    as (s' & ? & ? & ? & ? & E); [done|done| |by rewrite <- Hs1| | |].
  - intros s2 Hok2 [Hr2 E2]. pose proof (pass_quiet cpu s2 Hok2 Hc Hw) as Hp.
    destruct (schedule_pass cpu s2) as [again s3]. destruct Hp as [Hr Hcnt]. cbn [snd].
    split; [|by rewrite Hcnt]. apply Hr. split; [done|]. intros (_ & Hsl & Ep).
    rewrite active_stays in Hsl; [done|]. rewrite <- Ep, E2, Ec. by apply active_bit.
  - intros c Hcn. rewrite (proj1 (core_cpu_eq _ _ c Hs1)). by apply Hsp.
  - split; [|done]. rewrite <- Hs1. right. by exists cpu.
  - exists s'. by rewrite E, Ec.
Qed.

(** [_cond_resched] reschedules exactly when asked to, and loses no task. *)
Lemma _cond_resched_spec (cpu : Z) (s : sched) :
  let p := curr (cpu_rq s cpu) in
  runqueue_ok s → cpu ∈ cpus → wq_quiet → no_spare_cpus s → p ≠ idle (cpu_rq s cpu) →
  ∃ s', _cond_resched_begin (S (resched_bound s)) cpu true s = Some (Z_of_bool (should_resched cpu s), s') ∧
    runqueue_ok s' ∧ runnable s' p ∧
    if should_resched cpu s then need_resched (task s' (curr (cpu_rq s' cpu))) = false else s' = s.
Proof.
  intros p Hok Hc Hw Hsp Hni. unfold _cond_resched_begin, __cond_resched_begin. cbn [negb].
  assert (runnable s p) as Hr by (right; by exists cpu).
  destruct (should_resched cpu s) eqn:E; [|by exists s].
  apply andb_true_iff in E as [_ E]. fold p in E. rewrite land_active in E. apply negb_true_iff in E.
  destruct (schedule_active_ok cpu s Hok Hc Hw Hsp Hni E) as (s' & -> & ? & ? & ? & _). by exists s'.
Qed.

End preempt.

(** ** Waiting for a task to stop *)
Section wait_inactive.
Context `{Config}.
Implicit Types s : sched.

(** The points of [wait_task_inactive] at which it reads the state: taking
    [task_rq(p)], the two halves of the condition of the busy loop and the test in
    its body, and the section under the lock, which reads everything at once.  The
    CPU number stands for the run queue that was read. *)
Inductive wti_pc := RetryRq | SpinRunning (rq : Z) | SpinCurr (rq : Z) | SpinState (rq : Z) | Locked.

(** One step of [wait_task_inactive(p, match_state)] in the state [s]: [inl] is the
    value returned.  [task_rq(p)] is an address in the per-CPU area, never [NULL].
    The sleep of the caller on a still queued task takes some steps of the run. *)
Definition wti_step (p match_state : Z) (pc : wti_pc) (s : sched) : Z + wti_pc :=
  let t := task s p in
  match pc with
  | RetryRq => inr (SpinRunning (task_cpu t))
  | SpinRunning rq => inr (if on_cpu t then SpinCurr rq else Locked)
  | SpinCurr rq =>
      inr (if p =? curr (cpu_rq s rq) then if match_state =? 0 then SpinRunning rq else SpinState rq else Locked)
  | SpinState rq => if negb (state t =? match_state) then inl 0 else inr (SpinRunning rq)
  | Locked =>
      let running := on_cpu t in
      let on_rq := task_queued p s in
      let ncsw := if (match_state =? 0) || (state t =? match_state) then Z.lor (nvcsw t) 0x8000000000000000 else 0 in
      if ncsw =? 0 then inl ncsw
      else if running then inr RetryRq
      else if on_rq then inr RetryRq
      else inl ncsw
  end.

(** The function against a run of the system, from the state number [n] on. *)
Fixpoint wait_task_inactive (fuel : nat) (p match_state : Z) (run : nat → sched) (n : nat) (pc : wti_pc) : option Z :=
  match fuel with
  | O => None
  | S fuel =>
      match wti_step p match_state pc (run n) with
      | inl r => Some r
      | inr pc => wait_task_inactive fuel p match_state run (S n) pc
      end
  end.

(** Off its CPU and off the queues. *)
Definition stopped (p : Z) (s : sched) : Prop := on_cpu (task s p) = false ∧ task_queued p s = false.

Lemma stopped_runnable p s : runqueue_ok s → stopped p s → ¬ runnable s p.
Proof.
  intros Hok [Hon Hq] [Hx|(c & Hc & E & _)].
  - apply not_queued_b in Hq; [done|apply Hok].
  - pose proof (on_cpu_curr s c Hok Hc). by rewrite E, Hon in *.
Qed.

Lemma ncsw_nonzero x : (Z.lor x 0x8000000000000000 =? 0) = false.
Proof. apply Z.eqb_neq. rewrite Z.lor_eq_0_iff. intros [_ ?]. done. Qed.

(** The state is only compared with a state to match. *)
Definition pc_ok (match_state : Z) (pc : wti_pc) : Prop :=
  match pc with SpinState _ => match_state ≠ 0 | _ => True end.

Lemma wti_step_pc p m pc s pc' : wti_step p m pc s = inr pc' → pc_ok m pc'.
Proof.
  destruct pc as [|c|c|c|]; cbn [wti_step]; cbv zeta; [by intros [= <-]|by intros [= <-]; case_if| | |].
  - intros [= <-]. destruct (_ =? curr _); [|done]. by destruct (Z.eqb_spec m 0).
  - destruct (negb _); [done|]. by intros [= <-].
  - destruct (_ =? 0) in |- *; [done|]. repeat case_if; by intros [= <-].
Qed.

(** What a step that returns has seen. *)
Lemma wti_step_inl p m pc s r :
  pc_ok m pc → wti_step p m pc s = inl r →
  (r = 0 ∧ m ≠ 0 ∧ state (task s p) ≠ m) ∨
  (r = Z.lor (nvcsw (task s p)) 0x8000000000000000 ∧ r ≠ 0 ∧ stopped p s ∧ (m = 0 ∨ state (task s p) = m)).
Proof.
  intros Hpc. destruct pc; cbn [wti_step]; [done|done|done| |].
  - destruct (Z.eqb_spec (state (task s p)) m); cbn [negb]; [done|]. intros [= <-]. by left.
  - destruct (Z.eqb_spec m 0) as [Em|Em], (Z.eqb_spec (state (task s p)) m) as [Es|Es]; cbn [orb];
      [| | |intros [= <-]; by left]; rewrite ncsw_nonzero;
      (destruct (on_cpu _) eqn:Eo; [done|]; destruct (task_queued p s) eqn:Eq; [done|]);
      intros [= <-]; right; pose proof (ncsw_nonzero (nvcsw (task s p))) as Hn; apply Z.eqb_neq in Hn;
      unfold stopped; by auto 10.
Qed.

(** The steps left on a task that stays stopped. *)
Definition wti_left (pc : wti_pc) : nat :=
  match pc with Locked => 1 | SpinRunning _ => 2 | RetryRq | SpinState _ => 3 | SpinCurr _ => 4 end.

Lemma wti_step_stopped p m pc s :
  stopped p s → (∃ r, wti_step p m pc s = inl r) ∨ (∃ pc', wti_step p m pc s = inr pc' ∧ (wti_left pc' < wti_left pc)%nat).
Proof.
  intros [Eo Eq]. destruct pc as [|c|c|c|]; cbn [wti_step]; cbv zeta; rewrite ?Eo, ?Eq.
  - right. eexists. split; [done|]. simpl. lia.
  - right. eexists. split; [done|]. simpl. lia.
  - right. eexists. split; [done|]. repeat case_if; simpl; lia.
  - destruct (negb _); [by left; eexists|]. right. eexists. split; [done|]. simpl. lia.
  - left. destruct (_ =? 0) in |- *; by eexists.
Qed.

Lemma wti_returns p m run n fuel pc :
  (∀ k, (n ≤ k)%nat → stopped p (run k)) → (wti_left pc ≤ fuel)%nat →
  is_Some (wait_task_inactive fuel p m run n pc).
Proof.
  revert n pc. induction fuel as [|fuel IH]; intros n pc Hst Hl; [by destruct pc; simpl in Hl; lia|].
  simpl. destruct (wti_step_stopped p m pc (run n)) as [[r ->]|(pc' & -> & Hlt)]; [by apply Hst|done|].
  apply IH; [|lia]. intros k Hk. apply Hst. lia.
Qed.

Lemma wti_left_bound pc : (wti_left pc ≤ 4)%nat.
Proof. destruct pc; simpl; lia. Qed.

Lemma wti_returns_later p m run k n fuel pc :
  (∀ j, (n + k ≤ j)%nat → stopped p (run j)) → (k + 4 ≤ fuel)%nat →
  is_Some (wait_task_inactive fuel p m run n pc).
Proof.
  revert n pc fuel. induction k as [|k IH]; intros n pc fuel Hst Hf.
  { apply wti_returns; [intros j Hj; apply Hst; lia|]. pose proof (wti_left_bound pc). lia. }
  destruct fuel as [|fuel]; [lia|]. simpl. destruct (wti_step p m pc (run n)); [done|].
  apply IH; [|lia]. intros j Hj. apply Hst. lia.
Qed.

Lemma wti_sound p m run n fuel pc r :
  pc_ok m pc → wait_task_inactive fuel p m run n pc = Some r →
  ∃ k pc', (n ≤ k)%nat ∧ pc_ok m pc' ∧ wti_step p m pc' (run k) = inl r.
Proof.
  revert n pc. induction fuel as [|fuel IH]; intros n pc Hpc; simpl; [done|].
  destruct (wti_step p m pc (run n)) as [r'|pc'] eqn:E.
  - intros [= ->]. exists n, pc. by split_and!.
  - intros (k & pc'' & Hk & ? & ?)%IH; [|by eapply wti_step_pc]. exists k, pc''. split_and!; [lia|done..].
Qed.

(** C22. [wait_task_inactive] is right about a task it cannot lock, whatever the rest
    of the system does meanwhile.  A result of zero is returned only when the
    task was seen in another state than the one to match; any other result is
    the voluntary switch count of the task, with the top bit set, at a moment at
    which the task was neither running nor queued and in the state to match.
    And it does not wait for ever: if from some moment on the task stays off
    its CPU and off the queues, it returns within four more reads. *)
Theorem wait_task_inactive_spec (p match_state : Z) (run : nat → sched) :
  (∀ k, runqueue_ok (run k)) →
  (∀ fuel r, wait_task_inactive fuel p match_state run 0 RetryRq = Some r →
     (r = 0 ∧ match_state ≠ 0 ∧ ∃ k, state (task (run k) p) ≠ match_state) ∨
     (r ≠ 0 ∧ ∃ k, r = Z.lor (nvcsw (task (run k) p)) 0x8000000000000000 ∧ ¬ runnable (run k) p ∧
        (match_state = 0 ∨ state (task (run k) p) = match_state))) ∧
  (∀ k, (∀ j, (k ≤ j)%nat → stopped p (run j)) →
     is_Some (wait_task_inactive (k + 4) p match_state run 0 RetryRq)).
Proof.
  intros Hok. split.
  - intros fuel r (k & pc & _ & Hpc & E)%wti_sound; [|done].
    destruct (wti_step_inl _ _ _ _ _ Hpc E) as [(? & ? & ?)|(? & ? & Hs & ?)]; [left; eauto|right].
    split; [done|]. exists k. split_and!; [done| |done]. by apply stopped_runnable.
  - intros k Hk. by apply (wti_returns_later p match_state run k).
Qed.
End wait_inactive.

(** ** Resetting real-time tasks *)
Section normalize.
Context `{PiLaws}.
Implicit Types s : sched.

(** The body of the loop over all threads. *)
Definition normalize_task (me p : Z) (s : sched) : sched :=
  if negb (rt_task (task s p)) && negb (iso_task (task s p)) then s
  else requeue_policy me p (task_cpu (task s p)) SCHED_NORMAL 0 s.

Definition normalize_rt_tasks (me : Z) (threads : list Z) (s : sched) : sched :=
  foldl (λ s p, normalize_task me p s) s threads.

Definition privileged (t : task_struct) : bool := rt_task t || iso_task t.
Definition demoted (t : task_struct) : task_struct :=
  if privileged t then t <| policy := SCHED_NORMAL |> <| rt_priority := 0 |> else t.

Lemma repolicy_normal p t : top_pi_waiter p = None → rt_task (repolicy p SCHED_NORMAL 0 t) = false.
Proof. intros E. unfold repolicy, rt_mutex_getprio. by rewrite E. Qed.

Lemma normalize_task_ok me p s :
  runqueue_ok s → let s' := normalize_task me p s in
  runqueue_ok s' ∧ (∀ x, queued s' x ↔ queued s x) ∧
  (∀ x, x ≠ p → rtview (task s' x) = rtview (task s x) ∧ privileged (task s' x) = privileged (task s x)) ∧
  rtview (task s' p) = rtview (demoted (task s p)) ∧ (top_pi_waiter p = None → privileged (task s' p) = false).
Proof.
  intros Hok. unfold normalize_task, demoted, privileged. cbv zeta. rewrite <- negb_orb.
  destruct (rt_task (task s p) || iso_task (task s p)) eqn:E; cbn [negb]; [|by split_and!; auto].
  destruct (requeue_policy_ok me p (task_cpu (task s p)) SCHED_NORMAL 0 s Hok) as (Hok' & Hq & Hrt & Hv); [done|].
  set (s' := requeue_policy _ _ _ _ _ _) in *. clearbody s'. specialize (Hrt eq_refl).
  assert (∀ x, iso_task (task s' x) = iso_task (if decide (p = x) then task s p <| policy := SCHED_NORMAL |> <| rt_priority := 0 |> else task s x)) as Hiso.
  { intros x. unfold iso_task. specialize (Hv x). by injection Hv as -> _ _ _ _ _. }
  split_and!; [done|done| | |].
  - intros x Hx. by rewrite Hv, Hrt, Hiso, !decide_False by done.
  - by rewrite Hv, decide_True.
  - intros Hw. rewrite Hrt, Hiso, !decide_True by done. by rewrite repolicy_normal.
Qed.

Lemma normalize_loop me threads s :
  NoDup threads → runqueue_ok s →
  let s' := normalize_rt_tasks me threads s in
  runqueue_ok s' ∧ (∀ x, queued s' x ↔ queued s x) ∧
  (∀ x, x ∉ threads → rtview (task s' x) = rtview (task s x) ∧ privileged (task s' x) = privileged (task s x)) ∧
  (∀ x, x ∈ threads → rtview (task s' x) = rtview (demoted (task s x)) ∧
                      (top_pi_waiter x = None → privileged (task s' x) = false)).
Proof.
  intros Hnd. revert s. induction Hnd as [|p l Hp Hnd IH]; intros s Hok; [split_and!; set_solver|]. cbv zeta.
  destruct (normalize_task_ok me p s Hok) as (Hok1 & Hq1 & Hx1 & Hv1 & Hw1).
  unfold normalize_rt_tasks in *. cbn [foldl]. set (s1 := normalize_task me p s) in *. clearbody s1.
  destruct (IH s1 Hok1) as (Hok' & Hq & Hout & Hin). set (s' := foldl _ s1 l) in *. clearbody s'.
  split_and!; [done|intros x; by rewrite Hq, Hq1| |]; intros x Hx.
  - apply not_elem_of_cons in Hx as [Hne Hx]. destruct (Hout x Hx) as [-> ->]. by apply Hx1.
  - apply elem_of_cons in Hx as [->|Hx]; [destruct (Hout p Hp) as [-> ->]; done|].
    destruct (Hin x Hx) as [-> Hw]. split; [|done]. destruct (Hx1 x ltac:(by intros ->)) as [Ev Ep].
    unfold demoted. rewrite Ep. case_if; [|done]. by injection Ev as E1 E2 E3 E4 E5 E6; unfold rtview, pview, update; simpl; congruence.
Qed.

(** C27. [normalize_rt_tasks] takes every thread out of the real-time and isochronous
    classes.  It keeps the run queue invariant and queues and dequeues nothing
    for good; exactly the real-time and isochronous threads become SCHED_NORMAL
    with real-time priority 0, and nothing else of the policy of any task
    changes; afterwards a thread still has a real-time priority only if it is
    boosted by a waiter for one of its locks. *)
Theorem normalize_rt_tasks_spec (me : Z) (threads : list Z) (s : sched) :
  NoDup threads → runqueue_ok s →
  let s' := normalize_rt_tasks me threads s in
  runqueue_ok s' ∧ (∀ x, queued s' x ↔ queued s x) ∧
  (∀ x, rtview (task s' x) = rtview (if decide (x ∈ threads) then demoted (task s x) else task s x)) ∧
  (∀ x, x ∈ threads → top_pi_waiter x = None → rt_task (task s' x) = false ∧ iso_task (task s' x) = false).
Proof.
  intros Hnd Hok. destruct (normalize_loop me threads s Hnd Hok) as (Hok' & Hq & Hout & Hin).
  split_and!; [done|done| |].
  - intros x. case_decide as Hx; [by apply Hin|by apply Hout].
  - intros x Hx Hw. apply orb_false_iff. by apply Hin.
Qed.
End normalize.

Section example.
#[local] Existing Instance sample_config.


(** Task 23 sleeps. *)
Lemma wait_task_inactive_spec_witness :
  is_Some (wait_task_inactive (0 + 4) 23 TASK_INTERRUPTIBLE (λ _, machine) 0 RetryRq).
Proof.
  apply (proj2 (wait_task_inactive_spec 23 TASK_INTERRUPTIBLE (λ _, machine) (λ _, machine_ok))).
  intros j _. by split.
Defined.

(** Threads 20 (normal), 22 and 25 (real-time; 22 queued, 25 running). *)
Lemma normalize_rt_tasks_spec_witness :
  let s' := @normalize_rt_tasks _ (sample_env true 10) 0 [20; 22; 25] machine in
  runqueue_ok s' ∧ policy (task s' 22) = SCHED_NORMAL ∧ rt_task (task s' 25) = false.
Proof.
  pose proof (@normalize_rt_tasks_spec _ (sample_env true 10) (sample_pi_laws true 10) 0 [20; 22; 25] machine) as Hs.
  cbv zeta in *. set (s' := @normalize_rt_tasks _ _ _ _ _) in *. clearbody s'.
  destruct Hs as (Hok & _ & Hv & Hw); [|apply machine_ok|].
  { repeat constructor; set_solver. }
  split; [done|]. split; [|apply (Hw 25); [by repeat constructor|done]].
  exact (f_equal (λ v, v.1.1.1.1.1) (Hv 22)).
Defined.
End example.
