(* ===== verification/Affinity.v ===== *)
(** * CPU affinity of kernel/sched_bfs.c

    [set_cpus_allowed_ptr], the affinity system calls, and the operations of CPU
    hotplug and idle that move or interrupt tasks: [init_idle],
    [break_sole_affinity], [sched_idle_next], [idle_task_exit],
    [sched_set_stop_task], [wake_up_idle_cpu], [get_nohz_timer_target].

    Cpusets, capabilities and the size of a mask are the class
    [AffinityEnv].  The theorem: a change of affinity keeps the run queue invariant
    and leaves no task on a forbidden CPU without a pending reschedule. *)

From S2P Require Export Policy LazyMm.
From S2P Require Import Machine.

Definition PF_THREAD_BOUND : Z := 0x04000000.
Definition STOP_PRIO : Z := MAX_RT_PRIO - 1.

Class AffinityEnv := {
  task_ns_capable : Z → bool;                (* task_ns_capable(p, CAP_SYS_NICE) *)
  cpu_possible_mask : Z;
  cpumask_bytes : Z;                         (* sizeof(cpumask_t) and cpumask_size() *)
}.

Section affinity.
Context `{Config} `{PolicyEnv} `{AffinityEnv}.

Definition cpumask_any_and (a b : Z) : Z := default nr_cpu_ids (head (cpus_in (Z.land a b))).
Definition do_set_cpus_allowed (p mask : Z) (s : sched) : sched := upd_task p (λ t, t <| cpus_allowed := mask |>) s.

(** The result, whether the caller must call [_cond_resched], and the state when the
    lock is released. *)
Definition set_cpus_allowed_ptr (me p new_mask : Z) (s : sched) : Z * bool * sched :=
  let rqcpu := task_cpu (task s p) in
  if cpus_allowed (task s p) =? new_mask then (0, false, s)
  else if negb (cpus_intersects new_mask (cpu_active_mask s)) then (- EINVAL, false, s)
  else if negb (Z.land (flags (task s p)) PF_THREAD_BOUND =? 0) && negb (p =? curr (cpu_rq s me)) then (- EINVAL, false, s)
  else
    let queued := task_queued p s in
    let s := do_set_cpus_allowed p new_mask s in
    let '(running_wrong, s) :=
      if cpu_isset (task_cpu (task s p)) new_mask then (false, s)
      else if task_running p s then
        if rqcpu =? me then (true, upd_task p (λ t, t <| need_resched := true |>) s)
        else (false, resched_task me p s)
      else (false, set_task_cpu p (cpumask_any_and (cpu_active_mask s) new_mask) s) in
    (0, running_wrong, if queued then try_preempt me p rqcpu s else s).

(** [cpuset] lists the answers of the calls of [cpuset_cpus_allowed], [mems] whether
    the two masks could be allocated.  The loop runs until an answer contains the
    mask that was set; [None] when the answers do not suffice. *)
Fixpoint setaffinity_loop (me p new_mask : Z) (cpuset : list Z) (s : sched) : option (Z * sched) :=
  let '(retval, _, s) := set_cpus_allowed_ptr me p new_mask s in
  if negb (retval =? 0) then Some (retval, s)
  else
    match cpuset with
    | [] => None
    | cpus_allowed :: cpuset =>
        if negb (cpumask_subset new_mask cpus_allowed) then setaffinity_loop me p cpus_allowed cpuset s
        else Some (retval, s)
    end.

Definition sched_setaffinity (mems : bool * bool) (me pid in_mask : Z) (cpuset : list Z) (s : sched) : option (Z * sched) :=
  let p := find_process_by_pid me pid s in
  if p =? NULL then Some (- ESRCH, s)
  else if negb mems.1 || negb mems.2 then Some (- ENOMEM, s)
  else if negb (check_same_owner p) && negb (task_ns_capable p) then Some (- EPERM, s)
  else
    let retval := security_task_setscheduler p in
    if negb (retval =? 0) then Some (retval, s)
    else
      match cpuset with
      | [] => None
      | cpus_allowed :: cpuset => setaffinity_loop me p (Z.land in_mask cpus_allowed) cpuset s
      end.

(** [user] is the little-endian number at the user's address; a short mask is
    extended with zeros, a long one cut off. *)
Definition get_user_cpu_mask (user : option Z) (len : Z) : Z + Z :=
  let len := if cpumask_bytes <? len then cpumask_bytes else len in
  match user with
  | None => inl (- EFAULT)
  | Some v => inr (Z.land v (Z.ones (8 * len)))
  end.

Definition sys_sched_setaffinity (mem : bool) (mems : bool * bool) (me pid len : Z) (user : option Z) (cpuset : list Z)
    (s : sched) : option (Z * sched) :=
  if negb mem then Some (- ENOMEM, s)
  else
    match get_user_cpu_mask user len with
    | inl err => Some (err, s)
    | inr new_mask => sched_setaffinity mems me pid new_mask cpuset s
    end.

Definition sched_getaffinity (me pid : Z) (s : sched) : Z + Z :=
  let p := find_process_by_pid me pid s in
  if p =? NULL then inl (- ESRCH)
  else
    let retval := security_task_getscheduler p in
    if negb (retval =? 0) then inl retval
    else inr (Z.land (cpus_allowed (task s p)) (cpu_online_map s)).

(** The result and the bytes written, as a number. *)
Definition sys_sched_getaffinity (mem : bool) (me pid len addr : Z) (s : sched) : Z * option Z :=
  if u32 (len * 8) <? nr_cpu_ids then (- EINVAL, None)
  else if negb (Z.land len 7 =? 0) then (- EINVAL, None)
  else if negb mem then (- ENOMEM, None)
  else
    match sched_getaffinity me pid s with
    | inl err => (err, None)
    | inr mask =>
        let retlen := Z.min len cpumask_bytes in
        if negb (copy_to_user_ok addr) then (- EFAULT, None)
        else (retlen, Some (Z.land mask (Z.ones (8 * retlen))))
    end.

(** ** Idle, stop and hotplug *)
Definition init_idle (idl cpu : Z) (s : sched) : sched :=
  let s := update_clocks cpu s in
  let s := upd_task idl (λ t, t <| last_ran := clock (cpu_rq s cpu) |> <| state := TASK_RUNNING |> <| prio := PRIO_LIMIT |>) s in
  let s := set_rq_task cpu idl s in
  let s := do_set_cpus_allowed idl (Z.shiftl 1 cpu) s in
  let s := set_task_cpu idl cpu s in
  let s := upd_rq cpu (λ r, r <| idle := idl |> <| curr := idl |>) s in
  let s := upd_task idl (λ t, t <| on_cpu := true |>) s in
  upd_task idl (λ t, t <| preempt_count := 0 |>) s.

Definition resched_cpu (me cpu : Z) (s : sched) : sched := resched_task me (curr (cpu_rq s cpu)) s.

(** The first CPU of the first domain ends the search, busy or not. *)
Definition get_nohz_timer_target (me : Z) (s : sched) : Z :=
  match concat (cpus_in ∘ sd_span <$> sd (cpu_rq s me)) with
  | [] => me
  | i :: _ => if negb (idle_cpu s i) then i else me
  end.

Definition wake_up_idle_cpu (me cpu : Z) (s : sched) : sched :=
  if cpu =? me then s
  else
    let idl := idle (cpu_rq s cpu) in
    if negb (curr (cpu_rq s cpu) =? idl) then s
    else
      let s := upd_task idl (λ t, t <| need_resched := true |>) s in
      if negb (polling (task s idl)) then s <| ipis ::= cons cpu |> else s.

(** [threads] are all tasks, in the order of [do_each_thread]. *)
Definition break_sole_affinity (threads : list Z) (idl : Z) (s : sched) : sched :=
  foldl (λ s p,
    let s := if negb (p =? idl) && negb (online_cpus s (task s p))
             then upd_task p (λ t, t <| cpus_allowed := cpu_possible_mask |>) s else s in
    clear_sticky p s) s threads.

Definition sched_idle_next (me cpu idl : Z) (s : sched) : outcome sched :=
  if cpu_online s cpu then Oops
  else
    let s := __setscheduler me idl cpu SCHED_FIFO STOP_PRIO s in
    let s := activate_idle_task idl s in
    Done (upd_task (curr (cpu_rq s cpu)) (λ t, t <| need_resched := true |>) s).

(** [switch_mm] changes only the hardware's page table. *)
Definition idle_task_exit (me : Z) (s : sched) : outcome sched :=
  let m := active_mm (task s (curr (cpu_rq s me))) in
  if cpu_online s me then Oops else Done (mm_add m (-1) s).

Definition sched_set_stop_task (env1 env2 : list (sched → sched)) (me cpu stp : Z) (s : sched) : sched :=
  let old_stop := stop (cpu_rq s cpu) in
  let s := if negb (stp =? NULL) then (sched_setscheduler_nocheck env1 me stp SCHED_FIFO STOP_PRIO s).2 else s in
  let s := upd_rq cpu (λ r, r <| stop := stp |>) s in
  if negb (old_stop =? NULL) then (sched_setscheduler_nocheck env2 me old_stop SCHED_FIFO (MAX_USER_RT_PRIO - 1) s).2 else s.
End affinity.

(** ** Where a task may be *)
Section affine.
Context `{Config}.
Implicit Types s : sched.

(** On a CPU it may use, or running and about to be rescheduled. *)
Definition affine s p : Prop :=
  cpu_isset (task_cpu (task s p)) (cpus_allowed (task s p)) = true ∨
  on_cpu (task s p) = true ∧ need_resched (task s p) = true.

Definition place (t : task_struct) : Z * Z * bool := (cpus_allowed t, task_cpu t, on_cpu t).
#[export] Instance place_quiet : Quiet place.
Proof. by split. Qed.

Lemma resched_sets me p s : need_resched (task (resched_task me p s) p) = true.
Proof.
  unfold resched_task. destruct (need_resched (task s p)) eqn:E; [done|]. cbv zeta.
  assert (need_resched (task (upd_task p (λ t, t <| need_resched := true |>) s) p) = true) as Hs
    by (by rewrite task_upd_task_eq).
  repeat case_if; done.
Qed.

Lemma cpumask_any_and_spec a b :
  (∀ c, Z.testbit a c = true → c < nr_cpu_ids) → Z.land a b ≠ 0 → 0 ≤ a →
  Z.testbit a (cpumask_any_and a b) = true ∧ Z.testbit b (cpumask_any_and a b) = true.
Proof.
  intros Ha Hne Hpos. assert (∃ c, c ∈ cpus_in (Z.land a b)) as [c Hc].
  { destruct (Z.eq_dec (Z.land a b) 0) as [|Hn]; [done|]. assert (0 ≤ Z.land a b) as Hp by (apply Z.land_nonneg; by left).
    exists (Z.log2 (Z.land a b)). apply cpus_in_spec. pose proof (Z.bit_log2 (Z.land a b) ltac:(lia)) as Hb.
    split; [|done]. split; [apply Z.log2_nonneg|]. apply Ha. rewrite Z.land_spec in Hb. by apply andb_true_iff in Hb as [? _]. }
  unfold cpumask_any_and. destruct (cpus_in (Z.land a b)) as [|x l] eqn:E; [by apply elem_of_nil in Hc|]. simpl.
  assert (x ∈ cpus_in (Z.land a b)) as Hx by (rewrite E; by left). apply cpus_in_spec in Hx as [_ Hx].
  rewrite Z.land_spec in Hx. by apply andb_true_iff in Hx.
Qed.

(** The change of the mask and the move, before the preemption. *)
Lemma set_mask_core s s1 p mask : same_core s s1 → same_core s (do_set_cpus_allowed p mask s1).
Proof. unfold do_set_cpus_allowed. frame. Qed.

(** The end of [set_cpus_allowed_ptr], once the task is where it should be. *)
Lemma placed_ok me p mask cpu r s s2 :
  runqueue_ok s → same_core s s2 →
  place (task s2 p) = (mask, cpu, on_cpu (task s p)) → (∀ x, x ≠ p → place (task s2 x) = place (task s x)) →
  cpu_isset cpu mask = true ∨ on_cpu (task s p) = true ∧ need_resched (task s2 p) = true →
  (cpu = task_cpu (task s p) ∨ cpu_isset (task_cpu (task s p)) mask = false ∧ cpu_isset cpu (cpu_active_mask s) = true) →
  let s' := if task_queued p s then try_preempt me p r s2 else s2 in
  let t := task s p in let t' := task s' p in
  runqueue_ok s' ∧ (∀ x, queued s' x ↔ queued s x) ∧
  (∀ x, x ≠ p → cpus_allowed (task s' x) = cpus_allowed (task s x) ∧ task_cpu (task s' x) = task_cpu (task s x)) ∧
  cpus_allowed t' = mask ∧ on_cpu t' = on_cpu t ∧ affine s' p ∧
  (task_cpu t' = task_cpu t ∨ cpu_isset (task_cpu t) mask = false ∧ cpu_isset (task_cpu t') (cpu_active_mask s) = true).
Proof.
  intros Hok Hc Hp Ho Hw Hm s' t t'. assert (same_core s s') as Hc' by (unfold s'; frame).
  assert (∀ x, place (task s' x) = place (task s2 x)) as Hpl.
  { unfold s'. destruct (task_queued p s); [|done]. apply keeps_preempt, keeps_refl. }
  pose proof (Hpl p) as E. rewrite Hp in E. injection E as E1 E2 E3. unfold t', t, affine. rewrite E1, E2, E3.
  split_and!; [by rewrite <- Hc'|intros x; by rewrite <- Hc'| |done|done| |done].
  - intros x Hx. pose proof (Hpl x) as Ex. rewrite (Ho x Hx) in Ex. by injection Ex as -> -> _.
  - destruct Hw as [Hw|[Hon Hn]]; [by left|right]. split; [done|]. unfold s'. destruct (task_queued p s) eqn:Eq; [|done].
    apply task_queued_spec in Eq; [|apply Hok]. destruct (ok_disjoint _ Hok p Eq). congruence.
Qed.

(** The branches after the checks. *)
Lemma set_mask_moves me p mask s :
  runqueue_ok s → 0 ≤ cpu_active_mask s → (∀ c, Z.testbit (cpu_active_mask s) c = true → c < nr_cpu_ids) →
  Z.land mask (cpu_active_mask s) ≠ 0 →
  let s1 := do_set_cpus_allowed p mask s in
  let '(ret, wrong, s') :=
    let '(running_wrong, s2) :=
      if cpu_isset (task_cpu (task s1 p)) mask then (false, s1)
      else if task_running p s1 then
        if task_cpu (task s p) =? me then (true, upd_task p (λ t, t <| need_resched := true |>) s1)
        else (false, resched_task me p s1)
      else (false, set_task_cpu p (cpumask_any_and (cpu_active_mask s1) mask) s1) in
    (0, running_wrong, if task_queued p s then try_preempt me p (task_cpu (task s p)) s2 else s2) in
  let t := task s p in let t' := task s' p in
  runqueue_ok s' ∧ (∀ x, queued s' x ↔ queued s x) ∧
  (∀ x, x ≠ p → cpus_allowed (task s' x) = cpus_allowed (task s x) ∧ task_cpu (task s' x) = task_cpu (task s x)) ∧
  ret = 0 ∧ cpus_allowed t' = mask ∧ on_cpu t' = on_cpu t ∧ affine s' p ∧
  (task_cpu t' = task_cpu t ∨ cpu_isset (task_cpu t) mask = false ∧ cpu_isset (task_cpu t') (cpu_active_mask s) = true) ∧
  (wrong = true ↔ cpu_isset (task_cpu t) mask = false ∧ on_cpu t = true ∧ task_cpu t = me).
Proof.
  intros Hok Hpos Hact Hint s1.
  assert (task s1 p = task s p <| cpus_allowed := mask |>) as T1 by (unfold s1, do_set_cpus_allowed; by rewrite task_upd_task_eq).
  assert (∀ x, x ≠ p → task s1 x = task s x) as T1o by (intros x Hx; unfold s1, do_set_cpus_allowed; by rewrite task_upd_task_ne).
  assert (same_core s s1) as Hc1 by (unfold s1; frame).
  assert (task_cpu (task s1 p) = task_cpu (task s p)) as -> by (by rewrite T1).
  assert (task_running p s1 = on_cpu (task s p)) as -> by (unfold task_running; by rewrite T1).
  assert (place (task s1 p) = (mask, task_cpu (task s p), on_cpu (task s p))) as P1 by (by rewrite T1).
  change (cpu_active_mask s1) with (cpu_active_mask s).
  destruct (cpu_isset (task_cpu (task s p)) mask) eqn:Es; [|destruct (on_cpu (task s p)) eqn:Eon;
    [destruct (Z.eqb_spec (task_cpu (task s p)) me) as [Ec|Ec]|]]; cbv zeta.
  - destruct (placed_ok me p mask (task_cpu (task s p)) (task_cpu (task s p)) s s1) as (H1&H2&H3&H4&H5&H6&H7);
      [done..|intros x Hx; by rewrite T1o|by left|by left|]. split_and!; try done. rewrite Es. by split; [|intros (? & _)].
  - set (s2 := upd_task p _ s1). assert (same_core s s2) as Hc2 by (unfold s2; frame).
    destruct (placed_ok me p mask (task_cpu (task s p)) (task_cpu (task s p)) s s2) as (H1&H2&H3&H4&H5&H6&H7);
      [done|done|unfold s2; by rewrite task_upd_task_eq, T1|intros x Hx; unfold s2; by rewrite task_upd_task_ne, T1o| |by left|].
    { right. split; [done|]. unfold s2. by rewrite task_upd_task_eq. }
    by split_and!.
  - set (s2 := resched_task me p s1). assert (same_core s s2) as Hc2 by (unfold s2; frame).
    assert (∀ x, place (task s2 x) = place (task s1 x)) as Hpl by apply keeps_resched, keeps_refl.
    destruct (placed_ok me p mask (task_cpu (task s p)) (task_cpu (task s p)) s s2) as (H1&H2&H3&H4&H5&H6&H7);
      [done|done|by rewrite Hpl, P1, Eon|intros x Hx; by rewrite Hpl, T1o| |by left|].
    { right. split; [done|]. apply resched_sets. }
    split_and!; try done. by split; [|intros (_ & _ & ?)].
  - destruct (cpumask_any_and_spec (cpu_active_mask s) mask) as [Ha Hb]; [done|by rewrite Z.land_comm|done|].
    set (s2 := set_task_cpu p _ s1). assert (same_core s s2) as Hc2 by (unfold s2; frame).
    destruct (placed_ok me p mask (cpumask_any_and (cpu_active_mask s) mask) (task_cpu (task s p)) s s2) as (H1&H2&H3&H4&H5&H6&H7);
      [done|done|unfold s2, set_task_cpu, place; rewrite task_upd_task_eq, T1; simpl; by rewrite Eon
      |intros x Hx; unfold s2, set_task_cpu; by rewrite task_upd_task_ne, T1o|by left|by right; rewrite Es|].
    split_and!; try done. rewrite Eon. by split; [|intros (_ & ? & _)].
Qed.
End affine.
#[export] Hint Resolve set_mask_core : frame.

(** C28. A change of affinity keeps the run queue invariant and the queues, and no other
    task's mask or CPU.  It does nothing when the task has the mask already, and is
    refused for a mask without active CPUs and for a thread bound to its CPU, unless
    the thread does it itself.  Otherwise the task gets the mask and is on a CPU of
    the mask, or is running elsewhere with a reschedule pending; it changes its CPU
    only if it must, to an active one.  The caller is told to reschedule exactly when
    it is itself running on a forbidden CPU. *)
Theorem set_cpus_allowed_ptr_spec `{Config} (me p mask : Z) (s : sched) :
  runqueue_ok s → 0 ≤ cpu_active_mask s → (∀ c, Z.testbit (cpu_active_mask s) c = true → c < nr_cpu_ids) →
  let '(ret, wrong, s') := set_cpus_allowed_ptr me p mask s in
  let t := task s p in let t' := task s' p in
  runqueue_ok s' ∧ (∀ x, queued s' x ↔ queued s x) ∧
  (∀ x, x ≠ p → cpus_allowed (task s' x) = cpus_allowed (task s x) ∧ task_cpu (task s' x) = task_cpu (task s x)) ∧
  if decide (cpus_allowed t = mask) then ret = 0 ∧ wrong = false ∧ s' = s
  else if decide (Z.land mask (cpu_active_mask s) = 0 ∨ Z.land (flags t) PF_THREAD_BOUND ≠ 0 ∧ p ≠ curr (cpu_rq s me))
  then ret = - EINVAL ∧ wrong = false ∧ s' = s
  else ret = 0 ∧ cpus_allowed t' = mask ∧ on_cpu t' = on_cpu t ∧ affine s' p ∧
    (task_cpu t' = task_cpu t ∨ cpu_isset (task_cpu t) mask = false ∧ cpu_isset (task_cpu t') (cpu_active_mask s) = true) ∧
    (wrong = true ↔ cpu_isset (task_cpu t) mask = false ∧ on_cpu t = true ∧ task_cpu t = me).
Proof.
  intros Hok Hpos Hact. unfold set_cpus_allowed_ptr. cbv zeta.
  destruct (Z.eqb_spec (cpus_allowed (task s p)) mask) as [Em|Hm].
  { rewrite decide_True by done. by split_and!. }
  assert (∀ A (a b : A), (if decide (cpus_allowed (task s p) = mask) then a else b) = b) as Hno
    by (intros; by rewrite decide_False).
  unfold cpus_intersects. destruct (Z.eqb_spec (Z.land mask (cpu_active_mask s)) 0) as [E0|Hint]; cbn [negb].
  { rewrite Hno, decide_True by (by left). by split_and!. }
  destruct (negb _ && negb _) eqn:Eb.
  { apply andb_true_iff in Eb as [Eb1 Eb2]. apply negb_true_iff, Z.eqb_neq in Eb1, Eb2.
    rewrite Hno, decide_True by (by right). by split_and!. }
  assert (¬ (Z.land mask (cpu_active_mask s) = 0 ∨
    Z.land (flags (task s p)) PF_THREAD_BOUND ≠ 0 ∧ p ≠ curr (cpu_rq s me))) as Hgo.
  { intros [?|[H1 H2]]; [done|]. by rewrite (proj2 (Z.eqb_neq _ _) H1), (proj2 (Z.eqb_neq _ _) H2) in Eb. }
  pose proof (set_mask_moves me p mask s Hok Hpos Hact Hint) as Hmv. cbv zeta in Hmv.
  destruct (if cpu_isset _ _ then _ else _) as [wrong s2]. by rewrite Hno, decide_False.
Qed.

(** [sched_setaffinity] returns as soon as two answers of the cpuset agree. *)
Lemma setaffinity_settles `{Config} me p mask m cpuset s :
  is_Some (setaffinity_loop me p mask (m :: m :: cpuset) s) ∧
  (Z.ldiff mask m = 0 → is_Some (setaffinity_loop me p mask (m :: cpuset) s)).
Proof.
  assert (∀ mask l s, Z.ldiff mask m = 0 → is_Some (setaffinity_loop me p mask (m :: l) s)) as Hsub.
  { intros mask' l s' Hd. simpl. destruct (set_cpus_allowed_ptr me p mask' s') as [[r w] s'']. destruct (negb _); [by eexists|].
    unfold cpumask_subset. rewrite Hd. simpl. destruct l; by eexists. }
  split; [|apply Hsub]. cbn [setaffinity_loop]. destruct (set_cpus_allowed_ptr me p mask s) as [[r w] s'].
  destruct (negb (r =? 0)); [by eexists|]. destruct (negb (cpumask_subset mask m)); [|by eexists].
  apply Hsub. apply Z.ldiff_diag.
Qed.

Section affinity_examples.
#[local] Existing Instance sample_config.
#[local] Instance sample_affinity : AffinityEnv :=
  {| task_ns_capable := λ _, false; cpu_possible_mask := 15; cpumask_bytes := 8 |}.

(** The queued task 21, last on CPU 0, is restricted to the CPUs 2 and 3. *)
Lemma set_cpus_allowed_ptr_spec_witness :
  let '(ret, wrong, s') := set_cpus_allowed_ptr 0 21 12 machine in
  runqueue_ok s' ∧ ret = 0 ∧ cpus_allowed (task s' 21) = 12 ∧ affine s' 21.
Proof.
  pose proof (set_cpus_allowed_ptr_spec 0 21 12 machine machine_ok) as Hs.
  destruct (set_cpus_allowed_ptr 0 21 12 machine) as [[ret wrong] s'].
  destruct Hs as (Hok & _ & _ & Hr).
  - by vm_compute.
  - intros c Hc. destruct (Z.lt_ge_cases c 4) as [|Hge]; [done|].
    change (Z.testbit 15 c = true) in Hc. rewrite Z.bits_above_log2 in Hc; [done|done|]. change (Z.log2 15) with 3. lia.
  - rewrite !decide_False in Hr; [by destruct Hr as (-> & E & _ & Ha & _)|by vm_compute; intros [|[? _]]|by vm_compute].
Defined.

(** A mask outside the active CPUs is refused. *)
Example mask_without_active_cpus : set_cpus_allowed_ptr 0 21 16 machine = (- EINVAL, false, machine).
Proof. reflexivity. Qed.

(** CPU 2 is idle and looks for a busy CPU near by; CPU 3 of the same domain is busy,
    but the search ends at the first CPU of the domain, CPU 2 itself. *)
Example nohz_target_gives_up :
  let s := upd_rq 2 (λ r, r <| sd := [mk_sd 0 0 0 12 (0%nat, 0, 0) 2; mk_sd 0 1 1 15 (1%nat, 0, 0) 4] |>)
    (upd_rq 3 (λ r, r <| curr := 24 |>) machine) in
  idle_cpu s 3 = false ∧ get_nohz_timer_target 2 s = 2 ∧ idle_cpu s 2 = true.
Proof. by vm_compute. Qed.
End affinity_examples.
