(* ===== verification/Domains.v ===== *)
(** * Scheduling domains of kernel/sched_bfs.c

    The construction of the scheduling domains of the CPUs from the topology
    ([build_sched_domains] and what it calls), their attachment to the run queues,
    the root domains with their reference counts, and the change of the partition
    of the CPUs ([partition_sched_domains]).

    The chain of domains of a CPU is a list, the lowest domain first.  Groups are
    linked by pointers in the source; they live in a memory indexed by the level of
    the topology, the CPU whose private group it is ([-1] for the shared ones) and
    the CPU it was allocated for.  What the allocators answer is an argument.
    Freeing a root domain removes it from [root_domains]; the release of domains
    and groups is not modelled, nor are the fields only load balancing uses, which
    this scheduler does not have. *)

From Stdlib Require Export Sorting.Sorted.
From S2P Require Export Affinity.
From S2P Require Import Machine.

(** ** include/linux/sched.h *)
Definition SD_LOAD_BALANCE : Z := 0x0001.
Definition SD_BALANCE_NEWIDLE : Z := 0x0002.
Definition SD_BALANCE_EXEC : Z := 0x0004.
Definition SD_BALANCE_FORK : Z := 0x0008.
Definition SD_BALANCE_WAKE : Z := 0x0010.
Definition SD_WAKE_AFFINE : Z := 0x0020.
Definition SD_SHARE_CPUPOWER : Z := 0x0080.
Definition SD_POWERSAVINGS_BALANCE : Z := 0x0100.
Definition SD_SHARE_PKG_RESOURCES : Z := 0x0200.
Definition SD_SERIALIZE : Z := 0x0400.
Definition SD_PREFER_SIBLING : Z := 0x1000.
Definition SD_OVERLAP : Z := 0x2000.
Definition MAX_POWERSAVINGS_BALANCE_LEVELS : Z := 3.

(** The variables of lines 6103, 6208, 6411-6412 and 6698-6700. *)
Record doms := mk_doms {
  cpu_isolated_map : Z;
  sched_smt_power_savings : Z;
  sched_mc_power_savings : Z;
  default_relax_domain_level : Z;
  sched_domain_level_max : Z;
  doms_cur : list Z;
  ndoms_cur : Z;
  dattr_cur : option (list Z);      (* relax_domain_level of each *)
}.
#[export] Instance eta_doms : Eta doms :=
  ctor mk_doms <+> cpu_isolated_map <+> sched_smt_power_savings <+> sched_mc_power_savings
    <+> default_relax_domain_level <+> sched_domain_level_max <+> doms_cur <+> ndoms_cur <+> dattr_cur.

Definition sd_balance_for_mc_power (d : doms) : Z :=
  if negb (sched_smt_power_savings d =? 0) then SD_POWERSAVINGS_BALANCE
  else if sched_mc_power_savings d =? 0 then SD_PREFER_SIBLING else 0.
Definition sd_balance_for_package_power (d : doms) : Z :=
  if negb (Z.lor (sched_mc_power_savings d) (sched_smt_power_savings d) =? 0) then SD_POWERSAVINGS_BALANCE
  else SD_PREFER_SIBLING.
Definition sd_power_saving_flags (d : doms) : Z :=
  if negb (Z.lor (sched_mc_power_savings d) (sched_smt_power_savings d) =? 0) then SD_BALANCE_NEWIDLE else 0.

(** The flags of include/linux/topology.h and arch/x86/include/asm/topology.h; no
    initialiser sets [level]. *)
Definition or_flags : list Z → Z := foldr Z.lor 0.
Definition arch_sd_sibling_asym_packing : Z := 0.
Definition SD_SIBLING_INIT : Z :=
  or_flags [SD_LOAD_BALANCE; SD_BALANCE_NEWIDLE; SD_BALANCE_EXEC; SD_BALANCE_FORK; SD_WAKE_AFFINE;
    SD_SHARE_CPUPOWER; SD_SHARE_PKG_RESOURCES; arch_sd_sibling_asym_packing].
Definition SD_MC_INIT (d : doms) : Z :=
  or_flags [SD_LOAD_BALANCE; SD_BALANCE_NEWIDLE; SD_BALANCE_EXEC; SD_BALANCE_FORK; SD_WAKE_AFFINE;
    SD_SHARE_PKG_RESOURCES; sd_balance_for_mc_power d; sd_power_saving_flags d].
Definition SD_CPU_INIT (d : doms) : Z :=
  or_flags [SD_LOAD_BALANCE; SD_BALANCE_NEWIDLE; SD_BALANCE_EXEC; SD_BALANCE_FORK; SD_WAKE_AFFINE;
    sd_balance_for_package_power d; sd_power_saving_flags d].
Definition SD_NODE_INIT : Z :=
  or_flags [SD_LOAD_BALANCE; SD_BALANCE_NEWIDLE; SD_BALANCE_EXEC; SD_BALANCE_FORK; SD_WAKE_AFFINE; SD_SERIALIZE].
Definition SD_ALLNODES_INIT : Z := or_flags [SD_LOAD_BALANCE; SD_BALANCE_NEWIDLE; SD_SERIALIZE].

(** What the architecture says of the CPUs and nodes. *)
Class Topology := {
  topology_thread_cpumask : Z → Z;
  cpu_coregroup_mask : Z → Z;
  cpu_to_node : Z → Z;
  cpumask_of_node : Z → Z;
  nr_node_ids : Z;
  node_distance : Z → Z → Z;
}.

Section masks.
Context `{Config} `{AffinityEnv} `{Topology}.

Definition cpumask_weight (mask : Z) : Z := Z.of_nat (length (cpus_in mask)).
Definition cpumask_first (mask : Z) : Z := default nr_cpu_ids (head (cpus_in mask)).
Definition nr_cpus_node (node : Z) : Z := cpumask_weight (cpumask_of_node node).

(** ** Nodes *)
Definition INT_MAX : Z := 0x7fffffff.
Definition SD_NODES_PER_DOMAIN : nat := 16.

Fixpoint best_node_in (node used_nodes : Z) (js : list Z) (min_val best_node : Z) : Z :=
  match js with
  | [] => best_node
  | i :: js =>
      let n := (node + i) mod nr_node_ids in
      if nr_cpus_node n =? 0 then best_node_in node used_nodes js min_val best_node
      else if Z.testbit used_nodes n then best_node_in node used_nodes js min_val best_node
      else
        let val := node_distance node n in
        if val <? min_val then best_node_in node used_nodes js val n
        else best_node_in node used_nodes js min_val best_node
  end.
Definition find_next_best_node (node used_nodes : Z) : Z * Z :=
  let best_node := best_node_in node used_nodes (seqZ 0 nr_node_ids) INT_MAX (-1) in
  (best_node, if negb (best_node =? -1) then Z.setbit used_nodes best_node else used_nodes).

(** The loop of [sched_domain_node_span], [n] more nodes at most. *)
Fixpoint node_span_loop (n : nat) (node used_nodes span : Z) : Z :=
  match n with
  | O => span
  | S n =>
      let '(next_node, used_nodes) := find_next_best_node node used_nodes in
      if next_node <? 0 then span
      else node_span_loop n node used_nodes (Z.lor span (cpumask_of_node next_node))
  end.
Definition sched_domain_node_span (node : Z) : Z :=
  node_span_loop (SD_NODES_PER_DOMAIN - 1) node (Z.setbit 0 node) (Z.lor 0 (cpumask_of_node node)).

Definition cpu_node_mask (cpu : Z) : Z := sched_domain_node_span (cpu_to_node cpu).
Definition cpu_allnodes_mask (cpu : Z) : Z := cpu_possible_mask.
Definition cpu_cpu_mask (cpu : Z) : Z := cpumask_of_node (cpu_to_node cpu).
Definition cpu_smt_mask (cpu : Z) : Z := topology_thread_cpumask cpu.

(** ** Levels of the topology *)
Definition SDTL_OVERLAP : Z := 0x01.
Record sched_domain_topology_level := mk_tl { tl_init : Z; tl_mask : Z → Z; tl_flags : Z }.

Definition default_topology (d : doms) : list sched_domain_topology_level :=
  (if CONFIG_SCHED_SMT then [mk_tl SD_SIBLING_INIT cpu_smt_mask 0] else []) ++
  (if CONFIG_SCHED_MC then [mk_tl (SD_MC_INIT d) cpu_coregroup_mask 0] else []) ++
  [mk_tl (SD_CPU_INIT d) cpu_cpu_mask 0] ++
  (if CONFIG_NUMA then [mk_tl SD_NODE_INIT cpu_node_mask SDTL_OVERLAP; mk_tl SD_ALLNODES_INIT cpu_allnodes_mask 0]
   else []).

Definition setup_relax_domain_level (val : Z) (d : doms) : doms :=
  if u64 val <? u64 (sched_domain_level_max d) then d <| default_relax_domain_level := s32 val |> else d.

Definition set_domain_attribute (d : doms) (attr : option Z) (sd : sched_domain) : sched_domain :=
  let set request :=
    if request <? sd_level sd
    then sd <| sd_flags ::= λ f, Z.ldiff f (Z.lor SD_BALANCE_WAKE SD_BALANCE_NEWIDLE) |>
    else sd <| sd_flags ::= λ f, Z.lor f (Z.lor SD_BALANCE_WAKE SD_BALANCE_NEWIDLE) |> in
  match attr with
  | Some relax =>
      if relax <? 0 then
        if default_relax_domain_level d <? 0 then sd else set (default_relax_domain_level d)
      else set relax
  | None => if default_relax_domain_level d <? 0 then sd else set (default_relax_domain_level d)
  end.

(** ** The chain of one CPU *)
Definition sg_null : nat * Z * Z := (0%nat, -1, -1).
Definition sd_init (k : nat) (tl : sched_domain_topology_level) : sched_domain :=
  mk_sd (tl_init tl) 0 k 0 sg_null 0.

Definition build_sched_domain (k : nat) (tl : sched_domain_topology_level) (cpu_map : Z) (attr : option Z)
    (child : option sched_domain) (cpu : Z) (d : doms) : sched_domain * doms :=
  let sd := set_domain_attribute d attr (sd_init k tl) in
  let sd := sd <| sd_span := Z.land cpu_map (tl_mask tl cpu) |> in
  match child with
  | Some child =>
      let sd := sd <| sd_level := sd_level child + 1 |> in
      (sd, d <| sched_domain_level_max ::= λ m, Z.max m (sd_level sd) |>)
  | None => (sd, d)
  end.

(** The loop over the levels (lines 6645-6652); the domains built so far come with
    the highest first, the result with the lowest first. *)
Fixpoint build_chain (k : nat) (tls : list sched_domain_topology_level) (cpu_map : Z) (attr : option Z) (cpu : Z)
    (sds : list sched_domain) (d : doms) : list sched_domain * doms :=
  match tls with
  | [] => (rev sds, d)
  | tl :: tls =>
      let '(sd, d) := build_sched_domain k tl cpu_map attr (head sds) cpu d in
      let sd := if negb (Z.land (tl_flags tl) SDTL_OVERLAP =? 0) then sd <| sd_flags ::= λ f, Z.lor f SD_OVERLAP |>
                else sd in
      if cpu_map =? sd_span sd then (rev (sd :: sds), d)
      else build_chain (S k) tls cpu_map attr cpu (sd :: sds) d
  end.

Definition add_chain (cpu_map : Z) (attr : option Z) (cd : gmap Z (list sched_domain) * doms) (i : Z) :
    gmap Z (list sched_domain) * doms :=
  let '(chains, d) := cd in
  let '(chain, d) := build_chain 0 (default_topology d) cpu_map attr i [] d in
  (<[i := chain]> chains, d).
Definition build_chains (cpu_map : Z) (attr : option Z) (d : doms) : gmap Z (list sched_domain) * doms :=
  foldl (add_chain cpu_map attr) (∅, d) (cpus_in cpu_map).
End masks.

(** ** Groups *)
Record sched_group := mk_sg { sg_cpus : Z; sg_next : nat * Z * Z; sg_ref : Z }.
#[export] Instance eta_sched_group : Eta sched_group := ctor mk_sg <+> sg_cpus <+> sg_next <+> sg_ref.
#[export] Instance sched_group_inhabited : Inhabited sched_group := populate (mk_sg 0 sg_null 0).
Abbreviation groups := (gmap (nat * Z * Z) sched_group).
Definition upd_sg (g : nat * Z * Z) (f : sched_group → sched_group) (m : groups) : groups := <[g := f (m !!! g)]> m.

Section groups.
Context `{Config}.

(** The domain of a CPU at level [k] has been built, and has a child, unless [k] is the
    lowest level; one that has not been built is still zero and has none. *)
Definition child_span (chains : gmap Z (list sched_domain)) (k : nat) (cpu : Z) : option Z :=
  match (chains !!! cpu) !! k, k with
  | Some _, S k => sd_span <$> (chains !!! cpu) !! k
  | _, _ => None
  end.

Definition get_group (chains : gmap Z (list sched_domain)) (k : nat) (cpu : Z) : Z :=
  match child_span chains k cpu with
  | Some span => cpumask_first span
  | None => cpu
  end.

(** The new group at the end of the list. *)
Definition link_group (first last : option (nat * Z * Z)) (sg : nat * Z * Z) (m : groups) :
    option (nat * Z * Z) * groups :=
  let first := match first with None => Some sg | Some _ => first end in
  let m := match last with Some l => upd_sg l (λ g, g <| sg_next := sg |>) m | None => m end in
  (first, m).

Fixpoint groups_loop (chains : gmap Z (list sched_domain)) (k : nat) (span : Z) (js : list Z) (covered : Z)
    (first last : option (nat * Z * Z)) (m : groups) : groups :=
  match js with
  | [] =>
      match last, first with
      | Some last, Some first => upd_sg last (λ g, g <| sg_next := first |>) m
      | _, _ => m
      end
  | i :: js =>
      let group := get_group chains k i in
      if Z.testbit covered i then groups_loop chains k span js covered first last m
      else
        let sg := (k, -1, group) in
        let m := upd_sg sg (λ g, g <| sg_cpus := 0 |>) m in
        let '(covered, m) := foldl (λ '(covered, m) j,
          if negb (get_group chains k j =? group) then (covered, m)
          else (Z.setbit covered j, upd_sg sg (λ g, g <| sg_cpus ::= λ c, Z.setbit c j |>) m))
          (covered, m) (cpus_in span) in
        let '(first, m) := link_group first last sg m in
        groups_loop chains k span js covered first (Some sg) m
  end.

Definition build_sched_groups (chains : gmap Z (list sched_domain)) (sd : sched_domain) (cpu : Z) (m : groups) :
    sched_domain * groups :=
  let k := sd_private sd in
  let g := (k, -1, get_group chains k cpu) in
  let sd := sd <| sd_groups := g |> in
  let m := upd_sg g (λ g, g <| sg_ref ::= λ r, s32 (r + 1) |>) m in
  if negb (cpu =? cpumask_first (sd_span sd)) then (sd, m)
  else (sd, groups_loop chains k (sd_span sd) (cpus_in (sd_span sd)) 0 None None m).

(** [alloc i] says whether the group for CPU [i] could be allocated. *)
Fixpoint overlap_loop (alloc : Z → bool) (chains : gmap Z (list sched_domain)) (k : nat) (cpu : Z) (js : list Z)
    (covered : Z) (first last : option (nat * Z * Z)) (grp : nat * Z * Z) (m : groups) :
    option ((nat * Z * Z) * groups) :=
  match js with
  | [] => Some (grp, m)
  | i :: js =>
      if Z.testbit covered i then overlap_loop alloc chains k cpu js covered first last grp m
      else if negb (alloc i) then None
      else
        let sg := (k, cpu, i) in
        let sg_span := match child_span chains k i with Some span => span | None => Z.setbit 0 i end in
        let m := <[sg := mk_sg sg_span sg_null 0]> m in
        let grp := if cpu_isset cpu sg_span then sg else grp in
        let '(first, m) := link_group first last sg m in
        let m := upd_sg sg (λ g, g <| sg_next := default sg first |>) m in
        overlap_loop alloc chains k cpu js (Z.lor covered sg_span) first (Some sg) grp m
  end.
Definition build_overlap_sched_groups (alloc : Z → bool) (chains : gmap Z (list sched_domain)) (sd : sched_domain)
    (cpu : Z) (m : groups) : option (sched_domain * groups) :=
  '(g, m) ← overlap_loop alloc chains (sd_private sd) cpu (cpus_in (sd_span sd)) 0 None None sg_null m;
  Some (sd <| sd_groups := g |>, m).

(** The groups of all the domains of a CPU, and of all CPUs (lines 6661-6672). *)
Fixpoint build_groups_of (alloc : nat → Z → bool) (chains : gmap Z (list sched_domain)) (sds : list sched_domain)
    (cpu : Z) (m : groups) : option (list sched_domain * groups) :=
  match sds with
  | [] => Some ([], m)
  | sd :: sds =>
      let sd := sd <| span_weight := cpumask_weight (sd_span sd) |> in
      '(sd, m) ← (if negb (Z.land (sd_flags sd) SD_OVERLAP =? 0)
                  then build_overlap_sched_groups (alloc (sd_private sd)) chains sd cpu m
                  else Some (build_sched_groups chains sd cpu m));
      '(sds, m) ← build_groups_of alloc chains sds cpu m;
      Some (sd :: sds, m)
  end.
Fixpoint build_groups (alloc : Z → nat → Z → bool) (js : list Z) (chains : gmap Z (list sched_domain)) (m : groups) :
    option (gmap Z (list sched_domain) * groups) :=
  match js with
  | [] => Some (chains, m)
  | i :: js =>
      '(sds, m) ← build_groups_of (alloc i) chains (chains !!! i) i m;
      build_groups alloc js (<[i := sds]> chains) m
  end.

(** ** Domains that do not contribute *)
Definition one_group (m : groups) (sd : sched_domain) : bool :=
  bool_decide (sd_groups sd = sg_next (m !!! sd_groups sd)).
Definition SD_NEED_GROUPS : Z :=
  or_flags [SD_LOAD_BALANCE; SD_BALANCE_NEWIDLE; SD_BALANCE_FORK; SD_BALANCE_EXEC; SD_SHARE_CPUPOWER;
    SD_SHARE_PKG_RESOURCES].

Definition sd_degenerate (m : groups) (sd : sched_domain) : bool :=
  if cpumask_weight (sd_span sd) =? 1 then true
  else if negb (Z.land (sd_flags sd) SD_NEED_GROUPS =? 0) && negb (one_group m sd) then false
  else Z.land (sd_flags sd) SD_WAKE_AFFINE =? 0.

Definition sd_parent_degenerate `{Topology} (m : groups) (sd parent : sched_domain) : bool :=
  if sd_degenerate m parent then true
  else if negb (sd_span sd =? sd_span parent) then false
  else
    let pflags :=
      if one_group m parent then
        let pflags := Z.ldiff (sd_flags parent) SD_NEED_GROUPS in
        if nr_node_ids =? 1 then Z.ldiff pflags SD_SERIALIZE else pflags
      else sd_flags parent in
    Z.ldiff pflags (sd_flags sd) =? 0.

Fixpoint drop_parents `{Topology} (m : groups) (tmp : sched_domain) (parents : list sched_domain) : list sched_domain :=
  match parents with
  | [] => [tmp]
  | parent :: parents =>
      if sd_parent_degenerate m tmp parent then drop_parents m tmp parents
      else tmp :: drop_parents m parent parents
  end.

(** ** Root domains *)
Definition upd_rd (r : Z) (f : root_domain → root_domain) (s : sched) : sched :=
  s <| root_domains ::= λ m, mem_upd m r f |>.

Definition set_rq_online (cpu : Z) (s : sched) : sched :=
  if negb (online (cpu_rq s cpu)) then
    let s := upd_rd (rd (cpu_rq s cpu)) (λ d, d <| rd_online ::= λ o, Z.setbit o cpu |>) s in
    upd_rq cpu (λ r, r <| online := true |>) s
  else s.
Definition set_rq_offline (cpu : Z) (s : sched) : sched :=
  if online (cpu_rq s cpu) then
    let s := upd_rd (rd (cpu_rq s cpu)) (λ d, d <| rd_online ::= λ o, Z.clearbit o cpu |>) s in
    upd_rq cpu (λ r, r <| online := false |>) s
  else s.

Definition free_rootdomain (r : Z) (s : sched) : sched := s <| root_domains ::= delete r |>.

Definition rq_attach_root (cpu r : Z) (s : sched) : sched :=
  let old_rd := rd (cpu_rq s cpu) in
  let '(old_rd, s) :=
    if negb (old_rd =? NULL) then
      let s := if cpu_isset cpu (rd_online (root_domains s !!! old_rd)) then set_rq_offline cpu s else s in
      let s := upd_rd old_rd (λ d, d <| rd_span ::= λ m, Z.clearbit m cpu |>) s in
      let s := upd_rd old_rd (λ d, d <| rd_refcount ::= λ n, s32 (n - 1) |>) s in
      (if rd_refcount (root_domains s !!! old_rd) =? 0 then old_rd else NULL, s)
    else (NULL, s) in
  let s := upd_rd r (λ d, d <| rd_refcount ::= λ n, s32 (n + 1) |>) s in
  let s := upd_rq cpu (λ q, q <| rd := r |>) s in
  let s := upd_rd r (λ d, d <| rd_span ::= λ m, Z.setbit m cpu |>) s in
  let s := if cpu_isset cpu (cpu_active_mask s) then set_rq_online cpu s else s in
  if negb (old_rd =? NULL) then free_rootdomain old_rd s else s.

(** [mems] says whether the three masks and the priorities could be allocated. *)
Definition init_rootdomain (mems : list bool) (r : Z) (s : sched) : Z * sched :=
  let s := s <| root_domains ::= <[r := mk_rd 0 0 0]> |> in
  if forallb id mems then (0, s) else (- ENOMEM, s).
Definition def_root_domain : Z := 1.
Definition init_defrootdomain (mems : list bool) (s : sched) : sched :=
  let '(_, s) := init_rootdomain mems def_root_domain s in
  upd_rd def_root_domain (λ d, d <| rd_refcount := 1 |>) s.
(** [addr] is what [kmalloc] returned. *)
Definition alloc_rootdomain (mems : list bool) (addr : Z) (s : sched) : Z * sched :=
  if addr =? NULL then (NULL, s)
  else
    let '(err, s) := init_rootdomain mems addr s in
    if negb (err =? 0) then (NULL, free_rootdomain addr s) else (addr, s).
End groups.

(** ** Building and partitioning *)
Section partition.
Context `{Config} `{AffinityEnv} `{Topology}.

(** The domains of the chain that contribute to scheduling. *)
Definition contributing (m : groups) (sds : list sched_domain) : list sched_domain :=
  let sds := match sds with [] => [] | sd :: parents => drop_parents m sd parents end in
  match sds with [] => [] | sd :: parents => if sd_degenerate m sd then parents else sds end.

Definition cpu_attach_domain (m : groups) (sds : list sched_domain) (r cpu : Z) (s : sched) : sched :=
  let sds := contributing m sds in
  let s := rq_attach_root cpu r s in
  upd_rq cpu (λ q, q <| sd := sds |>) s.

(** What the allocators answer: whether the storage of the domains could be had, the
    address of the root domain and whether its parts could be had, and whether
    each group of an overlapping domain could be. *)
Record allocs := mk_allocs {
  al_storage : bool;
  al_percpu : bool;
  al_rd : Z;
  al_rd_parts : list bool;
  al_group : Z → nat → Z → bool;
}.

Inductive s_alloc := sa_rootdomain | sa_sd | sa_sd_storage | sa_none.
Definition __visit_domain_allocation_hell (a : allocs) (s : sched) : s_alloc * Z * sched :=
  if negb (al_storage a) then (sa_sd_storage, NULL, s)
  else if negb (al_percpu a) then (sa_sd_storage, NULL, s)
  else
    let '(r, s) := alloc_rootdomain (al_rd_parts a) (al_rd a) s in
    if r =? NULL then (sa_sd, r, s) else (sa_rootdomain, r, s).
Definition __free_domain_allocs (what : s_alloc) (r : Z) (s : sched) : sched :=
  match what with
  | sa_rootdomain => if rd_refcount (root_domains s !!! r) =? 0 then free_rootdomain r s else s
  | _ => s
  end.

Definition attach_domains (m : groups) (chains : gmap Z (list sched_domain)) (r cpu_map : Z) (s : sched) : sched :=
  foldl (λ s i, cpu_attach_domain m (chains !!! i) r i s) s (cpus_in cpu_map).

Definition build_sched_domains (a : allocs) (cpu_map : Z) (attr : option Z) (d : doms) (s : sched) : Z * doms * sched :=
  let '(alloc_state, r, s) := __visit_domain_allocation_hell a s in
  match alloc_state with
  | sa_rootdomain =>
      let '(chains, d) := build_chains cpu_map attr d in
      match build_groups (al_group a) (cpus_in cpu_map) chains ∅ with
      | None => (- ENOMEM, d, __free_domain_allocs alloc_state r s)
      | Some (chains, m) => (0, d, __free_domain_allocs alloc_state r (attach_domains m chains r cpu_map s))
      end
  | _ => (- ENOMEM, d, __free_domain_allocs alloc_state r s)
  end.

Definition detach_destroy_domains (cpu_map : Z) (s : sched) : sched :=
  foldl (λ s i, cpu_attach_domain ∅ [] def_root_domain i s) s (cpus_in cpu_map).

Definition SD_ATTR_INIT : Z := -1.
Definition dattrs_equal (cur : option (list Z)) (idx_cur : nat) (new : option (list Z)) (idx_new : nat) : bool :=
  match new, cur with
  | None, None => true
  | _, _ =>
      (match cur with Some cur => cur !!! idx_cur | None => SD_ATTR_INIT end) =?
      (match new with Some new => new !!! idx_new | None => SD_ATTR_INIT end)
  end.

(** Whether entry [i] of one list is among the first [n] of the other. *)
Definition dom_match (doms1 : list Z) (attr1 : option (list Z)) (i : nat) (doms2 : list Z) (attr2 : option (list Z)) (n : nat) : bool :=
  existsb (λ j, (doms1 !!! i =? doms2 !!! j) && dattrs_equal attr1 i attr2 j) (seq 0 n).

Definition destroy_deleted (new_topology : bool) (d : doms) (doms_new : list Z) (dattr_new : option (list Z)) (n : nat)
    (s : sched) : sched :=
  foldl (λ s i,
    if negb new_topology && dom_match (doms_cur d) (dattr_cur d) i doms_new dattr_new n then s
    else detach_destroy_domains (doms_cur d !!! i) s) s (seq 0 (Z.to_nat (ndoms_cur d))).

Definition build_new (new_topology : bool) (al : nat → allocs) (doms_new : list Z) (dattr_new : option (list Z)) (n : nat)
    (d : doms) (s : sched) : doms * sched :=
  foldl (λ '(d, s) i,
    if negb new_topology && dom_match doms_new dattr_new i (doms_cur d) (dattr_cur d) (Z.to_nat (ndoms_cur d)) then (d, s)
    else let '(_, d, s) := build_sched_domains (al i) (doms_new !!! i) ((.!!! i) <$> dattr_new) d s in (d, s))
    (d, s) (seq 0 n).

(** [new_topology] is the answer of [arch_update_cpu_topology]. *)
Definition partition_sched_domains (new_topology : bool) (al : nat → allocs) (ndoms_new : Z) (doms_new : option (list Z))
    (dattr_new : option (list Z)) (d : doms) (s : sched) : doms * sched :=
  let n := match doms_new with Some _ => ndoms_new | None => 0 end in
  let s := destroy_deleted new_topology d (default [] doms_new) dattr_new (Z.to_nat n) s in
  let '(d, doms_new) :=
    match doms_new with
    | Some doms_new => (d, doms_new)
    | None => (d <| ndoms_cur := 0 |>, [Z.ldiff (cpu_active_mask s) (cpu_isolated_map d)])
    end in
  let '(d, s) := build_new new_topology al doms_new dattr_new (Z.to_nat ndoms_new) d s in
  (d <| doms_cur := doms_new |> <| dattr_cur := dattr_new |> <| ndoms_cur := ndoms_new |>, s).

Definition init_sched_domains (a : allocs) (cpu_map : Z) (d : doms) (s : sched) : Z * doms * sched :=
  let d := d <| ndoms_cur := 1 |> <| doms_cur := [Z.ldiff cpu_map (cpu_isolated_map d)] |> <| dattr_cur := None |> in
  build_sched_domains a (doms_cur d !!! 0%nat) None d s.

(** [rebuild] is [rebuild_sched_domains] of kernel/cpuset.c. *)
Definition reinit_sched_domains (rebuild : doms * sched → doms * sched) (new_topology : bool) (al : nat → allocs)
    (d : doms) (s : sched) : doms * sched :=
  rebuild (partition_sched_domains new_topology al 0 None None d s).

(** [level] is the number [sscanf] read, if it read one. *)
Definition sched_power_savings_store (rebuild : doms * sched → doms * sched) (new_topology : bool) (al : nat → allocs)
    (level : option Z) (count : Z) (smt : bool) (d : doms) (s : sched) : Z * doms * sched :=
  match level with
  | None => (- EINVAL, d, s)
  | Some level =>
      if MAX_POWERSAVINGS_BALANCE_LEVELS <=? level then (- EINVAL, d, s)
      else
        let d := if smt then d <| sched_smt_power_savings := level |> else d <| sched_mc_power_savings := level |> in
        let '(d, s) := reinit_sched_domains rebuild new_topology al d s in
        (count, d, s)
  end.
End partition.

(** ** Root domains

    [att] says which root domain a CPU is attached to, [on] whether its run queue is
    online: every root domain is referenced by the CPUs attached to it, the default
    one once more; its masks are the CPUs attached to it and those online; and no CPU
    is attached to a domain that has been freed. *)
Section root_domains.
Context `{Config}.
Implicit Types (m : gmap Z root_domain) (att : Z → Z) (on : Z → bool).

Definition own_ref (r : Z) : Z := if decide (r = def_root_domain) then 1 else 0.
Definition members att (r : Z) : Z := Z.of_nat (length (filter (λ c, att c = r) cpus)).

Record rd_inv att on m : Prop := {
  ri_count : ∀ r d, m !! r = Some d → rd_refcount d = own_ref r + members att r;
  ri_span : ∀ r d c, m !! r = Some d → Z.testbit (rd_span d) c = true ↔ c ∈ cpus ∧ att c = r;
  ri_online : ∀ r d c, m !! r = Some d → Z.testbit (rd_online d) c = true ↔ c ∈ cpus ∧ att c = r ∧ on c = true;
  ri_live : ∀ c, c ∈ cpus → att c ≠ NULL → is_Some (m !! att c);
  ri_null : m !! NULL = None;
}.

Lemma members_ext att att' r : (∀ c, att c = att' c) → members att r = members att' r.
Proof. intros E. unfold members. do 2 f_equal. apply list_filter_iff. intros c. by rewrite E. Qed.

Lemma rd_inv_ext att att' on on' m :
  (∀ c, att c = att' c) → (∀ c, on c = on' c) → rd_inv att on m → rd_inv att' on' m.
Proof.
  intros Ea Eo [Hc Hs Ho Hl Hn]. split; try done; intros.
  - rewrite <- (members_ext att) by done. by apply Hc.
  - rewrite <- Ea. by apply Hs.
  - rewrite <- Ea, <- Eo. by apply Ho.
  - rewrite <- Ea in *. by apply Hl.
Qed.

Lemma members_bound att r : 0 < nr_cpu_ids ≤ 4096 → 0 ≤ members att r ≤ 4096.
Proof.
  intros Hn. unfold members. pose proof (length_filter (λ c, att c = r) cpus) as Hl.
  unfold cpus in *. rewrite length_seqZ in Hl. lia.
Qed.

Lemma members_pos att c r : c ∈ cpus → att c = r → 0 < members att r.
Proof.
  intros Hc Ha. unfold members. assert (c ∈ filter (λ c, att c = r) cpus) as Hf by (rewrite list_elem_of_filter; done).
  destruct (filter _ _); [by apply elem_of_nil in Hf|simpl; lia].
Qed.

(** Changing the attachment of one CPU. *)
Definition set_att att (c r : Z) : Z → Z := λ x, if decide (x = c) then r else att x.

Lemma members_set att c r' r : c ∈ cpus →
  members (set_att att c r') r =
  members att r - (if decide (att c = r) then 1 else 0) + (if decide (r' = r) then 1 else 0).
Proof.
  intros Hc. unfold members, cpus in *. pose proof (NoDup_seqZ 0 nr_cpu_ids) as Hnd. revert Hc Hnd.
  induction (seqZ 0 nr_cpu_ids) as [|x l IH]; intros Hc Hnd; [by apply elem_of_nil in Hc|].
  apply NoDup_cons in Hnd as [Hx Hnd]. rewrite !filter_cons.
  destruct (decide (x = c)) as [->|Hne].
  - assert (filter (λ x, set_att att c r' x = r) l = filter (λ x, att x = r) l) as ->.
    { clear - Hx. induction l as [|y l IH]; [done|]. apply not_elem_of_cons in Hx as [Hy Hx]. rewrite !filter_cons, IH by done.
      unfold set_att. by rewrite (decide_False (P := y = c)). }
    unfold set_att. rewrite (decide_True (P := c = c)) by done. repeat case_decide; simpl; lia.
  - apply elem_of_cons in Hc as [->|Hc]; [done|]. specialize (IH Hc Hnd).
    assert (set_att att c r' x = att x) as E by (unfold set_att; by rewrite decide_False).
    destruct (decide (set_att att c r' x = r)), (decide (att x = r)); try congruence; simpl; lia.
Qed.

(** The steps of [rq_attach_root] on the memory of root domains. *)
Definition set_on on (c : Z) (b : bool) : Z → bool := λ x, if decide (x = c) then b else on x.

Lemma mem_upd_lookup m r f x d :
  is_Some (m !! r) → mem_upd m r f !! x = Some d →
  if decide (x = r) then ∃ d0, m !! r = Some d0 ∧ d = f d0 else m !! x = Some d.
Proof.
  intros [d0 E0]. unfold mem_upd. rewrite (lookup_total_correct _ _ _ E0). case_decide as Hx.
  - subst. rewrite lookup_insert_eq. intros [= <-]. by exists d0.
  - by rewrite lookup_insert_ne.
Qed.

Lemma mem_upd_live m r f x : is_Some (m !! x) → is_Some (mem_upd m r f !! x).
Proof. intros Hx. unfold mem_upd. destruct (decide (r = x)) as [->|]; [rewrite lookup_insert_eq|rewrite lookup_insert_ne]; done. Qed.

Lemma inv_mark att on m c (b : bool) :
  rd_inv att on m → c ∈ cpus → att c ≠ NULL →
  rd_inv att (set_on on c b)
    (mem_upd m (att c) (λ d, d <| rd_online ::= λ o, if b then Z.setbit o c else Z.clearbit o c |>)).
Proof.
  intros [Hc Hs Ho Hl Hn] Hcc Hnn. pose proof (Hl c Hcc Hnn) as Hsome.
  assert (0 ≤ c) as Hpos by (apply elem_of_seqZ in Hcc; lia).
  split.
  - intros r d Hd%mem_upd_lookup; [|done]. case_decide as E; [|by apply Hc]. subst r. destruct Hd as (d0 & E0 & ->).
    apply (Hc _ _ E0).
  - intros r d x Hd%mem_upd_lookup; [|done]. case_decide as E; [|by apply Hs]. subst r. destruct Hd as (d0 & E0 & ->).
    apply (Hs _ _ x E0).
  - intros r d x Hd%mem_upd_lookup; [|done]. unfold set_on. case_decide as E.
    + subst r. destruct Hd as (d0 & E0 & ->). simpl. specialize (Ho _ _ x E0). destruct b.
      * rewrite Z.setbit_eqb, orb_true_iff, Ho, Z.eqb_eq by done. destruct (decide (x = c)) as [->|]; intuition congruence.
      * rewrite Z.clearbit_eqb, andb_true_iff, Ho, negb_true_iff, Z.eqb_neq. destruct (decide (x = c)) as [->|]; intuition congruence.
    + rewrite (Ho _ _ x Hd). destruct (decide (x = c)) as [->|]; intuition congruence.
  - intros x Hx Hxn. by apply mem_upd_live, Hl.
  - unfold mem_upd. by rewrite lookup_insert_ne.
Qed.

Lemma inv_detach att on m c :
  rd_inv att on m → 0 < nr_cpu_ids ≤ 4096 → c ∈ cpus → att c ≠ NULL → on c = false →
  rd_inv (set_att att c NULL) on
    (mem_upd m (att c) (λ d, d <| rd_span ::= λ o, Z.clearbit o c |> <| rd_refcount ::= λ n, s32 (n - 1) |>)).
Proof.
  intros [Hc Hs Ho Hl Hn] Hids Hcc Hnn Hoff. pose proof (Hl c Hcc Hnn) as Hsome.
  assert (∀ x, x ≠ c → set_att att c NULL x = att x) as Hne by (intros; unfold set_att; by rewrite decide_False).
  assert (set_att att c NULL c = NULL) as Heq by (unfold set_att; by rewrite decide_True).
  assert (∀ r d, m !! r = Some d → r ≠ NULL) as Hrn by (intros r d E ->; congruence).
  split.
  - intros r d Hd%mem_upd_lookup; [|done]. rewrite members_set by done. case_decide as E.
    + subst r. destruct Hd as (d0 & E0 & ->). simpl. rewrite (Hc _ _ E0), (decide_True (P := att c = att c)), decide_False by done.
      pose proof (members_bound att (att c) Hids). pose proof (members_pos att c _ Hcc eq_refl).
      rewrite s32_id; [lia|]. unfold own_ref. case_decide; lia.
    + pose proof (Hrn _ _ Hd). rewrite (Hc _ _ Hd), (decide_False (P := att c = r)), decide_False by congruence. lia.
  - intros r d x Hd%mem_upd_lookup; [|done]. case_decide as E.
    + subst r. destruct Hd as (d0 & E0 & ->). simpl. rewrite Z.clearbit_eqb, andb_true_iff, (Hs _ _ x E0), negb_true_iff, Z.eqb_neq.
      destruct (decide (x = c)) as [->|Hx]; [rewrite Heq|rewrite Hne by done]; intuition congruence.
    + rewrite (Hs _ _ x Hd). destruct (decide (x = c)) as [->|Hx]; [rewrite Heq|by rewrite Hne]. pose proof (Hrn _ _ Hd). intuition congruence.
  - intros r d x Hd%mem_upd_lookup; [|done]. assert (∃ d0, m !! r = Some d0 ∧ rd_online d = rd_online d0) as (d0 & E0 & ->).
    { case_decide; subst; [destruct Hd as (d0 & ? & ->)|]; eauto. }
    rewrite (Ho _ _ x E0). destruct (decide (x = c)) as [->|Hx]; [rewrite Heq, Hoff|by rewrite Hne]. intuition congruence.
  - intros x Hx Hxn. apply mem_upd_live. destruct (decide (x = c)) as [->|Hxc]; [by rewrite Heq in Hxn|].
    rewrite Hne in Hxn |- * by done. by apply Hl.
  - unfold mem_upd. by rewrite lookup_insert_ne.
Qed.

Lemma inv_attach att on m c r :
  rd_inv att on m → 0 < nr_cpu_ids ≤ 4096 → c ∈ cpus → att c = NULL → on c = false → is_Some (m !! r) →
  rd_inv (set_att att c r) on
    (mem_upd m r (λ d, d <| rd_refcount ::= λ n, s32 (n + 1) |> <| rd_span ::= λ o, Z.setbit o c |>)).
Proof.
  intros [Hc Hs Ho Hl Hn] Hids Hcc Hnull Hoff Hsome.
  assert (0 ≤ c) as Hpos by (apply elem_of_seqZ in Hcc; lia).
  assert (∀ x, x ≠ c → set_att att c r x = att x) as Hne by (intros; unfold set_att; by rewrite decide_False).
  assert (set_att att c r c = r) as Heq by (unfold set_att; by rewrite decide_True).
  assert (r ≠ NULL) as Hr by (intros ->; rewrite Hn in Hsome; by destruct Hsome).
  assert (∀ r' d, m !! r' = Some d → att c ≠ r') as Hrn by (intros r' d E E'; congruence).
  split.
  - intros r' d Hd%mem_upd_lookup; [|done]. rewrite members_set by done. case_decide as E.
    + subst r'. destruct Hd as (d0 & E0 & ->). simpl. rewrite (Hc _ _ E0), (decide_True (P := r = r)), decide_False by eauto.
      pose proof (members_bound att r Hids). rewrite s32_id; [lia|]. unfold own_ref. case_decide; lia.
    + rewrite (Hc _ _ Hd), (decide_False (P := att c = r')), decide_False by (congruence || eauto). lia.
  - intros r' d x Hd%mem_upd_lookup; [|done]. case_decide as E.
    + subst r'. destruct Hd as (d0 & E0 & ->). simpl. rewrite Z.setbit_eqb, orb_true_iff, (Hs _ _ x E0), Z.eqb_eq by done.
      destruct (decide (x = c)) as [->|Hx]; [rewrite Heq|rewrite Hne by done]; intuition congruence.
    + rewrite (Hs _ _ x Hd). destruct (decide (x = c)) as [->|Hx]; [rewrite Heq|by rewrite Hne]. pose proof (Hrn _ _ Hd). intuition congruence.
  - intros r' d x Hd%mem_upd_lookup; [|done]. assert (∃ d0, m !! r' = Some d0 ∧ rd_online d = rd_online d0) as (d0 & E0 & ->).
    { case_decide; subst; [destruct Hd as (d0 & ? & ->)|]; eauto. }
    rewrite (Ho _ _ x E0). destruct (decide (x = c)) as [->|Hx]; [rewrite Heq, Hoff|by rewrite Hne]. intuition congruence.
  - intros x Hx Hxn. apply mem_upd_live. destruct (decide (x = c)) as [->|Hxc]; [by rewrite Heq|].
    rewrite Hne in Hxn |- * by done. by apply Hl.
  - unfold mem_upd. by rewrite lookup_insert_ne.
Qed.

Lemma inv_free att on m r : rd_inv att on m → members att r = 0 → rd_inv att on (delete r m).
Proof.
  intros [Hc Hs Ho Hl Hn] Hr. split.
  - intros r' d [_ Hd]%lookup_delete_Some. by apply Hc.
  - intros r' d x [_ Hd]%lookup_delete_Some. by apply Hs.
  - intros r' d x [_ Hd]%lookup_delete_Some. by apply Ho.
  - intros c Hcc Hnn. rewrite lookup_delete_ne; [by apply Hl|]. intros ->. pose proof (members_pos att c _ Hcc eq_refl). lia.
  - by apply lookup_delete_None; right.
Qed.
End root_domains.

Section attach.
Context `{Config}.
Implicit Types s : sched.

Record rd_ok s : Prop := {
  ro_inv : rd_inv (λ c, rd (cpu_rq s c)) (λ c, online (cpu_rq s c)) (root_domains s);
  ro_off : ∀ c, c ∈ cpus → rd (cpu_rq s c) = NULL → online (cpu_rq s c) = false;
  ro_ncpus : 0 < nr_cpu_ids ≤ 4096;
}.

Lemma mem_upd_twice (m : gmap Z root_domain) r f g : mem_upd (mem_upd m r f) r g = mem_upd m r (λ d, g (f d)).
Proof. unfold mem_upd. rewrite lookup_total_insert_eq. apply insert_insert_eq. Qed.

(** A run queue goes offline. *)
Lemma set_rq_offline_inv s c :
  rd_ok s → c ∈ cpus → rd (cpu_rq s c) ≠ NULL →
  let s' := set_rq_offline c s in
  (∀ x, rd (cpu_rq s' x) = rd (cpu_rq s x)) ∧
  (∀ x, online (cpu_rq s' x) = set_on (λ x, online (cpu_rq s x)) c false x) ∧
  rd_inv (λ x, rd (cpu_rq s x)) (λ x, online (cpu_rq s' x)) (root_domains s').
Proof.
  intros [Hi _ _] Hc Hn. unfold set_rq_offline. destruct (online (cpu_rq s c)) eqn:Eon; cbv zeta.
  - assert (∀ x, online (cpu_rq (upd_rq c (λ r, r <| online := false |>)
      (upd_rd (rd (cpu_rq s c)) (λ d, d <| rd_online ::= λ o, Z.clearbit o c |>) s)) x)
      = set_on (λ x, online (cpu_rq s x)) c false x) as Ho.
    { intros x. rewrite cpu_rq_upd_rq. unfold set_on. repeat case_decide; subst; done. }
    split_and!; [intros x; by rewrite (rq_upd_proj rd)|done|].
    eapply rd_inv_ext; [done|intros x; symmetry; apply Ho|]. exact (inv_mark _ _ _ c false Hi Hc Hn).
  - assert (∀ x, online (cpu_rq s x) = set_on (λ x, online (cpu_rq s x)) c false x) as Ho.
    { intros x. unfold set_on. case_decide; by subst. }
    by split_and!.
Qed.

Lemma set_rq_online_inv s c :
  rd_ok s → c ∈ cpus → rd (cpu_rq s c) ≠ NULL →
  let s' := set_rq_online c s in
  (∀ x, rd (cpu_rq s' x) = rd (cpu_rq s x)) ∧
  (∀ x, online (cpu_rq s' x) = set_on (λ x, online (cpu_rq s x)) c true x) ∧
  rd_inv (λ x, rd (cpu_rq s x)) (λ x, online (cpu_rq s' x)) (root_domains s').
Proof.
  intros [Hi _ _] Hc Hn. unfold set_rq_online. destruct (online (cpu_rq s c)) eqn:Eon; cbn [negb]; cbv zeta.
  - assert (∀ x, online (cpu_rq s x) = set_on (λ x, online (cpu_rq s x)) c true x) as Ho.
    { intros x. unfold set_on. case_decide; by subst. }
    by split_and!.
  - assert (∀ x, online (cpu_rq (upd_rq c (λ r, r <| online := true |>)
      (upd_rd (rd (cpu_rq s c)) (λ d, d <| rd_online ::= λ o, Z.setbit o c |>) s)) x)
      = set_on (λ x, online (cpu_rq s x)) c true x) as Ho.
    { intros x. rewrite cpu_rq_upd_rq. unfold set_on. repeat case_decide; subst; done. }
    split_and!; [intros x; by rewrite (rq_upd_proj rd)|done|].
    eapply rd_inv_ext; [done|intros x; symmetry; apply Ho|]. exact (inv_mark _ _ _ c true Hi Hc Hn).
Qed.

Lemma rd_ok_of s s' :
  rd_ok s → (∀ x, rd (cpu_rq s' x) = rd (cpu_rq s x)) →
  (∀ c, c ∈ cpus → rd (cpu_rq s c) = NULL → online (cpu_rq s' c) = false) →
  rd_inv (λ x, rd (cpu_rq s x)) (λ x, online (cpu_rq s' x)) (root_domains s') → rd_ok s'.
Proof.
  intros [_ _ Hn] Er Ho Hi. split; [|intros c; rewrite Er; apply Ho|done].
  eapply rd_inv_ext; [intros; symmetry; apply Er|done|done].
Qed.

Lemma set_rq_online_ok s c : rd_ok s → c ∈ cpus → rd (cpu_rq s c) ≠ NULL → rd_ok (set_rq_online c s).
Proof.
  intros Hok Hc Hn. destruct (set_rq_online_inv s c Hok Hc Hn) as (Er & Eo & Hi). cbv zeta in *.
  apply (rd_ok_of s); [done..| |done]. intros x Hx Hnull. rewrite Eo. unfold set_on.
  case_decide; [congruence|]. by apply (ro_off _ Hok).
Qed.
Lemma set_rq_offline_ok s c : rd_ok s → c ∈ cpus → rd (cpu_rq s c) ≠ NULL → rd_ok (set_rq_offline c s).
Proof.
  intros Hok Hc Hn. destruct (set_rq_offline_inv s c Hok Hc Hn) as (Er & Eo & Hi). cbv zeta in *.
  apply (rd_ok_of s); [done..| |done]. intros x Hx Hnull. rewrite Eo. unfold set_on.
  case_decide; [done|]. by apply (ro_off _ Hok).
Qed.

(** The first half of [rq_attach_root]: the CPU has left its domain. *)
Definition leave_root (cpu : Z) (s : sched) : Z * sched :=
  let old_rd := rd (cpu_rq s cpu) in
  if negb (old_rd =? NULL) then
    let s := if cpu_isset cpu (rd_online (root_domains s !!! old_rd)) then set_rq_offline cpu s else s in
    let s := upd_rd old_rd (λ d, d <| rd_span ::= λ m, Z.clearbit m cpu |>) s in
    let s := upd_rd old_rd (λ d, d <| rd_refcount ::= λ n, s32 (n - 1) |>) s in
    (if rd_refcount (root_domains s !!! old_rd) =? 0 then old_rd else NULL, s)
  else (NULL, s).

Lemma leave_root_inv s c :
  rd_ok s → c ∈ cpus →
  let '(old, s') := leave_root c s in
  let att := set_att (λ x, rd (cpu_rq s x)) c NULL in
  rd_inv att (λ x, online (cpu_rq s' x)) (root_domains s') ∧
  (∀ x, online (cpu_rq s' x) = set_on (λ x, online (cpu_rq s x)) c false x) ∧
  (∀ x, rd (cpu_rq s' x) = rd (cpu_rq s x)) ∧
  (∀ x, is_Some (root_domains s' !! x) ↔ is_Some (root_domains s !! x)) ∧
  old = (if decide (rd (cpu_rq s c) ≠ NULL ∧ rd (cpu_rq s c) ≠ def_root_domain ∧ members att (rd (cpu_rq s c)) = 0)
         then rd (cpu_rq s c) else NULL).
Proof.
  intros Hok Hc. pose proof Hok as [Hi Hoff Hids]. unfold leave_root. set (old := rd (cpu_rq s c)).
  destruct (Z.eqb_spec old NULL) as [Eold|Hold]; cbn [negb].
  { assert (∀ x, rd (cpu_rq s x) = set_att (λ x, rd (cpu_rq s x)) c NULL x) as Ea.
    { intros x. unfold set_att. case_decide; by subst. }
    assert (∀ x, online (cpu_rq s x) = set_on (λ x, online (cpu_rq s x)) c false x) as Eo.
    { intros x. unfold set_on. case_decide; subst; auto. }
    split_and!; try done; [exact (rd_inv_ext _ _ _ _ _ Ea (λ _, eq_refl) Hi)|by rewrite decide_False by tauto]. }
  set (s1 := if cpu_isset c _ then set_rq_offline c s else s).
  assert ((∀ x, rd (cpu_rq s1 x) = rd (cpu_rq s x)) ∧
    (∀ x, online (cpu_rq s1 x) = set_on (λ x, online (cpu_rq s x)) c false x) ∧
    rd_inv (λ x, rd (cpu_rq s x)) (λ x, online (cpu_rq s1 x)) (root_domains s1) ∧
    (∀ x, is_Some (root_domains s1 !! x) ↔ is_Some (root_domains s !! x))) as (Er & Eo & Hi1 & Hl1).
  { destruct (ri_live _ _ _ Hi c Hc Hold) as [d Ed]. pose proof (ri_online _ _ _ Hi _ _ c Ed) as Hbit.
    unfold s1, cpu_isset, old. rewrite (lookup_total_correct _ _ _ Ed). destruct (Z.testbit (rd_online d) c) eqn:Eb.
    - destruct (set_rq_offline_inv s c Hok Hc Hold) as (? & ? & ?). split_and!; try done.
      intros x. unfold set_rq_offline. destruct (online (cpu_rq s c)); [|done]. simpl. unfold mem_upd.
      destruct (decide (rd (cpu_rq s c) = x)) as [<-|]; [rewrite lookup_insert_eq, Ed; split; by eexists|by rewrite lookup_insert_ne].
    - assert (online (cpu_rq s c) = false) as Eoff by (destruct (online (cpu_rq s c)); [by destruct Hbit as [_ ->]|done]).
      split_and!; try done. intros x. unfold set_on. case_decide; by subst. }
  clearbody s1. cbv zeta. set (s2 := upd_rd old _ (upd_rd old _ s1)).
  assert (root_domains s2 = mem_upd (root_domains s1) old
    (λ d, d <| rd_span ::= λ o, Z.clearbit o c |> <| rd_refcount ::= λ n, s32 (n - 1) |>)) as Em by apply mem_upd_twice.
  assert (rd_inv (set_att (λ x, rd (cpu_rq s x)) c NULL) (λ x, online (cpu_rq s1 x)) (root_domains s2)) as Hi2.
  { rewrite Em. apply inv_detach; try done. rewrite Eo. unfold set_on. by rewrite decide_True. }
  assert (∀ x, is_Some (root_domains s2 !! x) ↔ is_Some (root_domains s1 !! x)) as Hl2.
  { intros x. rewrite Em. unfold mem_upd. destruct (decide (old = x)) as [<-|]; [|by rewrite lookup_insert_ne].
    rewrite lookup_insert_eq. split; [intros _; by apply (ri_live _ _ _ Hi1)|by eexists]. }
  split_and!; [done|done|done|intros x; by rewrite Hl2|].
  destruct (proj2 (Hl2 old) (ri_live _ _ _ Hi1 c Hc Hold)) as [d Ed].
  rewrite (lookup_total_correct _ _ _ Ed), (ri_count _ _ _ Hi2 _ _ Ed). fold old.
  pose proof (members_bound (set_att (λ x, rd (cpu_rq s x)) c NULL) old Hids) as Hb. unfold own_ref.
  set (n := members _ old) in *. destruct (decide (old = def_root_domain)).
  - rewrite (proj2 (Z.eqb_neq (1 + n) 0)) by lia. by rewrite decide_False by tauto.
  - destruct (Z.eqb_spec (0 + n) 0); [rewrite decide_True by (split_and!; (done || lia))|rewrite decide_False by lia]; done.
Qed.

(** The second half: the CPU has joined its new domain. *)
Definition join_root (cpu r : Z) (s : sched) : sched :=
  let s := upd_rd r (λ d, d <| rd_refcount ::= λ n, s32 (n + 1) |>) s in
  let s := upd_rq cpu (λ q, q <| rd := r |>) s in
  let s := upd_rd r (λ d, d <| rd_span ::= λ m, Z.setbit m cpu |>) s in
  if cpu_isset cpu (cpu_active_mask s) then set_rq_online cpu s else s.

Lemma rq_attach_root_alt c r s :
  rq_attach_root c r s =
  (let '(old, s) := leave_root c s in
   if negb (old =? NULL) then free_rootdomain old (join_root c r s) else join_root c r s).
Proof. reflexivity. Qed.

Lemma set_rq_online_live s c x :
  is_Some (root_domains s !! rd (cpu_rq s c)) →
  is_Some (root_domains (set_rq_online c s) !! x) ↔ is_Some (root_domains s !! x).
Proof.
  intros Hl. unfold set_rq_online. destruct (online (cpu_rq s c)); [done|]. simpl. unfold mem_upd.
  destruct (decide (rd (cpu_rq s c) = x)) as [<-|]; [rewrite lookup_insert_eq; split; [done|by eexists]|by rewrite lookup_insert_ne].
Qed.

Lemma join_root_inv s att c r :
  rd_inv att (λ x, online (cpu_rq s x)) (root_domains s) → 0 < nr_cpu_ids ≤ 4096 → c ∈ cpus → att c = NULL →
  (∀ x, x ≠ c → rd (cpu_rq s x) = att x) → (∀ x, x ∈ cpus → att x = NULL → online (cpu_rq s x) = false) →
  is_Some (root_domains s !! r) →
  let s' := join_root c r s in
  rd_ok s' ∧ (∀ x, rd (cpu_rq s' x) = set_att att c r x) ∧
  (∀ x, online (cpu_rq s' x) = set_on (λ x, online (cpu_rq s x)) c (cpu_isset c (cpu_active_mask s)) x) ∧
  (∀ x, is_Some (root_domains s' !! x) ↔ is_Some (root_domains s !! x)).
Proof.
  intros Hi Hids Hc Hnull Hatt Hoff Hr. unfold join_root. cbv zeta. set (s2 := upd_rd r _ (upd_rq c _ (upd_rd r _ s))).
  assert (r ≠ NULL) as Hrn by (intros ->; rewrite (ri_null _ _ _ Hi) in Hr; by destruct Hr).
  assert (root_domains s2 = mem_upd (root_domains s) r
    (λ d, d <| rd_refcount ::= λ n, s32 (n + 1) |> <| rd_span ::= λ o, Z.setbit o c |>)) as Em2 by apply mem_upd_twice.
  assert (∀ x, rd (cpu_rq s2 x) = set_att att c r x) as Er2.
  { intros x. change (rd (cpu_rq (upd_rq c (λ q, q <| rd := r |>) s) x) = set_att att c r x). rewrite cpu_rq_upd_rq.
    unfold set_att. repeat case_decide; subst; try done; by apply Hatt. }
  assert (∀ x, online (cpu_rq s2 x) = online (cpu_rq s x)) as Eo2.
  { intros x. by apply (rq_upd_proj online s c x (λ q, q <| rd := r |>)). }
  assert (rd_ok s2) as Hok2.
  { split; [|intros x Hx; rewrite Er2, Eo2; unfold set_att; destruct (decide (x = c)); [done|by apply Hoff]|done].
    eapply (rd_inv_ext (set_att att c r) _ (λ x, online (cpu_rq s x)));
      [intros x; by rewrite Er2|intros x; by rewrite Eo2|rewrite Em2; apply inv_attach; try done; by apply Hoff]. }
  assert (∀ x, is_Some (root_domains s2 !! x) ↔ is_Some (root_domains s !! x)) as Hl2.
  { intros x. rewrite Em2. unfold mem_upd. destruct (decide (r = x)) as [<-|]; [|by rewrite lookup_insert_ne].
    rewrite lookup_insert_eq. split; [done|by eexists]. }
  assert (rd (cpu_rq s2 c) = r) as Erc by (rewrite Er2; unfold set_att; by rewrite decide_True).
  change (cpu_active_mask s2) with (cpu_active_mask s). clearbody s2. destruct (cpu_isset c (cpu_active_mask s)).
  - destruct (set_rq_online_inv s2 c Hok2 Hc) as (Er & Eo & _); [congruence|]. split_and!.
    + apply set_rq_online_ok; [done..|congruence].
    + intros x. by rewrite Er.
    + intros x. rewrite Eo. unfold set_on. by rewrite Eo2.
    + intros x. rewrite set_rq_online_live by (rewrite Erc, Hl2; done). apply Hl2.
  - split_and!; [done..| |done]. intros x. rewrite Eo2. unfold set_on. destruct (decide (x = c)) as [->|]; [|done].
    by apply Hoff.
Qed.

(** A CPU moves to another root domain: the references and masks are right again, the
    CPU is online there if it is active, and its old domain is freed exactly if it
    was the last one to leave it. *)
Lemma rq_attach_root_ok s c r :
  rd_ok s → c ∈ cpus → is_Some (root_domains s !! r) → (rd (cpu_rq s c) = r → r = def_root_domain) →
  let s' := rq_attach_root c r s in
  rd_ok s' ∧ (∀ x, rd (cpu_rq s' x) = set_att (λ x, rd (cpu_rq s x)) c r x) ∧
  online (cpu_rq s' c) = cpu_isset c (cpu_active_mask s) ∧ (∀ x, x ≠ c → online (cpu_rq s' x) = online (cpu_rq s x)) ∧
  (∀ x, is_Some (root_domains s' !! x) ↔ is_Some (root_domains s !! x) ∧
     ¬ (x = rd (cpu_rq s c) ∧ x ≠ def_root_domain ∧ members (λ x, rd (cpu_rq s' x)) x = 0)).
Proof.
  intros Hok Hc Hr Hsame. rewrite rq_attach_root_alt. pose proof (leave_root_inv s c Hok Hc) as Hlv.
  assert (cpu_active_mask (leave_root c s).2 = cpu_active_mask s) as Eact.
  { unfold leave_root, set_rq_offline. repeat case_match; done. }
  destruct (leave_root c s) as [old s1]. cbn [snd] in Eact. destruct Hlv as (Hi1 & Eo1 & Er1 & Hl1 & Eold).
  pose proof Hok as [Hi Hoff Hids]. set (att0 := set_att (λ x, rd (cpu_rq s x)) c NULL) in *.
  assert (att0 c = NULL) as Hc0 by (unfold att0, set_att; by rewrite decide_True).
  assert (∀ x, x ≠ c → att0 x = rd (cpu_rq s x)) as Hx0 by (intros; unfold att0, set_att; by rewrite decide_False).
  destruct (join_root_inv s1 att0 c r) as (Hok3 & Er3 & Eo3 & Hl3); [done..| | |by rewrite Hl1|].
  { intros x Hx. by rewrite Er1, Hx0. }
  { intros x Hx. rewrite Eo1. unfold set_on. destruct (decide (x = c)) as [|Hxc]; [done|]. rewrite Hx0 by done. by apply Hoff. }
  revert Hok3 Er3 Eo3 Hl3. generalize (join_root c r s1). intros s3 Hok3 Er3 Eo3 Hl3. rewrite Eact in Eo3. set (o := rd (cpu_rq s c)) in *.
  assert (∀ x, rd (cpu_rq s3 x) = set_att (λ x, rd (cpu_rq s x)) c r x) as Er.
  { intros x. rewrite Er3. unfold att0, set_att. by destruct (decide (x = c)). }
  assert (online (cpu_rq s3 c) = cpu_isset c (cpu_active_mask s)) as Eoc by (rewrite Eo3; unfold set_on; by rewrite decide_True).
  assert (∀ x, x ≠ c → online (cpu_rq s3 x) = online (cpu_rq s x)) as Eox.
  { intros x Hx. rewrite Eo3. unfold set_on. rewrite decide_False, Eo1 by done. unfold set_on. by rewrite decide_False. }
  assert (∀ x, x ≠ r → x ≠ NULL → members (λ x, rd (cpu_rq s3 x)) x = members att0 x) as Hm.
  { intros x Hx Hxn. rewrite (members_ext _ _ _ Er3), members_set by done.
    rewrite (decide_False (P := r = x)), decide_False by congruence. lia. }
  assert (o ≠ def_root_domain → o ≠ r) as Hor by (intros Hod E; by apply Hod; rewrite E; apply Hsame).
  destruct (decide (o ≠ NULL ∧ o ≠ def_root_domain ∧ members att0 o = 0)) as [(Ho1 & Ho2 & Ho3)|Hno]; subst old.
  - rewrite (proj2 (Z.eqb_neq _ _) Ho1). cbn [negb]. assert (members (λ x, rd (cpu_rq s3 x)) o = 0) as Hmo by (rewrite Hm by auto; done).
    split_and!; [split; [by apply inv_free; [apply Hok3|]|apply Hok3|done]|done|done|done|].
    intros x. change (is_Some (delete o (root_domains s3) !! x) ↔
      is_Some (root_domains s !! x) ∧ ¬ (x = o ∧ x ≠ def_root_domain ∧ members (λ x, rd (cpu_rq s3 x)) x = 0)).
    rewrite <- Hl1, <- Hl3. destruct (decide (x = o)) as [->|Hxo].
    + rewrite lookup_delete_eq. split; [by intros [??]|naive_solver].
    + rewrite lookup_delete_ne by done. naive_solver.
  - rewrite Z.eqb_refl. cbn [negb]. split_and!; [done..|]. intros x. rewrite Hl3, Hl1. split; [|naive_solver].
    intros Hx. split; [done|]. intros (-> & Hod & Hmo).
    assert (o ≠ NULL) as Hon by (intros E; rewrite E, (ri_null _ _ _ Hi) in Hx; by destruct Hx).
    apply Hno. split_and!; [done|done|]. by rewrite <- Hm by auto.
Qed.
End attach.

(** ** The partition *)
Section partitioned.
Context `{Config} `{AffinityEnv} `{Topology}.
Implicit Types s : sched.

Definition live s (r : Z) : Prop := is_Some (root_domains s !! r).
Definition att_of s (c : Z) : Z := rd (cpu_rq s c).

Lemma cpu_attach_domain_ok m sds s c r :
  rd_ok s → c ∈ cpus → live s r → (att_of s c = r → r = def_root_domain) →
  let s' := cpu_attach_domain m sds r c s in
  rd_ok s' ∧ (∀ x, att_of s' x = set_att (att_of s) c r x) ∧
  (∀ y, live s' y ↔ live s y ∧ ¬ (y = att_of s c ∧ y ≠ def_root_domain ∧ members (att_of s') y = 0)).
Proof.
  intros Hok Hc Hl Hs. destruct (rq_attach_root_ok s c r Hok Hc Hl Hs) as (Hok' & Er & _ & _ & Hl'). cbv zeta in *.
  unfold cpu_attach_domain. cbv zeta. generalize (contributing m sds). intros sds'.
  revert Hok' Er Hl'. generalize (rq_attach_root c r s). intros s1 Hok' Er Hl'.
  assert (∀ x, rd (cpu_rq (upd_rq c (λ q, q <| sd := sds' |>) s1) x) = rd (cpu_rq s1 x)) as Er2 by (intros; by apply (rq_upd_proj rd)).
  assert (∀ x, online (cpu_rq (upd_rq c (λ q, q <| sd := sds' |>) s1) x) = online (cpu_rq s1 x)) as Eo2 by (intros; by apply (rq_upd_proj online)).
  split_and!.
  - apply (rd_ok_of s1); [done|done|intros x Hx Hn; rewrite Eo2; by apply (ro_off _ Hok')|].
    eapply rd_inv_ext; [done|intros x; symmetry; apply Eo2|apply Hok'].
  - intros x. unfold att_of. rewrite Er2. apply Er.
  - intros y. rewrite (members_ext (att_of (upd_rq c (λ q, q <| sd := sds' |>) s1)) (att_of s1)) by apply Er2. apply Hl'.
Qed.

(** Attaching several CPUs to a domain none of them is in, or to the default one. *)
Lemma attach_fold m (chain : Z → list sched_domain) r js s :
  rd_ok s → (∀ c, c ∈ js → c ∈ cpus) → NoDup js → live s r → (∀ c, c ∈ js → att_of s c = r → r = def_root_domain) →
  let s' := foldl (λ s i, cpu_attach_domain m (chain i) r i s) s js in
  rd_ok s' ∧ (∀ x, att_of s' x = if decide (x ∈ js) then r else att_of s x) ∧ live s' r ∧
  (∀ y, live s' y → live s y) ∧ (live s def_root_domain → live s' def_root_domain).
Proof.
  revert s. induction js as [|c js IH]; intros s Hok Hin Hnd Hl Hs; cbn [foldl].
  { by split_and!. }
  apply NoDup_cons in Hnd as [Hcj Hnd].
  destruct (cpu_attach_domain_ok m (chain c) s c r Hok) as (Hok1 & Ea & Hl1); [apply Hin; by left|done|apply Hs; by left|].
  cbv zeta in *. revert Hok1 Ea Hl1. generalize (cpu_attach_domain m (chain c) r c s). intros s1 Hok1 Ea Hl1.
  assert (∀ x, x ≠ c → att_of s1 x = att_of s x) as Hne by (intros; rewrite Ea; unfold set_att; by rewrite decide_False).
  destruct (IH s1) as (Hok' & Ea' & Hl' & Hy & Hd); [done|intros; apply Hin; by right|done| | |].
  { apply Hl1. split; [done|]. intros (-> & Hd & _). apply Hd, (Hs c); [by left|done]. }
  { intros x Hx. rewrite Hne by (intros ->; done). apply Hs. by right. }
  split_and!; [done| |done| |].
  - intros x. rewrite Ea'. destruct (decide (x ∈ js)) as [Hx|Hx]; [by rewrite decide_True by (by right)|].
    destruct (decide (x = c)) as [->|Hxc]; [rewrite decide_True by (by left)|rewrite decide_False by (by intros [?|?]%elem_of_cons)].
    + rewrite Ea. unfold set_att. by rewrite decide_True.
    + by apply Hne.
  - intros y ?%Hy. by apply Hl1.
  - intros Hdl. apply Hd, Hl1. split; [done|]. naive_solver.
Qed.

(** Without failing allocations the groups can be built. *)
Lemma overlap_loop_some alloc chains k cpu js covered first last g m :
  (∀ i, alloc i = true) → is_Some (overlap_loop alloc chains k cpu js covered first last g m).
Proof.
  intros Ha. revert covered first last g m. induction js as [|i js IH]; intros; [by eexists|].
  cbn [overlap_loop]. rewrite Ha. destruct (Z.testbit covered i); [done|]. cbn [negb]. cbv zeta.
  destruct (link_group _ _ _ _). apply IH.
Qed.
Lemma build_groups_of_some alloc chains sds cpu m :
  (∀ k i, alloc k i = true) → is_Some (build_groups_of alloc chains sds cpu m).
Proof.
  intros Ha. revert m. induction sds as [|sd sds IH]; intros m; [by eexists|]. cbn [build_groups_of]. cbv zeta.
  set (sd1 := sd <| span_weight := _ |>). destruct (negb _).
  - unfold build_overlap_sched_groups.
    destruct (overlap_loop_some (alloc (sd_private sd1)) chains (sd_private sd1) cpu (cpus_in (sd_span sd1)) 0 None None sg_null m) as [[g m'] E]; [done|].
    rewrite E. cbn. destruct (IH m') as [[? ?] E']. rewrite E'. by eexists.
  - cbn. destruct (build_sched_groups chains sd1 cpu m) as [sd2 m']. destruct (IH m') as [[? ?] E']. rewrite E'. by eexists.
Qed.
Lemma build_groups_some alloc js chains m :
  (∀ c k i, alloc c k i = true) → is_Some (build_groups alloc js chains m).
Proof.
  intros Ha. revert chains m. induction js as [|c js IH]; intros; [by eexists|]. cbn [build_groups].
  destruct (build_groups_of_some (alloc c) chains (chains !!! c) c m (Ha c)) as [[sds m'] E]. rewrite E. cbn. apply IH.
Qed.

Lemma inv_alloc att on m r :
  rd_inv att on m → m !! r = None → r ≠ NULL → r ≠ def_root_domain → rd_inv att on (<[r := mk_rd 0 0 0]> m).
Proof.
  intros [Hc Hs Ho Hl Hn] Hr Hrn Hrd.
  assert (∀ c, c ∈ cpus → att c ≠ r) as Hfree by (intros c Hcc E; destruct (Hl c Hcc); congruence).
  assert (members att r = 0) as Hm.
  { unfold members. destruct (filter (λ c, att c = r) cpus) as [|c l] eqn:E; [done|].
    assert (c ∈ filter (λ c, att c = r) cpus) as [? ?]%list_elem_of_filter by (rewrite E; by left). by destruct (Hfree c). }
  split.
  - intros r' d [(<- & <-)|[_ ?]]%lookup_insert_Some; [|by apply Hc]. unfold own_ref. by rewrite Hm, decide_False.
  - intros r' d c [(<- & <-)|[_ ?]]%lookup_insert_Some; [|by apply Hs]. simpl. rewrite Z.bits_0. split; [done|naive_solver].
  - intros r' d c [(<- & <-)|[_ ?]]%lookup_insert_Some; [|by apply Ho]. simpl. rewrite Z.bits_0. split; [done|naive_solver].
  - intros c Hcc Hcn. apply lookup_insert_is_Some. destruct (decide (r = att c)); [by left|right; auto].
  - by rewrite lookup_insert_ne.
Qed.

Definition good_allocs (a : allocs) : Prop :=
  al_storage a = true ∧ al_percpu a = true ∧ al_rd a ≠ NULL ∧ forallb id (al_rd_parts a) = true ∧
  ∀ c k i, al_group a c k i = true.

(** What the construction of the domains leaves alone. *)
Definition same_doms (d d' : doms) : Prop :=
  doms_cur d' = doms_cur d ∧ ndoms_cur d' = ndoms_cur d ∧ dattr_cur d' = dattr_cur d ∧
  cpu_isolated_map d' = cpu_isolated_map d ∧ default_topology d' = default_topology d.
#[export] Instance same_doms_preorder : PreOrder same_doms.
Proof. split; [intros d; by split_and!|]. intros d1 d2 d3 (A&B&C&D&E) (A'&B'&C'&D'&E'). split_and!; congruence. Qed.

Lemma build_chain_doms k tls cpu_map attr cpu sds d : same_doms d (build_chain k tls cpu_map attr cpu sds d).2.
Proof.
  revert k sds d. induction tls as [|tl tls IH]; intros k sds d; [by split_and!|]. cbn [build_chain].
  assert (same_doms d (build_sched_domain k tl cpu_map attr (head sds) cpu d).2) as Hd.
  { unfold build_sched_domain. cbv zeta. destruct (head sds); by split_and!. }
  destruct (build_sched_domain k tl cpu_map attr (head sds) cpu d) as [sd d1]. cbn [snd] in Hd. cbv zeta.
  destruct (cpu_map =? _); [exact Hd|]. etransitivity; [exact Hd|apply IH].
Qed.
Lemma build_chains_doms cpu_map attr d : same_doms d (build_chains cpu_map attr d).2.
Proof.
  unfold build_chains. generalize (∅ : gmap Z (list sched_domain)). revert d. induction (cpus_in cpu_map) as [|i js IH]; intros d chains; [by split_and!|].
  cbn [foldl]. unfold add_chain at 2. pose proof (build_chain_doms 0 (default_topology d) cpu_map attr i [] d) as Hd.
  destruct (build_chain 0 (default_topology d) cpu_map attr i [] d) as [chain d1]. etransitivity; [exact Hd|apply IH].
Qed.

Lemma build_sched_domains_ok a cpu_map attr d s :
  rd_ok s → live s def_root_domain → good_allocs a → ¬ live s (al_rd a) →
  let '(ret, d', s') := build_sched_domains a cpu_map attr d s in
  ret = 0 ∧ rd_ok s' ∧ (∀ x, att_of s' x = if decide (x ∈ cpus_in cpu_map) then al_rd a else att_of s x) ∧
  live s' def_root_domain ∧ (∀ y, live s' y → live s y ∨ y = al_rd a) ∧ same_doms d d'.
Proof.
  intros Hok Hdef (Hst & Hpc & Hrn & Hparts & Hgr) Hfresh. set (r := al_rd a) in *.
  unfold build_sched_domains, __visit_domain_allocation_hell, alloc_rootdomain, init_rootdomain.
  rewrite Hst, Hpc, Hparts. cbn [negb]. fold r. rewrite (proj2 (Z.eqb_neq _ _) Hrn), Z.eqb_refl. cbn [negb].
  rewrite (proj2 (Z.eqb_neq _ _) Hrn).
  set (s1 := s <| root_domains ::= <[r := mk_rd 0 0 0]> |>).
  assert (r ≠ def_root_domain) as Hrd by (intros E; by rewrite E in Hfresh).
  assert (rd_ok s1) as Hok1.
  { split; [|apply (ro_off _ Hok)|apply (ro_ncpus _ Hok)]. apply inv_alloc; [apply Hok| |done|done].
    by apply eq_None_not_Some. }
  assert (∀ y, live s1 y ↔ live s y ∨ y = r) as Hl1.
  { intros y. unfold live. change (root_domains s1) with (<[r := mk_rd 0 0 0]> (root_domains s)).
    rewrite lookup_insert_is_Some'. naive_solver. }
  pose proof (build_chains_doms cpu_map attr d) as Hd. destruct (build_chains cpu_map attr d) as [chains d1]. cbn [snd] in Hd.
  destruct (build_groups_some (al_group a) (cpus_in cpu_map) chains ∅ Hgr) as [[chains' m] E]. rewrite E.
  destruct (attach_fold m (λ i, chains' !!! i) r (cpus_in cpu_map) s1) as (Hok2 & Ea & Hl2 & Hy & Hd2); [done| | | | |].
  { intros c [Hc _]%cpus_in_spec. apply elem_of_seqZ. lia. }
  { apply NoDup_filter, NoDup_seqZ. }
  { apply Hl1. by right. }
  { intros c [Hc _]%cpus_in_spec Eatt. destruct Hfresh. change (att_of s c = r) in Eatt. rewrite <- Eatt.
    apply (ri_live _ _ _ (ro_inv _ Hok)); [apply elem_of_seqZ; lia|]. unfold att_of in Eatt. congruence. }
  fold (attach_domains m chains' r cpu_map s1) in Hok2, Ea, Hl2, Hy, Hd2.
  revert Hok2 Ea Hl2 Hy Hd2. generalize (attach_domains m chains' r cpu_map s1). intros s2 Hok2 Ea Hl2 Hy Hd2.
  assert (live s2 def_root_domain) as Hdef2 by (apply Hd2, Hl1; by left).
  assert (∀ y, live s2 y → live s y ∨ y = r) as Hy2 by (intros y ?%Hy; by apply Hl1).
  unfold __free_domain_allocs. destruct Hl2 as [dr Edr]. rewrite (lookup_total_correct _ _ _ Edr).
  destruct (Z.eqb_spec (rd_refcount dr) 0) as [E0|_]; [|by split_and!].
  pose proof (ri_count _ _ _ (ro_inv _ Hok2) _ _ Edr) as Hcnt. unfold own_ref in Hcnt. rewrite decide_False in Hcnt by done.
  assert (members (λ c, rd (cpu_rq s2 c)) r = 0) as Hm0 by lia.
  split_and!; [done| |exact Ea| | |done].
  - split; [|apply (ro_off _ Hok2)|apply (ro_ncpus _ Hok2)]. apply inv_free; [apply Hok2|exact Hm0].
  - unfold live, free_rootdomain. simpl. by rewrite lookup_delete_ne.
  - intros y Hyl. apply Hy2. unfold live, free_rootdomain in Hyl. simpl in Hyl. apply lookup_delete_is_Some in Hyl. by destruct Hyl.
Qed.

Lemma cpus_in_cpus mask c : c ∈ cpus_in mask → c ∈ cpus.
Proof. intros [Hc _]%cpus_in_spec. apply elem_of_seqZ. lia. Qed.
Lemma cpus_in_NoDup mask : NoDup (cpus_in mask).
Proof. apply NoDup_filter, NoDup_seqZ. Qed.

(** The domains that are not kept are given up. *)
Lemma destroy_fold (M : nat → bool) (D : nat → Z) js s :
  rd_ok s → live s def_root_domain →
  let s' := foldl (λ s i, if M i then s else detach_destroy_domains (D i) s) s js in
  rd_ok s' ∧ live s' def_root_domain ∧ (∀ y, live s' y → live s y) ∧
  (∀ x i, i ∈ js → M i = false → x ∈ cpus_in (D i) → att_of s' x = def_root_domain) ∧
  (∀ x, (∀ i, i ∈ js → M i = false → x ∉ cpus_in (D i)) → att_of s' x = att_of s x).
Proof.
  revert s. induction js as [|i js IH]; intros s Hok Hdef; cbn [foldl].
  { split_and!; try done. by intros x i ?%elem_of_nil. }
  destruct (M i) eqn:EM.
  { destruct (IH s Hok Hdef) as (Q1 & Q2 & Q3 & Q4 & Q5). split_and!; [done..| |].
    - intros x j [->|Hj]%elem_of_cons HM Hx; [congruence|by apply (Q4 x j)].
    - intros x Hx. apply Q5. intros j Hj. apply Hx. by right. }
  destruct (attach_fold ∅ (λ _, []) def_root_domain (cpus_in (D i)) s) as (Hok1 & Ea & _ & Hy & Hd);
    [done|apply cpus_in_cpus|apply cpus_in_NoDup|done|done|].
  fold (detach_destroy_domains (D i) s) in *. specialize (Hd Hdef).
  destruct (IH (detach_destroy_domains (D i) s) Hok1 Hd) as (Q1 & Q2 & Q3 & Q4 & Q5). split_and!; [done|done|auto| |].
  - intros x j Hj HM Hx. destruct (decide (Exists (λ i, M i = false ∧ x ∈ cpus_in (D i)) js)) as [(i' & Hi' & HM' & Hx')%Exists_exists|Hno].
    { by apply (Q4 x i'). }
    rewrite Exists_exists in Hno. rewrite Q5 by naive_solver. rewrite Ea, decide_True; [done|].
    apply elem_of_cons in Hj as [->|Hj]; [done|naive_solver].
  - intros x Hx. rewrite Q5 by (intros j Hj; apply Hx; by right). rewrite Ea, decide_False; [done|]. apply Hx; [by left|done].
Qed.

(** New domains are built for the others. *)
Lemma build_fold (M : doms → nat → bool) (al : nat → allocs) (D : nat → Z) (attr : nat → option Z) js d s :
  (∀ d d' i, same_doms d d' → M d' i = M d i) →
  rd_ok s → live s def_root_domain → NoDup js →
  (∀ i, i ∈ js → good_allocs (al i) ∧ ¬ live s (al_rd (al i))) →
  (∀ i j, i ∈ js → j ∈ js → al_rd (al i) = al_rd (al j) → i = j) →
  (∀ i j x, i ∈ js → j ∈ js → x ∈ cpus_in (D i) → x ∈ cpus_in (D j) → i = j) →
  let '(d', s') := foldl (λ '(d, s) i, if M d i then (d, s)
    else let '(_, d, s) := build_sched_domains (al i) (D i) (attr i) d s in (d, s)) (d, s) js in
  rd_ok s' ∧ live s' def_root_domain ∧ same_doms d d' ∧
  (∀ x i, i ∈ js → M d i = false → x ∈ cpus_in (D i) → att_of s' x = al_rd (al i)) ∧
  (∀ x, (∀ i, i ∈ js → M d i = false → x ∉ cpus_in (D i)) → att_of s' x = att_of s x).
Proof.
  intros HM. revert d s. induction js as [|i js IH]; intros d s Hok Hdef Hnd Hal Hinj Hdis; cbn [foldl].
  { split_and!; try done. by intros x i ?%elem_of_nil. }
  apply NoDup_cons in Hnd as [Hi Hnd]. destruct (M d i) eqn:EM.
  { specialize (IH d s Hok Hdef Hnd ltac:(intros; apply Hal; by right) ltac:(intros; apply Hinj; (by right) || done) ltac:(intros; apply (Hdis _ _ x); (by right) || done)).
    destruct (foldl _ (d, s) js) as [d' s']. destruct IH as (Q1 & Q2 & Q3 & Q4 & Q5). split_and!; [done|done|apply Q3..| |].
    - intros x j [->|Hj]%elem_of_cons HMj Hx; [congruence|by apply (Q4 x j)].
    - intros x Hx. apply Q5. intros j Hj. apply Hx. by right. }
  destruct (Hal i) as [Hg Hf]; [by left|].
  pose proof (build_sched_domains_ok (al i) (D i) (attr i) d s Hok Hdef Hg Hf) as Hb.
  destruct (build_sched_domains (al i) (D i) (attr i) d s) as [[ret d1] s1]. destruct Hb as (_ & Hok1 & Ea & Hdef1 & Hl1 & Hd1).
  assert (∀ j, j ∈ js → good_allocs (al j) ∧ ¬ live s1 (al_rd (al j))) as Hal1.
  { intros j Hj. destruct (Hal j) as [Hgj Hfj]; [by right|]. split; [done|]. intros [?|E]%Hl1; [done|].
    apply Hi. by rewrite <- (Hinj j i) by ((by left) || (by right) || done). }
  specialize (IH d1 s1 Hok1 Hdef1 Hnd Hal1 ltac:(intros; apply Hinj; (by right) || done) ltac:(intros; apply (Hdis _ _ x); (by right) || done)).
  destruct (foldl _ (d1, s1) js) as [d' s']. destruct IH as (Q1 & Q2 & Q3 & Q4 & Q5).
  split_and!; [done|done|by etransitivity; [apply Hd1|]..| |].
  - intros x j [->|Hj]%elem_of_cons HMj Hx; [|apply (Q4 x j); [done|by rewrite (HM d)|done]].
    rewrite Q5; [by rewrite Ea, decide_True|]. intros k Hk _ Hxk. apply Hi. by rewrite <- (Hdis k i x) by ((by left) || (by right) || done).
  - intros x Hx. rewrite Q5 by (intros j Hj HMj; apply Hx; [by right|by rewrite <- (HM d d1)]).
    rewrite Ea, decide_False; [done|]. apply Hx; [by left|done].
Qed.

(** The CPUs of a domain of the partition share a root domain with each other and with
    no other CPU; CPUs outside all domains are in the default one. *)
Record partitioned (att : Z → Z) (l : list Z) : Prop := {
  pt_dom : ∀ i m c, l !! i = Some m → c ∈ cpus_in m →
    att c ≠ def_root_domain ∧ ∀ c', c' ∈ cpus → att c' = att c ↔ c' ∈ cpus_in m;
  pt_rest : ∀ c, c ∈ cpus → (∀ i m, l !! i = Some m → c ∉ cpus_in m) → att c = def_root_domain;
}.
Definition disjoint_doms (l : list Z) : Prop :=
  ∀ i j m m' c, l !! i = Some m → l !! j = Some m' → c ∈ cpus_in m → c ∈ cpus_in m' → i = j.
Definition part (d : doms) : list Z := take (Z.to_nat (ndoms_cur d)) (doms_cur d).

Lemma dom_or_none c (l : list Z) : (∃ i m, l !! i = Some m ∧ c ∈ cpus_in m) ∨ (∀ i m, l !! i = Some m → c ∉ cpus_in m).
Proof.
  destruct (decide (Exists (λ m, c ∈ cpus_in m) l)) as [He|He]; rewrite Exists_exists in He.
  - left. destruct He as (m & [i Ei]%list_elem_of_lookup & Hc). eauto.
  - right. intros i m Ei Hc. apply He. exists m. split; [by eapply list_elem_of_lookup_2|done].
Qed.

(** From one partition to another: [kept i] are the new domains that match an old one,
    the others get the fresh root domains [fresh i]. *)
Lemma repartition (cur new : list Z) (kept gone : nat → Prop) (fresh : nat → Z) (att att1 att2 : Z → Z) :
  (∀ i, kept i ∨ ¬ kept i) → (∀ j, gone j ∨ ¬ gone j) →
  partitioned att cur → disjoint_doms cur → disjoint_doms new →
  (∀ i m, new !! i = Some m → kept i → ∃ j, cur !! j = Some m ∧ ¬ gone j) →
  (∀ j m, cur !! j = Some m → ¬ gone j → ∃ i, new !! i = Some m) →
  (∀ i m c, new !! i = Some m → c ∈ cpus → fresh i ≠ att c) → (∀ i m, new !! i = Some m → fresh i ≠ def_root_domain) →
  (∀ i j m m', new !! i = Some m → new !! j = Some m' → fresh i = fresh j → i = j) →
  (∀ j m c, cur !! j = Some m → gone j → c ∈ cpus_in m → att1 c = def_root_domain) →
  (∀ c, (∀ j m, cur !! j = Some m → gone j → c ∉ cpus_in m) → att1 c = att c) →
  (∀ i m c, new !! i = Some m → ¬ kept i → c ∈ cpus_in m → att2 c = fresh i) →
  (∀ c, (∀ i m, new !! i = Some m → ¬ kept i → c ∉ cpus_in m) → att2 c = att1 c) →
  partitioned att2 new ∧ (∀ i m c, new !! i = Some m → kept i → c ∈ cpus_in m → att2 c = att c) ∧
  (∀ c, c ∈ cpus → (∃ i m, new !! i = Some m ∧ att2 c = fresh i) ∨ att2 c = def_root_domain ∨ att2 c = att c).
Proof.
  intros Dk Dg [Hdom Hrest] Hdc Hdn Hk Hg Hf Hfd Hfi Hgone Hstay Hnew Hold.
  assert (∀ i m c, new !! i = Some m → kept i → c ∈ cpus_in m → att2 c = att c) as Hkeep.
  { intros i m c Ei Hki Hc. destruct (Hk i m Ei Hki) as (j & Ej & Hnj).
    rewrite Hold; [apply Hstay|].
    - intros j' m' Ej' Hgj' Hc'. by rewrite (Hdc j' j m' m c) in Hgj'.
    - intros i' m' Ei' Hki' Hc'. by rewrite (Hdn i' i m' m c) in Hki'. }
  assert (∀ c, c ∈ cpus → (∃ i m, new !! i = Some m ∧ ¬ kept i ∧ c ∈ cpus_in m ∧ att2 c = fresh i) ∨
    (∀ i m, new !! i = Some m → c ∈ cpus_in m → kept i) ∧ (att2 c = def_root_domain ∨ att2 c = att c)) as Hcases.
  { intros c Hc. destruct (dom_or_none c new) as [(i & m & Ei & Hcm)|Hno].
    - destruct (Dk i) as [Hki|Hki]; [right|left; exists i, m; split_and!; [done..|by apply (Hnew i m)]].
      split; [|right; by apply (Hkeep i m)]. intros i' m' Ei' Hc'. by rewrite (Hdn i' i m' m c).
    - right. split; [naive_solver|]. rewrite Hold by naive_solver. destruct (dom_or_none c cur) as [(j & m & Ej & Hcm)|Hx].
      + left. apply (Hgone j m); [done| |done]. destruct (Dg j) as [|Hng]; [done|].
        destruct (Hg j m Ej Hng) as [i Ei]. by destruct (Hno i m).
      + right. apply Hstay. naive_solver. }
  split_and!; [split|done|intros c Hc; destruct (Hcases c Hc) as [(i & m & ? & _ & _ & ?)|[_ ?]]; eauto].
  - intros i m c Ei Hc. assert (c ∈ cpus) as Hcc by (by eapply cpus_in_cpus). destruct (Dk i) as [Hki|Hki].
    + destruct (Hk i m Ei Hki) as (j & Ej & _). rewrite (Hkeep i m c) by done. destruct (Hdom j m c Ej Hc) as [Hd Hiff].
      split; [done|]. intros c' Hc'. split; [|intros Hm; rewrite (Hkeep i m c') by done; by apply Hiff].
      intros E. destruct (Hcases c' Hc') as [(i' & m' & Ei' & _ & _ & E')|[_ [E'|E']]].
      * by destruct (Hf i' m' c Ei' Hcc); congruence.
      * congruence.
      * apply Hiff; congruence.
    + rewrite (Hnew i m c) by done. split; [by apply (Hfd i m)|]. intros c' Hc'. split; [|intros Hm; by apply (Hnew i m)].
      intros E. destruct (Hcases c' Hc') as [(i' & m' & Ei' & _ & Hm' & E')|[_ [E'|E']]].
      * rewrite (Hfi i' i m' m) in Ei' by congruence. congruence.
      * by destruct (Hfd i m Ei); congruence.
      * by destruct (Hf i m c' Ei Hc'); congruence.
  - intros c Hc Hno. destruct (Hcases c Hc) as [(i & m & Ei & _ & Hm & _)|[_ [E|E]]]; [by destruct (Hno i m)|done|].
    rewrite Hold by naive_solver. destruct (dom_or_none c cur) as [(j & m & Ej & Hcm)|Hx].
    + apply (Hgone j m); [done| |done]. destruct (Dg j) as [|Hng]; [done|].
      destruct (Hg j m Ej Hng) as [i Ei]. by destruct (Hno i m).
    + rewrite Hstay by naive_solver. by apply Hrest.
Qed.

Lemma dattrs_equal_sym a i b j : dattrs_equal a i b j = dattrs_equal b j a i.
Proof. unfold dattrs_equal. destruct a, b; auto using Z.eqb_sym. Qed.

Lemma dom_match_spec doms1 attr1 i doms2 attr2 n :
  dom_match doms1 attr1 i doms2 attr2 n = true ↔
  ∃ j, (j < n)%nat ∧ doms1 !!! i = doms2 !!! j ∧ dattrs_equal attr1 i attr2 j = true.
Proof.
  unfold dom_match. rewrite existsb_exists. setoid_rewrite andb_true_iff. setoid_rewrite Z.eqb_eq.
  setoid_rewrite in_seq. split; [intros (j & ? & ? & ?)|intros (j & ? & ? & ?)]; exists j; (split; [lia|done]).
Qed.

Lemma take_lookup_total (l : list Z) n i : (n ≤ length l)%nat → (i < n)%nat → take n l !! i = Some (l !!! i).
Proof. intros Hn Hi. rewrite lookup_take_lt by done. apply list_lookup_lookup_total_lt. lia. Qed.

Lemma take_lookup_lt (l : list Z) n i m : take n l !! i = Some m → (i < n)%nat ∧ l !!! i = m.
Proof. intros [E Hi]%lookup_take_Some. split; [done|]. by apply list_lookup_total_correct. Qed.

(** The partition the caller asks for. *)
Definition requested (doms_new : option (list Z)) (d : doms) (s : sched) : list Z :=
  match doms_new with Some l => l | None => [Z.ldiff (cpu_active_mask s) (cpu_isolated_map d)] end.

Lemma cpu_attach_domain_active m sds r c s : cpu_active_mask (cpu_attach_domain m sds r c s) = cpu_active_mask s.
Proof.
  unfold cpu_attach_domain, rq_attach_root, set_rq_offline, set_rq_online, free_rootdomain. cbv zeta.
  repeat case_match; simplify_eq; done.
Qed.
Lemma destroy_deleted_active nt d l attr n s : cpu_active_mask (destroy_deleted nt d l attr n s) = cpu_active_mask s.
Proof.
  unfold destroy_deleted. revert s. induction (seq 0 (Z.to_nat (ndoms_cur d))) as [|i js IH]; intros s; [done|].
  cbn [foldl]. rewrite IH. destruct (negb nt && _); [done|]. unfold detach_destroy_domains. clear.
  revert s. induction (cpus_in (doms_cur d !!! i)) as [|c cs IH]; intros s; [done|]. cbn [foldl]. by rewrite IH, cpu_attach_domain_active.
Qed.

(** What the caller of [partition_sched_domains] provides: disjoint domains and, for
    each, memory for a new root domain. *)
Record partition_request (al : nat → allocs) (n : Z) (new : list Z) (s : sched) : Prop := {
  pq_length : 0 ≤ n ≤ Z.of_nat (length new);
  pq_disjoint : disjoint_doms (take (Z.to_nat n) new);
  pq_allocs : ∀ i, (i < Z.to_nat n)%nat → good_allocs (al i) ∧ ¬ live s (al_rd (al i));
  pq_distinct : ∀ i j, (i < Z.to_nat n)%nat → (j < Z.to_nat n)%nat → al_rd (al i) = al_rd (al j) → i = j;
}.
Record partition_ok (d : doms) (s : sched) : Prop := {
  po_rd : rd_ok s;
  po_def : live s def_root_domain;
  po_att : ∀ c, c ∈ cpus → att_of s c ≠ NULL;
  po_part : partitioned (att_of s) (part d);
  po_disjoint : disjoint_doms (part d);
  po_length : 0 ≤ ndoms_cur d ≤ Z.of_nat (length (doms_cur d));
}.

Lemma fresh_not_used s r : rd_ok s → r ≠ NULL → ¬ live s r → ∀ c, c ∈ cpus → r ≠ att_of s c.
Proof. intros Hok Hr Hf c Hc ->. apply Hf. by apply (ri_live _ _ _ (ro_inv _ Hok)). Qed.

Lemma list_filter_in (P Q : Z → Prop) `{∀ x, Decision (P x), ∀ x, Decision (Q x)} (l : list Z) :
  (∀ x, x ∈ l → P x ↔ Q x) → filter P l = filter Q l.
Proof.
  intros Hi. induction l as [|x l IH]; [done|]. rewrite !filter_cons, IH by (intros; apply Hi; by right).
  pose proof (Hi x ltac:(by left)). repeat case_decide; tauto.
Qed.

Lemma root_span s c : rd_ok s → c ∈ cpus → att_of s c ≠ NULL →
  cpus_in (rd_span (root_domains s !!! att_of s c)) = filter (λ c', att_of s c' = att_of s c) cpus.
Proof.
  intros Hok Hc Hn. destruct (ri_live _ _ _ (ro_inv _ Hok) c Hc Hn) as [dr Edr].
  unfold att_of at 1. rewrite (lookup_total_correct _ _ _ Edr). unfold cpus_in. apply list_filter_in. intros c' Hc'.
  rewrite (ri_span _ _ _ (ro_inv _ Hok) _ _ c' Edr). unfold att_of. tauto.
Qed.

(** Whether a current or a requested domain is left alone. *)
Definition cur_kept (nt : bool) (d : doms) (new : list Z) (dattr : option (list Z)) (n j : nat) : bool :=
  negb nt && dom_match (doms_cur d) (dattr_cur d) j new dattr n.
Definition new_kept (nt : bool) (new : list Z) (dattr : option (list Z)) (d : doms) (i : nat) : bool :=
  negb nt && dom_match new dattr i (doms_cur d) (dattr_cur d) (Z.to_nat (ndoms_cur d)).

Lemma cur_kept_match nt d new dattr n j :
  cur_kept nt d new dattr n j = true → ∃ i, (i < n)%nat ∧ new !!! i = doms_cur d !!! j.
Proof. unfold cur_kept. rewrite andb_true_iff, dom_match_spec. naive_solver. Qed.
Lemma new_kept_match nt d new dattr n i :
  (i < n)%nat → new_kept nt new dattr d i = true →
  ∃ j, (j < Z.to_nat (ndoms_cur d))%nat ∧ doms_cur d !!! j = new !!! i ∧ cur_kept nt d new dattr n j = true.
Proof.
  intros Hi. unfold new_kept. rewrite andb_true_iff, dom_match_spec. intros [Hnt (j & Hj & E & Ha)].
  exists j. split_and!; [done..|]. unfold cur_kept. rewrite andb_true_iff, dom_match_spec. split; [done|].
  exists i. split_and!; [done..|]. by rewrite dattrs_equal_sym.
Qed.

Lemma destroy_deleted_spec nt d new dattr n s :
  rd_ok s → live s def_root_domain → 0 ≤ ndoms_cur d ≤ Z.of_nat (length (doms_cur d)) →
  let s' := destroy_deleted nt d new dattr n s in
  rd_ok s' ∧ live s' def_root_domain ∧ (∀ y, live s' y → live s y) ∧
  (∀ j m c, part d !! j = Some m → cur_kept nt d new dattr n j = false → c ∈ cpus_in m → att_of s' c = def_root_domain) ∧
  (∀ c, (∀ j m, part d !! j = Some m → cur_kept nt d new dattr n j = false → c ∉ cpus_in m) → att_of s' c = att_of s c).
Proof.
  intros Hok Hdef Hlen.
  destruct (destroy_fold (cur_kept nt d new dattr n) (λ j, doms_cur d !!! j) (seq 0 (Z.to_nat (ndoms_cur d))) s Hok Hdef)
    as (Q1 & Q2 & Q3 & Q4 & Q5).
  split_and!; [exact Q1|exact Q2|exact Q3| |].
  - intros j m c [Hj <-]%take_lookup_lt HM Hc. apply (Q4 c j); [apply elem_of_seq; lia|done..].
  - intros c Hc. apply Q5. intros j [_ Hj]%elem_of_seq HM. apply (Hc j); [|done]. apply take_lookup_total; lia.
Qed.

Lemma build_new_spec nt al new dattr n d s :
  rd_ok s → live s def_root_domain → (n ≤ length new)%nat → disjoint_doms (take n new) →
  (∀ i, (i < n)%nat → good_allocs (al i) ∧ ¬ live s (al_rd (al i))) →
  (∀ i j, (i < n)%nat → (j < n)%nat → al_rd (al i) = al_rd (al j) → i = j) →
  let '(d', s') := build_new nt al new dattr n d s in
  rd_ok s' ∧ live s' def_root_domain ∧
  (∀ i m c, take n new !! i = Some m → new_kept nt new dattr d i = false → c ∈ cpus_in m → att_of s' c = al_rd (al i)) ∧
  (∀ c, (∀ i m, take n new !! i = Some m → new_kept nt new dattr d i = false → c ∉ cpus_in m) → att_of s' c = att_of s c).
Proof.
  intros Hok Hdef Hn Hdis Hal Hinj.
  pose proof (build_fold (new_kept nt new dattr) al (λ i, new !!! i) (λ i, (.!!! i) <$> dattr) (seq 0 n) d s) as Hb.
  assert (∀ i, i ∈ seq 0 n ↔ (i < n)%nat) as Hseq by (intros; rewrite elem_of_seq; lia).
  assert (∀ i, (i < n)%nat → take n new !! i = Some (new !!! i)) as Hnew by (intros; by apply take_lookup_total).
  unfold build_new. unfold new_kept in Hb at 2. destruct (foldl _ (d, s) (seq 0 n)) as [d' s'].
  destruct Hb as (Hok' & Hdef' & _ & Q4 & Q5).
  { intros d1 d2 i (E1 & E2 & E3 & _). unfold new_kept. by rewrite E1, E2, E3. }
  { done. } { done. } { apply NoDup_seq. } { intros i ?%Hseq. auto. } { intros i j ?%Hseq ?%Hseq. auto. }
  { intros i j x Hi%Hseq Hj%Hseq. apply (Hdis i j _ _ x (Hnew i Hi) (Hnew j Hj)). }
  split_and!; [done|done| |].
  - intros i m c [Hi <-]%take_lookup_lt HM Hc. apply (Q4 c i); [by apply Hseq|done..].
  - intros c Hc. apply Q5. intros i Hi%Hseq HM. apply (Hc i); [by apply Hnew|done].
Qed.

End partitioned.

(** ** The domains of a CPU *)
Section chains.
Context `{Config} `{AffinityEnv} `{Topology}.
Implicit Types s : sched.

(** The domain at place [n] belongs to level [n] of the topology. *)
Definition sd_shape (sd : sched_domain) : Z * nat * Z := (sd_level sd, sd_private sd, sd_span sd).
Definition shape_of (tls : list sched_domain_topology_level) (cpu_map cpu : Z) (n : nat) (x : Z * nat * Z) : Prop :=
  ∃ tl, tls !! n = Some tl ∧ x = (Z.of_nat n, n, Z.land cpu_map (tl_mask tl cpu)).
Definition chain_ok (tls : list sched_domain_topology_level) (cpu_map cpu : Z) (l : list (Z * nat * Z)) : Prop :=
  ∀ n x, l !! n = Some x → shape_of tls cpu_map cpu n x.

Lemma set_domain_attribute_shape d attr sd : sd_shape (set_domain_attribute d attr sd) = sd_shape sd.
Proof. unfold set_domain_attribute. by repeat case_match. Qed.

Lemma build_chain_ok tls done todo cpu_map attr cpu sds d :
  tls = done ++ todo → length done = length sds → chain_ok tls cpu_map cpu (sd_shape <$> rev sds) →
  chain_ok tls cpu_map cpu (sd_shape <$> (build_chain (length sds) todo cpu_map attr cpu sds d).1).
Proof.
  revert done sds d. induction todo as [|tl todo IH]; intros dn sds d Etls Hlen Hok; [done|]. cbn [build_chain].
  assert (let sd := (build_sched_domain (length sds) tl cpu_map attr (head sds) cpu d).1 in
    shape_of tls cpu_map cpu (length sds) (sd_shape sd)) as Hsd.
  { exists tl. split; [by rewrite Etls, <- Hlen, lookup_app_r, Nat.sub_diag by done|].
    unfold build_sched_domain. cbv zeta. pose proof (set_domain_attribute_shape d attr (sd_init (length sds) tl)) as E.
    revert E. generalize (set_domain_attribute d attr (sd_init (length sds) tl)). intros sd [= E1 E2 E3]. destruct sds as [|child sds]; cbn [head].
    - unfold sd_shape. simpl. by rewrite E1, E2.
    - unfold sd_shape. cbn. rewrite E2. f_equal. f_equal.
      destruct (Hok (length sds) (sd_shape child)) as (tl' & _ & Ec).
      { simpl. rewrite fmap_app, lookup_app_r; rewrite length_fmap, length_rev; [|done]. by rewrite Nat.sub_diag. }
      injection Ec as -> _ _. lia. }
  destruct (build_sched_domain (length sds) tl cpu_map attr (head sds) cpu d) as [sd d1]. cbn [fst] in Hsd. cbv zeta.
  set (sd' := if negb _ then _ else sd). assert (sd_shape sd' = sd_shape sd) as Esh by (unfold sd'; by destruct (negb _)).
  assert (chain_ok tls cpu_map cpu (sd_shape <$> rev (sd' :: sds))) as Hok'.
  { intros n x. cbn [rev]. rewrite fmap_app, lookup_app_Some. intros [?|[Hn Hx]]; [by apply Hok|]. rewrite length_fmap, length_rev in *.
    apply list_lookup_singleton_Some in Hx as [Hn' <-]. assert (n = length sds) as -> by lia. by rewrite Esh. }
  clearbody sd'. destruct (cpu_map =? sd_span sd'); [exact Hok'|].
  apply (IH (dn ++ [tl]) (sd' :: sds)); [by rewrite Etls, <- app_assoc|rewrite length_app; simpl; lia|done].
Qed.

Lemma build_chains_ok cpu_map attr d :
  let chains := (build_chains cpu_map attr d).1 in
  ∀ c, c ∈ cpus_in cpu_map → chain_ok (default_topology d) cpu_map c (sd_shape <$> chains !!! c).
Proof.
  unfold build_chains. cbv zeta.
  enough (∀ js (chains : gmap Z (list sched_domain)) d', same_doms d d' →
    (∀ c, c ∈ js ∨ chain_ok (default_topology d) cpu_map c (sd_shape <$> chains !!! c) →
     chain_ok (default_topology d) cpu_map c (sd_shape <$> (foldl (add_chain cpu_map attr) (chains, d') js).1 !!! c))) as Hx.
  { intros c Hc. apply Hx; [by split_and!|by left]. }
  induction js as [|i js IH]; intros chains d' Hd c Hc; [by destruct Hc as [?%elem_of_nil|]|]. cbn [foldl]. unfold add_chain at 2.
  pose proof (build_chain_doms 0 (default_topology d') cpu_map attr i [] d') as Hd'.
  pose proof (build_chain_ok (default_topology d') [] (default_topology d') cpu_map attr i [] d' eq_refl eq_refl) as Hch. cbn [length] in Hch.
  destruct (build_chain 0 (default_topology d') cpu_map attr i [] d') as [chain d'']. cbn [fst snd] in *.
  apply IH; [by etransitivity|]. destruct Hc as [[->|Hc]%elem_of_cons|Hc]; [right|by left|right].
  - rewrite lookup_total_insert_eq. destruct Hd as (_ & _ & _ & _ & <-). apply Hch. by intros n x.
  - destruct (decide (c = i)) as [->|]; [|by rewrite lookup_total_insert_ne].
    rewrite lookup_total_insert_eq. destruct Hd as (_ & _ & _ & _ & <-). apply Hch. by intros n x.
Qed.

(** The groups change neither level nor span. *)
Lemma build_groups_of_shape alloc chains sds cpu m sds' m' :
  build_groups_of alloc chains sds cpu m = Some (sds', m') → sd_shape <$> sds' = sd_shape <$> sds.
Proof.
  revert m sds' m'. induction sds as [|sd sds IH]; intros m sds' m'; cbn [build_groups_of]; [by intros [= <- _]|]. cbv zeta.
  set (sd1 := sd <| span_weight := _ |>). assert (sd_shape sd1 = sd_shape sd) as E1 by done. clearbody sd1.
  intros ([sd2 m2] & E2 & ([sds2 m3] & E3 & [= <- _])%bind_Some)%bind_Some. rewrite !fmap_cons. f_equal; [|by eapply IH].
  rewrite <- E1. destruct (negb _).
  - unfold build_overlap_sched_groups in E2. apply bind_Some in E2 as ([g m4] & _ & [= <- _]). done.
  - injection E2 as E2. unfold build_sched_groups in E2. cbv zeta in E2. destruct (negb _); by injection E2 as <- _.
Qed.
Lemma build_groups_shape alloc js chains m chains' m' c :
  build_groups alloc js chains m = Some (chains', m') → sd_shape <$> (chains' !!! c) = sd_shape <$> (chains !!! c).
Proof.
  revert chains m. induction js as [|i js IH]; intros chains m; cbn [build_groups]; [by intros [= <- _]|].
  intros ([sds m2] & E & Hrest)%bind_Some. rewrite (IH _ _ Hrest). destruct (decide (c = i)) as [->|].
  - rewrite lookup_total_insert_eq. by eapply build_groups_of_shape.
  - by rewrite lookup_total_insert_ne.
Qed.

Lemma drop_parents_sublist m tmp parents : drop_parents m tmp parents `sublist_of` tmp :: parents.
Proof.
  revert tmp. induction parents as [|parent parents IH]; intros tmp; cbn [drop_parents]; [done|]. destruct (sd_parent_degenerate m tmp parent).
  - etransitivity; [apply IH|]. by apply sublist_skip, sublist_cons.
  - by apply sublist_skip.
Qed.
Lemma contributing_sublist m sds : contributing m sds `sublist_of` sds.
Proof.
  unfold contributing. cbv zeta. destruct sds as [|sd sds]; [done|]. pose proof (drop_parents_sublist m sd sds) as Hs.
  destruct (drop_parents m sd sds) as [|sd' sds']; [done|]. destruct (sd_degenerate m sd'); [|done].
  etransitivity; [|exact Hs]. by apply sublist_cons.
Qed.

(** A field of the run queues other than the root domain. *)
Lemma rq_attach_root_proj {B} (φ : rq → B) c r s x :
  (∀ q v, φ (q <| rd := v |>) = φ q) → (∀ q v, φ (q <| online := v |>) = φ q) →
  φ (cpu_rq (rq_attach_root c r s) x) = φ (cpu_rq s x).
Proof.
  intros Hrd Honl. rewrite rq_attach_root_alt.
  assert (∀ s, φ (cpu_rq (set_rq_online c s) x) = φ (cpu_rq s x)) as Hon.
  { intros s'. unfold set_rq_online. destruct (negb _); [|done]. cbv zeta. by rewrite (rq_upd_proj φ). }
  assert (φ (cpu_rq (leave_root c s).2 x) = φ (cpu_rq s x)) as Hl.
  { unfold leave_root. cbv zeta. destruct (negb _); [|done]. simpl. destruct (cpu_isset _ _); [|done].
    change (φ (cpu_rq (set_rq_offline c s) x) = φ (cpu_rq s x)). unfold set_rq_offline. destruct (online _); [|done]. cbv zeta. by rewrite (rq_upd_proj φ). }
  destruct (leave_root c s) as [old s1]. cbn [snd] in Hl.
  assert (φ (cpu_rq (join_root c r s1) x) = φ (cpu_rq s x)) as Hj.
  { unfold join_root. cbv zeta. rewrite <- Hl. set (s2 := upd_rd r _ _).
    assert (φ (cpu_rq s2 x) = φ (cpu_rq s1 x)) as <-.
    { change (φ (cpu_rq (upd_rq c (λ q, q <| rd := r |>) s1) x) = φ (cpu_rq s1 x)). by rewrite (rq_upd_proj φ). }
    destruct (cpu_isset _ _); [apply Hon|done]. }
  by destruct (negb _).
Qed.

Lemma attach_domains_sd m (chain : Z → list sched_domain) r js s c :
  NoDup js → sd (cpu_rq (foldl (λ s i, cpu_attach_domain m (chain i) r i s) s js) c) =
    if decide (c ∈ js) then contributing m (chain c) else sd (cpu_rq s c).
Proof.
  revert s. induction js as [|i js IH]; intros s Hnd; [done|]. apply NoDup_cons in Hnd as [Hi Hnd]. cbn [foldl]. rewrite IH by done.
  assert (sd (cpu_rq (cpu_attach_domain m (chain i) r i s) c) = if decide (i = c) then contributing m (chain i) else sd (cpu_rq s c)) as ->.
  { unfold cpu_attach_domain. cbv zeta. rewrite cpu_rq_upd_rq. destruct (decide (i = c)); [done|by apply (rq_attach_root_proj sd)]. }
  destruct (decide (i = c)) as [->|Hic].
  - rewrite (decide_False (P := c ∈ js)), decide_True by (done || by left). done.
  - destruct (decide (c ∈ js)) as [Hc|Hc]; [by rewrite decide_True by (by right)|by rewrite decide_False by (by intros [?|?]%elem_of_cons)].
Qed.
Lemma attach_domains_proj {B} (φ : rq → B) m (chain : Z → list sched_domain) r js s c :
  (∀ q v, φ (q <| rd := v |>) = φ q) → (∀ q v, φ (q <| online := v |>) = φ q) → (∀ q v, φ (q <| sd := v |>) = φ q) →
  φ (cpu_rq (foldl (λ s i, cpu_attach_domain m (chain i) r i s) s js) c) = φ (cpu_rq s c).
Proof.
  intros H1' H2 H3. revert s. induction js as [|i js IH]; intros s; [done|]. cbn [foldl]. rewrite IH.
  unfold cpu_attach_domain. cbv zeta. rewrite (rq_upd_proj φ) by done. by apply rq_attach_root_proj.
Qed.

(** The chain attached to a CPU: domains of ascending levels of the topology, each with
    the CPUs of its level that are in the map. *)
Definition topology_domain (d : doms) (cpu_map cpu : Z) (x : sched_domain) : Prop :=
  ∃ tl, default_topology d !! sd_private x = Some tl ∧ sd_level x = Z.of_nat (sd_private x) ∧
    sd_span x = Z.land cpu_map (tl_mask tl cpu).

Lemma chain_sorted tls cpu_map cpu l : chain_ok tls cpu_map cpu l → StronglySorted Z.lt ((λ x, x.1.1) <$> l).
Proof.
  intros Hok. assert ((λ x, x.1.1) <$> l = seqZ 0 (Z.of_nat (length l))) as ->.
  { apply list_eq. intros n. rewrite list_lookup_fmap. destruct (l !! n) as [x|] eqn:E; simpl.
    - pose proof (lookup_lt_Some _ _ _ E). destruct (Hok n x E) as (tl & _ & ->). symmetry. apply lookup_seqZ. simpl. lia.
    - apply lookup_ge_None in E. symmetry. apply lookup_ge_None. rewrite length_seqZ. lia. }
  generalize 0. induction (length l) as [|n IH]; intros b; [constructor|]. rewrite Nat2Z.inj_succ, seqZ_cons by lia.
  rewrite Z.pred_succ. constructor; [apply IH|]. apply Forall_forall. intros x Hx%elem_of_seqZ. lia.
Qed.

Lemma sublist_StronglySorted (l k : list Z) : l `sublist_of` k → StronglySorted Z.lt k → StronglySorted Z.lt l.
Proof.
  induction 1 as [|x l k Hs IH|x l k Hs IH]; intros Hk; [done|..]; apply StronglySorted_inv in Hk as [Hk Hx]; [|auto].
  constructor; [auto|]. apply Forall_forall. intros y Hy. rewrite Forall_forall in Hx. apply Hx. by eapply elem_of_sublist.
Qed.

Lemma attached_chain d cpu_map cpu chain ds :
  chain_ok (default_topology d) cpu_map cpu (sd_shape <$> chain) → ds `sublist_of` chain →
  (∀ x, x ∈ ds → topology_domain d cpu_map cpu x) ∧ StronglySorted Z.lt (sd_level <$> ds).
Proof.
  intros Hok Hs. split.
  - intros x Hx. assert (x ∈ chain) as [n Hn]%list_elem_of_lookup by (by eapply elem_of_sublist).
    destruct (Hok n (sd_shape x)) as (tl & Etl & [= E1 E2 E3]); [by rewrite list_lookup_fmap, Hn|].
    exists tl. by rewrite E1, E2.
  - apply (sublist_StronglySorted _ (sd_level <$> chain)); [by apply fmap_sublist|].
    pose proof (chain_sorted _ _ _ _ Hok) as Hst. by rewrite <- list_fmap_compose in Hst.
Qed.

Lemma build_sched_domains_attached a cpu_map attr d s c :
  good_allocs a → c ∈ cpus_in cpu_map →
  let s' := (build_sched_domains a cpu_map attr d s).2 in
  (∀ x, x ∈ sd (cpu_rq s' c) → topology_domain d cpu_map c x) ∧ StronglySorted Z.lt (sd_level <$> sd (cpu_rq s' c)) ∧
  cpu_locality (cpu_rq s' c) = cpu_locality (cpu_rq s c).
Proof.
  intros (Hst & Hpc & Hrn & Hparts & Hgr) Hc.
  unfold build_sched_domains, __visit_domain_allocation_hell, alloc_rootdomain, init_rootdomain.
  rewrite Hst, Hpc, Hparts. cbn [negb]. rewrite (proj2 (Z.eqb_neq _ _) Hrn), Z.eqb_refl. cbn [negb].
  rewrite (proj2 (Z.eqb_neq _ _) Hrn). set (s1 := s <| root_domains ::= _ |>).
  pose proof (build_chains_ok cpu_map attr d c Hc) as Hch. destruct (build_chains cpu_map attr d) as [chains d1]. cbn [fst] in Hch.
  destruct (build_groups_some (al_group a) (cpus_in cpu_map) chains ∅ Hgr) as [[chains' m] E]. rewrite E.
  rewrite <- (build_groups_shape _ _ _ _ _ _ c E) in Hch. cbn [snd].
  set (s2 := attach_domains m chains' (al_rd a) cpu_map s1).
  assert (cpu_rq (__free_domain_allocs sa_rootdomain (al_rd a) s2) c = cpu_rq s2 c) as -> by (unfold __free_domain_allocs; by case_if).
  assert (sd (cpu_rq s2 c) = contributing m (chains' !!! c)) as ->.
  { unfold s2, attach_domains. rewrite (attach_domains_sd m (λ i, chains' !!! i)) by apply cpus_in_NoDup. by rewrite decide_True. }
  destruct (attached_chain d cpu_map c _ _ Hch (contributing_sublist m _)). split_and!; [done..|].
  change (cpu_rq s c) with (cpu_rq s1 c). by apply (attach_domains_proj cpu_locality m (λ i, chains' !!! i)).
Qed.
End chains.

(** The requested relax level is compared with the level of the domain before that
    level is set: idle balancing is switched on at every level, whatever was asked for. *)
Lemma relax_level_ignored `{Config} k tl cpu_map relax child cpu d :
  0 ≤ relax →
  let sd := (build_sched_domain k tl cpu_map (Some relax) child cpu d).1 in
  Z.land (sd_flags sd) (Z.lor SD_BALANCE_WAKE SD_BALANCE_NEWIDLE) = Z.lor SD_BALANCE_WAKE SD_BALANCE_NEWIDLE.
Proof.
  intros Hr. unfold build_sched_domain, set_domain_attribute. cbv zeta. rewrite (proj2 (Z.ltb_ge relax 0)) by done.
  cbn [sd_init sd_level]. rewrite (proj2 (Z.ltb_ge relax 0)) by done.
  assert (∀ f m, Z.land (Z.lor f m) m = m) as Habs.
  { intros f m. apply Z.bits_inj'. intros n _. rewrite Z.land_spec, Z.lor_spec. by destruct (Z.testbit f n), (Z.testbit m n). }
  destruct child; apply Habs.
Qed.

Section domains_examples.
#[local] Existing Instance sample_config.
#[local] Existing Instance sample_affinity.

(** Two cores of two threads each. *)
Definition sample_topology : Topology := {|
  topology_thread_cpumask := λ c, if c <? 2 then 3 else 12; cpu_coregroup_mask := λ _, 15; cpu_to_node := λ _, 0;
  cpumask_of_node := λ _, 15; nr_node_ids := 1; node_distance := λ _ _, 10;
|}.
#[local] Existing Instance sample_topology.
Definition sample_doms : doms := mk_doms 0 0 0 (-1) 0 [] 0 None.
Definition sample_allocs (r : Z) : allocs := mk_allocs true true r [true; true; true; true] (λ _ _ _, true).

(** All CPUs in the default root domain. *)
Definition rooted : sched :=
  machine <| runqueues := (λ r, r <| rd := def_root_domain |> <| online := true |>) <$> machine_rqs |>
          <| root_domains := {[ def_root_domain := mk_rd 5 15 15 ]} |>.

Lemma testbit_15 c : Z.testbit 15 c = true ↔ c ∈ cpus.
Proof.
  rewrite machine_cpus. split; [|intros [->|[->|[->| ->]]]; done]. intros Hb. destruct (decide (c < 0)).
  { by rewrite Z.testbit_neg_r in Hb. }
  destruct (decide (4 ≤ c)); [|lia]. rewrite Z.bits_above_log2 in Hb; [done|done|]. change (Z.log2 15) with 3. lia.
Qed.

Lemma rooted_att c : c ∈ cpus → att_of rooted c = def_root_domain ∧ online (cpu_rq rooted c) = true.
Proof. intros Hc. by machine_cpu c Hc. Qed.

Lemma rooted_doms r d : root_domains rooted !! r = Some d ↔ r = def_root_domain ∧ d = mk_rd 5 15 15.
Proof.
  assert (root_domains rooted = ({[ def_root_domain := mk_rd 5 15 15 ]} : gmap Z root_domain)) as -> by done.
  rewrite lookup_singleton_Some. naive_solver.
Qed.

Lemma rooted_ok : partition_ok sample_doms rooted.
Proof.
  assert (∀ r d, root_domains rooted !! r = Some d → r = def_root_domain ∧ d = mk_rd 5 15 15) as Hs.
  { intros r d Hr%rooted_doms. naive_solver. }
  split; [|by eexists|intros c Hc; by rewrite (proj1 (rooted_att c Hc))|by split; [|intros c Hc _; apply rooted_att]|done|done].
  split; [|intros c Hc E; destruct (rooted_att c Hc) as [E' _]; unfold att_of in E'; by rewrite E' in E|done]. split.
  - intros r d [-> ->]%Hs. by vm_compute.
  - intros r d c [-> ->]%Hs. simpl. rewrite testbit_15. pose proof (rooted_att c). unfold att_of in *. naive_solver.
  - intros r d c [-> ->]%Hs. simpl. rewrite testbit_15. pose proof (rooted_att c). unfold att_of in *. naive_solver.
  - intros c Hc _. rewrite (proj1 (rooted_att c Hc : rd (cpu_rq rooted c) = _ ∧ _)). by eexists.
  - done.
Qed.

End domains_examples.
