(* ===== verification/Boot.v ===== *)
(** * Initialisation and CPU hotplug of kernel/sched_bfs.c

    [sched_init], [sched_init_smp] and the notifiers of CPU hotplug.  The theorems:
    the initial state satisfies the invariant of the run queue and of the root
    domains, and the cache distances follow from the scheduling domains.

    [boot] is the CPU that boots and [cur] the task it runs; [init_mm] is the address
    space of the kernel, [mem i] the array [kmalloc] returned for CPU [i]. *)

From S2P Require Export Domains.
From S2P Require Import Injector.

(** The [enum sched_domain_level], lines 7035-7044. *)
Definition SD_LV_SIBLING : Z := 1.
Definition SD_LV_MC : Z := 2.
Definition SD_LV_NODE : Z := 5.

Definition CPU_ONLINE : Z := 0x0002.
Definition CPU_UP_PREPARE : Z := 0x0003.
Definition CPU_DOWN_PREPARE : Z := 0x0005.
Definition CPU_DOWN_FAILED : Z := 0x0006.
Definition CPU_DEAD : Z := 0x0007.
Definition CPU_DYING : Z := 0x0008.
Definition CPU_TASKS_FROZEN : Z := 0x0010.
Definition NOTIFY_DONE : Z := 0x0000.
Definition NOTIFY_OK : Z := 0x0001.
Definition NOTIFY_BAD : Z := 0x8002.

Section boot.
Context `{Config} `{PolicyEnv} `{AffinityEnv} `{Topology}.

(** ** sched_init *)
(** The first loop over the CPUs. *)
Definition init_rq (i : Z) (s : sched) : sched :=
  let s := upd_rq i (λ r, r <| idle_pc := 0 |> <| iowait_pc := 0 |> <| system_pc := 0 |> <| softirq_pc := 0 |>
                            <| nice_pc := 0 |> <| user_pc := 0 |> <| dither := false |>) s in
  let s := upd_rq i (λ r, r <| sticky_task := NULL |> <| last_niffy := 0 |> <| sd := [] |> <| rd := NULL |>
                            <| online := false |>) s in
  let s := rq_attach_root i def_root_domain s in
  upd_rq i (λ r, r <| nr_iowait := 0 |>) s.

(** The second loop: no siblings, every other CPU distant. *)
Definition init_locality (mem : Z → list Z) (i : Z) (s : sched) : sched :=
  let s := if CONFIG_SCHED_SMT
           then upd_rq i (λ r, r <| smt_siblings := Z.setbit 0 i |> <| siblings_idle := SoleCpuIdle |>) s else s in
  let s := if CONFIG_SCHED_MC
           then upd_rq i (λ r, r <| cache_siblings := Z.setbit 0 i |> <| cache_idle := SoleCpuIdle |>) s else s in
  let locality := foldl (λ l j, <[Z.to_nat j := if i =? j then 0 else 4]> l) (mem i) (cpus_in cpu_possible_mask) in
  upd_rq i (λ r, r <| cpu_locality := locality |>) s.

Definition sched_init (parts : list bool) (mem : Z → list Z) (boot cur init_mm : Z) (s : sched) : sched :=
  let s := s <| prio_ratios := init_prio_ratios (Z.to_nat PRIO_RANGE) |> in
  let s := upd_grq (λ g, g <| nr_switches := 0 |> <| nr_uninterruptible := 0 |> <| nr_running := 0 |> <| niffies := 0 |>
                           <| last_jiffy := jiffies s |> <| iso_refractory := false |> <| iso_ticks := 0 |> <| noc := 1 |>) s in
  let s := init_defrootdomain parts s in
  let s := upd_grq (λ g, g <| idle_cpus := false |> <| qnr := 0 |> <| cpu_idle_map := 0 |>) s in
  let s := foldl (λ s i, init_rq i s) s (cpus_in cpu_possible_mask) in
  let s := foldl (λ s i, init_locality mem i s) s (cpus_in cpu_possible_mask) in
  let s := foldl (λ s i, upd_grq (λ g, g <| queue ::= <[i := []]> |>) s) s (seqZ 0 PRIO_LIMIT) in
  let s := upd_grq (λ g, g <| prio_bitmap ::= __set_bit PRIO_LIMIT |>) s in
  let s := mm_add init_mm 1 s in
  init_idle cur boot s.

(** ** sched_init_smp *)
Definition domain_locality (level : Z) : option Z :=
  if level <=? SD_LV_SIBLING then Some 1
  else if level <=? SD_LV_MC then Some 2
  else if level <=? SD_LV_NODE then Some 3
  else None.

Definition set_locality (locality : Z) (l : list Z) (other_cpu : Z) : list Z :=
  if locality <? l !!! Z.to_nat other_cpu then <[Z.to_nat other_cpu := locality]> l else l.

(** The body of the loop over the domains of a CPU. *)
Definition note_domain (r : rq) (d : sched_domain) : rq :=
  let span := cpus_in (sd_span d) in
  let r := if CONFIG_SCHED_SMT && (sd_level d =? SD_LV_SIBLING)
           then r <| smt_siblings ::= λ m, foldl Z.setbit m span |> else r in
  let r := if CONFIG_SCHED_MC && (sd_level d =? SD_LV_MC)
           then r <| cache_siblings ::= λ m, foldl Z.setbit m span |> else r in
  match domain_locality (sd_level d) with
  | Some locality => r <| cpu_locality ::= λ l, foldl (set_locality locality) l span |>
  | None => r
  end.

Definition note_domains (cpu : Z) (s : sched) : sched :=
  upd_rq cpu (λ r,
    let r := foldl note_domain r (sd r) in
    let r := if CONFIG_SCHED_SMT && (1 <? cpumask_weight (smt_siblings r)) then r <| siblings_idle := SiblingsCpuIdle |> else r in
    if CONFIG_SCHED_MC && (1 <? cpumask_weight (cache_siblings r)) then r <| cache_idle := CacheCpuIdle |> else r) s.

(** [BUG()] if the initial task cannot be moved. *)
Definition sched_init_smp (a : allocs) (me : Z) (d : doms) (s : sched) : outcome (doms * sched) :=
  let '(_, d, s) := init_sched_domains a (cpu_active_mask s) d s in
  let non_isolated_cpus := Z.ldiff cpu_possible_mask (cpu_isolated_map d) in
  let non_isolated_cpus := if cpus_empty non_isolated_cpus then Z.setbit non_isolated_cpus me else non_isolated_cpus in
  let '(ret, _, s) := set_cpus_allowed_ptr me (curr (cpu_rq s me)) non_isolated_cpus s in
  if ret <? 0 then Oops
  else Done (d, foldl (λ s cpu, note_domains cpu s) s (cpus_in (cpu_online_map s))).

(** ** CPU hotplug *)
Definition num_online_cpus (s : sched) : Z := cpumask_weight (cpu_online_map s).

Definition migration_call (threads : list Z) (me action cpu : Z) (s : sched) : outcome (Z * sched) :=
  let action := Z.ldiff action CPU_TASKS_FROZEN in
  let r := rd (cpu_rq s cpu) in
  let bug s := negb (r =? NULL) && negb (cpu_isset cpu (rd_span (root_domains s !!! r))) in
  let idl := idle (cpu_rq s cpu) in
  if action =? CPU_ONLINE then
    if bug s then Oops
    else
      let s := if negb (r =? NULL) then set_rq_online cpu s else s in
      Done (NOTIFY_OK, upd_grq (λ g, g <| noc := num_online_cpus s |>) s)
  else if action =? CPU_DEAD then
    let s := return_task idl true s in
    let s := upd_task idl (λ t, t <| static_prio := MAX_PRIO |>) s in
    let s := __setscheduler me idl cpu SCHED_NORMAL 0 s in
    let s := upd_task idl (λ t, t <| prio := PRIO_LIMIT |>) s in
    let s := set_rq_task cpu idl s in
    Done (NOTIFY_OK, update_clocks cpu s)
  else if action =? CPU_DYING then
    match sched_idle_next me cpu idl s with
    | Oops => Oops
    | Done s =>
        if bug s then Oops
        else
          let s := if negb (r =? NULL) then set_rq_offline cpu s else s in
          let s := break_sole_affinity threads idl s in
          Done (NOTIFY_OK, upd_grq (λ g, g <| noc := num_online_cpus s |>) s)
    end
  else Done (NOTIFY_OK, s).

Definition set_cpu_active (cpu : Z) (active : bool) (s : sched) : sched :=
  s <| cpu_active_mask ::= λ m, if active then Z.setbit m cpu else Z.clearbit m cpu |>.
Definition sched_cpu_active (action cpu : Z) (s : sched) : Z * sched :=
  let action := Z.ldiff action CPU_TASKS_FROZEN in
  if (action =? CPU_ONLINE) || (action =? CPU_DOWN_FAILED) then (NOTIFY_OK, set_cpu_active cpu true s)
  else (NOTIFY_DONE, s).
Definition sched_cpu_inactive (action cpu : Z) (s : sched) : Z * sched :=
  let action := Z.ldiff action CPU_TASKS_FROZEN in
  if action =? CPU_DOWN_PREPARE then (NOTIFY_OK, set_cpu_active cpu false s) else (NOTIFY_DONE, s).

Definition migration_init (threads : list Z) (me : Z) (s : sched) : outcome sched :=
  match migration_call threads me CPU_UP_PREPARE me s with
  | Oops => Oops
  | Done (err, s) =>
      if err =? NOTIFY_BAD then Oops
      else match migration_call threads me CPU_ONLINE me s with Oops => Oops | Done (_, s) => Done s end
  end.

(** [update] is [cpuset_update_active_cpus] of kernel/cpuset.c. *)
Definition cpuset_cpu_active (update : doms * sched → doms * sched) (action : Z) (ds : doms * sched) : Z * (doms * sched) :=
  let action := Z.ldiff action CPU_TASKS_FROZEN in
  if (action =? CPU_ONLINE) || (action =? CPU_DOWN_FAILED) then (NOTIFY_OK, update ds) else (NOTIFY_DONE, ds).
Definition cpuset_cpu_inactive (update : doms * sched → doms * sched) (action : Z) (ds : doms * sched) : Z * (doms * sched) :=
  let action := Z.ldiff action CPU_TASKS_FROZEN in
  if action =? CPU_DOWN_PREPARE then (NOTIFY_OK, update ds) else (NOTIFY_DONE, ds).
End boot.

(** ** The initial state *)
Section initial.
Context `{Config} `{PolicyEnv} `{AffinityEnv} `{Topology}.
Implicit Types s : sched.

(** What setting up run queues and root domains leaves alone. *)
Record aside s s' : Prop := {
  as_tasks : tasks s' = tasks s;
  as_grq : grq s' = grq s;
  as_cview : ∀ c, cview (cpu_rq s' c) = cview (cpu_rq s c);
  as_ratios : prio_ratios s' = prio_ratios s;
}.
#[local] Instance aside_preorder : PreOrder aside.
Proof. split; [by split|]. intros s1 s2 s3 [A B C D] [A' B' C' D']. split; intros; [by rewrite A'|by rewrite B'|by rewrite C'|by rewrite D']. Qed.

Lemma aside_rq s s1 c f : (∀ r, cview (f r) = cview r) → aside s s1 → aside s (upd_rq c f s1).
Proof. intros Hf [A B C D]. split; [done|done| |done]. intros x. rewrite <- C. by apply (rq_upd_proj cview). Qed.
Lemma aside_rd s s1 m : aside s s1 → aside s (s1 <| root_domains ::= m |>).
Proof. intros [A B C D]. by split. Qed.
Lemma aside_if (b : bool) s s1 s2 : aside s s1 → aside s s2 → aside s (if b then s1 else s2).
Proof. by destruct b. Qed.
Lemma aside_foldl (f : sched → Z → sched) js s s1 :
  (∀ s1 i, aside s s1 → aside s (f s1 i)) → aside s s1 → aside s (foldl f s1 js).
Proof. intros Hf. revert s1. induction js as [|i js IH]; intros s1 Hs; [done|]. apply IH, Hf, Hs. Qed.

Lemma aside_online s s1 c : aside s s1 → aside s (set_rq_online c s1).
Proof. intros Hs. unfold set_rq_online. apply aside_if; [|done]. by apply aside_rq, aside_rd. Qed.
Lemma aside_offline s s1 c : aside s s1 → aside s (set_rq_offline c s1).
Proof. intros Hs. unfold set_rq_offline. apply aside_if; [|done]. by apply aside_rq, aside_rd. Qed.
Lemma aside_attach s s1 c r : aside s s1 → aside s (rq_attach_root c r s1).
Proof.
  intros Hs. rewrite rq_attach_root_alt.
  assert (aside s (leave_root c s1).2) as Hl.
  { unfold leave_root. cbv zeta. destruct (negb _); [|done]. do 2 apply aside_rd. apply aside_if; [by apply aside_offline|done]. }
  destruct (leave_root c s1) as [old s2]. cbn [snd] in Hl. assert (aside s (join_root c r s2)) as Hj.
  { unfold join_root. cbv zeta.
    assert (aside s (upd_rd r (λ d, d <| rd_span ::= λ m, Z.setbit m c |>) (upd_rq c (λ q, q <| rd := r |>)
      (upd_rd r (λ d, d <| rd_refcount ::= λ n, s32 (n + 1) |>) s2)))) as Hx by (by apply aside_rd, aside_rq, aside_rd).
    apply aside_if; [by apply aside_online|done]. }
  apply aside_if; [by apply aside_rd|done].
Qed.
Lemma aside_init_rq s s1 i : aside s s1 → aside s (init_rq i s1).
Proof. intros Hs. unfold init_rq. cbv zeta. by apply aside_rq, aside_attach, aside_rq, aside_rq. Qed.
Lemma aside_init_locality mem s s1 i : aside s s1 → aside s (init_locality mem i s1).
Proof. intros Hs. unfold init_locality. cbv zeta. apply aside_rq; [done|]. repeat (apply aside_if; [apply aside_rq; [done|]|]); try done; apply aside_if; try done; by apply aside_rq. Qed.

(** The idle task of a CPU. *)
Lemma init_idle_effect idl cpu s :
  let s' := init_idle idl cpu s in
  gview (grq s') = gview (grq s) ∧
  (∀ c, cview (cpu_rq s' c) = if decide (c = cpu) then (idl, idl) else cview (cpu_rq s c)) ∧
  (∀ p, on_cpu (task s' p) = if decide (p = idl) then true else on_cpu (task s p)).
Proof.
  unfold init_idle. cbv zeta. set (s1 := update_clocks cpu s).
  assert (same_core s s1) as Hs1 by (subst s1; frame). clearbody s1.
  set (s2 := upd_task idl _ s1).
  assert (∀ p, on_cpu (task s2 p) = on_cpu (task s p)) as Ho2.
  { intros p. unfold s2. rewrite (task_upd_proj on_cpu) by done. apply (core_tasks_eq _ _ _ Hs1). }
  set (s3 := set_task_cpu idl cpu (do_set_cpus_allowed idl (Z.shiftl 1 cpu) (set_rq_task cpu idl s2))).
  assert (same_core s2 s3) as Hs3 by (subst s3; frame).
  assert (∀ p, on_cpu (task s3 p) = on_cpu (task s p)) as Ho3 by (intros; by rewrite <- Ho2; apply (core_tasks_eq _ _ _ Hs3)).
  assert (∀ c, cview (cpu_rq s3 c) = cview (cpu_rq s c)) as Hc3.
  { intros c. rewrite (sc_cpu _ _ Hs3). apply (sc_cpu _ _ Hs1). }
  assert (gview (grq s3) = gview (grq s)) as Hg3 by (rewrite (sc_grq _ _ Hs3); apply (sc_grq _ _ Hs1)).
  clearbody s3. split_and!; [done| |].
  - intros c. change (cview (cpu_rq (upd_rq cpu (λ r, r <| idle := idl |> <| curr := idl |>) s3) c) =
      if decide (c = cpu) then (idl, idl) else cview (cpu_rq s c)).
    rewrite cpu_rq_upd_rq, <- Hc3. repeat case_decide; by subst.
  - intros p. rewrite (task_upd_proj on_cpu) by done. rewrite task_upd_task. repeat case_decide; subst; try done. apply Ho3.
Qed.

(** The CPUs get their idle tasks one after the other. *)
Definition start_cpus (l : list (Z * Z)) (s : sched) : sched := foldl (λ s ci, init_idle ci.2 ci.1 s) s l.

Lemma start_cpus_effect l s :
  NoDup l.*1 →
  let s' := start_cpus l s in
  gview (grq s') = gview (grq s) ∧
  (∀ c i, (c, i) ∈ l → cview (cpu_rq s' c) = (i, i)) ∧
  (∀ p, on_cpu (task s' p) = true ↔ p ∈ l.*2 ∨ on_cpu (task s p) = true).
Proof.
  unfold start_cpus. induction l as [|[c i] l IH] using rev_ind; intros Hnd; cbv zeta.
  { split_and!; [done|by intros c i ?%elem_of_nil|]. intros p. simpl. rewrite elem_of_nil. tauto. }
  rewrite fmap_app in Hnd. apply NoDup_app in Hnd as (Hnd & Hdis & _). destruct (IH Hnd) as (Hg & Hcv & Hon).
  rewrite foldl_app. cbn [foldl fst snd]. destruct (init_idle_effect i c (foldl (λ s ci, init_idle ci.2 ci.1 s) s l)) as (Hg' & Hcv' & Hon').
  split_and!.
  - by rewrite Hg'.
  - intros c' i' [Hl|[= -> ->]%list_elem_of_singleton]%elem_of_app; rewrite Hcv'.
    + destruct (decide (c' = c)) as [->|]; [|by apply Hcv]. destruct (Hdis c); [by apply (list_elem_of_fmap_2 fst) in Hl|by left].
    + by rewrite decide_True.
  - intros p. rewrite Hon', fmap_app, elem_of_app. destruct (decide (p = i)) as [->|Hpi].
    + split; [intros _; left; right; by left|done].
    + rewrite Hon. simpl. rewrite list_elem_of_singleton. tauto.
Qed.

(** What leaves the root domains alone. *)
Definition rdview (r : rq) : Z * bool * list sched_domain := (rd r, online r, sd r).
Record same_rd s s' : Prop := {
  sr_view : ∀ c, rdview (cpu_rq s' c) = rdview (cpu_rq s c);
  sr_doms : root_domains s' = root_domains s;
}.
Lemma rdv_refl s : same_rd s s.
Proof. by split. Qed.
Lemma rdv_rq s s1 c f : (∀ r, rdview (f r) = rdview r) → same_rd s s1 → same_rd s (upd_rq c f s1).
Proof. intros Hf [A B]. split; [|done]. intros x. rewrite <- A. by apply (rq_upd_proj rdview). Qed.
Lemma rdv_task s s1 p f : same_rd s s1 → same_rd s (upd_task p f s1).
Proof. intros [A B]. by split. Qed.
Lemma rdv_grq s s1 f : same_rd s s1 → same_rd s (upd_grq f s1).
Proof. intros [A B]. by split. Qed.
Lemma rdv_if (b : bool) s s1 s2 : same_rd s s1 → same_rd s s2 → same_rd s (if b then s1 else s2).
Proof. by destruct b. Qed.
Lemma rdv_foldl {A} (f : sched → A → sched) js s s1 :
  (∀ s1 i, same_rd s s1 → same_rd s (f s1 i)) → same_rd s s1 → same_rd s (foldl f s1 js).
Proof. intros Hf. revert s1. induction js as [|i js IH]; intros s1 Hs; [done|]. apply IH, Hf, Hs. Qed.

Ltac rdv :=
  repeat lazymatch goal with
  | |- same_rd _ (upd_task _ _ _) => apply rdv_task
  | |- same_rd _ (upd_grq _ _) => apply rdv_grq
  | |- same_rd _ (upd_rq _ _ _) => apply rdv_rq; [intros; reflexivity|]
  end.
Lemma rdv_clocks s s1 cpu : same_rd s s1 → same_rd s (update_clocks cpu s1).
Proof. intros Hs. unfold update_clocks, update_rq_clock, update_rq_clock_task. cbv zeta. rdv. exact Hs. Qed.
Lemma rdv_init_idle s s1 idl cpu : same_rd s s1 → same_rd s (init_idle idl cpu s1).
Proof.
  intros Hs. unfold init_idle, set_rq_task, do_set_cpus_allowed, set_task_cpu. cbv zeta.
  rdv. apply rdv_clocks, Hs.
Qed.
Lemma rdv_init_locality mem s s1 i : same_rd s s1 → same_rd s (init_locality mem i s1).
Proof.
  intros Hs. unfold init_locality. cbv zeta. apply rdv_rq; [done|].
  destruct CONFIG_SCHED_SMT, CONFIG_SCHED_MC; repeat (apply rdv_rq; [done|]); done.
Qed.
Lemma rdv_mm s s1 m d : same_rd s s1 → same_rd s (mm_add m d s1).
Proof. intros [A B]. by split. Qed.

Lemma same_rd_ok s s' : same_rd s s' → rd_ok s → rd_ok s'.
Proof.
  intros [A B] Hok.
  assert (∀ c, rd (cpu_rq s' c) = rd (cpu_rq s c) ∧ online (cpu_rq s' c) = online (cpu_rq s c)) as E.
  { intros c. specialize (A c). by injection A as -> -> _. }
  apply (rd_ok_of s); [done|apply E|intros c Hc Hn; rewrite (proj2 (E c)); by apply (ro_off _ Hok)|].
  rewrite B. eapply rd_inv_ext; [done|intros c; symmetry; apply E|apply Hok].
Qed.

(** The first loop of [sched_init] attaches every CPU to the default root domain. *)
Lemma rq_attach_root_active c r s : cpu_active_mask (rq_attach_root c r s) = cpu_active_mask s.
Proof. apply (cpu_attach_domain_active ∅ [] r c s). Qed.

Lemma init_rq_ok i s :
  rd_ok s → live s def_root_domain → i ∈ cpus → att_of s i = NULL → online (cpu_rq s i) = false →
  let s' := init_rq i s in
  rd_ok s' ∧ live s' def_root_domain ∧ cpu_active_mask s' = cpu_active_mask s ∧
  (∀ c, att_of s' c = set_att (att_of s) i def_root_domain c) ∧
  (∀ c, online (cpu_rq s' c) = set_on (λ c, online (cpu_rq s c)) i (cpu_isset i (cpu_active_mask s)) c).
Proof.
  intros Hok Hdef Hi Hn Ho. unfold init_rq. cbv zeta. set (s1 := upd_rq i _ (upd_rq i _ s)).
  assert (∀ c, rd (cpu_rq s1 c) = rd (cpu_rq s c) ∧ online (cpu_rq s1 c) = online (cpu_rq s c)) as E1.
  { intros c. unfold s1, att_of in *. rewrite !cpu_rq_upd_rq. destruct (decide (i = c)) as [<-|]; [|done].
    rewrite !decide_True by done. simpl. by rewrite Hn, Ho. }
  assert (rd_ok s1) as Hok1.
  { apply (rd_ok_of s); [done|apply E1|intros c Hc Hc'; rewrite (proj2 (E1 c)); by apply (ro_off _ Hok)|].
    eapply rd_inv_ext; [done|intros c; symmetry; apply E1|apply Hok]. }
  destruct (rq_attach_root_ok s1 i def_root_domain Hok1 Hi Hdef) as (Hok2 & Er & Eo & Eox & Hl); [done|].
  pose proof (rq_attach_root_active i def_root_domain s1) as Ea. change (cpu_active_mask s1) with (cpu_active_mask s) in *. cbv zeta in *.
  assert (live (rq_attach_root i def_root_domain s1) def_root_domain) as Hl2 by (apply Hl; split; [exact Hdef|naive_solver]).
  revert Hok2 Er Eo Eox Hl2 Ea. generalize (rq_attach_root i def_root_domain s1). intros s2 Hok2 Er Eo Eox Hl2 Ea. clear Hl.
  set (s3 := upd_rq i _ s2). assert (same_rd s2 s3) as Hs by (apply rdv_rq, rdv_refl; done).
  assert (∀ c, rd (cpu_rq s3 c) = rd (cpu_rq s2 c) ∧ online (cpu_rq s3 c) = online (cpu_rq s2 c)) as E3.
  { intros c. pose proof (sr_view _ _ Hs c) as E. by injection E as -> -> _. }
  split_and!; [by eapply same_rd_ok|done|done| |].
  - intros c. unfold att_of. rewrite (proj1 (E3 c)), Er. unfold set_att. destruct (decide (c = i)); [done|apply E1].
  - intros c. rewrite (proj2 (E3 c)). unfold set_on. destruct (decide (c = i)) as [->|]; [done|]. rewrite Eox by done. apply E1.
Qed.

Lemma init_rqs_ok js s :
  rd_ok s → live s def_root_domain → (∀ c, c ∈ js → c ∈ cpus) → NoDup js →
  (∀ c, c ∈ js → att_of s c = NULL ∧ online (cpu_rq s c) = false) →
  let s' := foldl (λ s i, init_rq i s) s js in
  rd_ok s' ∧ live s' def_root_domain ∧
  (∀ c, c ∈ js → att_of s' c = def_root_domain ∧ online (cpu_rq s' c) = cpu_isset c (cpu_active_mask s)) ∧
  (∀ c, c ∉ js → att_of s' c = att_of s c ∧ online (cpu_rq s' c) = online (cpu_rq s c)).
Proof.
  revert s. induction js as [|i js IH]; intros s Hok Hdef Hin Hnd Hnull; cbv zeta; cbn [foldl].
  { split_and!; try done. by intros c ?%elem_of_nil. }
  apply NoDup_cons in Hnd as [Hi Hnd]. destruct (Hnull i) as [Hni Hoi]; [by left|].
  destruct (init_rq_ok i s Hok Hdef (Hin i ltac:(by left)) Hni Hoi) as (Hok1 & Hdef1 & Ea & Er & Eo). cbv zeta in *.
  assert (∀ c, c ≠ i → att_of (init_rq i s) c = att_of s c ∧ online (cpu_rq (init_rq i s) c) = online (cpu_rq s c)) as Hne.
  { intros c Hc. rewrite Er, Eo. unfold set_att, set_on. by rewrite !decide_False. }
  assert (att_of (init_rq i s) i = def_root_domain ∧ online (cpu_rq (init_rq i s) i) = cpu_isset i (cpu_active_mask s)) as Heq.
  { rewrite Er, Eo. unfold set_att, set_on. by rewrite !decide_True. }
  revert Hok1 Hdef1 Ea Hne Heq. clear Er Eo. generalize (init_rq i s). intros s1 Hok1 Hdef1 Ea Hne Heq.
  destruct (IH s1) as (Hok' & Hdef' & Hjs & Hno); [done|done|intros; apply Hin; by right|done| |].
  { intros c Hc. destruct (Hne c) as [-> ->]; [by intros ->|]. apply Hnull. by right. }
  split_and!; [done|done| |].
  - intros c [->|Hc]%elem_of_cons; [destruct (Hno i Hi) as [-> ->]; done|]. rewrite <- Ea. by apply Hjs.
  - intros c [Hc Hcj]%not_elem_of_cons. destruct (Hno c Hcj) as [-> ->]. by apply Hne.
Qed.

(** The static data of the kernel image: nothing runs or is queued, no bit of the bitmap
    is set, and no run queue has a root domain. *)
Record boot_state s : Prop := {
  bs_tasks : ∀ p, on_cpu (task s p) = false;
  bs_queue : ∀ i, queue_of s i = [];
  bs_words : words_ok (prio_bitmap (grq s)) ∧ PRIO_LIMIT < 64 * Z.of_nat (length (prio_bitmap (grq s)));
  bs_bits : ∀ i, 0 ≤ i < PRIO_LIMIT → bit i (prio_bitmap (grq s)) = false;
  bs_rd : ∀ c, att_of s c = NULL ∧ online (cpu_rq s c) = false;
  bs_doms : root_domains s = ∅;
}.

Lemma init_queues js s :
  (∀ i, queue_of s i = []) →
  let s' := foldl (λ s i, upd_grq (λ g, g <| queue ::= <[i := []]> |>) s) s js in
  ∃ q, s' = s <| grq ::= λ g, g <| queue := q |> |> ∧ ∀ i, q !!! i = [].
Proof.
  revert s. induction js as [|j js IH]; intros s Hq; cbv zeta; cbn [foldl].
  { exists (queue (grq s)). split; [by destruct s as [? ? []]|done]. }
  destruct (IH (upd_grq (λ g, g <| queue ::= <[j := []]> |>) s)) as (q & E & Hq').
  { intros i. change (<[j := []]> (queue (grq s)) !!! i = []). rewrite lookup_total_insert. case_decide; [done|apply Hq]. }
  exists q. by rewrite E.
Qed.

Lemma init_defrootdomain_alt parts s :
  init_defrootdomain parts s = s <| root_domains ::= <[def_root_domain := mk_rd 1 0 0]> |>.
Proof.
  assert (∀ m : gmap Z root_domain, mem_upd (<[def_root_domain := mk_rd 0 0 0]> m) def_root_domain (λ d, d <| rd_refcount := 1 |>) =
    <[def_root_domain := mk_rd 1 0 0]> m) as Em.
  { intros m. unfold mem_upd. by rewrite lookup_total_insert_eq, insert_insert_eq. }
  unfold init_defrootdomain, init_rootdomain. destruct (forallb id parts);
    change (s <| root_domains := mem_upd (<[def_root_domain := mk_rd 0 0 0]> (root_domains s)) def_root_domain (λ d, d <| rd_refcount := 1 |>) |> =
      s <| root_domains := <[def_root_domain := mk_rd 1 0 0]> (root_domains s) |>); by rewrite Em.
Qed.

Lemma inv_initial : rd_inv (λ _, NULL) (λ _, false) {[ def_root_domain := mk_rd 1 0 0 ]}.
Proof.
  assert (∀ r d, ({[ def_root_domain := mk_rd 1 0 0 ]} : gmap Z root_domain) !! r = Some d → r = def_root_domain ∧ d = mk_rd 1 0 0) as Hs.
  { intros r d [<- <-]%lookup_singleton_Some. done. }
  assert (members (λ _, NULL) def_root_domain = 0) as Hm.
  { unfold members. by induction cpus. }
  split; [intros r d [-> ->]%Hs|intros r d c [-> ->]%Hs|intros r d c [-> ->]%Hs|done|done]; [by rewrite Hm|..]; simpl;
    rewrite Z.bits_0; naive_solver.
Qed.

(** The state when [sched_init] makes its caller the idle task. *)
Lemma sched_init_before parts mem boot cur init_mm s :
  boot_state s → 0 < nr_cpu_ids ≤ 4096 → cpus_in cpu_possible_mask = cpus →
  ∃ s1, sched_init parts mem boot cur init_mm s = init_idle cur boot s1 ∧
    (∀ p, on_cpu (task s1 p) = false) ∧ (∀ i, queue_of s1 i = []) ∧ ratios_ok s1 ∧
    (let '(_, bm, q, n, m, b) := gview (grq s1) in
     bm = __set_bit PRIO_LIMIT (prio_bitmap (grq s)) ∧ q = 0 ∧ n = 0 ∧ m = 0 ∧ b = false) ∧
    rd_ok s1 ∧ live s1 def_root_domain ∧
    (∀ c, c ∈ cpus → att_of s1 c = def_root_domain ∧ online (cpu_rq s1 c) = cpu_isset c (cpu_active_mask s)).
Proof.
  intros [Ht Hq Hw Hb Hrd Hd] Hn Hcpus. unfold sched_init. cbv zeta. rewrite Hcpus.
  rewrite init_defrootdomain_alt. set (s1 := upd_grq _ (_ <| root_domains ::= _ |>)).
  assert (root_domains s1 = {[ def_root_domain := mk_rd 1 0 0 ]}) as Ed.
  { change (root_domains s1) with (<[def_root_domain := mk_rd 1 0 0]> (root_domains s)). by rewrite Hd. }
  assert (live s1 def_root_domain) as Hl1 by (unfold live; by rewrite Ed, lookup_singleton_eq).
  assert (rd_ok s1) as Hok1.
  { split; [|intros c _ _; exact (proj2 (Hrd c))|done]. rewrite Ed.
    apply (rd_inv_ext (λ _, NULL) _ (λ _, false)); [intros c; symmetry; exact (proj1 (Hrd c))|intros c; symmetry; exact (proj2 (Hrd c))|apply inv_initial]. }
  destruct (init_rqs_ok cpus s1 Hok1 Hl1) as (Hok2 & Hl2 & Hall & _); [done|apply NoDup_seqZ|intros c _; exact (Hrd c)|].
  cbv zeta in *. set (s2 := foldl (λ s i, init_rq i s) s1 cpus) in *.
  assert (aside s1 s2) as As2 by (apply aside_foldl; [intros; by apply aside_init_rq|done]).
  set (s3 := foldl (λ s i, init_locality mem i s) s2 cpus).
  assert (aside s1 s3) as [At Ag Acv Ar] by (apply aside_foldl; [intros; by apply aside_init_locality|done]).
  assert (same_rd s2 s3) as Rs3 by (apply rdv_foldl; [intros; by apply rdv_init_locality|apply rdv_refl]).
  destruct (init_queues (seqZ 0 PRIO_LIMIT) s3) as (q & Eq & Hq').
  { intros i. unfold queue_of. rewrite Ag. apply Hq. }
  cbv zeta in Eq. rewrite Eq. eexists. split; [reflexivity|].
  set (s4 := mm_add init_mm 1 _). assert (same_rd s2 s4) as Rs4 by (destruct Rs3; by split).
  assert (∀ c, rd (cpu_rq s4 c) = rd (cpu_rq s2 c) ∧ online (cpu_rq s4 c) = online (cpu_rq s2 c)) as E4.
  { intros c. pose proof (sr_view _ _ Rs4 c) as E. by injection E as -> -> _. }
  split_and!.
  - intros p. unfold task. change (tasks s4) with (tasks s3). rewrite At. apply Ht.
  - intros i. apply Hq'.
  - unfold ratios_ok. change (prio_ratios s4) with (prio_ratios s3). rewrite Ar.
    change 40%nat with (Z.to_nat PRIO_RANGE). reflexivity.
  - unfold gview. change (prio_bitmap (grq s4)) with (__set_bit PRIO_LIMIT (prio_bitmap (grq s3))).
    change (qnr (grq s4)) with (qnr (grq s3)). change (nr_running (grq s4)) with (nr_running (grq s3)).
    change (cpu_idle_map (grq s4)) with (cpu_idle_map (grq s3)). change (idle_cpus (grq s4)) with (idle_cpus (grq s3)).
    by rewrite Ag.
  - by eapply same_rd_ok.
  - unfold live. by rewrite (sr_doms _ _ Rs4).
  - intros c Hc. destruct (Hall c Hc) as [E1 E2]. unfold att_of in *. by rewrite (proj1 (E4 c)), (proj2 (E4 c)).
Qed.

Lemma NoDup_snd_inj (l : list (Z * Z)) c d i : NoDup l.*2 → (c, i) ∈ l → (d, i) ∈ l → c = d.
Proof.
  intros Hnd [n Hn]%list_elem_of_lookup [m Hm]%list_elem_of_lookup.
  assert (n = m) as -> by (eapply (NoDup_lookup l.*2); [done|by rewrite list_lookup_fmap, Hn|by rewrite list_lookup_fmap, Hm]).
  congruence.
Qed.

(** All CPUs running their idle tasks and no task queued is a consistent state. *)
Lemma all_idle_ok s (l : list (Z * Z)) :
  0 < nr_cpu_ids ≤ 4096 → l.*1 ≡ₚ cpus → NoDup l.*2 → (∀ p, p ∈ l.*2 → valid_task p) →
  (∀ c i, (c, i) ∈ l → cview (cpu_rq s c) = (i, i)) → (∀ p, on_cpu (task s p) = true ↔ p ∈ l.*2) →
  (∀ i, queue_of s i = []) → words_ok (prio_bitmap (grq s)) ∧ PRIO_LIMIT < 64 * Z.of_nat (length (prio_bitmap (grq s))) →
  (∀ i, 0 ≤ i < PRIO_LIMIT → bit i (prio_bitmap (grq s)) = false) →
  qnr (grq s) = 0 → nr_running (grq s) = 0 → cpu_idle_map (grq s) = 0 → idle_cpus (grq s) = false →
  runqueue_ok s.
Proof.
  intros Hn Hp Hnd Hv Hcv Hon Hq Hw Hb Eq En Em Ei.
  assert (∀ c, c ∈ cpus → ∃ i, (c, i) ∈ l ∧ curr (cpu_rq s c) = i ∧ idle (cpu_rq s c) = i) as Hc.
  { intros c Hc. rewrite <- Hp in Hc. apply list_elem_of_fmap in Hc as ([c' i] & -> & Hl). exists i.
    pose proof (Hcv _ _ Hl) as E. injection E as E1 E2. done. }
  assert (∀ c i, (c, i) ∈ l → c ∈ cpus) as Hl by (intros c i Hci; rewrite <- Hp; by apply (list_elem_of_fmap_2 fst) in Hci).
  assert (∀ p, ¬ queued s p) as Hnq by (intros p [i Hi]; by rewrite Hq, elem_of_nil in Hi).
  assert (queued_count s = 0) as Hqc.
  { unfold queued_count, queued_list. induction (seqZ 0 PRIO_LIMIT) as [|i js IH]; [done|]. rewrite fmap_cons. cbn [concat]. by rewrite Hq. }
  assert (busy_count s = 0) as Hbc.
  { unfold busy_count, busy_cpus. destruct (filter _ cpus) as [|c cs] eqn:E; [done|].
    assert (c ∈ filter (λ c, curr (cpu_rq s c) ≠ idle (cpu_rq s c)) cpus) as Hf by (rewrite E; by left).
    apply list_elem_of_filter in Hf as [Hne Hcc]. destruct (Hc c Hcc) as (i & _ & ? & ?). congruence. }
  split; [split| |naive_solver|lia|lia| |done].
  - done.
  - intros i Hi. by rewrite Hb, Hq by done.
  - intros i p. by rewrite Hq, elem_of_nil.
  - intros i p. by rewrite Hq, elem_of_nil.
  - intros i. rewrite Hq. apply NoDup_nil_2.
  - split.
    + intros p. rewrite Hon. split.
      * intros ([c i] & -> & Hci)%list_elem_of_fmap. exists c. split; [by eapply Hl|]. pose proof (Hcv _ _ Hci) as E. by injection E.
      * intros (c & Hcc & <-). destruct (Hc c Hcc) as (i & Hci & -> & _). by apply (list_elem_of_fmap_2 snd) in Hci.
    + intros c d Hcc Hdd E. destruct (Hc c Hcc) as (i & Hci & E1 & _), (Hc d Hdd) as (j & Hdj & E2 & _).
      eapply (NoDup_snd_inj l); [done|exact Hci|congruence].
    + intros c d Hcc Hdd E. destruct (Hc c Hcc) as (i & Hci & E1 & _), (Hc d Hdd) as (j & Hdj & _ & E2).
      eapply (NoDup_snd_inj l); [done|exact Hci|congruence].
    + intros c _. by rewrite Em, Z.bits_0.
    + by rewrite Em, Ei.
    + intros c d Hcc Hdd E. destruct (Hc c Hcc) as (i & Hci & _ & E1), (Hc d Hdd) as (j & Hdj & _ & E2).
      eapply (NoDup_snd_inj l); [done|exact Hci|congruence].
    + intros c. by rewrite Em, Z.bits_0.
    + intros c Hcc. destruct (Hc c Hcc) as (i & Hci & -> & ->). apply (list_elem_of_fmap_2 snd) in Hci. split; by apply Hv.
  - intros p [Hx|[Ho Hi]]; [by destruct (Hnq p)|]. destruct Hi. apply Hon, list_elem_of_fmap in Ho as ([c i] & -> & Hci).
    exists c. split; [by eapply Hl|]. pose proof (Hcv _ _ Hci) as E. by injection E.
Qed.
End initial.

(** ** Cache distances *)
Section locality.
Context `{Config} `{AffinityEnv} `{Topology}.

Definition nearest (j : Z) (ds : list sched_domain) : Z :=
  match List.find (λ d, bool_decide (j ∈ cpus_in (sd_span d))) ds with
  | Some d => default 4 (domain_locality (sd_level d))
  | None => 4
  end.

Lemma set_locality_fold v js l j :
  0 ≤ j → (∀ c, c ∈ js → 0 ≤ c) → (Z.to_nat j < length l)%nat →
  foldl (set_locality v) l js !!! Z.to_nat j = (if decide (j ∈ js) then Z.min v (l !!! Z.to_nat j) else l !!! Z.to_nat j) ∧
  length (foldl (set_locality v) l js) = length l.
Proof.
  intros Hj. revert l. induction js as [|c js IH]; intros l Hc Hlen; [by split|]. cbn [foldl].
  assert (length (set_locality v l c) = length l) as Hl by (unfold set_locality; case_if; [apply length_insert|done]).
  destruct (IH (set_locality v l c)) as [E El]; [intros; apply Hc; by right|lia|]. rewrite E, El. split; [|done].
  assert (set_locality v l c !!! Z.to_nat j = if decide (j = c) then Z.min v (l !!! Z.to_nat j) else l !!! Z.to_nat j) as ->.
  { unfold set_locality. destruct (decide (j = c)) as [->|Hne].
    - destruct (Z.ltb_spec v (l !!! Z.to_nat c)); [rewrite list_lookup_total_insert_eq by done|]; lia.
    - assert (Z.to_nat c ≠ Z.to_nat j) by (pose proof (Hc c ltac:(by left)); lia). case_if; [by rewrite list_lookup_total_insert_ne|done]. }
  destruct (decide (j ∈ js)) as [Hin|Hin], (decide (j = c)) as [->|Hne];
    (rewrite decide_True by (by left || by right)) || (rewrite decide_False by (by intros [?|?]%elem_of_cons)); lia.
Qed.

Lemma note_domain_locality r d j :
  0 ≤ j → (Z.to_nat j < length (cpu_locality r))%nat →
  let x := cpu_locality r !!! Z.to_nat j in
  cpu_locality (note_domain r d) !!! Z.to_nat j =
    (if decide (j ∈ cpus_in (sd_span d)) then match domain_locality (sd_level d) with Some v => Z.min v x | None => x end else x) ∧
  length (cpu_locality (note_domain r d)) = length (cpu_locality r).
Proof.
  intros Hj Hlen x. unfold note_domain. cbv zeta.
  set (r1 := if _ && _ then r <| smt_siblings ::= _ |> else r). assert (cpu_locality r1 = cpu_locality r) as E1 by (unfold r1; by case_if).
  clearbody r1. set (r2 := if _ && _ then r1 <| cache_siblings ::= _ |> else r1).
  assert (cpu_locality r2 = cpu_locality r) as E2 by (unfold r2; by case_if). clearbody r2. clear r1 E1.
  destruct (domain_locality (sd_level d)) as [v|]; [|rewrite E2; by destruct (decide _)].
  destruct (set_locality_fold v (cpus_in (sd_span d)) (cpu_locality r2) j) as [E El]; [done|intros c [? _]%cpus_in_spec; lia|by rewrite E2|].
  cbn. rewrite E, El, E2. done.
Qed.

Lemma domain_locality_mono a b : a < b → default 4 (domain_locality a) ≤ default 4 (domain_locality b).
Proof.
  intros Hab. unfold domain_locality, SD_LV_SIBLING, SD_LV_MC, SD_LV_NODE.
  destruct (Z.leb_spec a 1), (Z.leb_spec a 2), (Z.leb_spec a 5), (Z.leb_spec b 1), (Z.leb_spec b 2), (Z.leb_spec b 5); simpl; lia.
Qed.
Lemma domain_locality_range a : 1 ≤ default 4 (domain_locality a) ≤ 4.
Proof. unfold domain_locality. repeat case_if; simpl; lia. Qed.
Lemma nearest_range j ds : 1 ≤ nearest j ds ≤ 4.
Proof. unfold nearest. destruct (List.find _ ds); [apply domain_locality_range|lia]. Qed.

Lemma nearest_above j ds v : Forall (Z.lt v) (sd_level <$> ds) → default 4 (domain_locality v) ≤ nearest j ds.
Proof.
  intros Hf. unfold nearest. destruct (List.find _ ds) as [d|] eqn:E; [|apply domain_locality_range].
  apply find_some in E as [Hin _]. apply domain_locality_mono. rewrite Forall_forall in Hf. apply Hf.
  by apply list_elem_of_fmap_2, list_elem_of_In.
Qed.

Lemma note_domains_locality ds r j :
  0 ≤ j → (Z.to_nat j < length (cpu_locality r))%nat → StronglySorted Z.lt (sd_level <$> ds) →
  cpu_locality r !!! Z.to_nat j ≤ 4 →
  cpu_locality (foldl note_domain r ds) !!! Z.to_nat j = Z.min (cpu_locality r !!! Z.to_nat j) (nearest j ds).
Proof.
  intros Hj. revert r. induction ds as [|d ds IH]; intros r Hlen Hs Hle; cbn [foldl]; [unfold nearest; simpl; lia|].
  rewrite fmap_cons in Hs. apply StronglySorted_inv in Hs as [Hs Hab].
  destruct (note_domain_locality r d j Hj Hlen) as [E El]. cbv zeta in E.
  pose proof (nearest_above j ds _ Hab) as Hn. pose proof (nearest_range j ds) as Hr. pose proof (domain_locality_range (sd_level d)) as Hd.
  assert (nearest j (d :: ds) = if decide (j ∈ cpus_in (sd_span d)) then default 4 (domain_locality (sd_level d)) else nearest j ds) as ->.
  { unfold nearest. cbn [List.find]. by destruct (decide (j ∈ cpus_in (sd_span d))); [rewrite bool_decide_eq_true_2|rewrite bool_decide_eq_false_2]. }
  rewrite IH; rewrite ?E, ?El; [|done|done|];
    destruct (decide (j ∈ cpus_in (sd_span d))), (domain_locality (sd_level d)); simpl in *; lia.
Qed.
End locality.

Section boot_theorems.
Context `{Config} `{PolicyEnv} `{AffinityEnv} `{Topology}.

(** C17. The distances between CPUs follow from the topology.  When the domains have been
    built, the domains of a CPU are levels of the topology, in ascending order, each with
    the CPUs of its level that are in the map; and the loop of [sched_init_smp] sets the distance of
    a CPU to itself to 0, and to any other CPU to the distance of the lowest
    domain that contains it: 1 up to level [SD_LV_SIBLING], 2 for [SD_LV_MC], 3 up to
    [SD_LV_NODE], where levels are counted from 0 for the lowest, and 4 without a domain. *)
Theorem cpu_locality_spec (a : allocs) (cpu_map : Z) (attr : option Z) (d : doms) (s : sched) (c j : Z) :
  good_allocs a → c ∈ cpus_in cpu_map → 0 ≤ j → (Z.to_nat j < length (cpu_locality (cpu_rq s c)))%nat →
  cpu_locality (cpu_rq s c) !!! Z.to_nat j = (if decide (j = c) then 0 else 4) →
  let s' := (build_sched_domains a cpu_map attr d s).2 in
  let ds := sd (cpu_rq s' c) in
  (∀ x, x ∈ ds → topology_domain d cpu_map c x) ∧ StronglySorted Z.lt (sd_level <$> ds) ∧
  cpu_locality (cpu_rq (note_domains c s') c) !!! Z.to_nat j = (if decide (j = c) then 0 else nearest j ds).
Proof.
  intros Ha Hc Hj Hlen Hinit. destruct (build_sched_domains_attached a cpu_map attr d s c Ha Hc) as (Hds & Hs & El). cbv zeta in *.
  revert Hds Hs El. generalize (build_sched_domains a cpu_map attr d s).2. intros s1 Hds Hs El. split_and!; [done..|].
  unfold note_domains. rewrite cpu_rq_upd_rq_eq. cbv zeta. rewrite <- El in Hlen, Hinit.
  pose proof (note_domains_locality (sd (cpu_rq s1 c)) (cpu_rq s1 c) j Hj Hlen Hs) as Hn.
  revert Hn. generalize (foldl note_domain (cpu_rq s1 c) (sd (cpu_rq s1 c))). intros r Hn.
  set (r1 := if _ && _ then r <| siblings_idle := _ |> else r). assert (cpu_locality r1 = cpu_locality r) as E1 by (unfold r1; by case_if).
  clearbody r1. assert (∀ b : bool, cpu_locality (if b then r1 <| cache_idle := CacheCpuIdle |> else r1) = cpu_locality r) as -> by (intros []; done).
  rewrite Hn, Hinit by (rewrite Hinit; destruct (decide (j = c)); lia). pose proof (nearest_range j (sd (cpu_rq s1 c))).
  destruct (decide (j = c)); lia.
Qed.

(** C4. The scheduler starts in a consistent state.  From the static data of the kernel,
    [sched_init] on the boot CPU and [init_idle] for the idle task of every other CPU
    lead to a state in which the run queue invariant holds with every CPU running its
    idle task, the priority ratios are the ones the deadlines are computed with, and every CPU is
    attached to the default root domain, online if active, with all
    reference counts right; this is the partition without domains, from which
    [partition_sched_domains] starts. *)
Theorem boot_ok (parts : list bool) (mem : Z → list Z) (boot cur init_mm : Z) (others : list (Z * Z)) (s : sched) (d : doms) :
  boot_state s → 0 < nr_cpu_ids ≤ 4096 → cpus_in cpu_possible_mask = cpus →
  boot :: others.*1 ≡ₚ cpus → NoDup (cur :: others.*2) → (∀ p, p ∈ cur :: others.*2 → valid_task p) → ndoms_cur d = 0 →
  let s' := start_cpus others (sched_init parts mem boot cur init_mm s) in
  runqueue_ok s' ∧ (∀ c, c ∈ cpus → curr (cpu_rq s' c) = idle (cpu_rq s' c)) ∧ ratios_ok s' ∧ partition_ok d s' ∧
  (∀ c, c ∈ cpus → att_of s' c = def_root_domain ∧ online (cpu_rq s' c) = cpu_isset c (cpu_active_mask s)).
Proof.
  intros Hbs Hn Hcpus Hp Hnd Hv Hd.
  destruct (sched_init_before parts mem boot cur init_mm s Hbs Hn Hcpus) as (s1 & -> & Ht & Hq & Hr & Hg & Hok & Hl & Hall).
  set (l := (boot, cur) :: others). change (start_cpus others (init_idle cur boot s1)) with (start_cpus l s1).
  destruct (start_cpus_effect l s1) as (Hg' & Hcv & Hon); [unfold l; simpl; rewrite Hp; apply NoDup_seqZ|].
  assert (same_rd s1 (start_cpus l s1)) as Hrd by (apply rdv_foldl; [intros; by apply rdv_init_idle|apply rdv_refl]).
  assert (prio_ratios (start_cpus l s1) = prio_ratios s1) as Er.
  { unfold start_cpus. clear. revert s1. induction l as [|x l IH]; intros s1; [done|]. cbn [foldl]. by rewrite IH. }
  cbv zeta in *. revert Hg' Hcv Hon Hrd Er. generalize (start_cpus l s1). intros s' Hg' Hcv Hon Hrd Er.
  assert (∀ c, att_of s' c = att_of s1 c ∧ online (cpu_rq s' c) = online (cpu_rq s1 c)) as E.
  { intros c. unfold att_of. pose proof (sr_view _ _ Hrd c) as E. by injection E as -> -> _. }
  assert (∀ c, c ∈ cpus → att_of s' c = def_root_domain ∧ online (cpu_rq s' c) = cpu_isset c (cpu_active_mask s)) as Hall'.
  { intros c Hc. destruct (E c) as [-> ->]. by apply Hall. }
  destruct Hbs as [_ _ [Hw1 Hw2] Hbits _ _]. unfold gview in Hg, Hg'. destruct Hg as (E1 & E2 & E3 & E4 & E5).
  injection Hg' as G1 G2 G3 G4 G5 G6.
  split_and!; [|intros c Hc|by unfold ratios_ok; rewrite Er| |done].
  - apply (all_idle_ok s' l); try done; try congruence.
    + intros p. rewrite Hon, Ht. naive_solver.
    + intros i. unfold queue_of. rewrite G1. apply Hq.
    + rewrite G2, E1, length_set_bit. split; [by apply words_ok_set|done].
    + intros i Hi. rewrite G2, E1, bit_set by lia. rewrite Hbits by lia. rewrite orb_false_r. apply Z.eqb_neq. lia.
  - rewrite <- Hp in Hc. change (boot :: others.*1) with l.*1 in Hc. apply list_elem_of_fmap in Hc as ([c' i] & -> & Hci).
    pose proof (Hcv _ _ Hci) as Ec. injection Ec as Ec1 Ec2. simpl. congruence.
  - assert (part d = []) as Epart by (unfold part; by rewrite Hd).
    split; [by eapply same_rd_ok|unfold live; by rewrite (sr_doms _ _ Hrd)|intros c Hc; destruct (Hall' c Hc) as [-> _]; done| | |lia].
    + rewrite Epart. split; [done|]. intros c Hc _. by apply Hall'.
    + rewrite Epart. done.
Qed.
End boot_theorems.

Section boot_examples.
#[local] Existing Instance sample_config.
#[local] Existing Instance sample_affinity.
#[local] Existing Instance sample_topology.
#[local] Instance boot_env : PolicyEnv := sample_env true 10.

(** Four CPUs; the static data of the scheduler is zero. *)
Definition boot_image : sched :=
  mk_sched ∅ ∅ (mk_global_rq 0 0 0 ∅ [0; 0] 0 0 false 0 0 0 0 false) injector_boot 0 ∅ 15 15 6 70 [] ∅ ∅ ∅ ∅ [].
Definition booted : sched :=
  start_cpus [(1, 11); (2, 12); (3, 13)] (sched_init [true; true; true; true] (λ _, [9; 9; 9; 9]) 0 10 900 boot_image).

Lemma boot_image_ok : boot_state boot_image.
Proof.
  split; try done.
  - split; [|done]. intros i. simpl. destruct i as [|[|i]]; vm_compute; split; congruence.
  - intros i Hi. unfold bit. assert (BIT_WORD i < 2)%nat as Hw.
    { unfold BIT_WORD, BITS_PER_LONG. change PRIO_LIMIT with 104 in Hi. lia_mod. }
    destruct (BIT_WORD i) as [|[|n]]; [apply Z.bits_0..|lia].
Qed.

Lemma boot_ok_witness : runqueue_ok booted ∧ partition_ok sample_doms booted.
Proof.
  destruct (boot_ok [true; true; true; true] (λ _, [9; 9; 9; 9]) 0 10 900 [(1, 11); (2, 12); (3, 13)] boot_image sample_doms boot_image_ok)
    as (Hok & _ & _ & Hp & _).
  - done.
  - reflexivity.
  - reflexivity.
  - apply NoDup_cons. split; [set_solver|]. by repeat (apply NoDup_cons; split; [set_solver|]); apply NoDup_nil_2.
  - intros p Hp. simpl in Hp. unfold valid_task. repeat (apply elem_of_cons in Hp as [->|Hp]; [lia|]). by apply elem_of_nil in Hp.
  - done.
  - exact (conj Hok Hp).
Defined.

(** CPU 2 seen from CPU 0, on another core of the same package. *)
Lemma cpu_locality_spec_witness :
  let s' := (build_sched_domains (sample_allocs 0x100) 15 None sample_doms booted).2 in
  cpu_locality (cpu_rq (note_domains 0 s') 0) !!! Z.to_nat 2 = nearest 2 (sd (cpu_rq s' 0)).
Proof.
  destruct (cpu_locality_spec (sample_allocs 0x100) 15 None sample_doms booted 0 2) as (_ & _ & E).
  - unfold good_allocs. split_and!; done.
  - by apply cpus_in_spec.
  - done.
  - vm_compute. lia.
  - vm_compute. reflexivity.
  - rewrite (decide_False (P := 2 = 0)) in E by done. exact E.
Defined.

(** CPU 0 has the sibling thread 1 and shares a cache with the core of CPUs 2 and 3.  Its
    lowest domain, of level 0, is that of its threads; level [SD_LV_SIBLING] is the next
    one.  So all four CPUs count as its sibling threads, and are equally near. *)
Example cores_taken_for_threads :
  let s' := (build_sched_domains (sample_allocs 0x100) 15 None sample_doms booted).2 in
  let r := cpu_rq (note_domains 0 s') 0 in
  topology_thread_cpumask 0 = 3 ∧ sd_shape <$> sd (cpu_rq s' 0) = [(0, 0%nat, 3); (1, 1%nat, 15)] ∧
  smt_siblings r = 15 ∧ cache_siblings r = 1 ∧ cpu_locality r = [0; 1; 1; 1].
Proof. vm_compute. by split_and!. Qed.
End boot_examples.
