(* ===== verification/WaitQueue.v ===== *)
(** * Wait queues and completions of kernel/sched_bfs.c

    [__wake_up_common] and its callers, completions and [sleep_on].  What they use
    of the scheduler is the interface [Waker]: the state of a task and an attempt to
    wake it.  [sched_waker] implements it with [try_to_wake_up].

    The functions that sleep are cut at the calls of [schedule_timeout]: [*_begin]
    runs up to the first one, [wait_resume] from the return of one to the next.
    [cstep] interleaves such pieces of any number of tasks; completions lose no
    wakeup. *)

From S2P Require Export Wakeup.
From S2P Require Import Machine.

Definition WQ_FLAG_EXCLUSIVE : Z := 0x01.
Definition ERESTARTSYS : Z := 512.
Definition TASK_KILLABLE : Z := Z.lor TASK_WAKEKILL TASK_UNINTERRUPTIBLE.
Definition MAX_SCHEDULE_TIMEOUT : Z := 0x7fffffffffffffff.
Definition UINT_MAX : Z := 0xffffffff.

(** ** The interface to the scheduler *)
Class Waker (S : Type) := {
  wstate : S → Z → Z;                        (* the state of a task *)
  set_wstate : Z → Z → S → S;                (* __set_current_state *)
  wake : Z → Z → Z → S → bool * S;           (* task, mode, flags *)
}.
Class WakerLaws (S : Type) `{Waker S} : Prop := {
  wake_match s p mode wf : Z.land (u32 (wstate s p)) mode ≠ 0 → wstate (wake p mode wf s).2 p = TASK_RUNNING;
  wake_nomatch s p mode wf : Z.land (u32 (wstate s p)) mode = 0 → wake p mode wf s = (false, s);
  wake_other s p q mode wf : q ≠ p → wstate (wake p mode wf s).2 q = wstate s q;
  set_wstate_self s p v : wstate (set_wstate p v s) p = v;
  set_wstate_other s p q v : q ≠ p → wstate (set_wstate p v s) q = wstate s q;
}.

Definition sched_waker `{Config} (me : Z) : Waker sched := {|
  wstate s p := state (task s p);
  set_wstate p v s := upd_task p (λ t, t <| state := v |>) s;
  wake p mode wf s := try_to_wake_up me p mode wf s;
|}.
#[export] Instance state_quiet : Quiet state.
Proof. by split. Qed.
Lemma sched_waker_laws `{Config} (me : Z) : @WakerLaws sched (sched_waker me).
Proof.
  assert (∀ s p q, q ≠ p → state (task (ttwu_post_activation p s) q) = state (task s q)) as Hpost.
  { intros s p q Hne. unfold ttwu_post_activation. by rewrite task_upd_task_ne. }
  split; cbn [wstate set_wstate wake sched_waker]; intros s p; intros; unfold try_to_wake_up; cbv zeta.
  - rewrite (proj2 (Z.eqb_neq _ 0)) by done. destruct (_ || _); unfold ttwu_post_activation; cbn [snd]; by rewrite task_upd_task_eq.
  - by rewrite (proj2 (Z.eqb_eq _ 0)).
  - destruct (_ =? 0); [done|]. destruct (_ || _); cbn [snd]; rewrite Hpost by done; [done|].
    apply (keeps_ttwu (φ := state)).
  - by rewrite task_upd_task_eq.
  - by rewrite task_upd_task_ne.
Qed.

(** ** Wait queues *)
Section waitqueue.
Context {S : Type}.

Record wait_queue_t := mk_wait {
  flags : Z;
  private : Z;
  func : Z → Z → Z → Z → S → bool * S;      (* private, mode, flags, key *)
}.

(** [list_for_each_safe] allows [func] to remove its own entry, so the entries
    visited are those of the list at the start. *)
Fixpoint __wake_up_common (q : list wait_queue_t) (mode nr_exclusive wake_flags key : Z) (s : S) : S :=
  match q with
  | [] => s
  | curr :: q =>
      let fl := flags curr in
      let '(woken, s) := func curr (private curr) mode wake_flags key s in
      if woken && negb (Z.land fl WQ_FLAG_EXCLUSIVE =? 0) then
        let nr_exclusive := s32 (nr_exclusive - 1) in
        if nr_exclusive =? 0 then s else __wake_up_common q mode nr_exclusive wake_flags key s
      else __wake_up_common q mode nr_exclusive wake_flags key s
  end.

Definition __wake_up q mode nr_exclusive key s : S := __wake_up_common q mode nr_exclusive 0 key s.
Definition __wake_up_locked q mode s : S := __wake_up_common q mode 1 0 NULL s.
Definition __wake_up_locked_key q mode key s : S := __wake_up_common q mode 1 0 key s.
(** [None] is a NULL queue. *)
Definition __wake_up_sync_key (q : option (list wait_queue_t)) mode nr_exclusive key s : S :=
  match q with
  | None => s
  | Some q =>
      let wake_flags := if nr_exclusive =? 0 then 0 else WF_SYNC in
      __wake_up_common q mode nr_exclusive wake_flags key s
  end.
Definition __wake_up_sync (q : option (list wait_queue_t)) mode nr_exclusive s : S :=
  match q with
  | None => s
  | Some q =>
      let sync := if nr_exclusive =? 0 then 0 else 1 in
      __wake_up_common q mode nr_exclusive sync NULL s
  end.

Definition __add_wait_queue (new : wait_queue_t) (q : list wait_queue_t) := new :: q.
Definition __add_wait_queue_tail_exclusive (wait : wait_queue_t) (q : list wait_queue_t) :=
  q ++ [mk_wait (Z.lor (flags wait) WQ_FLAG_EXCLUSIVE) (private wait) (func wait)].
(** The entry is on the stack of the waiting task, which has only one. *)
Definition __remove_wait_queue (t : Z) (q : list wait_queue_t) := filter (λ w, private w ≠ t) q.
End waitqueue.
Arguments wait_queue_t : clear implicits.

Section completions.
Context {S : Type} `{Waker S}.

Definition default_wake_function (p mode wake_flags key : Z) (s : S) : bool * S := wake p mode wake_flags s.

(** ** Completions *)
Record completion := mk_completion { done : Z; wait : list (wait_queue_t S) }.
#[export] Instance eta_completion : Eta completion := ctor mk_completion <+> done <+> wait.

Definition init_completion : completion := mk_completion 0 [].
Definition INIT_COMPLETION (x : completion) : completion := x <| done := 0 |>.

Definition complete (x : completion) (s : S) : completion * S :=
  let x := x <| done ::= λ d, u32 (d + 1) |> in
  (x, __wake_up_common (wait x) TASK_NORMAL 1 0 NULL s).
Definition complete_all (x : completion) (s : S) : completion * S :=
  let x := x <| done ::= λ d, u32 (d + UINT_MAX / 2) |> in
  (x, __wake_up_common (wait x) TASK_NORMAL 0 0 NULL s).

(** Where a waiting task is: in [schedule_timeout], or back with a result. *)
Inductive wait_res := Asleep (timeout : Z) | Returned (v : Z).

(** From [__remove_wait_queue] on. *)
Definition wait_leave (t timeout : Z) (x : completion) : wait_res * completion :=
  let x := x <| wait ::= __remove_wait_queue t |> in
  if done x =? 0 then (Returned timeout, x)
  else (Returned (if timeout =? 0 then 1 else timeout), x <| done ::= λ d, u32 (d - 1) |>).

(** The loop body up to [schedule_timeout]; [sig] is [signal_pending_state]. *)
Definition wait_top (t timeout st : Z) (sig : bool) (x : completion) (s : S) : wait_res * completion * S :=
  if sig then (wait_leave t (- ERESTARTSYS) x, s)
  else (Asleep timeout, x, set_wstate t st s).

Definition wait_begin (t timeout st : Z) (sig : bool) (x : completion) (s : S) : wait_res * completion * S :=
  if done x =? 0 then
    let w := mk_wait 0 t default_wake_function in
    wait_top t timeout st sig (x <| wait ::= __add_wait_queue_tail_exclusive w |>) s
  else (Returned (if timeout =? 0 then 1 else timeout), x <| done ::= λ d, u32 (d - 1) |>, s).

(** [timeout] is what [schedule_timeout] returned. *)
Definition wait_resume (t timeout st : Z) (sig : bool) (x : completion) (s : S) : wait_res * completion * S :=
  if (done x =? 0) && negb (timeout =? 0) then wait_top t timeout st sig x s
  else (wait_leave t timeout x, s).

(** A variant of waiting: its timeout, the state it waits in, and what it makes of
    the result of [wait_for_common]. *)
Record wait_variant := mk_variant { v_timeout : Z; v_state : Z; v_result : Z → Z }.
Definition wait_for_completion : wait_variant := mk_variant MAX_SCHEDULE_TIMEOUT TASK_UNINTERRUPTIBLE (λ _, 0).
Definition wait_for_completion_timeout (timeout : Z) : wait_variant := mk_variant (s64 timeout) TASK_UNINTERRUPTIBLE u64.
Definition wait_for_completion_interruptible : wait_variant :=
  mk_variant MAX_SCHEDULE_TIMEOUT TASK_INTERRUPTIBLE (λ t, if t =? - ERESTARTSYS then s32 t else 0).
Definition wait_for_completion_interruptible_timeout (timeout : Z) : wait_variant :=
  mk_variant (s64 timeout) TASK_INTERRUPTIBLE (λ t, t).
Definition wait_for_completion_killable : wait_variant :=
  mk_variant MAX_SCHEDULE_TIMEOUT TASK_KILLABLE (λ t, if t =? - ERESTARTSYS then s32 t else 0).
Definition wait_for_completion_killable_timeout (timeout : Z) : wait_variant :=
  mk_variant (s64 timeout) TASK_KILLABLE (λ t, t).
(** The function is inlined in its callers with these states. *)
Definition wait_states : list Z := [TASK_UNINTERRUPTIBLE; TASK_INTERRUPTIBLE; TASK_KILLABLE].

Definition try_wait_for_completion (x : completion) : bool * completion :=
  if done x =? 0 then (false, x) else (true, x <| done ::= λ d, u32 (d - 1) |>).
Definition completion_done (x : completion) : bool := negb (done x =? 0).

(** ** sleep_on *)
Definition sleep_on_begin (t st : Z) (q : list (wait_queue_t S)) (s : S) : list (wait_queue_t S) * S :=
  let s := set_wstate t st s in
  (__add_wait_queue (mk_wait 0 t default_wake_function) q, s).
Definition sleep_on_end (t timeout : Z) (q : list (wait_queue_t S)) : Z * list (wait_queue_t S) :=
  (timeout, __remove_wait_queue t q).
End completions.
Arguments completion : clear implicits.

(** ** How far a wakeup goes *)
Section visits.
Context {S : Type}.
Implicit Types (q : list (wait_queue_t S)) (w : wait_queue_t S) (s : S).

Definition exclusive w : bool := negb (Z.land (flags w) WQ_FLAG_EXCLUSIVE =? 0).
(** One entry called, and a queue of entries called in order. *)
Definition call mode wf key w s : bool * S := func w (private w) mode wf key s.
Definition visit mode wf key q s : S := foldl (λ s w, (call mode wf key w s).2) s q.
(** The exclusive entries among them that were woken. *)
Fixpoint exclusive_wakes mode wf key q s : Z :=
  match q with
  | [] => 0
  | w :: q => Z_of_bool ((call mode wf key w s).1 && exclusive w) + exclusive_wakes mode wf key q (call mode wf key w s).2
  end.

Lemma exclusive_wakes_bound mode wf key q s : 0 ≤ exclusive_wakes mode wf key q s ≤ Z.of_nat (length q).
Proof. revert s. induction q as [|w q IH]; intros s; simpl; [lia|]. specialize (IH (call mode wf key w s).2). destruct (_ && _); simpl; lia. Qed.

Lemma wake_up_common_step mode n wf key w q s :
  __wake_up_common (w :: q) mode n wf key s =
  let '(woken, s') := call mode wf key w s in
  if woken && exclusive w then if s32 (n - 1) =? 0 then s' else __wake_up_common q mode (s32 (n - 1)) wf key s'
  else __wake_up_common q mode n wf key s'.
Proof. done. Qed.

(** The whole queue when the count cannot reach zero. *)
Lemma wake_up_common_all mode n wf key q s :
  -0x80000000 + Z.of_nat (length q) ≤ n ≤ 0 → __wake_up_common q mode n wf key s = visit mode wf key q s.
Proof.
  revert n s. induction q as [|w q IH]; intros n s Hn; [done|]. rewrite wake_up_common_step. simpl in Hn.
  unfold visit. simpl. destruct (call mode wf key w s) as [woken s'] eqn:E. simpl.
  destruct (woken && exclusive w); [|apply IH; lia]. rewrite s32_id by lia.
  rewrite (proj2 (Z.eqb_neq _ 0)) by lia. apply IH. lia.
Qed.

Lemma wake_up_common_prefix mode n wf key q s :
  0 < n < 0x80000000 →
  ∃ k, (k ≤ length q)%nat ∧ __wake_up_common q mode n wf key s = visit mode wf key (take k q) s ∧
    exclusive_wakes mode wf key (take k q) s ≤ n ∧
    (exclusive_wakes mode wf key (take k q) s = n ∨ k = length q) ∧
    (∀ j, (j < k)%nat → exclusive_wakes mode wf key (take j q) s < n).
Proof.
  revert n s. induction q as [|w q IH]; intros n s Hn.
  { exists 0%nat. simpl. split_and!; [lia|done|lia|by right|lia]. }
  rewrite wake_up_common_step. destruct (call mode wf key w s) as [woken s'] eqn:E.
  assert (∀ b, b = woken && exclusive w → ∀ k, exclusive_wakes mode wf key (take (Datatypes.S k) (w :: q)) s =
    Z_of_bool b + exclusive_wakes mode wf key (take k q) s') as Hw.
  { intros b -> k. simpl. by rewrite E. }
  assert (∀ k, visit mode wf key (take (Datatypes.S k) (w :: q)) s = visit mode wf key (take k q) s') as Hv.
  { intros k. unfold visit. simpl. by rewrite E. }
  assert (∀ m k b, b = woken && exclusive w → m = n - Z_of_bool b → 0 < m → (k ≤ length q)%nat → exclusive_wakes mode wf key (take k q) s' ≤ m →
    (exclusive_wakes mode wf key (take k q) s' = m ∨ k = length q) →
    (∀ j, (j < k)%nat → exclusive_wakes mode wf key (take j q) s' < m) →
    ∃ k', (k' ≤ length (w :: q))%nat ∧ visit mode wf key (take k q) s' = visit mode wf key (take k' (w :: q)) s ∧
    exclusive_wakes mode wf key (take k' (w :: q)) s ≤ n ∧
    (exclusive_wakes mode wf key (take k' (w :: q)) s = n ∨ k' = length (w :: q)) ∧
    (∀ j, (j < k')%nat → exclusive_wakes mode wf key (take j (w :: q)) s < n)) as Hup.
  { intros m k b Eb -> Hm Hk H1 H2 H3. exists (Datatypes.S k). rewrite (Hw b Eb), Hv. split_and!; [simpl; lia|done|lia| |].
    - simpl length. lia.
    - intros [|j] Hj; [simpl; destruct b; simpl in *; lia|]. rewrite (Hw b Eb). specialize (H3 j). lia. }
  destruct (woken && exclusive w) eqn:Eb.
  - rewrite s32_id by lia. destruct (Z.eqb_spec (n - 1) 0).
    + exists 1%nat. rewrite (Hw true eq_refl), Hv. simpl. split_and!; [lia|done|lia|left; lia|].
      intros j Hj. assert (j = 0%nat) as -> by lia. simpl. lia.
    + destruct (IH (n - 1) s') as (k & Hk & -> & H1 & H2 & H3); [lia|].
      apply (Hup (n - 1) k true); simpl; try done; lia.
  - destruct (IH n s' Hn) as (k & Hk & -> & H1 & H2 & H3). apply (Hup n k false); simpl; try done; lia.
Qed.
End visits.

(** ** The completion protocol *)
Section protocol.
Context {S : Type} `{!Waker S}.
Implicit Types (x : completion S) (s : S) (t : Z).

Definition waiters x : list Z := private <$> wait x.
Definition awake s t : bool := wstate s t =? TASK_RUNNING.
Definition awake_waiters x s : Z := Z.of_nat (length (filter (λ t, awake s t = true) (waiters x))).

(** Any number of tasks use the completion.  A task continues only after it was
    woken; signals and timeouts may wake a task at any time ([cs_env]).  There are
    fewer than 2^31 tasks. *)
Inductive cstep : completion S * S → completion S * S → Prop :=
| cs_complete x s : cstep (x, s) (complete x s)
| cs_complete_all x s : cstep (x, s) (complete_all x s)
| cs_init x s : cstep (x, s) (INIT_COMPLETION x, s)
| cs_try x s : cstep (x, s) ((try_wait_for_completion x).2, s)
| cs_wait t timeout st sig x s r x' s' :
    t ∉ waiters x → st ∈ wait_states → Z.of_nat (length (wait x)) < 0x7fffffff → wstate s t = TASK_RUNNING →
    wait_begin t timeout st sig x s = (r, x', s') → cstep (x, s) (x', s')
| cs_resume t timeout st sig x s r x' s' :
    t ∈ waiters x → st ∈ wait_states → wstate s t = TASK_RUNNING →
    wait_resume t timeout st sig x s = (r, x', s') → cstep (x, s) (x', s')
| cs_env x s s' :
    (∀ t, t ∈ waiters x → wstate s' t = wstate s t ∨ wstate s' t = TASK_RUNNING) → cstep (x, s) (x, s').

Inductive creach (s0 : S) : completion S * S → Prop :=
| cr_init : creach s0 (init_completion, s0)
| cr_step c c' : creach s0 c → cstep c c' → creach s0 c'.

(** Each waiter is queued once, exclusively, to be woken by [default_wake_function],
    and sleeps in a state that a completion wakes; as many waiters are awake as the
    completion has been signalled, or all. *)
Definition entry_fine s (w : wait_queue_t S) : Prop :=
  flags w = WQ_FLAG_EXCLUSIVE ∧ func w = default_wake_function ∧
  (wstate s (private w) = TASK_RUNNING ∨ Z.land (u32 (wstate s (private w))) TASK_NORMAL ≠ 0).
Record comp_ok (c : completion S * S) : Prop := {
  co_done : 0 ≤ done c.1 < 0x100000000;
  co_nodup : NoDup (waiters c.1);
  co_len : Z.of_nat (length (wait c.1)) ≤ 0x7fffffff;
  co_entries : Forall (entry_fine c.2) (wait c.1);
  co_awake : Z.min (done c.1) (Z.of_nat (length (wait c.1))) ≤ awake_waiters c.1 c.2;
}.

Definition awake_in s (q : list (wait_queue_t S)) : Z := Z.of_nat (length (filter (λ t, awake s t = true) (private <$> q))).

Lemma awake_in_cons s w q : awake_in s (w :: q) = Z_of_bool (awake s (private w)) + awake_in s q.
Proof. unfold awake_in. rewrite fmap_cons, filter_cons. case_decide as E; [rewrite E; simpl; lia|]. by destruct (awake s (private w)). Qed.
Lemma awake_in_bound s q : 0 ≤ awake_in s q ≤ Z.of_nat (length q).
Proof. induction q as [|w q IH]; [unfold awake_in; simpl; lia|]. rewrite awake_in_cons. simpl length. destruct (awake _ _); simpl; lia. Qed.
Lemma awake_in_ext s s' q : (∀ t, t ∈ private <$> q → awake s t = true → awake s' t = true) → awake_in s q ≤ awake_in s' q.
Proof.
  induction q as [|w q IH]; intros Hq; [done|]. rewrite !awake_in_cons.
  specialize (IH ltac:(intros; apply Hq; [rewrite fmap_cons; by right|done])).
  destruct (awake s (private w)) eqn:E; [rewrite (Hq (private w)) by (done || (rewrite fmap_cons; by left)); lia|].
  destruct (awake s' (private w)); simpl; lia.
Qed.

Context `{!WakerLaws S}.

(** Calling an entry of the queue. *)
Lemma call_fine s w :
  entry_fine s w →
  let '(b, s') := call TASK_NORMAL 0 NULL w s in
  wstate s' (private w) = TASK_RUNNING ∧ (∀ t, t ≠ private w → wstate s' t = wstate s t) ∧
  (wstate s (private w) = TASK_RUNNING → b = false ∧ s' = s).
Proof.
  intros (_ & Ef & Hs). unfold call. rewrite Ef. unfold default_wake_function.
  destruct (wake (private w) TASK_NORMAL 0 s) as [b s'] eqn:E.
  destruct Hs as [Hr|Hm].
  - rewrite wake_nomatch in E by (by rewrite Hr). by injection E as <- <-.
  - pose proof (wake_match s (private w) TASK_NORMAL 0 Hm) as H1. rewrite E in H1.
    split_and!; [done| |].
    + intros t Ht. pose proof (wake_other s (private w) t TASK_NORMAL 0 Ht) as H2. by rewrite E in H2.
    + intros Hr. by rewrite Hr in Hm.
Qed.

Lemma entry_fine_ext s s' w : (wstate s' (private w) = wstate s (private w) ∨ wstate s' (private w) = TASK_RUNNING) →
  entry_fine s w → entry_fine s' w.
Proof. intros Hs (Hf & He & Hw). split_and!; [done..|]. destruct Hs as [-> | ->]; [done|by left]. Qed.

(** What any wakeup of the queue guarantees. *)
Definition woke (k : Z) q s s' : Prop :=
  (∀ t, wstate s' t = wstate s t ∨ t ∈ private <$> q ∧ wstate s' t = TASK_RUNNING) ∧
  Z.min (awake_in s q + k) (Z.of_nat (length q)) ≤ awake_in s' q.


(** One entry called, then the rest of the queue. *)
Lemma woke_cons k w q s s' s'' :
  private w ∉ private <$> q →
  (wstate s' (private w) = TASK_RUNNING ∧ (∀ t, t ≠ private w → wstate s' t = wstate s t)) →
  woke k q s' s'' →
  (∀ t, wstate s'' t = wstate s t ∨ t ∈ private <$> w :: q ∧ wstate s'' t = TASK_RUNNING) ∧
  awake_in s q = awake_in s' q ∧ awake_in s'' (w :: q) = 1 + awake_in s'' q.
Proof.
  intros Hn [Hw Ho] [Hs _]. rewrite fmap_cons. split_and!.
  - intros t. destruct (decide (t = private w)) as [->|Hne].
    + right. split; [by left|]. destruct (Hs (private w)) as [->|[_ E]]; done.
    + rewrite <- (Ho t Hne). destruct (Hs t) as [E|[Ht E]]; [by left|right]. split; [by right|done].
  - apply Z.le_antisymm; apply awake_in_ext; intros t Ht; unfold awake; rewrite Ho; try done; by intros ->.
  - rewrite awake_in_cons. unfold awake at 1. by destruct (Hs (private w)) as [->|[? _]]; [rewrite Hw|].
Qed.

Lemma fine_tail s s' (w : wait_queue_t S) q :
  private w ∉ private <$> q → (∀ t, t ≠ private w → wstate s' t = wstate s t) →
  Forall (entry_fine s) q → Forall (entry_fine s') q.
Proof.
  intros Hn Ho Hq. apply Forall_forall. intros v Hv. eapply entry_fine_ext; [|by eapply Forall_forall].
  left. apply Ho. intros E. apply Hn. rewrite <- E. by apply list_elem_of_fmap_2.
Qed.

Lemma wake_one q s :
  NoDup (private <$> q) → Forall (entry_fine s) q → woke 1 q s (__wake_up_common q TASK_NORMAL 1 0 NULL s).
Proof.
  revert s. induction q as [|w q IH]; intros s Hnd Hq.
  { split; [by left|]. unfold awake_in. simpl. lia. }
  rewrite fmap_cons in Hnd. apply NoDup_cons in Hnd as [Hn Hnd]. apply Forall_cons in Hq as [Hw Hq].
  rewrite wake_up_common_step. pose proof (call_fine s w Hw) as Hc.
  destruct (call TASK_NORMAL 0 NULL w s) as [b s']. destruct Hc as (Hr & Ho & Hsame).
  pose proof (fine_tail s s' w q Hn Ho Hq) as Hq'.
  assert (awake_in s (w :: q) ≤ 1 + awake_in s q) as Hle by (rewrite awake_in_cons; destruct (awake _ _); simpl; lia).
  destruct (b && exclusive w) eqn:Eb.
  - change (s32 (1 - 1) =? 0) with true. cbv iota.
    destruct (woke_cons 0 w q s s' s' Hn (conj Hr Ho)) as (H1 & H2 & H3); [split; [by left|lia]|].
    split; [done|]. apply andb_true_iff in Eb as [-> _].
    assert (awake s (private w) = false) as Ea.
    { unfold awake. apply Z.eqb_neq. intros E. by destruct (Hsame E). }
    rewrite H3, awake_in_cons, Ea, H2. simpl. lia.
  - specialize (IH s' Hnd Hq'). destruct (woke_cons 1 w q s s' _ Hn (conj Hr Ho) IH) as (H1 & H2 & H3).
    split; [done|]. destruct IH as [_ IH]. rewrite H3. simpl length. lia.
Qed.

Lemma wake_every q s :
  NoDup (private <$> q) → Forall (entry_fine s) q → Z.of_nat (length q) ≤ 0x7fffffff →
  woke (Z.of_nat (length q)) q s (__wake_up_common q TASK_NORMAL 0 0 NULL s).
Proof.
  intros Hnd Hq Hl. rewrite wake_up_common_all by lia. clear Hl. revert s Hq.
  induction q as [|w q IH]; intros s Hq. { split; [by left|]. unfold awake_in. simpl. lia. }
  rewrite fmap_cons in Hnd. apply NoDup_cons in Hnd as [Hn Hnd]. apply Forall_cons in Hq as [Hw Hq].
  change (visit TASK_NORMAL 0 NULL (w :: q) s) with (visit TASK_NORMAL 0 NULL q (call TASK_NORMAL 0 NULL w s).2).
  pose proof (call_fine s w Hw) as Hc. destruct (call TASK_NORMAL 0 NULL w s) as [b s']. destruct Hc as (Hr & Ho & _). cbn [snd].
  specialize (IH Hnd s' (fine_tail s s' w q Hn Ho Hq)).
  destruct (woke_cons _ w q s s' _ Hn (conj Hr Ho) IH) as (H1 & H2 & H3). split; [done|].
  destruct IH as [_ IH]. pose proof (awake_in_bound s (w :: q)). pose proof (awake_in_bound s' q). rewrite H3. simpl length in *. lia.
Qed.

(** Removing the entry of a task. *)
Lemma remove_none t (q : list (wait_queue_t S)) : t ∉ private <$> q → __remove_wait_queue t q = q.
Proof.
  unfold __remove_wait_queue. induction q as [|w q IH]; intros Ht; [done|]. rewrite fmap_cons, not_elem_of_cons in Ht.
  rewrite filter_cons_True by naive_solver. f_equal. apply IH. apply Ht.
Qed.
Lemma elem_of_remove t u (q : list (wait_queue_t S)) : u ∈ private <$> __remove_wait_queue t q ↔ u ≠ t ∧ u ∈ private <$> q.
Proof.
  unfold __remove_wait_queue. rewrite !list_elem_of_fmap. setoid_rewrite list_elem_of_filter. naive_solver.
Qed.
Lemma remove_some t s (q : list (wait_queue_t S)) :
  NoDup (private <$> q) → t ∈ private <$> q →
  awake_in s q = Z_of_bool (awake s t) + awake_in s (__remove_wait_queue t q) ∧
  Z.of_nat (length q) = 1 + Z.of_nat (length (__remove_wait_queue t q)).
Proof.
  induction q as [|w q IH]; intros Hnd Ht; [by apply elem_of_nil in Ht|]. rewrite fmap_cons in *.
  apply NoDup_cons in Hnd as [Hn Hnd]. rewrite awake_in_cons. unfold __remove_wait_queue.
  destruct (decide (private w = t)) as [E|Hne].
  - rewrite filter_cons_False by naive_solver. fold (__remove_wait_queue t q). rewrite remove_none by congruence.
    rewrite E. simpl length. lia.
  - rewrite filter_cons_True by done. fold (__remove_wait_queue t q). rewrite awake_in_cons.
    apply elem_of_cons in Ht as [?|Ht]; [congruence|]. destruct (IH Hnd Ht) as [-> IHl]. simpl length. lia.
Qed.
Lemma NoDup_remove t (q : list (wait_queue_t S)) : NoDup (private <$> q) → NoDup (private <$> __remove_wait_queue t q).
Proof.
  unfold __remove_wait_queue. induction q as [|w q IH]; intros Hnd; [done|]. rewrite fmap_cons in Hnd. apply NoDup_cons in Hnd as [Hn Hnd].
  rewrite filter_cons. case_decide; [|by apply IH]. rewrite fmap_cons. apply NoDup_cons. split; [|by apply IH].
  fold (__remove_wait_queue t q). rewrite elem_of_remove. naive_solver.
Qed.

Lemma leave_ok t timeout x s :
  comp_ok (x, s) → (t ∈ waiters x → wstate s t = TASK_RUNNING) → comp_ok ((wait_leave t timeout x).2, s).
Proof.
  intros [Hd Hnd Hl He Ha] Ht. simpl in *. unfold wait_leave, update; simpl.
  assert (Forall (entry_fine s) (__remove_wait_queue t (wait x))) as He'.
  { apply Forall_forall. intros w [_ Hw]%list_elem_of_filter. by eapply Forall_forall. }
  pose proof (NoDup_remove t _ Hnd) as Hnd'.
  assert (Z.of_nat (length (__remove_wait_queue t (wait x))) ≤ Z.of_nat (length (wait x)) ∧
    (done x ≠ 0 → Z.min (done x - 1) (Z.of_nat (length (__remove_wait_queue t (wait x)))) ≤
     awake_in s (__remove_wait_queue t (wait x)))) as [Hl' Ha'].
  { change (awake_waiters x s) with (awake_in s (wait x)) in Ha.
    destruct (decide (t ∈ waiters x)) as [Hin|Hin].
    - destruct (remove_some t s (wait x) Hnd Hin) as [E1 E2]. unfold awake in E1 at 1. rewrite (Ht Hin) in E1. simpl in E1. lia.
    - rewrite (remove_none t (wait x)) by done. lia. }
  destruct (Z.eqb_spec (done x) 0) as [E0|Hne]; split; simpl; try done; try lia.
  - rewrite E0. unfold awake_waiters. lia.
  - rewrite u32_id; lia.
  - rewrite u32_id by lia. by apply Ha'.
Qed.

Lemma take_ok x s : comp_ok (x, s) → done x ≠ 0 → comp_ok (x <| done ::= λ d, u32 (d - 1) |>, s).
Proof.
  intros [Hd Hnd Hl He Ha] Hne. simpl in *. split; simpl; try done; rewrite u32_id by lia; [lia|].
  change (awake_waiters _ s) with (awake_waiters x s). lia.
Qed.

Lemma wait_states_match st : st ∈ wait_states → Z.land (u32 st) TASK_NORMAL ≠ 0.
Proof. unfold wait_states. rewrite !elem_of_cons. intros [->|[->|[->|Hx]]]; [done..|by apply elem_of_nil in Hx]. Qed.

(** Going to sleep is allowed only when there is nothing to take. *)
Lemma sleep_ok t st x s :
  comp_ok (x, s) → done x = 0 → st ∈ wait_states → comp_ok (x, set_wstate t st s).
Proof.
  intros [Hd Hnd Hl He Ha] E0 Hst. simpl in *. split; simpl; try done.
  - eapply Forall_impl; [exact He|]. intros w (Hf & Hfn & Hw). split_and!; [done..|].
    destruct (decide (private w = t)) as [->|Hne].
    + right. rewrite set_wstate_self. by apply wait_states_match.
    + by rewrite set_wstate_other.
  - rewrite E0. unfold awake_waiters. lia.
Qed.

Lemma top_ok t timeout st sig x s r x' s' :
  comp_ok (x, s) → done x = 0 → st ∈ wait_states → wstate s t = TASK_RUNNING →
  wait_top t timeout st sig x s = (r, x', s') → comp_ok (x', s').
Proof.
  intros Hok E0 Hst Hr. unfold wait_top. destruct sig.
  - pose proof (leave_ok t (- ERESTARTSYS) x s Hok (λ _, Hr)) as Hl. destruct (wait_leave _ _ _). by intros [= <- <- <-].
  - intros [= <- <- <-]. by apply sleep_ok.
Qed.

(** A wakeup that wakes as many as the count grows. *)
Lemma wakeup_ok k d x s s' :
  0 ≤ k → comp_ok (x, s) → woke k (wait x) s s' → 0 ≤ d < 0x100000000 → d ≤ done x + k ∨ Z.of_nat (length (wait x)) ≤ k →
  comp_ok (x <| done := d |>, s').
Proof.
  intros Hk0 [Hd Hnd Hl He Ha] [Hs Hk] Hd' Hle. simpl in *. change (awake_waiters x s) with (awake_in s (wait x)) in Ha.
  split; simpl; try done.
  - eapply Forall_impl; [exact He|]. intros w. apply entry_fine_ext. destruct (Hs (private w)) as [?|[_ ?]]; auto.
  - change (awake_waiters _ s') with (awake_in s' (wait x)). pose proof (awake_in_bound s (wait x)). lia.
Qed.

Lemma enqueue_ok t x s :
  comp_ok (x, s) → t ∉ waiters x → Z.of_nat (length (wait x)) < 0x7fffffff → wstate s t = TASK_RUNNING → done x = 0 →
  comp_ok (x <| wait ::= __add_wait_queue_tail_exclusive (mk_wait 0 t default_wake_function) |>, s).
Proof.
  intros [Hd Hnd Hl He Ha] Ht Hlen Hr E0. simpl in *. unfold __add_wait_queue_tail_exclusive. split; unfold update; simpl.
  - done.
  - unfold waiters. simpl. rewrite fmap_app. apply NoDup_app. split_and!; [done| |apply NoDup_singleton].
    intros u Hu Hu'. apply list_elem_of_singleton in Hu'. simpl in Hu'. by subst.
  - rewrite length_app. simpl. lia.
  - apply Forall_app. split; [done|]. apply Forall_singleton. split_and!; [done..|by left].
  - rewrite E0. unfold awake_waiters. lia.
Qed.

Lemma cstep_ok c c' : comp_ok c → cstep c c' → comp_ok c'.
Proof.
  intros Hok Hstep. destruct Hstep as [x s|x s|x s|x s|t timeout st sig x s r x' s' Ht Hst Hl Hr E|t timeout st sig x s r x' s' Ht Hst Hr E|x s s' Hs].
  - apply (wakeup_ok 1 (u32 (done x + 1)) x s); [done|done|apply wake_one; apply Hok|apply u32_range|].
    left. destruct Hok as [Hd _ _ _ _]. simpl in Hd. wrap.
  - apply (wakeup_ok (Z.of_nat (length (wait x))) (u32 (done x + UINT_MAX / 2)) x s);
      [lia|done|apply wake_every; apply Hok|apply u32_range|by right].
  - destruct Hok as [Hd Hnd Hl He Ha]. split; simpl in *; try done. unfold awake_waiters. lia.
  - unfold try_wait_for_completion. destruct (Z.eqb_spec (done x) 0); [done|]. by apply take_ok.
  - unfold wait_begin in E. destruct (Z.eqb_spec (done x) 0) as [E0|Hne].
    + eapply top_ok; [by apply enqueue_ok|..|exact E]; done.
    + injection E as <- <- <-. by apply take_ok.
  - unfold wait_resume in E. destruct (Z.eqb_spec (done x) 0) as [E0|Hne]; simpl in E.
    + destruct (timeout =? 0); simpl in E; [|by eapply top_ok].
      pose proof (leave_ok t timeout x s Hok (λ _, Hr)) as Hlv. destruct (wait_leave _ _ _). by injection E as <- <- <-.
    + pose proof (leave_ok t timeout x s Hok (λ _, Hr)) as Hlv. destruct (wait_leave _ _ _). by injection E as <- <- <-.
  - destruct Hok as [Hd Hnd Hl He Ha]. split; simpl in *; try done.
    + apply Forall_forall. intros w Hw. eapply entry_fine_ext; [|by eapply Forall_forall].
      apply Hs. by apply list_elem_of_fmap_2.
    + etransitivity; [exact Ha|]. apply awake_in_ext. intros t Ht. unfold awake. destruct (Hs t Ht) as [-> | ->]; done.
Qed.

Lemma creach_ok s0 c : creach s0 c → comp_ok c.
Proof.
  induction 1 as [|c c' _ IH Hs]; [|by eapply cstep_ok]. split; simpl; try done. constructor.
Qed.
End protocol.

(** C35. A wakeup of a wait queue calls its entries in order.  With a count of zero it
    calls all of them; with a positive count [n] it stops right after the [n]-th
    exclusive entry that was really woken, and calls all when there are fewer: an
    exclusive entry whose task was not asleep does not use up the count. *)
Theorem wake_up_common_spec {S : Type} (q : list (wait_queue_t S)) (mode n wf key : Z) (s : S) :
  0 ≤ n < 0x80000000 → Z.of_nat (length q) < 0x80000000 →
  (n = 0 → __wake_up_common q mode n wf key s = visit mode wf key q s) ∧
  (0 < n → ∃ k, (k ≤ length q)%nat ∧ __wake_up_common q mode n wf key s = visit mode wf key (take k q) s ∧
     exclusive_wakes mode wf key (take k q) s ≤ n ∧
     (exclusive_wakes mode wf key (take k q) s = n ∨ k = length q) ∧
     (∀ j, (j < k)%nat → exclusive_wakes mode wf key (take j q) s < n)).
Proof.
  intros Hn Hl. split.
  - intros ->. apply wake_up_common_all. lia.
  - intros Hpos. apply wake_up_common_prefix. lia.
Qed.

(** C34. Completions lose no wakeup.  In every state that any interleaving of signalling,
    waiting, timeouts and signals can reach, at least as many of the queued waiters
    are awake as the completion has unused signals (or all of them are); and an
    awake waiter of a signalled completion, when it runs, takes one signal, leaves
    the queue and reports success. *)
Theorem completion_no_lost_wakeup {S : Type} `{!Waker S} `{!WakerLaws S} (s0 s : S) (x : completion S) :
  creach s0 (x, s) →
  Z.min (done x) (Z.of_nat (length (waiters x))) ≤ awake_waiters x s ∧
  (∀ t timeout st sig, t ∈ waiters x → wstate s t = TASK_RUNNING → done x ≠ 0 → 0 ≤ timeout →
     ∃ v x', wait_resume t timeout st sig x s = (Returned v, x', s) ∧ 0 < v ∧ done x' = done x - 1 ∧
       ∀ u, u ∈ waiters x' ↔ u ∈ waiters x ∧ u ≠ t).
Proof.
  intros Hr. destruct (creach_ok _ _ Hr) as [Hd Hnd Hl He Ha]. simpl in *. unfold waiters at 1. rewrite length_fmap.
  split; [done|]. intros t timeout st sig Ht Hrun Hne Hto. unfold wait_resume. rewrite (proj2 (Z.eqb_neq (done x) 0)) by done.
  cbn [andb]. unfold wait_leave, update; simpl. rewrite (proj2 (Z.eqb_neq (done x) 0)) by done.
  eexists _, _. split; [reflexivity|]. split_and!.
  - destruct (Z.eqb_spec timeout 0); lia.
  - simpl. rewrite u32_id; lia.
  - intros u. unfold waiters. simpl. rewrite elem_of_remove. naive_solver.
Qed.

Section witnesses.
#[local] Existing Instance sample_config.
#[local] Instance machine_waker : Waker sched := sched_waker 0.
#[local] Instance machine_waker_laws : WakerLaws sched := sched_waker_laws 0.

(** A non-exclusive and two exclusive waiters: tasks 23 and 24 sleep, 20 runs. *)
Definition sample_queue : list (wait_queue_t sched) :=
  [mk_wait 0 23 default_wake_function; mk_wait WQ_FLAG_EXCLUSIVE 20 default_wake_function;
   mk_wait WQ_FLAG_EXCLUSIVE 24 default_wake_function].

Lemma wake_up_common_spec_witness :
  (∃ k, (k ≤ 3)%nat ∧ __wake_up_common sample_queue TASK_NORMAL 1 0 NULL machine =
          visit TASK_NORMAL 0 NULL (take k sample_queue) machine) ∧
  state (task (__wake_up_common sample_queue TASK_NORMAL 1 0 NULL machine) 24) = TASK_RUNNING.
Proof.
  split; [|by vm_compute].
  destruct (wake_up_common_spec sample_queue TASK_NORMAL 1 0 NULL machine) as [_ Hk]; [done|done|].
  destruct Hk as (k & Hk & E & _); [done|]. exists k. by split.
Defined.

(** Task 20 starts to wait, is still on its CPU when the completion is signalled, and
    continues. *)
Definition sample_waiting : completion sched * sched :=
  let '(_, x, s) := wait_begin 20 MAX_SCHEDULE_TIMEOUT TASK_UNINTERRUPTIBLE false init_completion machine in (x, s).
Definition sample_signalled : completion sched * sched := complete sample_waiting.1 sample_waiting.2.

Lemma completion_no_lost_wakeup_witness :
  1 ≤ awake_waiters sample_signalled.1 sample_signalled.2 ∧
  ∃ v x', wait_resume 20 5 TASK_UNINTERRUPTIBLE false sample_signalled.1 sample_signalled.2 = (Returned v, x', sample_signalled.2) ∧
    done x' = 0.
Proof.
  destruct (completion_no_lost_wakeup machine sample_signalled.2 sample_signalled.1) as [Ha Hr].
  - eapply cr_step; [|apply cs_complete]. eapply cr_step; [apply cr_init|].
    eapply (cs_wait 20 MAX_SCHEDULE_TIMEOUT TASK_UNINTERRUPTIBLE false); [apply not_elem_of_nil|by left|done|by vm_compute|reflexivity].
  - split; [exact Ha|]. destruct (Hr 20 5 TASK_UNINTERRUPTIBLE false) as (v & x' & E & _ & Ed & _).
    + vm_compute. by left.
    + by vm_compute.
    + by vm_compute.
    + done.
    + exists v, x'. by split.
Defined.

(** [completion_done] does not tell whether somebody waits: a completion that nobody
    waits for is not done, and a signalled one is while its waiter is still queued. *)
Example completion_done_waiters :
  completion_done (init_completion (S := sched)) = false ∧ waiters (init_completion (S := sched)) = [] ∧
  completion_done sample_signalled.1 = true ∧ waiters sample_signalled.1 = [20].
Proof. by vm_compute. Qed.

(** [wait_for_completion_killable] returns 0 when the completion was signalled. *)
Example killable_success : v_result wait_for_completion_killable 1 = 0.
Proof. done. Qed.
End witnesses.
