(* ===== verification/Hrm.v ===== *)
(** * The heart-rate monitor: kernel/hrm.c and include/linux/hrm.h

    Groups of tasks that count heartbeats.  A group owns a page of counters that
    its producers increment from user space, a page with the published measures
    and the goal, a ring buffer of past totals sampled by a timer, and the lists of
    its members.  Objects are reached by address; the lists of the source hold the
    addresses in order ([list_add] inserts at the front), as ListHead.v justifies.

    Allocation may fail: the operations that allocate take the answers of the
    allocator as arguments. *)

From S2P Require Export Bitops KTime.

Definition HRM_MAX_WINDOWS : Z := 32.
Definition HRM_MEASURE_SCALE : Z := 1000.
Definition L1_CACHE_BYTES : Z := 64.
Definition PAGE_SIZE : Z := 4096.
Definition USEC_PER_SEC : Z := 1000000.
Definition MSEC_PER_SEC : Z := 1000.

(** The three configuration options of the monitor. *)
Class HrmConfig := {
  CONFIG_HRM_GROUP_ORDER : Z;
  CONFIG_HRM_MAX_WINDOW_SIZE : Z;
  CONFIG_HRM_TIMER_PERIOD : Z;
}.

Section sizes.
Context `{HrmConfig}.
Definition HRM_PAGE_GROUP_SIZE : Z := PAGE_SIZE / L1_CACHE_BYTES.
Definition HRM_GROUP_SIZE : Z := Z.shiftl 1 CONFIG_HRM_GROUP_ORDER * HRM_PAGE_GROUP_SIZE.
Definition HRM_MAX_WINDOW_SIZE : Z := Z.shiftl 1 CONFIG_HRM_MAX_WINDOW_SIZE.
End sizes.

(** ** Data *)
Record hrm_counter := mk_counter { tid : Z; used : bool; counter : Z }.
#[export] Instance eta_counter : Eta hrm_counter := ctor mk_counter <+> tid <+> used <+> counter.
#[export] Instance counter_inhabited : Inhabited hrm_counter := populate (mk_counter 0 false 0).

Record hrm_measure := mk_measure { m_count : Z; m_time : Z }.
#[export] Instance eta_measure : Eta hrm_measure := ctor mk_measure <+> m_count <+> m_time.
#[export] Instance measure_inhabited : Inhabited hrm_measure := populate (mk_measure 0 0).

Record hrm_goal := mk_goal {
  min_heart_rate : Z;
  max_heart_rate : Z;
  scope : Z;
  window_size : list Z;        (* HRM_MAX_WINDOWS entries *)
}.
#[export] Instance eta_goal : Eta hrm_goal :=
  ctor mk_goal <+> min_heart_rate <+> max_heart_rate <+> scope <+> window_size.

(** An entry of [history.window]. *)
Record hrm_sample := mk_sample { s_counter : Z; s_elapsed : timespec }.
#[export] Instance sample_inhabited : Inhabited hrm_sample := populate (mk_sample 0 (mk_timespec 0 0)).

Record hrm_memory_map := mk_map { map_pid : Z; user_address : Z; references : Z }.
#[export] Instance eta_map : Eta hrm_memory_map := ctor mk_map <+> map_pid <+> user_address <+> references.

Record hrm_group := mk_group {
  gid : Z;
  counters : gmap Z hrm_counter;          (* by index *)
  counters_maps : list hrm_memory_map;
  measures_global : hrm_measure;
  measures_window : list hrm_measure;     (* HRM_MAX_WINDOWS entries *)
  goal : hrm_goal;
  measures_maps : list hrm_memory_map;
  window_cur : Z;
  buffered : Z;
  window : gmap Z hrm_sample;             (* HRM_MAX_WINDOW_SIZE entries *)
  history : Z;
  counters_allocation : bitmap;
  timer_armed : bool;
  timestamp : timespec;
  producers : list Z;
  consumers : list Z;
}.
#[export] Instance eta_group : Eta hrm_group :=
  ctor mk_group <+> gid <+> counters <+> counters_maps <+> measures_global <+> measures_window
    <+> goal <+> measures_maps <+> window_cur <+> buffered <+> window <+> history
    <+> counters_allocation <+> timer_armed <+> timestamp <+> producers <+> consumers.
#[export] Instance group_inhabited : Inhabited hrm_group :=
  populate (mk_group 0 ∅ [] inhabitant [] (mk_goal 0 0 0 []) [] 0 0 ∅ 0 [] false inhabitant [] []).

Record hrm_producer := mk_producer { p_task : Z; counter_index : Z; p_group : Z }.
#[export] Instance eta_producer : Eta hrm_producer := ctor mk_producer <+> p_task <+> counter_index <+> p_group.
#[export] Instance producer_inhabited : Inhabited hrm_producer := populate (mk_producer 0 0 0).

Record hrm_consumer := mk_consumer { c_group : Z }.
#[export] Instance consumer_inhabited : Inhabited hrm_consumer := populate (mk_consumer 0).

(** What the monitor uses of a task. *)
Record hrm_task := mk_htask {
  t_pid : Z;
  t_tgid : Z;
  hrm_producers : list Z;
  hrm_consumers : list Z;
}.
#[export] Instance eta_htask : Eta hrm_task := ctor mk_htask <+> t_pid <+> t_tgid <+> hrm_producers <+> hrm_consumers.
#[export] Instance htask_inhabited : Inhabited hrm_task := populate (mk_htask 0 0 [] []).

Record hrm := mk_hrm {
  h_groups : gmap Z hrm_group;
  h_producers : gmap Z hrm_producer;
  h_consumers : gmap Z hrm_consumer;
  h_tasks : gmap Z hrm_task;
  hrm_groups : list Z;
}.
#[export] Instance eta_hrm : Eta hrm :=
  ctor mk_hrm <+> h_groups <+> h_producers <+> h_consumers <+> h_tasks <+> hrm_groups.

Definition grp (h : hrm) (g : Z) : hrm_group := h_groups h !!! g.
Definition prod_of (h : hrm) (p : Z) : hrm_producer := h_producers h !!! p.
Definition cons_of (h : hrm) (c : Z) : hrm_consumer := h_consumers h !!! c.
Definition htask (h : hrm) (t : Z) : hrm_task := h_tasks h !!! t.
Definition upd_group (g : Z) (f : hrm_group → hrm_group) (h : hrm) : hrm :=
  h <| h_groups ::= λ m, mem_upd m g f |>.
Definition upd_htask (t : Z) (f : hrm_task → hrm_task) (h : hrm) : hrm :=
  h <| h_tasks ::= λ m, mem_upd m t f |>.

(** [list_del] of one address. *)
Definition unlist (p : Z) (l : list Z) : list Z := filter (λ x, x ≠ p) l.

Section hrm_ops.
Context `{HrmConfig}.

(** ** The timer *)

(** [history] plus the counters of the present producers. *)
Definition heartbeats (h : hrm) (G : hrm_group) : Z :=
  foldl (λ n p, u64 (n + counter (counters G !!! counter_index (prod_of h p)))) (history G) (producers G).

(** The loop body for one window, from the samples and the clamped size. *)
Definition window_measure (G : hrm_group) (beats : Z) (elapsed : timespec) (ws : Z) (m : hrm_measure) : hrm_measure :=
  if negb (ws =? 0) then
    let ws := if u64 (buffered G) <? ws then buffered G else ws in
    let window_first := s32 (Z.land (u64 (window_cur G - ws)) (HRM_MAX_WINDOW_SIZE - 1)) in
    let first := window G !!! window_first in
    mk_measure (u64 (beats - s_counter first)) (u64 (timespec_to_ns (timespec_sub elapsed (s_elapsed first))))
  else m.

(** [now] is what [getrawmonotonic] reads. *)
Definition __hrm_update_group_measures (g : Z) (now : timespec) (h : hrm) : hrm :=
  let h := upd_group g (λ G, G <| timer_armed := true |>) h in
  let elapsed_time := timespec_sub now (timestamp (grp h g)) in
  let beats := heartbeats h (grp h g) in
  let h := upd_group g (λ G, G <| measures_global := mk_measure beats (u64 (timespec_to_ns elapsed_time)) |>
                               <| window ::= <[window_cur G := mk_sample beats elapsed_time]> |>) h in
  let h :=
    if buffered (grp h g) =? 0 then h
    else upd_group g (λ G, G <| measures_window ::= zip_with (window_measure G beats elapsed_time) (window_size (goal G)) |>) h in
  upd_group g (λ G,
    let G := if buffered G <? HRM_MAX_WINDOW_SIZE then G <| buffered ::= λ n, s32 (n + 1) |> else G in
    G <| window_cur ::= λ n, Z.land (s32 (n + 1)) (HRM_MAX_WINDOW_SIZE - 1) |>) h.

(** ** Groups *)

(** What the allocator answers for a group: its address, and whether the counter
    pages and the measures page were available. *)
Record group_alloc := mk_galloc { ga_group : Z; ga_counters : bool; ga_measures : bool }.

Definition zeroed_group (id : Z) : hrm_group :=
  mk_group id ∅ [] (mk_measure 0 0) (replicate (Z.to_nat HRM_MAX_WINDOWS) (mk_measure 0 0))
    (mk_goal 0 0 0 (replicate (Z.to_nat HRM_MAX_WINDOWS) 0)) [] 0 0 ∅ 0 (bitmap_zero HRM_GROUP_SIZE)
    false (mk_timespec 0 0) [] [].

(** The address of the new group or an error; on failure what was allocated is
    freed again. *)
Definition __hrm_create_group (a : group_alloc) (id : Z) (h : hrm) : (Z + Z) * hrm :=
  if ga_group a =? NULL then (inl (- ENOMEM), h)
  else if negb (ga_counters a) then (inl (- ENOMEM), h)
  else if negb (ga_measures a) then (inl (- ENOMEM), h)
  else (inr (ga_group a), h <| h_groups ::= <[ga_group a := zeroed_group id]> |>).

(** [hrtimer_cancel] and the release of the group's memory. *)
Definition __hrm_destroy_group (g : Z) (h : hrm) : hrm := h <| h_groups ::= delete g |>.
Definition __hrm_add_group (g : Z) (h : hrm) : hrm := h <| hrm_groups ::= cons g |>.
Definition __hrm_delete_group (g : Z) (h : hrm) : hrm := h <| hrm_groups ::= unlist g |>.
Definition __hrm_find_group (id : Z) (h : hrm) : option Z :=
  head (filter (λ g, gid (grp h g) = id) (hrm_groups h)).

Definition __hrm_allocate_group_counter (g : Z) (h : hrm) : Z * hrm :=
  let '(i, bm) := bitmap_find_free_region (counters_allocation (grp h g)) HRM_GROUP_SIZE 0 in
  (i, upd_group g (λ G, G <| counters_allocation := bm |>) h).
Definition __hrm_release_group_counter (g i : Z) (h : hrm) : hrm :=
  upd_group g (λ G, G <| counters_allocation ::= λ bm, bitmap_release_region bm i 0 |>) h.

(** ** Memory maps, per thread group *)
Definition __hrm_add_group_memory_map (tgid addr : Z) (ok : bool) (maps : list hrm_memory_map) :
    Z * list hrm_memory_map :=
  if negb ok then (- ENOMEM, maps) else (0, mk_map tgid addr 1 :: maps).

Fixpoint __hrm_get_group_memory_map (tgid : Z) (maps : list hrm_memory_map) : Z * list hrm_memory_map :=
  match maps with
  | [] => (- ESRCH, [])
  | m :: maps =>
      if map_pid m =? tgid then (0, m <| references ::= λ n, s32 (n + 1) |> :: maps)
      else let '(r, maps) := __hrm_get_group_memory_map tgid maps in (r, m :: maps)
  end.

Fixpoint __hrm_put_group_memory_map (tgid : Z) (maps : list hrm_memory_map) : Z * list hrm_memory_map :=
  match maps with
  | [] => (- ESRCH, [])
  | m :: maps =>
      if map_pid m =? tgid then
        let m := m <| references ::= λ n, s32 (n - 1) |> in
        (0, if references m =? 0 then maps else m :: maps)
      else let '(r, maps) := __hrm_put_group_memory_map tgid maps in (r, m :: maps)
  end.

Fixpoint __hrm_find_group_memory_map (tgid : Z) (maps : list hrm_memory_map) : Z :=
  match maps with
  | [] => 0
  | m :: maps => if map_pid m =? tgid then user_address m else __hrm_find_group_memory_map tgid maps
  end.

(** The two puts of the deletion functions. *)
Definition put_maps (t g : Z) (h : hrm) : hrm :=
  upd_group g (λ G, G <| counters_maps ::= λ m, (__hrm_put_group_memory_map (t_tgid (htask h t)) m).2 |>
                      <| measures_maps ::= λ m, (__hrm_put_group_memory_map (t_tgid (htask h t)) m).2 |>) h.

(** Lines 339-345: a group without members goes away. *)
Definition drop_if_empty (g : Z) (h : hrm) : hrm :=
  if bool_decide (producers (grp h g) = []) && bool_decide (consumers (grp h g) = [])
  then __hrm_destroy_group g (__hrm_delete_group g h) else h.

(** ** Producers *)
Definition __hrm_find_producer_struct (t id : Z) (h : hrm) : option Z :=
  head (filter (λ p, gid (grp h (p_group (prod_of h p))) = id) (hrm_producers (htask h t))).

(** Lines 271-295, for the group [g] and the counter [i]. *)
Definition link_producer (p t g i : Z) (now : timespec) (group_exists : bool) (h : hrm) : hrm :=
  let h := h <| h_producers ::= <[p := mk_producer t i g]> |> in
  let h := upd_group g (λ G, G <| counters ::= λ m, mem_upd m i (λ c, c <| tid := t_pid (htask h t) |> <| used := true |>) |>) h in
  let h := upd_htask t (λ T, T <| hrm_producers ::= cons p |>) h in
  let h := upd_group g (λ G, G <| producers ::= cons p |>) h in
  if timespec_to_ns (timestamp (grp h g)) =? 0 then
    let h := if group_exists then h else __hrm_add_group g h in
    upd_group g (λ G, G <| timestamp := now |> <| window_cur := 1 |> <| buffered := 1 |> <| timer_armed := true |>) h
  else h.

(** [p] is the address [kzalloc] returned for the producer. *)
Definition hrm_add_producer_task_to_group (p : Z) (a : group_alloc) (now : timespec) (t id : Z) (h : hrm) : Z * hrm :=
  if t =? NULL then (- EINVAL, h)
  else if bool_decide (is_Some (__hrm_find_producer_struct t id h)) then (- EINVAL, h)
  else if p =? NULL then (- ENOMEM, h)
  else
    let '(found, h, group_exists) :=
      match __hrm_find_group id h with
      | Some g => (inr g, h, true)
      | None => (__hrm_create_group a id h, false)
      end in
    match found with
    | inl err => (err, h)
    | inr g =>
        let '(i, h) := __hrm_allocate_group_counter g h in
        if i <? 0 then (i, if group_exists then h else __hrm_destroy_group g h)
        else (0, link_producer p t g i now group_exists h)
    end.

(** Lines 329-330, which take no lock: the counter goes to the history and is free
    again. *)
Definition release_producer (p : Z) (h : hrm) : hrm :=
  let P := prod_of h p in
  let h := upd_group (p_group P) (λ G, G <| history ::= λ n, u64 (n + counter (counters G !!! counter_index P)) |>) h in
  __hrm_release_group_counter (p_group P) (counter_index P) h.

(** Lines 332-346, under the locks. *)
Definition detach_producer (p t : Z) (h : hrm) : hrm :=
  let g := p_group (prod_of h p) in
  let h := upd_htask t (λ T, T <| hrm_producers ::= unlist p |>) h in
  let h := upd_group g (λ G, G <| producers ::= unlist p |>) h in
  let h := h <| h_producers ::= delete p |> in
  drop_if_empty g (put_maps t g h).

Definition unlink_producer (p t : Z) (h : hrm) : hrm := detach_producer p t (release_producer p h).

Definition hrm_delete_producer_task_from_group (t id : Z) (h : hrm) : Z * hrm :=
  if t =? NULL then (- EINVAL, h)
  else
    match __hrm_find_producer_struct t id h with
    | None => (- EINVAL, h)
    | Some p =>
        let P := prod_of h p in
        let h := upd_group (p_group P) (λ G, G <| counters ::= λ m, mem_upd m (counter_index P) (λ c, c <| used := false |>) |>) h in
        (0, unlink_producer p t h)
    end.

Definition hrm_producer_task_enabled_group (t id : Z) (h : hrm) : Z :=
  if t =? NULL then - EINVAL else Z_of_bool (bool_decide (is_Some (__hrm_find_producer_struct t id h))).
Definition hrm_producer_task_enabled (t : Z) (h : hrm) : Z :=
  if t =? NULL then - EINVAL else Z_of_bool (negb (bool_decide (hrm_producers (htask h t) = []))).

Definition hrm_delete_producer_task_from_all_groups (t : Z) (h : hrm) : Z * hrm :=
  if t =? NULL then (- EINVAL, h)
  else if hrm_producer_task_enabled t h =? 0 then (- EINVAL, h)
  else (0, foldl (λ h p, unlink_producer p t h) h (hrm_producers (htask h t))).

(** ** Consumers *)
Definition __hrm_find_consumer_struct (t id : Z) (h : hrm) : option Z :=
  head (filter (λ c, gid (grp h (c_group (cons_of h c))) = id) (hrm_consumers (htask h t))).

Definition link_consumer (c t g : Z) (group_exists : bool) (h : hrm) : hrm :=
  let h := h <| h_consumers ::= <[c := mk_consumer g]> |> in
  let h := upd_htask t (λ T, T <| hrm_consumers ::= cons c |>) h in
  let h := upd_group g (λ G, G <| consumers ::= cons c |>) h in
  if group_exists then h else __hrm_add_group g h.

Definition hrm_add_consumer_task_to_group (c : Z) (a : group_alloc) (t id : Z) (h : hrm) : Z * hrm :=
  if t =? NULL then (- EINVAL, h)
  else if bool_decide (is_Some (__hrm_find_consumer_struct t id h)) then (- EINVAL, h)
  else if c =? NULL then (- ENOMEM, h)
  else
    let '(found, h, group_exists) :=
      match __hrm_find_group id h with
      | Some g => (inr g, h, true)
      | None => (__hrm_create_group a id h, false)
      end in
    match found with
    | inl err => (err, h)
    | inr g => (0, link_consumer c t g group_exists h)
    end.

Definition unlink_consumer (c t : Z) (h : hrm) : hrm :=
  let g := c_group (cons_of h c) in
  let h := upd_htask t (λ T, T <| hrm_consumers ::= unlist c |>) h in
  let h := upd_group g (λ G, G <| consumers ::= unlist c |>) h in
  let h := h <| h_consumers ::= delete c |> in
  drop_if_empty g (put_maps t g h).

Definition hrm_delete_consumer_task_from_group (t id : Z) (h : hrm) : Z * hrm :=
  if t =? NULL then (- EINVAL, h)
  else
    match __hrm_find_consumer_struct t id h with
    | None => (- EINVAL, h)
    | Some c => (0, unlink_consumer c t h)
    end.

Definition hrm_consumer_task_enabled_group (t id : Z) (h : hrm) : Z :=
  if t =? NULL then - EINVAL else Z_of_bool (bool_decide (is_Some (__hrm_find_consumer_struct t id h))).
Definition hrm_consumer_task_enabled (t : Z) (h : hrm) : Z :=
  if t =? NULL then - EINVAL else Z_of_bool (negb (bool_decide (hrm_consumers (htask h t) = []))).

Definition hrm_delete_consumer_task_from_all_groups (t : Z) (h : hrm) : Z * hrm :=
  if t =? NULL then (- EINVAL, h)
  else if hrm_consumer_task_enabled t h =? 0 then (- EINVAL, h)
  else (0, foldl (λ h c, unlink_consumer c t h) h (hrm_consumers (htask h t))).

(** ** Rates *)
Definition __hrm_compute_hr (count time : Z) : Z :=
  let scaled_count := u64 (count * USEC_PER_SEC) in
  let scaled_time := MSEC_PER_SEC / HRM_MEASURE_SCALE in
  let scaled_time := time / scaled_time in
  scaled_count / scaled_time.

(** The search of [hrm_seek_heart_rate]: the first matching window from [i] on. *)
Fixpoint seek_window (size i : Z) (sizes : list Z) (ms : list hrm_measure) : option (Z * Z) :=
  match sizes, ms with
  | ws :: sizes, m :: ms =>
      if (ws =? size) && negb (m_time m =? 0) then Some (i + 1, __hrm_compute_hr (m_count m) (m_time m))
      else seek_window size (i + 1) sizes ms
  | _, _ => None
  end.

(** The rate and the key; the goal lock is taken and released inside.  [None]
    stands for a NULL group. *)
Definition hrm_seek_heart_rate (g : option hrm_group) (size : Z) : Z * Z :=
  match g with
  | None => (0, - EFAULT)
  | Some G =>
      if HRM_MAX_WINDOW_SIZE <? size then (0, - EINVAL)
      else if size =? 0 then
        let m := measures_global G in
        (if negb (m_time m =? 0) then __hrm_compute_hr (m_count m) (m_time m) else 0, 0)
      else
        match seek_window size 0 (window_size (goal G)) (measures_window G) with
        | Some (key, hr) => (hr, key)
        | None => (0, - EINVAL)
        end
  end.

(** The rate and the window size. *)
Definition hrm_get_heart_rate (g : option hrm_group) (key : Z) : Z * Z :=
  match g with
  | None => (0, HRM_MAX_WINDOW_SIZE)
  | Some G =>
      if (key <? 0) || (HRM_MAX_WINDOWS <? key) then (0, HRM_MAX_WINDOW_SIZE)
      else if key =? 0 then
        let m := measures_global G in
        (if negb (m_time m =? 0) then __hrm_compute_hr (m_count m) (m_time m) else 0, 0)
      else
        let size := window_size (goal G) !!! Z.to_nat (key - 1) in
        let m := measures_window G !!! Z.to_nat (key - 1) in
        if negb (size =? 0) && negb (m_time m =? 0) then (__hrm_compute_hr (m_count m) (m_time m), size)
        else (0, HRM_MAX_WINDOW_SIZE)
  end.

Definition hrm_get_min_heart_rate (g : option hrm_group) : Z * Z :=
  match g with
  | None => (0, HRM_MAX_WINDOW_SIZE)
  | Some G => (min_heart_rate (goal G), scope (goal G))
  end.
Definition hrm_get_max_heart_rate (g : option hrm_group) : Z * Z :=
  match g with
  | None => (0, HRM_MAX_WINDOW_SIZE)
  | Some G => (max_heart_rate (goal G), scope (goal G))
  end.
End hrm_ops.
