(* ===== verification/HrmInv.v ===== *)
(** * The invariant of the heart-rate monitor

    [hrm_ok]: the lists of groups, of members of a group and of memberships of a
    task describe the same live objects; the counters in use are exactly those of
    the producers, one each; the listed groups have distinct ids and at least one
    member.  Hence no list ever leads to a freed object.  [hrm_reach] are the
    states reachable by any sequence of the operations, timer ticks and writes by
    user space to the shared pages. *)

From S2P Require Export Hrm.

Section inv.
Context `{HrmConfig}.
Implicit Types (h : hrm) (g p c t : Z) (G : hrm_group).

Definition live h g : Prop := is_Some (h_groups h !! g).

(** A group and its members. *)
Record group_ok (ps : gmap Z hrm_producer) (cs : gmap Z hrm_consumer) g G : Prop := {
  go_bits : words_ok (counters_allocation G) ∧ HRM_GROUP_SIZE ≤ 64 * Z.of_nat (length (counters_allocation G));
  go_prods : ∀ p, p ∈ producers G ↔ ∃ P, ps !! p = Some P ∧ p_group P = g;
  go_cons : ∀ c, c ∈ consumers G ↔ cs !! c = Some (mk_consumer g);
  go_nodup : NoDup (producers G) ∧ NoDup (consumers G);
  go_index : ∀ p, p ∈ producers G → 0 ≤ counter_index (ps !!! p) < HRM_GROUP_SIZE;
  go_own : ∀ p q, p ∈ producers G → q ∈ producers G → counter_index (ps !!! p) = counter_index (ps !!! q) → p = q;
  go_used : ∀ i, 0 ≤ i < HRM_GROUP_SIZE →
    bit i (counters_allocation G) = true ↔ ∃ p, p ∈ producers G ∧ counter_index (ps !!! p) = i;
}.

(** [pend] is a group that was created and is not yet in the list. *)
Record hrm_inv (pend : option Z) h : Prop := {
  hi_nodup : NoDup (hrm_groups h);
  hi_list : ∀ g, g ∈ hrm_groups h ↔ live h g ∧ pend ≠ Some g;
  hi_gids : ∀ g g', live h g → live h g' → gid (grp h g) = gid (grp h g') → g = g';
  hi_group : ∀ g G, h_groups h !! g = Some G → group_ok (h_producers h) (h_consumers h) g G;
  hi_members : ∀ g G, h_groups h !! g = Some G →
    (pend = Some g ↔ producers G = [] ∧ consumers G = []);
  hi_prod : ∀ p P, h_producers h !! p = Some P →
    live h (p_group P) ∧ p ∈ hrm_producers (htask h (p_task P));
  hi_cons : ∀ c g, h_consumers h !! c = Some (mk_consumer g) → live h g ∧ ∃ t, c ∈ hrm_consumers (htask h t);
  hi_ptask : ∀ t p, p ∈ hrm_producers (htask h t) → ∃ P, h_producers h !! p = Some P ∧ p_task P = t;
  hi_ctask : ∀ t c, c ∈ hrm_consumers (htask h t) → is_Some (h_consumers h !! c);
  hi_cone : ∀ t t' c, c ∈ hrm_consumers (htask h t) → c ∈ hrm_consumers (htask h t') → t = t';
  hi_tnodup : ∀ t, NoDup (hrm_producers (htask h t)) ∧ NoDup (hrm_consumers (htask h t));
  hi_once : ∀ t p q, p ∈ hrm_producers (htask h t) → q ∈ hrm_producers (htask h t) →
    p_group (prod_of h p) = p_group (prod_of h q) → p = q;
}.
Definition hrm_ok h : Prop := hrm_inv None h.

(** ** Reading after writing *)
Lemma groups_upd h g f x :
  h_groups (upd_group g f h) !! x = if decide (g = x) then Some (f (grp h g)) else h_groups h !! x.
Proof. unfold upd_group, mem_upd, update. simpl. rewrite lookup_insert. done. Qed.
Lemma grp_upd h g f x : grp (upd_group g f h) x = if decide (g = x) then f (grp h g) else grp h x.
Proof. apply mem_upd_get. Qed.
Lemma htask_upd h t f x : htask (upd_htask t f h) x = if decide (t = x) then f (htask h t) else htask h x.
Proof. apply mem_upd_get. Qed.
Lemma live_grp h g : live h g → h_groups h !! g = Some (grp h g).
Proof. intros [G E]. unfold grp. by rewrite (lookup_total_correct _ _ _ E). Qed.
Lemma grp_some h g G : h_groups h !! g = Some G → grp h g = G.
Proof. apply lookup_total_correct. Qed.
Lemma prod_some h p P : h_producers h !! p = Some P → prod_of h p = P.
Proof. apply lookup_total_correct. Qed.
Lemma elem_of_unlist p q l : q ∈ unlist p l ↔ q ≠ p ∧ q ∈ l.
Proof. unfold unlist. by rewrite list_elem_of_filter. Qed.
Lemma NoDup_unlist p l : NoDup l → NoDup (unlist p l).
Proof. apply NoDup_filter. Qed.

(** ** Updates the invariant does not see *)
Definition gview G : Z * bitmap * list Z * list Z := (gid G, counters_allocation G, producers G, consumers G).

Lemma inv_group_view pend h g f :
  hrm_inv pend h → live h g → gview (f (grp h g)) = gview (grp h g) → hrm_inv pend (upd_group g f h).
Proof.
  intros [H1 H2 H3 H4 H5 H6 H7 H8 H9 H10 H11 H12] Hl Hf. apply live_grp in Hl as Hg.
  assert (∀ x, live (upd_group g f h) x ↔ live h x) as Hlive.
  { intros x. unfold live. rewrite groups_upd. case_decide; [subst; rewrite Hg; naive_solver|done]. }
  assert (∀ x, gid (grp (upd_group g f h) x) = gid (grp h x)) as Hgid.
  { intros x. rewrite grp_upd. case_decide; [subst|done]. by injection Hf. }
  split; try done.
  - intros x. by rewrite Hlive.
  - intros x y. rewrite !Hlive, !Hgid. auto.
  - intros x X. rewrite groups_upd. case_decide; [|apply H4]. intros [= <-]. subst x.
    destruct (H4 g (grp h g) Hg). injection Hf as E1 E2 E3 E4.
    split; rewrite ?E2, ?E3, ?E4; done.
  - intros x X. rewrite groups_upd. case_decide; [|apply H5]. intros [= <-]. subst x.
    injection Hf as E1 E2 E3 E4. rewrite E3, E4. by apply H5.
  - intros p P Hp. rewrite Hlive. by apply H6.
  - intros c x Hc. rewrite Hlive. by apply H7.
Qed.

(** ** A new group *)
Lemma inv_create h g id :
  0 ≤ HRM_GROUP_SIZE → hrm_ok h → h_groups h !! g = None → (∀ x, live h x → gid (grp h x) ≠ id) →
  hrm_inv (Some g) (h <| h_groups ::= <[g := zeroed_group id]> |>).
Proof.
  intros Hs [H1 H2 H3 H4 H5 H6 H7 H8 H9 H10 H11 H12] Hg Hid. set (h' := h <| h_groups ::= _ |>).
  assert (∀ x, h_groups h' !! x = if decide (g = x) then Some (zeroed_group id) else h_groups h !! x) as Eg.
  { intros x. unfold h', update. simpl. by rewrite lookup_insert. }
  assert (∀ x, live h' x ↔ x = g ∨ live h x) as Hlive.
  { intros x. unfold live. rewrite Eg. case_decide; naive_solver. }
  assert (∀ x, grp h' x = if decide (g = x) then zeroed_group id else grp h x) as Egrp.
  { intros x. unfold grp. unfold h', update. simpl. by rewrite lookup_total_insert. }
  assert (∀ x, live h x → x ≠ g) as Hne by (intros x [X E] ->; congruence).
  split; try done.
  - intros x. rewrite Hlive. specialize (H2 x). specialize (Hne x). split; [naive_solver|].
    intros [[->|Hx] Hn]; [done|]. naive_solver.
  - intros x y. rewrite !Hlive, !Egrp. intros Hx Hy.
    destruct (decide (g = x)) as [<-|Nx], (decide (g = y)) as [<-|Ny]; [done|..].
    + destruct Hy as [->|Hy]; [done|]. intros E. by destruct (Hid y Hy).
    + destruct Hx as [->|Hx]; [done|]. intros E. by destruct (Hid x Hx).
    + destruct Hx as [->|Hx], Hy as [->|Hy]; try done. by apply H3.
  - intros x X. rewrite Eg. case_decide; [|by apply H4]. intros [= <-]. subst x.
    destruct (bitmap_zero_ok HRM_GROUP_SIZE Hs) as (Hw & Hlen & Hbit). split; simpl.
    + done.
    + intros p. split; [by intros ?%elem_of_nil|]. intros (P & Hp & Eq). destruct (H6 p P Hp) as [Hl _].
      rewrite Eq in Hl. by destruct (Hne g Hl).
    + intros c. split; [by intros ?%elem_of_nil|]. intros Hc. destruct (H7 c g Hc) as [Hl _]. by destruct (Hne g Hl).
    + split; constructor.
    + by intros p ?%elem_of_nil.
    + by intros p q ?%elem_of_nil.
    + intros i Hi. rewrite Hbit by done. split; [done|]. by intros (p & ?%elem_of_nil & _).
  - intros x X. rewrite Eg. case_decide; [naive_solver|]. intros HX. split; [congruence|].
    intros Hn. by apply (H5 x X HX) in Hn.
  - intros p P Hp. rewrite Hlive. naive_solver.
  - intros c x Hc. rewrite Hlive. naive_solver.
Qed.

(** A pending group may be destroyed. *)
Lemma inv_destroy_pending h g : hrm_inv (Some g) h → hrm_ok (__hrm_destroy_group g h).
Proof.
  intros [H1 H2 H3 H4 H5 H6 H7 H8 H9 H10 H11 H12]. set (h' := __hrm_destroy_group g h).
  assert (∀ x, h_groups h' !! x = if decide (g = x) then None else h_groups h !! x) as Eg.
  { intros x. unfold h', __hrm_destroy_group, update. simpl. by rewrite lookup_delete. }
  assert (∀ x, live h' x ↔ x ≠ g ∧ live h x) as Hlive.
  { intros x. unfold live. rewrite Eg. case_decide; [|naive_solver]. split; [by intros [? ?]|naive_solver]. }
  assert (∀ x, x ≠ g → grp h' x = grp h x) as Egrp.
  { intros x Hx. unfold grp, h', __hrm_destroy_group, update. simpl. by rewrite lookup_total_delete_ne. }
  assert (∀ x, live h x → (∃ y, y ∈ producers (grp h x) ++ consumers (grp h x)) → x ≠ g) as Hm.
  { intros x Hx [y Hy] ->. apply live_grp in Hx. destruct (proj1 (H5 _ _ Hx) eq_refl) as [E1 E2].
    rewrite E1, E2 in Hy. by apply elem_of_nil in Hy. }
  split; try done.
  - intros x. rewrite Hlive. change (hrm_groups h') with (hrm_groups h). rewrite H2. naive_solver.
  - intros x y. rewrite !Hlive. intros [Hx1 Hx2] [Hy1 Hy2]. rewrite !Egrp by done. by apply H3.
  - intros x X. rewrite Eg. case_decide; [done|]. by apply H4.
  - intros x X. rewrite Eg. case_decide; [done|]. intros HX. split; [done|]. intros Hn. apply (H5 x X HX) in Hn. congruence.
  - intros p P Hp. destruct (H6 p P Hp) as [Hl Ht]. split; [|done]. rewrite Hlive. split; [|done].
    apply Hm; [done|]. exists p. apply elem_of_app. left. by apply (H4 _ _ (live_grp _ _ Hl)); eauto.
  - intros c x Hc. destruct (H7 c x Hc) as [Hl Ht]. split; [|done]. rewrite Hlive. split; [|done].
    apply Hm; [done|]. exists c. apply elem_of_app. right. by apply (H4 _ _ (live_grp _ _ Hl)).
Qed.

(** ** Members come and go *)

(** The groups of [h'] are those of [h], with [g] looking like [v]. *)
Definition only_group h h' g (v : Z * bitmap * list Z * list Z) : Prop :=
  (∀ x, x ≠ g → h_groups h' !! x = h_groups h !! x) ∧ ∃ G, h_groups h' !! g = Some G ∧ gview G = v.

Lemma only_group_live h h' g v : live h g → only_group h h' g v → ∀ x, live h' x ↔ live h x.
Proof.
  intros Hg [Ho (G & E & _)] x. unfold live. destruct (decide (x = g)) as [->|Hne]; [|by rewrite Ho].
  rewrite E. naive_solver.
Qed.
Lemma only_group_gid h h' g bm ps cs x :
  only_group h h' g (gid (grp h g), bm, ps, cs) → gid (grp h' x) = gid (grp h x).
Proof.
  intros [Ho (G & E & Ev)]. destruct (decide (x = g)) as [->|Hne].
  - rewrite (grp_some _ _ _ E). by injection Ev.
  - unfold grp. by rewrite !lookup_total_alt, Ho.
Qed.

Lemma group_ok_add ps cs g G G' p t i :
  group_ok ps cs g G → ps !! p = None → 0 ≤ i < HRM_GROUP_SIZE → bit i (counters_allocation G) = false →
  gview G' = (gid G, __set_bit i (counters_allocation G), p :: producers G, consumers G) →
  group_ok (<[p := mk_producer t i g]> ps) cs g G'.
Proof.
  intros [[Hw Hlen] Hp Hc [Hn1 Hn2] Hi Hown Hu] Hps Hir Hbit [= E1 E2 E3 E4].
  assert (p ∉ producers G) as Hnp by (intros (P & ? & _)%Hp; congruence).
  assert (∀ q, q ∈ producers G → <[p := mk_producer t i g]> ps !!! q = ps !!! q) as Hq.
  { intros q Hq. apply lookup_total_insert_ne. by intros <-. }
  assert (∀ q, q ∈ producers G → counter_index (ps !!! q) ≠ i) as Hni.
  { intros q Hq' Eq. assert (bit i (counters_allocation G) = true) by (apply Hu; eauto). congruence. }
  split; rewrite ?E2, ?E3, ?E4.
  - rewrite length_set_bit. split; [by apply words_ok_set|done].
  - intros q. rewrite elem_of_cons, Hp. destruct (decide (p = q)) as [<-|Hne].
    + rewrite lookup_insert_eq. naive_solver.
    + rewrite lookup_insert_ne by done. naive_solver.
  - done.
  - split; [by constructor|done].
  - intros q [->|Hq']%elem_of_cons; [by rewrite lookup_total_insert_eq|rewrite Hq by done; by apply Hi].
  - intros q r [->|Hq']%elem_of_cons [->|Hr']%elem_of_cons; rewrite ?lookup_total_insert_eq, ?Hq by done; simpl.
    + done.
    + intros E. by destruct (Hni r Hr').
    + intros E. by destruct (Hni q Hq').
    + by apply Hown.
  - intros j Hj. rewrite bit_set by lia. destruct (decide (j = i)) as [->|Hne].
    + rewrite Z.eqb_refl. split; [|done]. intros _. exists p.
      rewrite lookup_total_insert_eq. split; [by left|done].
    + rewrite (proj2 (Z.eqb_neq j i) Hne). cbn [orb]. rewrite Hu by done. split.
      * intros (q & Hq' & E). exists q. rewrite Hq by done. split; [by right|done].
      * intros (q & [->|Hq']%elem_of_cons & E); [rewrite lookup_total_insert_eq in E; by destruct Hne|].
        exists q. by rewrite Hq in E.
Qed.

(** A group is not affected by producers of other groups. *)
Lemma group_ok_other ps ps' cs g G :
  (∀ p, (∃ P, ps' !! p = Some P ∧ p_group P = g) ↔ (∃ P, ps !! p = Some P ∧ p_group P = g)) →
  (∀ p, p ∈ producers G → ps' !!! p = ps !!! p) → group_ok ps cs g G → group_ok ps' cs g G.
Proof.
  intros Hiff Heq [H1 H2 H3 H4 H5 H6 H7]. split; try done.
  - intros p. rewrite Hiff. apply H2.
  - intros p Hp. rewrite Heq by done. by apply H5.
  - intros p q Hp Hq. rewrite !Heq by done. by apply H6.
  - intros i Hi. rewrite H7 by done. split; intros (p & Hp & E); exists p; rewrite Heq in * by done; done.
Qed.

Lemma inv_add_producer pend h h' g p t i :
  hrm_inv pend h → live h g → pend = None ∨ pend = Some g →
  h_producers h !! p = None → (∀ q, q ∈ hrm_producers (htask h t) → p_group (prod_of h q) ≠ g) →
  0 ≤ i < HRM_GROUP_SIZE → bit i (counters_allocation (grp h g)) = false →
  only_group h h' g (gid (grp h g), __set_bit i (counters_allocation (grp h g)),
                     p :: producers (grp h g), consumers (grp h g)) →
  h_producers h' = <[p := mk_producer t i g]> (h_producers h) → h_consumers h' = h_consumers h →
  (∀ x, hrm_producers (htask h' x) = if decide (t = x) then p :: hrm_producers (htask h t) else hrm_producers (htask h x)) →
  (∀ x, hrm_consumers (htask h' x) = hrm_consumers (htask h x)) →
  hrm_groups h' = (if decide (pend = None) then hrm_groups h else g :: hrm_groups h) →
  hrm_ok h'.
Proof.
  intros [H1 H2 H3 H4 H5 H6 H7 H8 H9 H10 H11 H12] Hg Hpend Hp Hone Hi Hbit Hog Ep Ec Etp Etc Egs.
  pose proof (only_group_live _ _ _ _ Hg Hog) as Hlive.
  pose proof (λ x, only_group_gid _ _ _ _ _ _ x Hog) as Hgid.
  destruct Hog as [Ho (G' & EG' & Ev)]. pose proof (live_grp h g Hg) as Eg.
  assert (∀ q P, h_producers h !! q = Some P → q ≠ p) as Hnp by (intros q P E ->; congruence).
  assert (∀ q, q ≠ p → prod_of h' q = prod_of h q) as Eprod.
  { intros q Hq. unfold prod_of. rewrite Ep. by rewrite lookup_total_insert_ne. }
  assert (prod_of h' p = mk_producer t i g) as Eprodp by (unfold prod_of; by rewrite Ep, lookup_total_insert_eq).
  assert (∀ x q, q ∈ hrm_producers (htask h x) → q ≠ p) as Htp.
  { intros x q Hq. destruct (H8 x q Hq) as (P & E & _). by apply (Hnp q P). }
  split.
  - rewrite Egs. destruct (decide (pend = None)); [done|]. constructor; [|done]. rewrite H2. naive_solver.
  - intros x. rewrite Hlive, Egs. destruct (decide (pend = None)); [rewrite H2; naive_solver|].
    rewrite elem_of_cons, H2. destruct (decide (x = g)) as [->|]; naive_solver.
  - intros x y. rewrite !Hlive, !Hgid. apply H3.
  - intros x X HX. rewrite Ep, Ec. destruct (decide (x = g)) as [->|Hne].
    + rewrite EG' in HX. injection HX as <-. by apply (group_ok_add _ _ _ (grp h g)); [apply H4|..].
    + rewrite Ho in HX by done. apply (group_ok_other (h_producers h)); [| |by apply H4].
      * intros q. destruct (decide (p = q)) as [<-|Hq]; [|by rewrite lookup_insert_ne].
        rewrite lookup_insert_eq, Hp. split; [intros (P & [= <-] & E); by destruct Hne|by intros (P & ? & _)].
      * intros q Hq. apply lookup_total_insert_ne. intros <-. apply (H4 _ _ HX) in Hq as (P & ? & _). congruence.
  - intros x X HX. split; [done|]. destruct (decide (x = g)) as [->|Hne].
    + rewrite EG' in HX. injection HX as <-. injection Ev as _ _ -> _. by intros [? _].
    + rewrite Ho in HX by done. intros Hn. apply (H5 x X HX) in Hn. naive_solver.
  - intros q P. rewrite Ep. destruct (decide (p = q)) as [<-|Hq].
    + rewrite lookup_insert_eq. intros [= <-]. simpl. rewrite Hlive, Etp, decide_True by done. split; [done|by left].
    + rewrite lookup_insert_ne by done. intros HP. destruct (H6 q P HP) as [Hl Ht]. rewrite Hlive, Etp.
      split; [done|]. destruct (decide (t = p_task P)) as [E|]; [rewrite <- E in Ht; by right|done].
  - intros c x. rewrite Ec, Hlive. intros Hc. destruct (H7 c x Hc) as [Hl [y Hy]]. split; [done|]. exists y. by rewrite Etc.
  - intros x q. rewrite Etp, Ep. destruct (decide (t = x)); [subst x; rewrite elem_of_cons|].
    + intros [->|Hq]; [rewrite lookup_insert_eq; by eexists|]. rewrite lookup_insert_ne by (symmetry; by eapply Htp).
      by apply H8.
    + intros Hq. rewrite lookup_insert_ne by (symmetry; by eapply Htp). by apply H8.
  - intros x c. rewrite Etc, Ec. apply H9.
  - intros x y c. rewrite !Etc. apply H10.
  - intros x. rewrite Etp, Etc. destruct (H11 x). destruct (decide (t = x)); [subst x|done]. split; [|done]. constructor; [|done].
    intros Hq. by eapply Htp.
  - intros x q r. rewrite Etp. destruct (decide (t = x)); [subst x|].
    + rewrite !elem_of_cons. intros [->|Hq] [->|Hr]; [done|..].
      * rewrite Eprodp, Eprod by (by eapply Htp). intros E. by destruct (Hone r Hr).
      * rewrite Eprodp, Eprod by (by eapply Htp). intros E. by destruct (Hone q Hq).
      * rewrite !Eprod by (by eapply Htp). by apply (H12 t).
    + intros Hq Hr. rewrite !Eprod by (by eapply Htp). by apply (H12 x).
Qed.

Lemma group_ok_remove ps cs g G G' p :
  group_ok ps cs g G → p ∈ producers G →
  gview G' = (gid G, __clear_bit (counter_index (ps !!! p)) (counters_allocation G), unlist p (producers G), consumers G) →
  group_ok (delete p ps) cs g G'.
Proof.
  intros [[Hw Hlen] Hp Hc [Hn1 Hn2] Hi Hown Hu] Hin [= E1 E2 E3 E4].
  assert (∀ q, q ≠ p → delete p ps !!! q = ps !!! q) as Hq by (intros q Hq; by apply lookup_total_delete_ne).
  specialize (Hi p Hin) as Hip.
  split; rewrite ?E2, ?E3, ?E4.
  - rewrite length_clear_bit. split; [by apply words_ok_clear|done].
  - intros q. rewrite elem_of_unlist, Hp. destruct (decide (p = q)) as [<-|Hne].
    + rewrite lookup_delete_eq. naive_solver.
    + rewrite lookup_delete_ne by done. naive_solver.
  - done.
  - split; [by apply NoDup_unlist|done].
  - intros q [Hne Hq']%elem_of_unlist. rewrite Hq by done. by apply Hi.
  - intros q r [Hne Hq']%elem_of_unlist [Hne' Hr']%elem_of_unlist. rewrite !Hq by done. by apply Hown.
  - intros j Hj. rewrite bit_clear by lia. split.
    + intros [Hne Hb]%andb_true_iff. apply negb_true_iff, Z.eqb_neq in Hne. apply Hu in Hb as (q & Hq' & E); [|done].
      assert (q ≠ p) by (intros ->; congruence). exists q. rewrite elem_of_unlist, Hq by done. done.
    + intros (q & [Hne Hq']%elem_of_unlist & E). rewrite Hq in E by done. apply andb_true_iff. split.
      * apply negb_true_iff, Z.eqb_neq. intros Ej. apply Hne. apply Hown; [done|done|congruence].
      * apply Hu; eauto.
Qed.

Lemma inv_remove_producer h h' p P :
  hrm_ok h → h_producers h !! p = Some P →
  let g := p_group P in
  let t := p_task P in
  let G := grp h g in
  let empty := unlist p (producers G) = [] ∧ consumers G = [] in
  only_group h h' g (gid G, __clear_bit (counter_index P) (counters_allocation G),
                     unlist p (producers G), consumers G) →
  h_producers h' = delete p (h_producers h) → h_consumers h' = h_consumers h →
  (∀ x, hrm_producers (htask h' x) = if decide (t = x) then unlist p (hrm_producers (htask h t)) else hrm_producers (htask h x)) →
  (∀ x, hrm_consumers (htask h' x) = hrm_consumers (htask h x)) →
  hrm_groups h' = (if decide empty then unlist g (hrm_groups h) else hrm_groups h) →
  hrm_inv (if decide empty then Some g else None) h'.
Proof.
  intros [H1 H2 H3 H4 H5 H6 H7 H8 H9 H10 H11 H12] HP. cbv zeta.
  set (g := p_group P). set (t := p_task P). set (G := grp h g).
  set (empty := unlist p (producers G) = [] ∧ consumers G = []). intros Hog Ep Ec Etp Etc Egs.
  destruct (H6 p P HP) as [Hg Ht]. fold g in Hg. fold t in Ht.
  pose proof (only_group_live _ _ _ _ Hg Hog) as Hlive.
  pose proof (λ x, only_group_gid _ _ _ _ _ _ x Hog) as Hgid.
  destruct Hog as [Ho (G' & EG' & Ev)]. pose proof (live_grp h g Hg) as Eg. fold G in Eg.
  assert (p ∈ producers G) as HpG by (apply (H4 _ _ Eg); eauto).
  assert (∀ q, q ≠ p → prod_of h' q = prod_of h q) as Eprod.
  { intros q Hq. unfold prod_of. rewrite Ep. by rewrite lookup_total_delete_ne. }
  assert (∀ x q, x ≠ t → q ∈ hrm_producers (htask h x) → q ≠ p) as Htp.
  { intros x q Hx Hq ->. destruct (H8 x p Hq) as (Q & E & Ex). rewrite HP in E. injection E as <-. done. }
  assert (∀ x q, q ∈ hrm_producers (htask h' x) ↔ q ≠ p ∧ q ∈ hrm_producers (htask h x)) as Hin.
  { intros x q. rewrite Etp. destruct (decide (t = x)) as [<-|Hne]; [apply elem_of_unlist|].
    split; [|naive_solver]. intros Hq. split; [|done]. apply (Htp x); [congruence|done]. }
  split.
  - rewrite Egs. destruct (decide empty); [by apply NoDup_unlist|done].
  - intros x. rewrite Hlive, Egs. destruct (decide empty); rewrite ?elem_of_unlist, H2; naive_solver.
  - intros x y. rewrite !Hlive, !Hgid. apply H3.
  - intros x X HX. rewrite Ep, Ec. destruct (decide (x = g)) as [->|Hne].
    + rewrite EG' in HX. injection HX as <-. apply (group_ok_remove _ _ _ G); [by apply H4|done|].
      by rewrite (lookup_total_correct _ _ _ HP).
    + rewrite Ho in HX by done. apply (group_ok_other (h_producers h)); [| |by apply H4].
      * intros q. destruct (decide (p = q)) as [<-|Hq]; [|by rewrite lookup_delete_ne].
        rewrite lookup_delete_eq, HP. split; [by intros (Q & ? & _)|intros (Q & [= <-] & E); by destruct Hne].
      * intros q Hq. apply lookup_total_delete_ne. intros <-. apply (H4 _ _ HX) in Hq as (Q & E & EQ).
        rewrite HP in E. injection E as <-. by destruct Hne.
  - intros x X HX. destruct (decide (x = g)) as [->|Hne].
    + rewrite EG' in HX. injection HX as <-. injection Ev as _ _ -> ->. fold empty. destruct (decide empty); naive_solver.
    + rewrite Ho in HX by done. pose proof (H5 x X HX) as Hn. destruct (decide empty); naive_solver.
  - intros q Q. rewrite Ep. intros [Hq HQ]%lookup_delete_Some. destruct (H6 q Q HQ) as [Hl Hq'].
    rewrite Hlive, Hin. split; [done|]. split; [congruence|done].
  - intros c x. rewrite Ec, Hlive. intros Hc. destruct (H7 c x Hc) as [Hl [y Hy]]. split; [done|]. exists y. by rewrite Etc.
  - intros x q. rewrite Hin, Ep. intros [Hq Hx]. rewrite lookup_delete_ne by done. by apply H8.
  - intros x c. rewrite Etc, Ec. apply H9.
  - intros x y c. rewrite !Etc. apply H10.
  - intros x. rewrite Etp, Etc. destruct (H11 x), (H11 t). destruct (decide (t = x)); [|done]. split; [by apply NoDup_unlist|done].
  - intros x q r. rewrite !Hin. intros [Hq Hqx] [Hr Hrx]. rewrite !Eprod by done. by apply (H12 x).
Qed.

(** Only the consumers of a group change. *)
Lemma group_ok_cons ps cs cs' g G G' l :
  group_ok ps cs g G → gview G' = (gid G, counters_allocation G, producers G, l) →
  NoDup l → (∀ c, c ∈ l ↔ cs' !! c = Some (mk_consumer g)) → group_ok ps cs' g G'.
Proof. intros [H1 H2 H3 [H4 _] H5 H6 H7] [= E1 E2 E3 E4] Hn Hc. by split; rewrite ?E2, ?E3, ?E4. Qed.

Lemma inv_add_consumer pend h h' g c t :
  hrm_inv pend h → live h g → pend = None ∨ pend = Some g → h_consumers h !! c = None →
  only_group h h' g (gid (grp h g), counters_allocation (grp h g), producers (grp h g), c :: consumers (grp h g)) →
  h_producers h' = h_producers h → h_consumers h' = <[c := mk_consumer g]> (h_consumers h) →
  (∀ x, hrm_consumers (htask h' x) = if decide (t = x) then c :: hrm_consumers (htask h t) else hrm_consumers (htask h x)) →
  (∀ x, hrm_producers (htask h' x) = hrm_producers (htask h x)) →
  hrm_groups h' = (if decide (pend = None) then hrm_groups h else g :: hrm_groups h) →
  hrm_ok h'.
Proof.
  intros [H1 H2 H3 H4 H5 H6 H7 H8 H9 H10 H11 H12] Hg Hpend Hc Hog Ep Ec Etc Etp Egs.
  pose proof (only_group_live _ _ _ _ Hg Hog) as Hlive.
  pose proof (λ x, only_group_gid _ _ _ _ _ _ x Hog) as Hgid.
  destruct Hog as [Ho (G' & EG' & Ev)]. pose proof (live_grp h g Hg) as Eg.
  assert (∀ q, prod_of h' q = prod_of h q) as Eprod by (intros q; unfold prod_of; by rewrite Ep).
  assert (∀ x d, d ∈ hrm_consumers (htask h x) → d ≠ c) as Htc.
  { intros x d Hd ->. destruct (H9 x c Hd). congruence. }
  assert (∀ x d, d ∈ hrm_consumers (htask h' x) ↔ (t = x ∧ d = c) ∨ d ∈ hrm_consumers (htask h x)) as Hin.
  { intros x d. rewrite Etc. destruct (decide (t = x)) as [<-|]; [rewrite elem_of_cons|]; naive_solver. }
  destruct (go_nodup _ _ _ _ (H4 _ _ Eg)) as [_ Hnd].
  split.
  - rewrite Egs. destruct (decide (pend = None)); [done|]. constructor; [|done]. rewrite H2. naive_solver.
  - intros x. rewrite Hlive, Egs. destruct (decide (pend = None)); [rewrite H2; naive_solver|].
    rewrite elem_of_cons, H2. destruct (decide (x = g)) as [->|]; naive_solver.
  - intros x y. rewrite !Hlive, !Hgid. apply H3.
  - intros x X HX. rewrite Ep, Ec. destruct (decide (x = g)) as [->|Hne].
    + rewrite EG' in HX. injection HX as <-. apply (group_ok_cons _ _ _ _ (grp h g) _ _ (H4 _ _ Eg) Ev).
      * constructor; [|done]. rewrite (go_cons _ _ _ _ (H4 _ _ Eg)). by rewrite Hc.
      * intros d. rewrite elem_of_cons, (go_cons _ _ _ _ (H4 _ _ Eg)).
        destruct (decide (c = d)) as [<-|]; [rewrite lookup_insert_eq|rewrite lookup_insert_ne by done]; naive_solver.
    + rewrite Ho in HX by done. apply (group_ok_cons _ _ _ _ X X (consumers X) (H4 _ _ HX)); [done|apply (H4 _ _ HX)|].
      intros d. rewrite (go_cons _ _ _ _ (H4 _ _ HX)).
      destruct (decide (c = d)) as [<-|]; [rewrite lookup_insert_eq|rewrite lookup_insert_ne by done]; naive_solver.
  - intros x X HX. split; [done|]. destruct (decide (x = g)) as [->|Hne].
    + rewrite EG' in HX. injection HX as <-. injection Ev as _ _ _ ->. by intros [_ ?].
    + rewrite Ho in HX by done. intros Hn. apply (H5 x X HX) in Hn. naive_solver.
  - intros q P. rewrite Ep, Hlive, Etp. apply H6.
  - intros d x. rewrite Ec, Hlive. destruct (decide (c = d)) as [<-|Hne].
    + rewrite lookup_insert_eq. intros [= <-]. split; [done|]. exists t. rewrite Hin. by left.
    + rewrite lookup_insert_ne by done. intros Hd. destruct (H7 d x Hd) as [Hl [y Hy]]. split; [done|].
      exists y. rewrite Hin. by right.
  - intros x q. rewrite Etp, Ep. apply H8.
  - intros x d. rewrite Hin, Ec. intros [[_ ->]|Hd]; [rewrite lookup_insert_eq; by eexists|].
    rewrite lookup_insert_ne by (symmetry; by eapply Htc). by apply (H9 x).
  - intros x y d. rewrite !Hin. intros [[<- ->]|Hx] [[<- E]|Hy]; try done.
    + by destruct (Htc y c Hy).
    + subst. by destruct (Htc x c Hx).
    + by apply (H10 x y d).
  - intros x. rewrite Etp, Etc. destruct (H11 x). destruct (decide (t = x)); [subst x|done]. split; [done|].
    constructor; [|done]. intros Hd. by apply (Htc t c).
  - intros x q r. rewrite Etp, !Eprod. apply H12.
Qed.

Lemma inv_remove_consumer h h' c g t :
  hrm_ok h → h_consumers h !! c = Some (mk_consumer g) → c ∈ hrm_consumers (htask h t) →
  let G := grp h g in
  let empty := producers G = [] ∧ unlist c (consumers G) = [] in
  only_group h h' g (gid G, counters_allocation G, producers G, unlist c (consumers G)) →
  h_producers h' = h_producers h → h_consumers h' = delete c (h_consumers h) →
  (∀ x, hrm_consumers (htask h' x) = if decide (t = x) then unlist c (hrm_consumers (htask h t)) else hrm_consumers (htask h x)) →
  (∀ x, hrm_producers (htask h' x) = hrm_producers (htask h x)) →
  hrm_groups h' = (if decide empty then unlist g (hrm_groups h) else hrm_groups h) →
  hrm_inv (if decide empty then Some g else None) h'.
Proof.
  intros [H1 H2 H3 H4 H5 H6 H7 H8 H9 H10 H11 H12] Hc Hct. cbv zeta. set (G := grp h g).
  set (empty := producers G = [] ∧ unlist c (consumers G) = []). intros Hog Ep Ec Etc Etp Egs.
  destruct (H7 c g Hc) as [Hg _].
  pose proof (only_group_live _ _ _ _ Hg Hog) as Hlive.
  pose proof (λ x, only_group_gid _ _ _ _ _ _ x Hog) as Hgid.
  destruct Hog as [Ho (G' & EG' & Ev)]. pose proof (live_grp h g Hg) as Eg. fold G in Eg.
  assert (∀ q, prod_of h' q = prod_of h q) as Eprod by (intros q; unfold prod_of; by rewrite Ep).
  assert (∀ x d, d ∈ hrm_consumers (htask h' x) ↔ d ≠ c ∧ d ∈ hrm_consumers (htask h x)) as Hin.
  { intros x d. rewrite Etc. destruct (decide (t = x)) as [<-|Hne]; [apply elem_of_unlist|].
    split; [|naive_solver]. intros Hd. split; [|done]. intros ->. by apply Hne, (H10 t x c). }
  destruct (go_nodup _ _ _ _ (H4 _ _ Eg)) as [_ Hnd].
  split.
  - rewrite Egs. destruct (decide empty); [by apply NoDup_unlist|done].
  - intros x. rewrite Hlive, Egs. destruct (decide empty); rewrite ?elem_of_unlist, H2; naive_solver.
  - intros x y. rewrite !Hlive, !Hgid. apply H3.
  - intros x X HX. rewrite Ep, Ec. destruct (decide (x = g)) as [->|Hne].
    + rewrite EG' in HX. injection HX as <-. apply (group_ok_cons _ _ _ _ G _ _ (H4 _ _ Eg) Ev); [by apply NoDup_unlist|].
      intros d. rewrite elem_of_unlist, (go_cons _ _ _ _ (H4 _ _ Eg)), lookup_delete_Some. naive_solver.
    + rewrite Ho in HX by done. apply (group_ok_cons _ _ _ _ X X (consumers X) (H4 _ _ HX)); [done|apply (H4 _ _ HX)|].
      intros d. rewrite (go_cons _ _ _ _ (H4 _ _ HX)), lookup_delete_Some. naive_solver congruence.
  - intros x X HX. destruct (decide (x = g)) as [->|Hne].
    + rewrite EG' in HX. injection HX as <-. injection Ev as _ _ -> ->. fold empty. destruct (decide empty); naive_solver.
    + rewrite Ho in HX by done. pose proof (H5 x X HX) as Hn. destruct (decide empty); naive_solver.
  - intros q P. rewrite Ep, Hlive, Etp. apply H6.
  - intros d x. rewrite Ec, Hlive. intros [Hd Hx]%lookup_delete_Some. destruct (H7 d x Hx) as [Hl [y Hy]].
    split; [done|]. exists y. rewrite Hin. done.
  - intros x q. rewrite Etp, Ep. apply H8.
  - intros x d. rewrite Hin, Ec. intros [Hd Hx]. rewrite lookup_delete_ne by done. by apply (H9 x).
  - intros x y d. rewrite !Hin. intros [_ Hx] [_ Hy]. by apply (H10 x y d).
  - intros x. rewrite Etp, Etc. destruct (H11 x), (H11 t). destruct (decide (t = x)); [|done]. split; [done|by apply NoDup_unlist].
  - intros x q r. rewrite Etp, !Eprod. apply H12.
Qed.

(** ** The operations *)
Ltac same_view := let G := fresh "G" in let E := fresh "E" in
  intros G E; unfold gview in *; injection E as ????; simpl; congruence.

Lemma only_refl h g : live h g → only_group h h g (gview (grp h g)).
Proof. intros Hg. split; [done|]. exists (grp h g). by split; [apply live_grp|]. Qed.
Lemma only_upd h h1 g f v v' :
  only_group h h1 g v → (∀ G, gview G = v → gview (f G) = v') → only_group h (upd_group g f h1) g v'.
Proof.
  intros [Ho (G & E & Ev)] Hf. split.
  - intros x Hx. rewrite groups_upd, decide_False by done. by apply Ho.
  - rewrite groups_upd, decide_True by done. exists (f G). rewrite (grp_some _ _ _ E). auto.
Qed.
Lemma only_eq h h1 h2 g v : h_groups h2 = h_groups h1 → only_group h h1 g v → only_group h h2 g v.
Proof. unfold only_group. by intros ->. Qed.

Lemma find_group_some id h g : __hrm_find_group id h = Some g → g ∈ hrm_groups h ∧ gid (grp h g) = id.
Proof.
  unfold __hrm_find_group. intros E%head_Some_elem_of. apply list_elem_of_filter in E. naive_solver.
Qed.
Lemma find_group_none id h g : __hrm_find_group id h = None → g ∈ hrm_groups h → gid (grp h g) ≠ id.
Proof.
  unfold __hrm_find_group. intros E%head_None Hg Eg. eapply not_elem_of_nil. rewrite <- E.
  by apply list_elem_of_filter.
Qed.
Lemma find_producer_none t id h q :
  __hrm_find_producer_struct t id h = None → q ∈ hrm_producers (htask h t) → gid (grp h (p_group (prod_of h q))) ≠ id.
Proof.
  unfold __hrm_find_producer_struct. intros E%head_None Hq Eg. eapply not_elem_of_nil. rewrite <- E.
  by apply list_elem_of_filter.
Qed.
Lemma find_producer_some t id h p : __hrm_find_producer_struct t id h = Some p → p ∈ hrm_producers (htask h t).
Proof.
  unfold __hrm_find_producer_struct. intros E%head_Some_elem_of. apply list_elem_of_filter in E. naive_solver.
Qed.

Lemma link_producer_ok pend h g p t i bm now :
  hrm_inv pend h → live h g → pend = None ∨ pend = Some g ∧ timespec_to_ns (timestamp (grp h g)) = 0 →
  h_producers h !! p = None → (∀ q, q ∈ hrm_producers (htask h t) → p_group (prod_of h q) ≠ g) →
  0 ≤ i < HRM_GROUP_SIZE → bit i (counters_allocation (grp h g)) = false →
  bm = __set_bit i (counters_allocation (grp h g)) →
  hrm_ok (link_producer p t g i now (bool_decide (pend = None)) (upd_group g (λ G, G <| counters_allocation := bm |>) h)).
Proof.
  intros Hinv Hg Hpend Hp Hone Hi Hbit ->. set (h0 := upd_group g _ h). unfold link_producer. cbv zeta.
  set (h1 := h0 <| h_producers ::= _ |>). set (h2 := upd_group g _ h1). set (h3 := upd_htask t _ h2).
  set (h4 := upd_group g _ h3).
  assert (only_group h h4 g (gid (grp h g), __set_bit i (counters_allocation (grp h g)),
    p :: producers (grp h g), consumers (grp h g))) as Hog.
  { set (v := (gid (grp h g), __set_bit i (counters_allocation (grp h g)), producers (grp h g), consumers (grp h g))).
    assert (only_group h h0 g v) as Hog0.
    { apply (only_upd _ _ _ _ (gview (grp h g))); [by apply only_refl|]. unfold v. same_view. }
    assert (only_group h h2 g v) as Hog2 by (apply (only_upd _ _ _ _ v); [by apply (only_eq _ h0)|done]).
    apply (only_upd _ _ _ _ v); [by apply (only_eq _ h2)|]. unfold v. same_view. }
  assert (timestamp (grp h4 g) = timestamp (grp h g)) as Ets.
  { unfold h4. rewrite grp_upd, decide_True by done. change (timestamp (grp h3 g) = timestamp (grp h g)).
    change (timestamp (grp h2 g) = timestamp (grp h g)).
    unfold h2. rewrite grp_upd, decide_True by done. change (timestamp (grp h0 g) = timestamp (grp h g)).
    unfold h0. by rewrite grp_upd, decide_True by done. }
  assert (∀ x, hrm_producers (htask h4 x) = if decide (t = x) then p :: hrm_producers (htask h t) else hrm_producers (htask h x)) as Etp.
  { intros x. change (htask h4 x) with (htask h3 x). unfold h3. rewrite htask_upd. by case_decide. }
  assert (∀ x, hrm_consumers (htask h4 x) = hrm_consumers (htask h x)) as Etc.
  { intros x. change (htask h4 x) with (htask h3 x). unfold h3. rewrite htask_upd. case_decide; [by subst|done]. }
  assert (h_producers h4 = <[p := mk_producer t i g]> (h_producers h)) as Ep by done.
  assert (h_consumers h4 = h_consumers h) as Ec by done. assert (hrm_groups h4 = hrm_groups h) as Egs by done.
  rewrite Ets. clearbody h4. clear h0 h1 h2 h3 Ets.
  set (h5 := if bool_decide (pend = None) then h4 else __hrm_add_group g h4).
  assert (h_groups h5 = h_groups h4 ∧ h_producers h5 = h_producers h4 ∧ h_consumers h5 = h_consumers h4 ∧
    h_tasks h5 = h_tasks h4) as (Eg5 & Ep5 & Ec5 & Et5) by (unfold h5; by case_if).
  assert (hrm_groups h5 = if decide (pend = None) then hrm_groups h else g :: hrm_groups h) as Egs5.
  { unfold h5. destruct (decide (pend = None)); [rewrite bool_decide_true|rewrite bool_decide_false]; simpl; congruence. }
  set (b := timespec_to_ns _ =? 0). assert (b = true ∨ pend = None) as Hb.
  { unfold b. destruct Hpend as [?|[_ ->]]; auto. }
  clearbody b. apply (inv_add_producer pend h _ g p t i); try done; [naive_solver|..].
  - destruct b; [|done]. apply (only_upd _ _ _ _ _ _ (only_eq _ h4 h5 _ _ Eg5 Hog)). same_view.
  - destruct b; [|done]. change (h_producers h5 = <[p := mk_producer t i g]> (h_producers h)). by rewrite Ep5.
  - destruct b; [|done]. change (h_consumers h5 = h_consumers h). by rewrite Ec5.
  - intros x. destruct b; [|done]. rewrite <- Etp. change (hrm_producers (htask h5 x) = hrm_producers (htask h4 x)).
    unfold htask. by rewrite Et5.
  - intros x. destruct b; [|done]. rewrite <- Etc. change (hrm_consumers (htask h5 x) = hrm_consumers (htask h4 x)).
    unfold htask. by rewrite Et5.
  - destruct b; [done|]. destruct Hb as [|Hb]; [done|]. by rewrite decide_True.
Qed.

Lemma live_destroyed_alloc h g f : __hrm_destroy_group g (upd_group g f h) = __hrm_destroy_group g h.
Proof.
  unfold __hrm_destroy_group, upd_group, mem_upd, update. simpl. f_equal. by rewrite delete_insert_eq.
Qed.

Lemma add_producer_ok h p a now t id :
  0 < HRM_GROUP_SIZE → hrm_ok h → h_producers h !! p = None → h_groups h !! ga_group a = None →
  hrm_ok (hrm_add_producer_task_to_group p a now t id h).2.
Proof.
  intros Hs Hok Hp Hga. unfold hrm_add_producer_task_to_group.
  destruct (t =? NULL); [done|]. case_bool_decide as Hf; [done|]. destruct (p =? NULL); [done|].
  apply eq_None_not_Some in Hf.
  assert (∀ q, q ∈ hrm_producers (htask h t) → live h (p_group (prod_of h q))) as Hql.
  { intros q Hq. destruct (hi_ptask _ _ Hok t q Hq) as (P & E & _). rewrite (prod_some _ _ _ E).
    by apply (hi_prod _ _ Hok q P). }
  destruct (__hrm_find_group id h) as [g|] eqn:Efg.
  - apply find_group_some in Efg as [Hin Hid]. apply (hi_list _ _ Hok) in Hin as [Hg _].
    unfold __hrm_allocate_group_counter.
    pose proof (find_free_region_spec (counters_allocation (grp h g)) HRM_GROUP_SIZE (Z.lt_le_incl _ _ Hs)) as Hfree.
    destruct (bitmap_find_free_region _ _ _) as [i bm]. destruct Hfree as [(Hi & Hb & _ & Ebm)|(-> & -> & _)].
    + rewrite (proj2 (Z.ltb_ge i 0)) by lia. cbn [snd].
      apply (link_producer_ok None h g p t i bm now); auto.
      intros q Hq E. apply (find_producer_none _ _ _ _ Hf Hq). by rewrite E.
    + cbn. by apply inv_group_view.
  - unfold __hrm_create_group. destruct (ga_group a =? NULL); [done|].
    destruct (ga_counters a); [|done]. destruct (ga_measures a); [|done]. cbn [negb].
    set (g := ga_group a) in *. set (h1 := h <| h_groups ::= _ |>).
    assert (hrm_inv (Some g) h1) as Hinv.
    { apply inv_create; [lia|done|done|]. intros x Hx. apply (find_group_none id h x Efg). by apply (hi_list _ _ Hok). }
    assert (live h1 g) as Hg. { unfold live, h1, update. simpl. rewrite lookup_insert_eq. by eexists. }
    assert (grp h1 g = zeroed_group id) as Eg. { unfold grp, h1, update. simpl. by rewrite lookup_total_insert_eq. }
    unfold __hrm_allocate_group_counter.
    pose proof (find_free_region_spec (counters_allocation (grp h1 g)) HRM_GROUP_SIZE (Z.lt_le_incl _ _ Hs)) as Hfree.
    destruct (bitmap_find_free_region _ _ _) as [i bm]. destruct Hfree as [(Hi & Hb & _ & Ebm)|(-> & -> & _)].
    + rewrite (proj2 (Z.ltb_ge i 0)) by lia. cbn [snd].
      apply (link_producer_ok (Some g) h1 g p t i bm now); auto.
      * right. by rewrite Eg.
      * intros q Hq E. destruct (Hql q Hq) as [G HG]. change (prod_of h1 q) with (prod_of h q) in E. congruence.
    + cbn. rewrite live_destroyed_alloc. by apply inv_destroy_pending.
Qed.

(** Dropping an empty group completes a removal. *)
Lemma drop_if_empty_ok h h' g ps cs a b :
  only_group h h' g (a, b, ps, cs) →
  (∀ h'', h_groups h'' = h_groups h' → h_producers h'' = h_producers h' → h_consumers h'' = h_consumers h' →
     h_tasks h'' = h_tasks h' →
     hrm_groups h'' = (if decide (ps = [] ∧ cs = []) then unlist g (hrm_groups h') else hrm_groups h') →
     hrm_inv (if decide (ps = [] ∧ cs = []) then Some g else None) h'') →
  hrm_ok (drop_if_empty g h').
Proof.
  intros [_ (G & E & Ev)] Hinv. unfold drop_if_empty. rewrite (grp_some _ _ _ E).
  injection Ev as _ _ -> ->. destruct (decide (ps = [] ∧ cs = [])) as [[-> ->]|Hne].
  - simpl. apply inv_destroy_pending. by apply Hinv.
  - assert (bool_decide (ps = []) && bool_decide (cs = []) = false) as ->.
    { do 2 case_bool_decide; naive_solver. }
    by apply Hinv.
Qed.

Lemma unlink_producer_ok h p P :
  hrm_ok h → h_producers h !! p = Some P → hrm_ok (unlink_producer p (p_task P) h).
Proof.
  intros Hok HP. destruct (hi_prod _ _ Hok p P HP) as [Hg Ht]. pose proof (live_grp _ _ Hg) as Eg.
  pose proof (prod_some _ _ _ HP) as EP. unfold unlink_producer, detach_producer, release_producer. cbv zeta.
  rewrite EP. set (h1 := upd_group (p_group P) _ h). set (h2 := __hrm_release_group_counter _ _ h1).
  change (prod_of h2 p) with (prod_of h p). rewrite EP.
  set (g := p_group P) in *. set (t := p_task P) in *. set (i := counter_index P) in *.
  set (h3 := upd_htask t _ h2). set (h4 := upd_group g _ h3). set (h5 := h4 <| h_producers ::= _ |>).
  set (v1 := (gid (grp h g), __clear_bit i (counters_allocation (grp h g)), producers (grp h g), consumers (grp h g))).
  set (v2 := (gid (grp h g), __clear_bit i (counters_allocation (grp h g)), unlist p (producers (grp h g)), consumers (grp h g))).
  assert (0 ≤ i) as Hi.
  { destruct (go_index _ _ _ _ (hi_group _ _ Hok _ _ Eg) p) as [? _].
    { apply (hi_group _ _ Hok _ _ Eg). by exists P. } { unfold i, prod_of in *. by rewrite EP in *. } }
  assert (only_group h h1 g (gview (grp h g))) as Ho1.
  { apply (only_upd _ _ _ _ (gview (grp h g))); [by apply only_refl|same_view]. }
  assert (only_group h h2 g v1) as Ho2.
  { apply (only_upd _ _ _ _ (gview (grp h g))); [done|]. intros G [= E1 E2 E3 E4]. unfold v1, gview. simpl.
    unfold bitmap_release_region. rewrite reg_op_order0 by done. simpl. congruence. }
  assert (only_group h h4 g v2) as Ho4.
  { apply (only_upd _ _ _ _ v1); [by apply (only_eq _ h2)|unfold v1, v2; same_view]. }
  assert (only_group h (put_maps t g h5) g v2) as Ho5.
  { apply (only_upd _ _ _ _ v2); [by apply (only_eq _ h4)|unfold v2; same_view]. }
  assert (∀ x, hrm_producers (htask h5 x) = if decide (t = x) then unlist p (hrm_producers (htask h t)) else hrm_producers (htask h x)) as Etp.
  { intros x. change (htask h5 x) with (htask h3 x). unfold h3. rewrite htask_upd. by case_decide. }
  assert (∀ x, hrm_consumers (htask h5 x) = hrm_consumers (htask h x)) as Etc.
  { intros x. change (htask h5 x) with (htask h3 x). unfold h3. rewrite htask_upd. case_decide; [by subst|done]. }
  apply (drop_if_empty_ok h _ g (unlist p (producers (grp h g))) (consumers (grp h g)) (gid (grp h g))
    (__clear_bit i (counters_allocation (grp h g)))); [done|].
  intros h'' Eg'' Ep'' Ec'' Et'' Egs''. apply (inv_remove_producer h h'' p P Hok HP).
  - by apply (only_eq _ (put_maps t g h5)).
  - by rewrite Ep''.
  - by rewrite Ec''.
  - intros x. rewrite <- Etp. unfold htask. by rewrite Et''.
  - intros x. rewrite <- Etc. unfold htask. by rewrite Et''.
  - by rewrite Egs''.
Qed.

Lemma unlink_consumer_ok h c t :
  hrm_ok h → c ∈ hrm_consumers (htask h t) → hrm_ok (unlink_consumer c t h).
Proof.
  intros Hok Hct. destruct (hi_ctask _ _ Hok t c Hct) as [[g] Hc]. destruct (hi_cons _ _ Hok c g Hc) as [Hg _].
  assert (c_group (cons_of h c) = g) as Ec by (unfold cons_of; by rewrite (lookup_total_correct _ _ _ Hc)).
  unfold unlink_consumer. cbv zeta. rewrite Ec.
  set (h3 := upd_htask t _ h). set (h4 := upd_group g _ h3). set (h5 := h4 <| h_consumers ::= _ |>).
  set (v := (gid (grp h g), counters_allocation (grp h g), producers (grp h g), unlist c (consumers (grp h g)))).
  assert (only_group h h4 g v) as Ho4.
  { apply (only_upd _ _ _ _ (gview (grp h g))); [by apply (only_eq _ h), only_refl|unfold v; same_view]. }
  assert (only_group h (put_maps t g h5) g v) as Ho5.
  { apply (only_upd _ _ _ _ v); [by apply (only_eq _ h4)|unfold v; same_view]. }
  assert (∀ x, hrm_consumers (htask h5 x) = if decide (t = x) then unlist c (hrm_consumers (htask h t)) else hrm_consumers (htask h x)) as Etc.
  { intros x. change (htask h5 x) with (htask h3 x). unfold h3. rewrite htask_upd. by case_decide. }
  assert (∀ x, hrm_producers (htask h5 x) = hrm_producers (htask h x)) as Etp.
  { intros x. change (htask h5 x) with (htask h3 x). unfold h3. rewrite htask_upd. case_decide; [by subst|done]. }
  apply (drop_if_empty_ok h _ g (producers (grp h g)) (unlist c (consumers (grp h g))) (gid (grp h g))
    (counters_allocation (grp h g))); [done|].
  intros h'' Eg'' Ep'' Ec'' Et'' Egs''. apply (inv_remove_consumer h h'' c g t Hok Hc Hct).
  - by apply (only_eq _ (put_maps t g h5)).
  - by rewrite Ep''.
  - by rewrite Ec''.
  - intros x. rewrite <- Etc. unfold htask. by rewrite Et''.
  - intros x. rewrite <- Etp. unfold htask. by rewrite Et''.
  - by rewrite Egs''.
Qed.

Lemma drop_tasks g h : h_tasks (drop_if_empty g h) = h_tasks h.
Proof. unfold drop_if_empty. by case_if. Qed.

Lemma unlink_memberships h p t :
  hrm_producers (htask (unlink_producer p t h) t) = unlist p (hrm_producers (htask h t)).
Proof.
  unfold unlink_producer, detach_producer, htask. cbv zeta. rewrite drop_tasks.
  change (hrm_producers (htask (upd_htask t (λ T, T <| hrm_producers ::= unlist p |>) (release_producer p h)) t) =
    unlist p (hrm_producers (htask h t))).
  by rewrite htask_upd, decide_True by done.
Qed.

Lemma unlink_keeps h p t q :
  q ≠ p → q ∈ hrm_producers (htask h t) → q ∈ hrm_producers (htask (unlink_producer p t h) t).
Proof. intros Hne Hq. by rewrite unlink_memberships, elem_of_unlist. Qed.

Lemma unlink_all_producers_ok t l h :
  hrm_ok h → NoDup l → (∀ p, p ∈ l → p ∈ hrm_producers (htask h t)) →
  hrm_ok (foldl (λ h p, unlink_producer p t h) h l).
Proof.
  intros Hok Hnd. revert h Hok. induction Hnd as [|p l Hp Hnd IH]; intros h Hok Hl; [done|]. cbn [foldl].
  destruct (hi_ptask _ _ Hok t p) as (P & HP & Et); [apply Hl; by left|]. subst t.
  apply IH; [by apply unlink_producer_ok|]. intros q Hq. apply unlink_keeps; [by intros ->|]. apply Hl. by right.
Qed.

Lemma unlink_all_consumers_ok t l h :
  hrm_ok h → NoDup l → (∀ c, c ∈ l → c ∈ hrm_consumers (htask h t)) →
  hrm_ok (foldl (λ h c, unlink_consumer c t h) h l).
Proof.
  intros Hok Hnd. revert h Hok. induction Hnd as [|c l Hc Hnd IH]; intros h Hok Hl; [done|]. cbn [foldl].
  apply IH; [apply unlink_consumer_ok; [done|apply Hl; by left]|]. intros d Hd. unfold unlink_consumer, htask.
  cbv zeta. rewrite drop_tasks. change (d ∈ hrm_consumers (htask (upd_htask t (λ T, T <| hrm_consumers ::= unlist c |>) h) t)).
  rewrite htask_upd, decide_True by done. simpl. rewrite elem_of_unlist. split; [by intros ->|]. apply Hl. by right.
Qed.

Lemma add_consumer_ok h c a t id :
  0 < HRM_GROUP_SIZE → hrm_ok h → h_consumers h !! c = None → h_groups h !! ga_group a = None →
  hrm_ok (hrm_add_consumer_task_to_group c a t id h).2.
Proof.
  intros Hs Hok Hc Hga. unfold hrm_add_consumer_task_to_group.
  destruct (t =? NULL); [done|]. case_bool_decide as Hf; [done|]. destruct (c =? NULL); [done|].
  assert (∀ pend h0 g ge, hrm_inv pend h0 → live h0 g → pend = None ∨ pend = Some g → h_consumers h0 !! c = None →
    ge = bool_decide (pend = None) → hrm_ok (link_consumer c t g ge h0)) as Hlink.
  { intros pend h0 g ge Hinv Hg Hpend Hc0 ->. unfold link_consumer. cbv zeta.
    set (h1 := h0 <| h_consumers ::= _ |>). set (h2 := upd_htask t _ h1). set (h3 := upd_group g _ h2).
    assert (only_group h0 h3 g (gid (grp h0 g), counters_allocation (grp h0 g), producers (grp h0 g), c :: consumers (grp h0 g))) as Ho.
    { apply (only_upd _ _ _ _ (gview (grp h0 g))); [by apply (only_eq _ h0), only_refl|same_view]. }
    apply (inv_add_consumer pend h0 _ g c t); try done.
    - case_bool_decide; [done|]. by apply (only_eq _ h3).
    - by case_bool_decide.
    - by case_bool_decide.
    - intros x. transitivity (hrm_consumers (htask h2 x)); [by case_bool_decide|]. unfold h2. rewrite htask_upd.
      destruct (decide (t = x)); done.
    - intros x. transitivity (hrm_producers (htask h2 x)); [by case_bool_decide|]. unfold h2. rewrite htask_upd.
      destruct (decide (t = x)); [by subst|done].
    - case_bool_decide; [rewrite decide_True by done|rewrite decide_False by done]; done. }
  destruct (__hrm_find_group id h) as [g|] eqn:Efg.
  - apply find_group_some in Efg as [Hin Hid]. apply (hi_list _ _ Hok) in Hin as [Hg _]. by apply (Hlink None); auto.
  - unfold __hrm_create_group. destruct (ga_group a =? NULL); [done|].
    destruct (ga_counters a); [|done]. destruct (ga_measures a); [|done]. cbn [negb snd].
    set (g := ga_group a) in *. apply (Hlink (Some g)); auto.
    + apply inv_create; [lia|done|done|]. intros x Hx. apply (find_group_none id h x Efg). by apply (hi_list _ _ Hok).
    + unfold live, update. simpl. rewrite lookup_insert_eq. by eexists.
Qed.

Lemma live_upd h g f : live (upd_group g f h) g.
Proof. unfold live. rewrite groups_upd, decide_True by done. by eexists. Qed.

Lemma update_measures_ok h g now : hrm_ok h → live h g → hrm_ok (__hrm_update_group_measures g now h).
Proof.
  intros Hok Hg. unfold __hrm_update_group_measures. cbv zeta.
  set (h1 := upd_group g _ h). assert (hrm_ok h1) as Hok1 by (by apply inv_group_view).
  set (h2 := upd_group g _ h1). assert (hrm_ok h2) as Hok2 by (apply inv_group_view; [done|apply live_upd|done]).
  assert (live h2 g) as Hl2 by apply live_upd. clearbody h2.
  assert (∀ h', hrm_ok h' → live h' g → hrm_ok (upd_group g (λ G,
    (if buffered G <? HRM_MAX_WINDOW_SIZE then G <| buffered ::= λ n, s32 (n + 1) |> else G)
      <| window_cur ::= λ n, Z.land (s32 (n + 1)) (HRM_MAX_WINDOW_SIZE - 1) |>) h')) as Hlast.
  { intros h' Hok' Hl'. apply inv_group_view; [done|done|]. by case_if. }
  destruct (buffered (grp h2 g) =? 0); [by apply Hlast|]. apply Hlast; [|apply live_upd]. by apply inv_group_view.
Qed.

(** ** Reachable states *)
Definition hrm_boot : hrm := mk_hrm ∅ ∅ ∅ ∅ [].

(** An allocator never returns an address in use.  User space may write anything to
    the counters and to the goal of a group it has mapped. *)
Inductive hrm_step : hrm → hrm → Prop :=
| hs_add_producer p a now t id h :
    h_producers h !! p = None → h_groups h !! ga_group a = None →
    hrm_step h (hrm_add_producer_task_to_group p a now t id h).2
| hs_delete_producer t id h : hrm_step h (hrm_delete_producer_task_from_group t id h).2
| hs_exit_producer t h : hrm_step h (hrm_delete_producer_task_from_all_groups t h).2
| hs_add_consumer c a t id h :
    h_consumers h !! c = None → h_groups h !! ga_group a = None →
    hrm_step h (hrm_add_consumer_task_to_group c a t id h).2
| hs_delete_consumer t id h : hrm_step h (hrm_delete_consumer_task_from_group t id h).2
| hs_exit_consumer t h : hrm_step h (hrm_delete_consumer_task_from_all_groups t h).2
| hs_timer g now h : g ∈ hrm_groups h → hrm_step h (__hrm_update_group_measures g now h)
| hs_user g cs gl h : g ∈ hrm_groups h → hrm_step h (upd_group g (λ G, G <| counters := cs |> <| goal := gl |>) h)
| hs_map g m1 m2 h : g ∈ hrm_groups h → hrm_step h (upd_group g (λ G, G <| counters_maps := m1 |> <| measures_maps := m2 |>) h)
| hs_fork t pid tgid h : hrm_producers (htask h t) = [] → hrm_consumers (htask h t) = [] →
    hrm_step h (upd_htask t (λ _, mk_htask pid tgid [] []) h).

Inductive hrm_reach : hrm → Prop :=
| hr_boot : hrm_reach hrm_boot
| hr_step h h' : hrm_reach h → hrm_step h h' → hrm_reach h'.

Lemma hrm_boot_ok : hrm_ok hrm_boot.
Proof.
  assert (∀ g, ¬ live hrm_boot g) as Hl by (intros g [G E]; done).
  assert (∀ t, htask hrm_boot t = mk_htask 0 0 [] []) as Ht by done.
  split; try done.
  - constructor.
  - intros g. split; [by intros ?%elem_of_nil|]. intros [Hg _]. by destruct (Hl g).
  - intros g g' Hg. by destruct (Hl g).
  - intros t p Hp. rewrite Ht in Hp. by apply elem_of_nil in Hp.
  - intros t c Hc. rewrite Ht in Hc. by apply elem_of_nil in Hc.
  - intros t t' c Hc. rewrite Ht in Hc. by apply elem_of_nil in Hc.
  - intros t. rewrite Ht. split; constructor.
  - intros t p q Hp. rewrite Ht in Hp. by apply elem_of_nil in Hp.
Qed.

Lemma inv_fork h t pid tgid :
  hrm_ok h → hrm_producers (htask h t) = [] → hrm_consumers (htask h t) = [] →
  hrm_ok (upd_htask t (λ _, mk_htask pid tgid [] []) h).
Proof.
  intros [H1 H2 H3 H4 H5 H6 H7 H8 H9 H10 H11 H12] Ep Ec. set (h' := upd_htask t _ h).
  assert (∀ x, hrm_producers (htask h' x) = hrm_producers (htask h x)) as Etp.
  { intros x. unfold h'. rewrite htask_upd. case_decide; [by subst|done]. }
  assert (∀ x, hrm_consumers (htask h' x) = hrm_consumers (htask h x)) as Etc.
  { intros x. unfold h'. rewrite htask_upd. case_decide; [by subst|done]. }
  split; try done.
  - intros p P HP. rewrite Etp. by apply H6.
  - intros c g Hc. destruct (H7 c g Hc) as [Hl [x Hx]]. split; [done|]. exists x. by rewrite Etc.
  - intros x p. rewrite Etp. apply H8.
  - intros x c. rewrite Etc. apply H9.
  - intros x y c. rewrite !Etc. apply H10.
  - intros x. rewrite Etp, Etc. apply H11.
  - intros x p q. rewrite Etp. apply H12.
Qed.

Lemma hrm_step_ok h h' : 0 < HRM_GROUP_SIZE → hrm_step h h' → hrm_ok h → hrm_ok h'.
Proof.
  intros Hs Hstep Hok. destruct Hstep as [p a now t id h Hp Ha|t id h|t h|c a t id h Hc Ha|t id h|t h|g now h Hg|g cs gl h Hg|g m1 m2 h Hg|t pid tgid h Ep Ec].
  - by apply add_producer_ok.
  - unfold hrm_delete_producer_task_from_group. destruct (t =? NULL); [done|].
    destruct (__hrm_find_producer_struct t id h) as [p|] eqn:E; [|done]. apply find_producer_some in E.
    destruct (hi_ptask _ _ Hok t p E) as (P & HP & <-). rewrite (prod_some _ _ _ HP). cbn [snd].
    apply unlink_producer_ok; [|done]. apply inv_group_view; [done|by apply (hi_prod _ _ Hok p P)|done].
  - unfold hrm_delete_producer_task_from_all_groups. destruct (t =? NULL); [done|]. destruct (_ =? 0); [done|].
    apply unlink_all_producers_ok; [done|apply (hi_tnodup _ _ Hok)|done].
  - by apply add_consumer_ok.
  - unfold hrm_delete_consumer_task_from_group. destruct (t =? NULL); [done|].
    destruct (__hrm_find_consumer_struct t id h) as [c|] eqn:E; [|done]. cbn [snd]. apply unlink_consumer_ok; [done|].
    unfold __hrm_find_consumer_struct in E. apply head_Some_elem_of, list_elem_of_filter in E. apply E.
  - unfold hrm_delete_consumer_task_from_all_groups. destruct (t =? NULL); [done|]. destruct (_ =? 0); [done|].
    apply unlink_all_consumers_ok; [done|apply (hi_tnodup _ _ Hok)|done].
  - apply update_measures_ok; [done|]. by apply (hi_list _ _ Hok).
  - apply inv_group_view; [done|by apply (hi_list _ _ Hok)|done].
  - apply inv_group_view; [done|by apply (hi_list _ _ Hok)|done].
  - by apply inv_fork.
Qed.
End inv.

(** The default configuration of init/Kconfig with a timer every 100 us. *)
#[local] Instance default_hrm : HrmConfig :=
  {| CONFIG_HRM_GROUP_ORDER := 0; CONFIG_HRM_MAX_WINDOW_SIZE := 10; CONFIG_HRM_TIMER_PERIOD := 100 |}.


(** Two tasks join a group and the first one leaves: one producer is left. *)
Definition two_joined : hrm :=
  let a := mk_galloc 4096 true true in
  let now := mk_timespec 1 0 in
  let h := (hrm_add_producer_task_to_group 100 a now 7 5 hrm_boot).2 in
  (hrm_add_producer_task_to_group 101 (mk_galloc 8192 true true) now 8 5 h).2.

