(* ===== verification/HrmWindow.v ===== *)
(** * Heartbeats and windows of the heart-rate monitor

    [ring_ok]: the ring buffer of a group holds its most recent samples, the newest
    first.  A timer tick records one more and publishes, for each window, the
    difference to the sample that many ticks ago.  The total of a group is its
    history plus its counters: members that leave do not change it. *)

From S2P Require Export HrmInv.

Section ring.
Context `{HrmConfig}.
Implicit Types (h : hrm) (g : Z) (G : hrm_group) (past : list hrm_sample).

(** [past] are all samples so far, the newest first; the buffer starts with one
    sample of zero. *)
Record ring_ok G past : Prop := {
  rg_some : past ≠ [];
  rg_buffered : buffered G = Z.min (Z.of_nat (length past)) HRM_MAX_WINDOW_SIZE;
  rg_cur : window_cur G = Z.of_nat (length past) mod HRM_MAX_WINDOW_SIZE;
  rg_slots : ∀ j, Z.of_nat j < buffered G →
    window G !!! ((Z.of_nat (length past) - 1 - Z.of_nat j) mod HRM_MAX_WINDOW_SIZE) = past !!! j;
}.

(** The range of the option in init/Kconfig. *)
Definition window_config : Prop := 7 ≤ CONFIG_HRM_MAX_WINDOW_SIZE ≤ 11.

Lemma max_window : HRM_MAX_WINDOW_SIZE = 2 ^ CONFIG_HRM_MAX_WINDOW_SIZE.
Proof. unfold HRM_MAX_WINDOW_SIZE. by rewrite Z.shiftl_1_l. Qed.
Lemma max_window_bound : window_config → 128 ≤ HRM_MAX_WINDOW_SIZE ≤ 2048.
Proof.
  unfold window_config. rewrite max_window. intros Hk.
  split; [change 128 with (2 ^ 7)|change 2048 with (2 ^ 11)]; apply Z.pow_le_mono_r; lia.
Qed.
Lemma land_window x : window_config → Z.land x (HRM_MAX_WINDOW_SIZE - 1) = x mod HRM_MAX_WINDOW_SIZE.
Proof.
  unfold window_config. intros Hk. rewrite max_window. rewrite <- Z.land_ones by lia. f_equal. rewrite Z.ones_equiv. lia.
Qed.
Lemma u64_window x : window_config → u64 x mod HRM_MAX_WINDOW_SIZE = x mod HRM_MAX_WINDOW_SIZE.
Proof.
  unfold window_config. intros Hk. rewrite max_window. unfold u64.
  change 0x10000000000000000 with (2 ^ 64). apply Z.mod_mod_divide.
  exists (2 ^ (64 - CONFIG_HRM_MAX_WINDOW_SIZE)). rewrite <- Z.pow_add_r by lia. f_equal. lia.
Qed.

(** Two slots less than a turn apart differ. *)
Lemma slot_ne n d N : 0 < d < N → (n - d) mod N ≠ n mod N.
Proof.
  intros Hd E. pose proof (Z.div_mod n N ltac:(lia)). pose proof (Z.div_mod (n - d) N ltac:(lia)).
  assert (N * (n / N - (n - d) / N) = d) as Hm by lia.
  set (q := n / N - _) in Hm. clearbody q. destruct (Z.le_gt_cases q 0); nia.
Qed.

Lemma ring_push G past (x : hrm_sample) :
  window_config → ring_ok G past →
  ring_ok ((if buffered G <? HRM_MAX_WINDOW_SIZE then G <| buffered ::= λ n, s32 (n + 1) |> else G)
      <| window := <[window_cur G := x]> (window G) |>
      <| window_cur ::= λ n, Z.land (s32 (n + 1)) (HRM_MAX_WINDOW_SIZE - 1) |>) (x :: past).
Proof.
  intros Hk [Hs Hb Hc Hw]. pose proof (max_window_bound Hk) as HN. set (N := HRM_MAX_WINDOW_SIZE) in *.
  set (n := Z.of_nat (length past)) in *. pose proof (Z.mod_pos_bound n N ltac:(lia)) as Hm.
  assert (Z.of_nat (length (x :: past)) = n + 1) as El by (simpl; lia).
  set (G' := (_ <| window_cur ::= _ |>)).
  assert (buffered G' = Z.min (n + 1) N) as Eb.
  { unfold G', update. destruct (Z.ltb_spec (buffered G) N); simpl; rewrite ?s32_id by lia; lia. }
  assert (window G' = <[window_cur G := x]> (window G)) as Ew by (unfold G', update; by destruct (_ <? _)).
  assert (window_cur G' = (n + 1) mod N) as Ec.
  { transitivity (Z.land (s32 (window_cur G + 1)) (N - 1)); [unfold G', update; by destruct (_ <? _)|].
    rewrite Hc. unfold N. rewrite land_window by done. fold N.
    rewrite s32_id by lia. by rewrite Zplus_mod_idemp_l. }
  split; [done|by rewrite El|by rewrite El|]. intros j Hj. rewrite El, Ew, Hc. rewrite Eb in Hj.
  destruct j as [|j].
  - replace (n + 1 - 1 - Z.of_nat 0) with n by lia. by rewrite lookup_total_insert_eq.
  - rewrite lookup_total_insert_ne.
    + replace (n + 1 - 1 - Z.of_nat (S j)) with (n - 1 - Z.of_nat j) by lia. apply Hw. rewrite Hb. lia.
    + intros E. symmetry in E. revert E. replace (n + 1 - 1 - Z.of_nat (S j)) with (n - Z.of_nat (S j)) by lia.
      apply slot_ne. lia.
Qed.

(** What one window measures when the samples are [past] and the new one is in its
    slot. *)
Definition measure_since (x y : hrm_sample) : hrm_measure :=
  mk_measure (u64 (s_counter x - s_counter y)) (u64 (timespec_to_ns (timespec_sub (s_elapsed x) (s_elapsed y)))).

Lemma window_measure_spec G past (x : hrm_sample) ws m :
  window_config → ring_ok G past → 0 < ws →
  window_measure (G <| window ::= <[window_cur G := x]> |>) (s_counter x) (s_elapsed x) ws m =
  measure_since x (let n := Z.min ws (buffered G) in
                   if n <? HRM_MAX_WINDOW_SIZE then past !!! Z.to_nat (n - 1) else x).
Proof.
  intros Hk [Hs Hb Hc Hw] Hws. pose proof (max_window_bound Hk) as HN. cbv zeta.
  assert (0 < Z.of_nat (length past)) as Hl by (destruct past; [done|simpl; lia]).
  unfold window_measure, measure_since. rewrite (proj2 (Z.eqb_neq ws 0)) by lia. cbn [negb]. unfold update at 1 2 3 4; simpl.
  set (N := HRM_MAX_WINDOW_SIZE) in *. set (n := Z.of_nat (length past)) in *.
  rewrite (u64_id (buffered G)) by lia.
  assert ((if buffered G <? ws then buffered G else ws) = Z.min ws (buffered G)) as Emin
    by (destruct (Z.ltb_spec (buffered G) ws); lia).
  rewrite Emin. set (d := Z.min ws (buffered G)). assert (0 < d ≤ N ∧ d ≤ n) as [Hd Hdn] by (unfold d; lia).
  assert (s32 (Z.land (u64 (window_cur G - d)) (N - 1)) = (n - d) mod N) as ->.
  { unfold N at 1. rewrite land_window, u64_window by done. fold N. rewrite Hc, Zminus_mod_idemp_l.
    pose proof (Z.mod_pos_bound (n - d) N ltac:(lia)). by rewrite s32_id by lia. }
  assert (<[window_cur G := x]> (window G) !!! ((n - d) mod N) =
    if d <? N then past !!! Z.to_nat (d - 1) else x) as ->; [|done]. rewrite Hc.
  destruct (Z.ltb_spec d N) as [HdN|HdN].
  - rewrite lookup_total_insert_ne by (intros E; symmetry in E; revert E; apply slot_ne; lia).
    rewrite <- (Hw (Z.to_nat (d - 1))) by lia. by replace (n - 1 - Z.of_nat (Z.to_nat (d - 1))) with (n - d) by lia.
  - replace d with N by lia. assert ((n - N) mod N = n mod N) as ->; [|by rewrite lookup_total_insert_eq].
    replace (n - N) with (n + (-1) * N) by lia. apply Z_mod_plus_full.
Qed.

Lemma ring_ext G G' past :
  buffered G' = buffered G → window_cur G' = window_cur G → window G' = window G → ring_ok G past → ring_ok G' past.
Proof. intros Eb Ec Ew [Hs Hb Hc Hw]. split; [done|by rewrite Eb|by rewrite Ec|]. intros j. rewrite Eb, Ew. apply Hw. Qed.

Lemma timespec_sub_diag a : timespec_sub a a = mk_timespec 0 0.
Proof. unfold timespec_sub. rewrite !Z.sub_diag. by vm_compute. Qed.

Lemma window_measure_ext G G' b e ws m :
  buffered G' = buffered G → window_cur G' = window_cur G → window G' = window G →
  window_measure G' b e ws m = window_measure G b e ws m.
Proof. intros Eb Ec Ew. unfold window_measure. by rewrite Eb, Ec, Ew. Qed.

Lemma upd_group_twice g f f' h : grp (upd_group g f' (upd_group g f h)) g = f' (f (grp h g)).
Proof. by rewrite !grp_upd, !decide_True by done. Qed.

(** The sample a tick at time [now] takes. *)
Definition tick_sample (g : Z) (now : timespec) (h : hrm) : hrm_sample :=
  mk_sample (heartbeats h (grp h g)) (timespec_sub now (timestamp (grp h g))).

(** The last step of a tick: the cursor moves on. *)
Definition advance G : hrm_group :=
  (if buffered G <? HRM_MAX_WINDOW_SIZE then G <| buffered ::= λ n, s32 (n + 1) |> else G)
    <| window_cur ::= λ n, Z.land (s32 (n + 1)) (HRM_MAX_WINDOW_SIZE - 1) |>.

Lemma advance_fields G :
  buffered (advance G) = (if buffered G <? HRM_MAX_WINDOW_SIZE then s32 (buffered G + 1) else buffered G) ∧
  window_cur (advance G) = Z.land (s32 (window_cur G + 1)) (HRM_MAX_WINDOW_SIZE - 1) ∧
  window (advance G) = window G ∧ measures_global (advance G) = measures_global G ∧
  measures_window (advance G) = measures_window G.
Proof. unfold advance. destruct (_ <? _); split_and!; done. Qed.

(** The published fields after a tick. *)
Lemma update_grp g now h :
  buffered (grp h g) ≠ 0 →
  let x := tick_sample g now h in
  ∃ G, grp (__hrm_update_group_measures g now h) g = advance G ∧
    buffered G = buffered (grp h g) ∧ window_cur G = window_cur (grp h g) ∧
    window G = <[window_cur (grp h g) := x]> (window (grp h g)) ∧
    measures_global G = mk_measure (s_counter x) (u64 (timespec_to_ns (s_elapsed x))) ∧
    measures_window G =
      zip_with (window_measure (grp h g <| window ::= <[window_cur (grp h g) := x]> |>) (s_counter x) (s_elapsed x))
        (window_size (goal (grp h g))) (measures_window (grp h g)).
Proof.
  intros Hb x. unfold __hrm_update_group_measures. cbv zeta.
  set (h1 := upd_group g _ h). assert (grp h1 g = grp h g <| timer_armed := true |>) as E1
    by (unfold h1; by rewrite grp_upd, decide_True).
  set (h2 := upd_group g _ h1).
  set (G2 := grp h g <| timer_armed := true |>
    <| measures_global := mk_measure (s_counter x) (u64 (timespec_to_ns (s_elapsed x))) |>
    <| window ::= <[window_cur (grp h g) := x]> |>).
  assert (grp h2 g = G2) as E2.
  { unfold h2. rewrite grp_upd, decide_True, E1 by done. done. }
  assert (buffered G2 = buffered (grp h g) ∧ window_cur G2 = window_cur (grp h g) ∧
    window G2 = <[window_cur (grp h g) := x]> (window (grp h g)) ∧
    measures_global G2 = mk_measure (s_counter x) (u64 (timespec_to_ns (s_elapsed x))) ∧
    measures_window G2 = measures_window (grp h g) ∧ goal G2 = goal (grp h g)) as (Fb & Fc & Fw & Fg & Fm & Fl)
    by done.
  clearbody G2. rewrite E2, Fb, (proj2 (Z.eqb_neq _ 0)) by done. rewrite upd_group_twice, E2, E1.
  eexists. split; [reflexivity|]. split_and!; [done..|].
  change (measures_window (G2 <| measures_window ::= ?f |>)) with (f (measures_window G2)).
  rewrite Fm, Fl. apply zip_with_ext; [|done..]. intros ws m. by apply window_measure_ext.
Qed.

(** The buffer of a group at its first producer. *)
Lemma ring_start G ts :
  window_config → window G = ∅ →
  ring_ok (G <| timestamp := ts |> <| window_cur := 1 |> <| buffered := 1 |> <| timer_armed := true |>)
    [mk_sample 0 (mk_timespec 0 0)].
Proof.
  intros Hk Hw. pose proof (max_window_bound Hk). split; unfold update; simpl.
  - done.
  - lia.
  - by rewrite Z.mod_small by lia.
  - intros j Hj. assert (j = 0%nat) as -> by lia. rewrite Hw. done.
Qed.
End ring.

(** C30. One tick of a group's timer.  The ring buffer gains the present total and the
    time since the group started, and keeps the samples before it; these are
    published as the global measure.  A window of size [ws] gets the beats and the
    time since the sample [ws] ticks ago, or since the oldest sample when fewer were
    taken; an unused window (size 0) is left alone.  A window of the maximal size
    measures nothing once the buffer is full: the new sample has then already
    overwritten the one it is compared with. *)
Theorem tick_measures `{HrmConfig} (g : Z) (now : timespec) (h : hrm) (past : list hrm_sample) :
  window_config → ring_ok (grp h g) past →
  let x := tick_sample g now h in
  let G' := grp (__hrm_update_group_measures g now h) g in
  ring_ok G' (x :: past) ∧
  measures_global G' = mk_measure (s_counter x) (u64 (timespec_to_ns (s_elapsed x))) ∧
  ∀ i ws m, window_size (goal (grp h g)) !! i = Some ws → measures_window (grp h g) !! i = Some m →
    (ws = 0 → measures_window G' !! i = Some m) ∧
    (0 < ws < HRM_MAX_WINDOW_SIZE →
       measures_window G' !! i = Some (measure_since x (past !!! (Nat.min (Z.to_nat ws) (length past) - 1)%nat))) ∧
    (HRM_MAX_WINDOW_SIZE ≤ ws → HRM_MAX_WINDOW_SIZE ≤ Z.of_nat (length past) →
       measures_window G' !! i = Some (mk_measure 0 0)).
Proof.
  intros Hk Hr x G'. pose proof (max_window_bound Hk) as HN. pose proof Hr as [Hs Hb _ _].
  assert (0 < Z.of_nat (length past)) as Hl by (destruct past; [done|simpl; lia]).
  destruct (update_grp g now h) as (G & E & Fb & Fc & Fw & Fg & Fm); [lia|]. fold x in Fw, Fg, Fm. fold G' in E.
  destruct (advance_fields G) as (Ab & Ac & Aw & Ag & Am). rewrite <- E in Ab, Ac, Aw, Ag, Am. clear E.
  split; [|split].
  - eapply ring_ext; [..|apply (ring_push (grp h g) past x Hk Hr)]; [rewrite Ab, Fb|rewrite Ac, Fc|by rewrite Aw, Fw];
      by destruct (buffered (grp h g) <? _).
  - by rewrite Ag.
  - intros i ws m Hw Hm.
    assert (measures_window G' !! i = Some (window_measure (grp h g <| window ::= <[window_cur (grp h g) := x]> |>)
      (s_counter x) (s_elapsed x) ws m)) as Em.
    { rewrite Am, Fm, lookup_zip_with, Hw; simpl. by rewrite Hm. }
    rewrite Em. split; [by intros ->|]. split; intros Hws.
    + rewrite window_measure_spec with (past := past) by (done || lia). cbv zeta.
      rewrite (proj2 (Z.ltb_lt _ HRM_MAX_WINDOW_SIZE)) by lia. do 3 f_equal. lia.
    + intros Hfull. rewrite window_measure_spec with (past := past) by (done || lia). cbv zeta.
      rewrite (proj2 (Z.ltb_ge _ HRM_MAX_WINDOW_SIZE)) by lia. unfold measure_since.
      by rewrite timespec_sub_diag, Z.sub_diag.
Qed.

#[local] Existing Instance default_hrm.

(** [two_joined] after its two tasks beat 50 and 70 times, with a first window of
    four samples. *)
Definition beating : hrm :=
  upd_group 4096 (λ G, G <| counters ::= λ m, mem_upd (mem_upd m 0 (λ c, c <| counter := 50 |>)) 1 (λ c, c <| counter := 70 |>) |>
                         <| goal := mk_goal 0 0 0 (4 :: replicate 31 0) |>) two_joined.

Lemma tick_measures_witness :
  measures_global (grp (__hrm_update_group_measures 4096 (mk_timespec 3 0) beating) 4096) = mk_measure 120 2000000000 ∧
  measures_window (grp (__hrm_update_group_measures 4096 (mk_timespec 3 0) beating) 4096) !! 0%nat =
    Some (mk_measure 120 2000000000).
Proof.
  assert (window_config) as Hk by (by vm_compute). assert (0 < 4 < HRM_MAX_WINDOW_SIZE) as H4 by (by vm_compute).
  destruct (tick_measures 4096 (mk_timespec 3 0) beating [mk_sample 0 (mk_timespec 0 0)] Hk) as (_ & Eg & Ew).
  { eapply ring_ext; [..|apply (ring_start inhabitant (mk_timespec 0 0) Hk)]; by vm_compute. }
  split; [etransitivity; [exact Eg|vm_compute; reflexivity]|].
  destruct (Ew 0%nat 4 (mk_measure 0 0)) as (_ & Em & _); [vm_compute; reflexivity..|].
  etransitivity; [exact (Em H4)|vm_compute; reflexivity].
Defined.

(** ** Totals *)
Section totals.
Context `{HrmConfig}.
Implicit Types (h : hrm) (g p t x : Z) (G : hrm_group).

Definition total h g : Z := heartbeats h (grp h g).

(** The sum of the counters of the present producers. *)
Definition counters_sum h G (ps : list Z) : Z :=
  foldr (λ p s, counter (counters G !!! counter_index (prod_of h p)) + s) 0 ps.

Lemma heartbeats_sum h G : u64 (heartbeats h G) = u64 (history G + counters_sum h G (producers G)).
Proof.
  unfold heartbeats. generalize (history G) as n. induction (producers G) as [|p ps IH]; intros n; simpl.
  - by rewrite Z.add_0_r.
  - rewrite IH, u64_add_l. f_equal. lia.
Qed.

Lemma counters_sum_ext h h' G G' ps :
  (∀ p, p ∈ ps → counter (counters G' !!! counter_index (prod_of h' p)) = counter (counters G !!! counter_index (prod_of h p))) →
  counters_sum h' G' ps = counters_sum h G ps.
Proof.
  induction ps as [|p ps IH]; intros Hp; simpl; [done|]. rewrite Hp by set_solver. f_equal. apply IH. set_solver.
Qed.

Lemma unlist_id p ps : p ∉ ps → unlist p ps = ps.
Proof.
  intros Hp. unfold unlist. induction ps as [|q ps IH]; [done|].
  rewrite filter_cons_True by set_solver. f_equal. apply IH. set_solver.
Qed.

Lemma counters_sum_del h G p ps :
  NoDup ps → p ∈ ps →
  counters_sum h G ps = counters_sum h G (unlist p ps) + counter (counters G !!! counter_index (prod_of h p)).
Proof.
  intros Hnd Hp. induction Hnd as [|q ps Hq Hnd IH]; [by apply elem_of_nil in Hp|].
  unfold unlist. destruct (decide (q = p)) as [->|Hne].
  - rewrite filter_cons_False by naive_solver. fold (unlist p ps). rewrite unlist_id by done. simpl. lia.
  - rewrite filter_cons_True by done. simpl. fold (unlist p ps). rewrite IH by set_solver. lia.
Qed.

Lemma drop_live g h x : live (drop_if_empty g h) x → live h x ∧ grp (drop_if_empty g h) x = grp h x.
Proof.
  unfold drop_if_empty. case_if; [|done]. unfold live, grp, __hrm_destroy_group, __hrm_delete_group, update. simpl.
  destruct (decide (g = x)) as [->|Hne]; [by rewrite lookup_delete_eq; intros []|].
  by rewrite lookup_delete_ne, lookup_total_delete_ne.
Qed.

(** What [unlink_producer] leaves of the groups, before an empty one is dropped. *)
Lemma unlink_producer_groups h p P x :
  prod_of h p = P → live h (p_group P) → live (unlink_producer p (p_task P) h) x →
  let G := grp h x in let G' := grp (unlink_producer p (p_task P) h) x in
  live h x ∧ (x ≠ p_group P → G' = G) ∧ counters G' = counters G ∧ gid G' = gid G ∧
  (x = p_group P → history G' = u64 (history G + counter (counters G !!! counter_index P)) ∧
                   producers G' = unlist p (producers G)).
Proof.
  intros EP Hg. unfold unlink_producer, detach_producer, release_producer. cbv zeta. rewrite EP.
  set (h1 := upd_group (p_group P) _ h). set (h2 := __hrm_release_group_counter _ _ h1).
  change (prod_of h2 p) with (prod_of h p). rewrite EP.
  set (h3 := upd_group _ _ (upd_htask _ _ h2)). intros [Hl ->]%drop_live.
  change (live (put_maps (p_task P) (p_group P) h3) x) in Hl.
  change (grp (put_maps _ _ _) x) with (grp (put_maps (p_task P) (p_group P) h3) x).
  assert (∀ y, y ≠ p_group P → grp (put_maps (p_task P) (p_group P) h3) y = grp h y ∧
    h_groups (put_maps (p_task P) (p_group P) h3) !! y = h_groups h !! y) as Ho.
  { intros y Hy. unfold put_maps, h3, h2, h1, __hrm_release_group_counter.
    rewrite !grp_upd, !groups_upd, !decide_False by done.
    change (grp (upd_htask ?t ?f ?h0) y) with (grp h0 y). change (h_groups (upd_htask ?t ?f ?h0)) with (h_groups h0).
    by rewrite !grp_upd, !groups_upd, !decide_False by done. }
  destruct (decide (x = p_group P)) as [->|Hne]; cycle 1.
  { destruct (Ho x Hne) as [-> Eh]. split; [unfold live in *; by rewrite Eh in Hl|]. by split_and!. }
  unfold put_maps, h3, h2, h1, __hrm_release_group_counter. rewrite !grp_upd, !decide_True by done.
  change (grp (upd_htask ?t ?f ?h0) ?y) with (grp h0 y). rewrite !grp_upd, !decide_True by done. by split_and!.
Qed.

Lemma unlink_prod_of h p P q :
  q ≠ p → prod_of (unlink_producer p (p_task P) h) q = prod_of h q.
Proof.
  intros Hne. unfold unlink_producer, detach_producer. cbv zeta. set (h0 := put_maps _ _ _).
  transitivity (prod_of h0 q); [unfold drop_if_empty; by case_if|].
  unfold prod_of, h0. change (h_producers (put_maps _ _ ?h1)) with (h_producers h1).
  unfold update. simpl. by rewrite lookup_total_delete_ne.
Qed.

Lemma unlink_total h p P x :
  hrm_ok h → h_producers h !! p = Some P → live (unlink_producer p (p_task P) h) x →
  live h x ∧ u64 (total (unlink_producer p (p_task P) h) x) = u64 (total h x).
Proof.
  intros Hok HP Hx. destruct (hi_prod _ _ Hok p P HP) as [Hg _]. pose proof (prod_some _ _ _ HP) as EP.
  destruct (unlink_producer_groups h p P x EP Hg Hx) as (Hl & Ho & Ec & _ & Es). split; [done|].
  pose proof (hi_group _ _ Hok x _ (live_grp _ _ Hl)) as Gok. unfold total. rewrite !heartbeats_sum.
  set (G' := grp (unlink_producer p (p_task P) h) x) in *.
  assert (∀ ps, p ∉ ps → counters_sum (unlink_producer p (p_task P) h) G' ps = counters_sum h (grp h x) ps) as Hsum.
  { intros ps Hp. apply counters_sum_ext. intros q Hq. rewrite Ec, unlink_prod_of; [done|]. by intros ->. }
  destruct (decide (x = p_group P)) as [E|Hne].
  - destruct (Es E) as [-> ->]. rewrite Hsum by (rewrite elem_of_unlist; naive_solver). rewrite u64_add_l. f_equal.
    rewrite (counters_sum_del h (grp h x) p (producers (grp h x))), EP; [lia|apply Gok|]. apply Gok. by exists P.
  - assert (history G' = history (grp h x)) as -> by (by rewrite Ho).
    assert (producers G' = producers (grp h x)) as -> by (by rewrite Ho).
    rewrite Hsum; [done|]. intros (Q & HQ & ?)%Gok. congruence.
Qed.

Lemma unlink_all_total t l h x :
  hrm_ok h → NoDup l → (∀ p, p ∈ l → p ∈ hrm_producers (htask h t)) →
  live (foldl (λ h p, unlink_producer p t h) h l) x →
  live h x ∧ u64 (total (foldl (λ h p, unlink_producer p t h) h l) x) = u64 (total h x).
Proof.
  intros Hok Hnd. revert h Hok. induction Hnd as [|p l Hp Hnd IH]; intros h Hok Hl Hx; [done|]. cbn [foldl] in *.
  destruct (hi_ptask _ _ Hok t p) as (P & HP & Et); [apply Hl; by left|]. subst t.
  destruct (IH (unlink_producer p (p_task P) h)) as [Hx1 E1]; [by apply unlink_producer_ok| |done|].
  { intros q Hq. apply unlink_keeps; [by intros ->|]. apply Hl. by right. }
  destruct (unlink_total h p P x Hok HP Hx1) as [Hx2 E2]. by rewrite E1, E2.
Qed.

Lemma grp_field {B} (φ : hrm_group → B) h g f y :
  (∀ G, φ (f G) = φ G) → φ (grp (upd_group g f h) y) = φ (grp h y).
Proof. intros Hf. rewrite grp_upd. case_decide; [by subst|done]. Qed.

(** What a new producer adds. *)
Lemma link_total h g p t i bm now ge x :
  (∀ y, live h y → p ∉ producers (grp h y)) → live h x → live h g →
  u64 (total (link_producer p t g i now ge (upd_group g (λ G, G <| counters_allocation := bm |>) h)) x) =
  u64 (total h x + if decide (x = g) then counter (counters (grp h g) !!! i) else 0).
Proof.
  intros Hp Hx Hg. unfold link_producer. cbv zeta. set (h1 := upd_group g _ h).
  set (h2 := h1 <| h_producers ::= _ |>). set (h3 := upd_group g _ h2). set (h4 := upd_htask t _ h3).
  set (h5 := upd_group g _ h4).
  assert (∀ q, prod_of h5 q = if decide (q = p) then mk_producer t i g else prod_of h q) as Epr.
  { intros q. unfold prod_of, h5, h4, h3, h2, h1, update. simpl. case_decide as E.
    - subst. by rewrite lookup_total_insert_eq.
    - by rewrite lookup_total_insert_ne. }
  assert (∃ hf, h_producers hf = h_producers h5 ∧ (∀ y, history (grp hf y) = history (grp h5 y) ∧
    counters (grp hf y) = counters (grp h5 y) ∧ producers (grp hf y) = producers (grp h5 y)) ∧
    (if timespec_to_ns (timestamp (grp h5 g)) =? 0
     then upd_group g (λ G, G <| timestamp := now |> <| window_cur := 1 |> <| buffered := 1 |> <| timer_armed := true |>)
       (if ge then h5 else __hrm_add_group g h5) else h5) = hf) as (hf & Ehp & Ehg & ->).
  { eexists. split_and!; [..|reflexivity].
    - case_if; [by destruct ge|done].
    - intros y. case_if; [|done]. rewrite grp_upd. case_decide as E; [subst|]; by destruct ge. }
  assert (∀ q, prod_of hf q = prod_of h5 q) as Epf by (intros q; unfold prod_of; by rewrite Ehp).
  assert (∀ y j, counter (counters (grp h5 y) !!! j) = counter (counters (grp h y) !!! j)) as Ecj.
  { intros y j. unfold h5. rewrite (grp_field (λ G, counter (counters G !!! j))) by done. change (grp h4) with (grp h3).
    unfold h3. rewrite (grp_field (λ G, counter (counters G !!! j))) by (intros; simpl; by apply (mem_upd_proj counter)).
    change (grp h2) with (grp h1). unfold h1. by rewrite (grp_field (λ G, counter (counters G !!! j))). }
  assert (∀ {B} (φ : hrm_group → B), (∀ G c, φ (G <| counters := c |>) = φ G) →
    (∀ G bm, φ (G <| counters_allocation := bm |>) = φ G) → ∀ y, φ (grp h4 y) = φ (grp h y)) as Eφ.
  { intros B φ Hc Ha y. change (grp h4) with (grp h3). unfold h3. rewrite grp_field by (intros; apply Hc).
    change (grp h2) with (grp h1). unfold h1. by rewrite grp_field. }
  assert (∀ y, history (grp h5 y) = history (grp h y)) as Ehy.
  { intros y. unfold h5. rewrite (grp_field history) by done. by apply Eφ. }
  assert (∀ y, producers (grp h5 y) = if decide (y = g) then p :: producers (grp h y) else producers (grp h y)) as Ehp5.
  { intros y. unfold h5. rewrite grp_upd. destruct (decide (g = y)) as [->|Hne].
    - rewrite decide_True by done. simpl. f_equal. by apply Eφ.
    - rewrite decide_False by done. by apply Eφ. }
  unfold total. rewrite <- u64_add_l, !heartbeats_sum, u64_add_l.
  destruct (Ehg x) as (-> & Ec & ->). rewrite Ehy, Ehp5.
  assert (counters_sum hf (grp hf x) (producers (grp h x)) = counters_sum h (grp h x) (producers (grp h x))) as Es.
  { apply counters_sum_ext. intros q Hq. rewrite Ec, Epf, Epr, decide_False; [by rewrite Ecj|].
    intros ->. by apply (Hp x). }
  case_decide as E; [subst x|by rewrite Es, Z.add_0_r].
  simpl. rewrite Es, Ec, Ecj, Epf, Epr, decide_True by done. simpl. f_equal. lia.
Qed.

Lemma live_upd_iff h g f : live h g → ∀ x, live (upd_group g f h) x ↔ live h x.
Proof. intros [G E] x. unfold live. rewrite groups_upd. case_decide; [subst; naive_solver|done]. Qed.

Lemma link_prod h g p t i now ge : prod_of (link_producer p t g i now ge h) p = mk_producer t i g.
Proof.
  unfold link_producer. cbv zeta. set (h5 := upd_group g _ (upd_htask t _ _)).
  transitivity (prod_of h5 p); [case_if; [by destruct ge|done]|].
  unfold h5, prod_of, update. simpl. by rewrite lookup_total_insert_eq.
Qed.

Lemma add_total h p a now t id x :
  0 < HRM_GROUP_SIZE → hrm_ok h → h_producers h !! p = None → h_groups h !! ga_group a = None → live h x →
  let '(r, h') := hrm_add_producer_task_to_group p a now t id h in
  u64 (total h' x) = u64 (total h x + if decide (r = 0 ∧ gid (grp h x) = id)
                                      then counter (counters (grp h x) !!! counter_index (prod_of h' p)) else 0).
Proof.
  intros Hs Hok Hp Hga Hx. unfold hrm_add_producer_task_to_group.
  assert (∀ r h', r ≠ 0 → u64 (total h' x) = u64 (total h x) → u64 (total h' x) =
    u64 (total h x + if decide (r = 0 ∧ gid (grp h x) = id)
                     then counter (counters (grp h x) !!! counter_index (prod_of h' p)) else 0)) as Herr.
  { intros r h' Hr E. rewrite decide_False by naive_solver. by rewrite Z.add_0_r. }
  destruct (t =? NULL); [by apply Herr|]. case_bool_decide; [by apply Herr|]. destruct (p =? NULL); [by apply Herr|].
  assert (∀ y, live h y → p ∉ producers (grp h y)) as Hnp.
  { intros y Hy (P & HP & _)%(hi_group _ _ Hok y _ (live_grp _ _ Hy)). congruence. }
  destruct (__hrm_find_group id h) as [g|] eqn:Efg.
  - apply find_group_some in Efg as [Hin Hid]. apply (hi_list _ _ Hok) in Hin as [Hg _].
    unfold __hrm_allocate_group_counter.
    pose proof (find_free_region_spec (counters_allocation (grp h g)) HRM_GROUP_SIZE (Z.lt_le_incl _ _ Hs)) as Hfree.
    destruct (bitmap_find_free_region _ _ _) as [i bm]. destruct Hfree as [(Hi & _)|(-> & -> & _)].
    + rewrite (proj2 (Z.ltb_ge i 0)) by lia. rewrite link_total by done. rewrite link_prod. simpl.
      f_equal. f_equal. destruct (decide (x = g)) as [->|Hne]; [by rewrite decide_True|].
      rewrite decide_False; [done|]. intros [_ E]. apply Hne, (hi_gids _ _ Hok); [done..|congruence].
    + apply Herr; [done|]. unfold total. rewrite !heartbeats_sum. cbn [Z.ltb].
      rewrite (grp_field history), (grp_field producers) by done. do 2 f_equal. apply counters_sum_ext. intros q _.
      by rewrite (grp_field counters).
  - unfold __hrm_create_group. destruct (ga_group a =? NULL); [by apply Herr|].
    destruct (ga_counters a); [|by apply Herr]. destruct (ga_measures a); [|by apply Herr]. cbn [negb].
    set (g := ga_group a) in *. set (h1 := h <| h_groups ::= _ |>).
    assert (x ≠ g) as Hxg. { intros ->. destruct Hx as [G E]. congruence. }
    assert (∀ y, y ≠ g → grp h1 y = grp h y) as Eo.
    { intros y Hy. unfold grp, h1, update. simpl. by rewrite lookup_total_insert_ne. }
    assert (grp h1 g = zeroed_group id) as Eg by (unfold grp, h1, update; simpl; by rewrite lookup_total_insert_eq).
    assert (∀ y, live h1 y ↔ y = g ∨ live h y) as Hlv.
    { intros y. unfold live, h1, update. simpl. rewrite lookup_insert. destruct (decide (g = y)) as [E|E].
      - rewrite <- E. split; [intros _; by left|by eexists].
      - split; [intros ?; by right|]. by intros [->|?]. }
    assert (total h1 x = total h x) as Et by (unfold total; by rewrite Eo).
    unfold __hrm_allocate_group_counter.
    pose proof (find_free_region_spec (counters_allocation (grp h1 g)) HRM_GROUP_SIZE (Z.lt_le_incl _ _ Hs)) as Hfree.
    destruct (bitmap_find_free_region _ _ _) as [i bm]. destruct Hfree as [(Hi & _)|(-> & -> & _)].
    + rewrite (proj2 (Z.ltb_ge i 0)) by lia. rewrite link_total; [|..].
      * rewrite Et, decide_False by done. rewrite decide_False; [done|]. intros [_ E].
        apply (find_group_none _ _ x Efg); [|done]. by apply (hi_list _ _ Hok).
      * intros y Hy. destruct (decide (y = g)) as [->|Hyg]; [rewrite Eg; apply not_elem_of_nil|].
        rewrite Eo by done. apply Hnp. apply Hlv in Hy. naive_solver.
      * apply Hlv. by right.
      * apply Hlv. by left.
    + apply Herr; [done|]. cbn [Z.ltb]. rewrite live_destroyed_alloc. unfold total, grp, __hrm_destroy_group, h1, update. simpl.
      rewrite lookup_total_delete_ne, lookup_total_insert_ne by done. done.
Qed.
End totals.

(** C31. The heartbeats of a group survive its members.  A task that leaves a group, or
    exits, leaves the total of every remaining group as it was (modulo 2^64); a task
    that joins adds to the total of its group just what its counter held before, and
    nothing to the others; a failed join adds nothing. *)
Theorem heartbeats_conserved `{HrmConfig} (h : hrm) (t id x : Z) :
  0 < HRM_GROUP_SIZE → hrm_ok h →
  (let h' := (hrm_delete_producer_task_from_group t id h).2 in
   live h' x → live h x ∧ u64 (total h' x) = u64 (total h x)) ∧
  (let h' := (hrm_delete_producer_task_from_all_groups t h).2 in
   live h' x → live h x ∧ u64 (total h' x) = u64 (total h x)) ∧
  (∀ p a now, h_producers h !! p = None → h_groups h !! ga_group a = None → live h x →
   let '(r, h') := hrm_add_producer_task_to_group p a now t id h in
   u64 (total h' x) = u64 (total h x + if decide (r = 0 ∧ gid (grp h x) = id)
                                       then counter (counters (grp h x) !!! counter_index (prod_of h' p)) else 0)).
Proof.
  intros Hs Hok. split; [|split]; cycle 2.
  - intros p a now Hp Ha Hx. by apply add_total.
  - unfold hrm_delete_producer_task_from_group. destruct (t =? NULL); [done|].
    destruct (__hrm_find_producer_struct t id h) as [p|] eqn:E; [|done]. apply find_producer_some in E.
    destruct (hi_ptask _ _ Hok t p E) as (P & HP & <-). rewrite (prod_some _ _ _ HP). cbn [snd].
    destruct (hi_prod _ _ Hok p P HP) as [Hg _]. set (h1 := upd_group _ _ h). intros Hx.
    destruct (unlink_total h1 p P x) as [Hl1 Et]; [by apply inv_group_view|done|done|].
    split; [by apply (live_upd_iff _ _ _ Hg) in Hl1|]. rewrite Et. unfold total. rewrite !heartbeats_sum. unfold h1.
    rewrite (grp_field history), (grp_field producers) by done. do 2 f_equal. apply counters_sum_ext. intros q _.
    apply (grp_field (λ G, counter (counters G !!! _))). intros G. by apply (mem_upd_proj counter).
  - unfold hrm_delete_producer_task_from_all_groups. destruct (t =? NULL); [done|]. destruct (_ =? 0); [done|].
    apply unlink_all_total; [done|apply (hi_tnodup _ _ Hok)|done].
Qed.

Lemma heartbeats_conserved_witness :
  u64 (total (hrm_delete_producer_task_from_group 7 5 beating).2 4096) = 120.
Proof.
  destruct (heartbeats_conserved beating 7 5 4096) as ((_ & E) & _ & _).
  - by vm_compute.
  - apply inv_group_view; [|by vm_compute; eexists|by vm_compute]. do 2 (apply add_producer_ok; [done| |done..]).
    apply hrm_boot_ok.
  - vm_compute. by eexists.
  - etransitivity; [exact E|vm_compute; reflexivity].
Defined.

(** ** Behaviours worth knowing *)

(** A task that leaves and comes back counts its old beats twice: the counter is
    neither cleared on leaving nor on joining. *)
Example rejoin_counts_twice :
  let h := (hrm_delete_producer_task_from_group 7 5 beating).2 in
  let h := (hrm_add_producer_task_to_group 102 (mk_galloc 8192 true true) (mk_timespec 4 0) 7 5 h).2 in
  total beating 4096 = 120 ∧ total h 4096 = 170.
Proof. by vm_compute. Qed.

(** The history is updated before the producer leaves the list, and without the lock
    the timer takes: a tick in between counts the leaving task twice. *)
Example tick_during_leave :
  m_count (measures_global (grp (__hrm_update_group_measures 4096 (mk_timespec 3 0) (release_producer 100 beating)) 4096)) = 170.
Proof. by vm_compute. Qed.

(** 100 beats in one second are a rate of zero: the count is scaled by 10^6 and
    divided by the time in nanoseconds. *)
Example rate_of_100_beats : __hrm_compute_hr 100 1000000000 = 0.
Proof. by vm_compute. Qed.
