(* ===== verification/HrmProc.v ===== *)
(** * The /proc files of the heart-rate monitor: fs/proc/hrm.c

    A task joins and leaves groups by writing a group number to
    hrm_producer_group and hrm_consumer_group, maps the counters and the measures
    of its newest group, and reads back at which addresses they are; /proc/hrm
    shows all groups.  The user addresses of a producer and of a consumer are the
    last three fields of their structs; they are used here only and are kept
    beside the state of Hrm.v.

    [task] is what [get_proc_task] returned (NULL when the task is gone) and [cur]
    is [current].  The theorems relate what is written, mapped and read. *)

From Stdlib Require Import String.
From S2P Require Export HrmWindow StrConv.

Record user_addresses := mk_ua {
  counter_user_address : Z;
  measures_user_address : Z;
  goal_user_address : Z;
}.
#[export] Instance eta_ua : Eta user_addresses :=
  ctor mk_ua <+> counter_user_address <+> measures_user_address <+> goal_user_address.
#[export] Instance ua_inhabited : Inhabited user_addresses := populate (mk_ua 0 0 0).

Record proc_hrm := mk_proc {
  mon : hrm;
  p_user : gmap Z user_addresses;    (* by producer *)
  c_user : gmap Z user_addresses;    (* by consumer *)
}.
#[export] Instance eta_proc : Eta proc_hrm := ctor mk_proc <+> mon <+> p_user <+> c_user.

Record vm_area_struct := mk_vma { vm_start : Z; vm_end : Z }.

(** sizeof(struct hrm_goal): four 8-byte words and HRM_MAX_WINDOWS sizes. *)
Definition sizeof_goal : Z := 8 * (4 + HRM_MAX_WINDOWS).
Definition HRM_COUNTER_ADDR (address index : Z) : Z := u64 (address + L1_CACHE_BYTES * index).
Definition HRM_COUNTERS_ADDR (address : Z) : Z := address.
Definition HRM_MEASURES_ADDR (address : Z) : Z := address.
Definition HRM_GOAL_ADDR (address : Z) : Z := u64 (address + PAGE_SIZE - sizeof_goal).

(** [copy_from_user] into an array of [n] zero bytes: the compiler knows the size of
    the array, so a longer copy is refused.  [None] is a copy that failed. *)
Definition copy_from_user (n : Z) (user : option (list Z)) (size : Z) : option (list Z) :=
  if n <? size then None
  else buf ← user; Some (buf ++ replicate (Z.to_nat (n - size)) 0).

(** fs/libfs.c.  [fault] is the number of bytes [copy_to_user] could not copy.
    The result, the new position and the bytes that reached the user. *)
Definition simple_read_from_buffer (count pos fault : Z) (from : list Z) : Z * Z * list Z :=
  let available := Z.of_nat (length from) in
  if pos <? 0 then (- EINVAL, pos, [])
  else if (available <=? pos) || (count =? 0) then (0, pos, [])
  else
    let count := if available - pos <? count then available - pos else count in
    if fault =? count then (- EFAULT, pos, [])
    else
      let count := count - fault in
      (count, pos + count, take (Z.to_nat count) (drop (Z.to_nat pos) from)).

Section handlers.
Context `{HrmConfig}.

(** The body shared by the two group files. *)
Definition group_write (add del : Z → proc_hrm → Z * proc_hrm) (task cur : Z)
    (user : option (list Z)) (junk : list Z) (size : Z) (st : proc_hrm) : outcome (Z * proc_hrm) :=
  if negb (task =? cur) then
    if task =? NULL then Oops else Done (- EPERM, st)
  else
    match copy_from_user 1024 user size with
    | None => Done (- EFAULT, st)
    | Some kbuf =>
        let gid := s32 (fst (simple_strtol (kbuf ++ junk) 10)) in
        let '(retval, st) :=
          if 0 <? gid then add gid st
          else if gid <? 0 then del (s32 (- gid)) st
          else (- EINVAL, st) in
        Done (if retval <? 0 then retval else s64 size, st)
    end.

(** [p], [a] and [now] are the answers of the allocator and of the clock. *)
Definition hrm_producer_group_write (p : Z) (a : group_alloc) (now : timespec) (task cur : Z)
    (user : option (list Z)) (junk : list Z) (size : Z) (st : proc_hrm) : outcome (Z * proc_hrm) :=
  group_write
    (λ gid st, let '(r, h) := hrm_add_producer_task_to_group p a now task gid (mon st) in
               (r, st <| mon := h |> <| p_user ::= λ m, if r =? 0 then <[p := mk_ua 0 0 0]> m else m |>))
    (λ gid st, let '(r, h) := hrm_delete_producer_task_from_group task gid (mon st) in (r, st <| mon := h |>))
    task cur user junk size st.

Definition hrm_consumer_group_write (c : Z) (a : group_alloc) (task cur : Z)
    (user : option (list Z)) (junk : list Z) (size : Z) (st : proc_hrm) : outcome (Z * proc_hrm) :=
  group_write
    (λ gid st, let '(r, h) := hrm_add_consumer_task_to_group c a task gid (mon st) in
               (r, st <| mon := h |> <| c_user ::= λ m, if r =? 0 then <[c := mk_ua 0 0 0]> m else m |>))
    (λ gid st, let '(r, h) := hrm_delete_consumer_task_from_group task gid (mon st) in (r, st <| mon := h |>))
    task cur user junk size st.

(** ** Mapping *)

(** The part between the locks: the address at which the thread group has the
    memory, or an error.  [remap] is what [remap_pfn_range] returned, [ok] whether
    the map could be allocated. *)
Definition map_memory (tgid memsize : Z) (vma : vm_area_struct) (remap : Z) (ok : bool)
    (maps : list hrm_memory_map) : (Z + Z) * list hrm_memory_map :=
  let user_address := __hrm_find_group_memory_map tgid maps in
  if negb (user_address =? 0) then
    let '(retval, maps) := __hrm_get_group_memory_map tgid maps in
    (if retval <? 0 then inl retval else inr user_address, maps)
  else
    let size := s64 (vm_end vma - vm_start vma) in
    if negb (u64 size =? memsize) then (inl (- EINVAL), maps)
    else if remap <? 0 then (inl remap, maps)
    else
      let '(retval, maps) := __hrm_add_group_memory_map tgid (vm_start vma) ok maps in
      (if retval <? 0 then inl retval else inr (vm_start vma), maps).

Definition counters_bytes : Z := HRM_GROUP_SIZE * L1_CACHE_BYTES.
Definition map_counters (task g : Z) (vma : vm_area_struct) (remap : Z) (ok : bool) (st : proc_hrm) : (Z + Z) * proc_hrm :=
  let '(r, maps) := map_memory (t_tgid (htask (mon st) task)) counters_bytes vma remap ok (counters_maps (grp (mon st) g)) in
  (r, st <| mon ::= upd_group g (λ G, G <| counters_maps := maps |>) |>).
Definition map_measures (task g : Z) (vma : vm_area_struct) (remap : Z) (ok : bool) (st : proc_hrm) : (Z + Z) * proc_hrm :=
  let '(r, maps) := map_memory (t_tgid (htask (mon st) task)) PAGE_SIZE vma remap ok (measures_maps (grp (mon st) g)) in
  (r, st <| mon ::= upd_group g (λ G, G <| measures_maps := maps |>) |>).

(** The checks at the start of the files and the first entry of the task's list. *)
Definition first_member {A} (enabled : Z) (members : list Z) (task cur : Z) (refuse : Z → A) (body : Z → A) : outcome A :=
  if negb (task =? cur) then
    if task =? NULL then Oops else Done (refuse (- EPERM))
  else if enabled =? 0 then Done (refuse (- EPERM))
  else
    match members with
    | [] => Oops
    | m :: _ => Done (body m)
    end.

Definition hrm_producer_counter_mmap (vma : vm_area_struct) (remap : Z) (ok : bool) (task cur : Z) (st : proc_hrm) :
    outcome (Z * proc_hrm) :=
  first_member (hrm_producer_task_enabled task (mon st)) (hrm_producers (htask (mon st) task)) task cur (λ e, (e, st)) (λ p,
    let P := prod_of (mon st) p in
    match map_counters task (p_group P) vma remap ok st with
    | (inl err, st) => (err, st)
    | (inr addr, st) =>
        (0, st <| p_user ::= λ m, mem_upd m p (λ u, u <| counter_user_address := HRM_COUNTER_ADDR addr (counter_index P) |>) |>)
    end).

Definition hrm_consumer_counter_mmap (vma : vm_area_struct) (remap : Z) (ok : bool) (task cur : Z) (st : proc_hrm) :
    outcome (Z * proc_hrm) :=
  first_member (hrm_consumer_task_enabled task (mon st)) (hrm_consumers (htask (mon st) task)) task cur (λ e, (e, st)) (λ c,
    match map_counters task (c_group (cons_of (mon st) c)) vma remap ok st with
    | (inl err, st) => (err, st)
    | (inr addr, st) => (0, st <| c_user ::= λ m, mem_upd m c (λ u, u <| counter_user_address := HRM_COUNTERS_ADDR addr |>) |>)
    end).

Definition hrm_producer_measures_goal_mmap (vma : vm_area_struct) (remap : Z) (ok : bool) (task cur : Z) (st : proc_hrm) :
    outcome (Z * proc_hrm) :=
  first_member (hrm_producer_task_enabled task (mon st)) (hrm_producers (htask (mon st) task)) task cur (λ e, (e, st)) (λ p,
    match map_measures task (p_group (prod_of (mon st) p)) vma remap ok st with
    | (inl err, st) => (err, st)
    | (inr addr, st) =>
        (0, st <| p_user ::= λ m, mem_upd m p (λ u, u <| measures_user_address := HRM_MEASURES_ADDR addr |>
                                                       <| goal_user_address := HRM_GOAL_ADDR addr |>) |>)
    end).

Definition hrm_consumer_measures_goal_mmap (vma : vm_area_struct) (remap : Z) (ok : bool) (task cur : Z) (st : proc_hrm) :
    outcome (Z * proc_hrm) :=
  first_member (hrm_consumer_task_enabled task (mon st)) (hrm_consumers (htask (mon st) task)) task cur (λ e, (e, st)) (λ c,
    match map_measures task (c_group (cons_of (mon st) c)) vma remap ok st with
    | (inl err, st) => (err, st)
    | (inr addr, st) =>
        (0, st <| c_user ::= λ m, mem_upd m c (λ u, u <| measures_user_address := HRM_MEASURES_ADDR addr |>
                                                       <| goal_user_address := HRM_GOAL_ADDR addr |>) |>)
    end).

(** ** Reading the addresses: "%lu" and "%lu %lu" *)
Definition refused (pos : Z) (err : Z) : Z * Z * list Z := (err, pos, []).

Definition hrm_producer_counter_read (count pos fault task cur : Z) (st : proc_hrm) : outcome (Z * Z * list Z) :=
  first_member (hrm_producer_task_enabled task (mon st)) (hrm_producers (htask (mon st) task)) task cur (refused pos) (λ p,
    simple_read_from_buffer count pos fault (fmt_u (counter_user_address (p_user st !!! p)))).
Definition hrm_consumer_counter_read (count pos fault task cur : Z) (st : proc_hrm) : outcome (Z * Z * list Z) :=
  first_member (hrm_consumer_task_enabled task (mon st)) (hrm_consumers (htask (mon st) task)) task cur (refused pos) (λ c,
    simple_read_from_buffer count pos fault (fmt_u (counter_user_address (c_user st !!! c)))).
Definition hrm_producer_measures_goal_read (count pos fault task cur : Z) (st : proc_hrm) : outcome (Z * Z * list Z) :=
  first_member (hrm_producer_task_enabled task (mon st)) (hrm_producers (htask (mon st) task)) task cur (refused pos) (λ p,
    let u := p_user st !!! p in
    simple_read_from_buffer count pos fault (fmt_u (measures_user_address u) ++ bytes " " ++ fmt_u (goal_user_address u))).
Definition hrm_consumer_measures_goal_read (count pos fault task cur : Z) (st : proc_hrm) : outcome (Z * Z * list Z) :=
  first_member (hrm_consumer_task_enabled task (mon st)) (hrm_consumers (htask (mon st) task)) task cur (refused pos) (λ c,
    let u := c_user st !!! c in
    simple_read_from_buffer count pos fault (fmt_u (measures_user_address u) ++ bytes " " ++ fmt_u (goal_user_address u))).

(** ** /proc/hrm *)
Definition hb_per_s : list Z := bytes " [hb/" ++ fmt_d HRM_MEASURE_SCALE ++ bytes " / s]" ++ [10].

Definition show_window (G : hrm_group) (i : Z) : list Z :=
  let '(hr, scope) := hrm_get_heart_rate (Some G) i in
  if negb (scope =? HRM_MAX_WINDOW_SIZE) then
    bytes "window " ++ fmt_d i ++ [10; 9] ++ bytes "window heart rate: " ++ fmt_u hr ++ hb_per_s ++
    [9] ++ bytes "window size: " ++ fmt_u (u32 scope) ++ [10]
  else [].

Definition show_group (h : hrm) (G : hrm_group) : list Z :=
  let '(hr, _) := hrm_get_heart_rate (Some G) 0 in
  let '(min, _) := hrm_get_min_heart_rate (Some G) in
  let '(max, scope) := hrm_get_max_heart_rate (Some G) in
  [10; 10] ++ bytes "gid: " ++ fmt_d (gid G) ++ [10] ++ bytes "tids:" ++
  concat ((λ p, bytes " " ++ fmt_d (tid (counters G !!! counter_index (prod_of h p)))) <$> producers G) ++
  [10] ++ bytes "minimum heart rate: " ++ fmt_u min ++ hb_per_s ++
  bytes "maximum heart rate: " ++ fmt_u max ++ hb_per_s ++
  bytes "goal scope: " ++ fmt_u scope ++ [10; 9] ++
  bytes "global heart rate: " ++ fmt_u hr ++ hb_per_s ++
  concat (show_window G <$> seqZ 1 HRM_MAX_WINDOWS).

Definition hrm_show (h : hrm) : list Z :=
  fmt_d (Z.of_nat (length (hrm_groups h))) ++ bytes " monitored groups found:" ++
  (if bool_decide (hrm_groups h = []) then [10] else []) ++
  concat ((λ g, show_group h (grp h g)) <$> hrm_groups h).

(** ** kernel/exit.c and kernel/fork.c *)
Definition exit_hrm (t : Z) (h : hrm) : hrm :=
  let h := if negb (hrm_producer_task_enabled t h =? 0) then (hrm_delete_producer_task_from_all_groups t h).2 else h in
  if negb (hrm_consumer_task_enabled t h =? 0) then (hrm_delete_consumer_task_from_all_groups t h).2 else h.

Definition fork_hrm (t : Z) (h : hrm) : hrm :=
  upd_htask t (λ T, T <| hrm_producers := [] |> <| hrm_consumers := [] |>) h.
End handlers.

(** ** Joining and leaving *)
Section membership.
Context `{HrmConfig}.

Lemma written_number n (junk : list Z) :
  -0x80000000 ≤ n < 0x80000000 →
  let size := Z.of_nat (length (fmt_d n)) in
  ∃ kbuf, copy_from_user 1024 (Some (fmt_d n)) size = Some kbuf ∧
    s32 (fst (simple_strtol (kbuf ++ junk) 10)) = n ∧ 0 ≤ s64 size ∧ s64 size = size.
Proof.
  intros Hn size. pose proof (fmt_d_length n ltac:(lia)) as Hl. unfold copy_from_user.
  rewrite (proj2 (Z.ltb_ge 1024 size)) by lia. eexists. split; [done|].
  assert (∃ k, Z.to_nat (1024 - size) = S k) as [k ->] by (exists (Z.to_nat (1023 - size)); lia).
  rewrite <- app_assoc, simple_strtol_fmt_d; [|lia|left; split; vm_compute; done].
  cbn [fst]. rewrite !s32_id, s64_id by lia. lia.
Qed.

Lemma find_producer_gid t id h p :
  __hrm_find_producer_struct t id h = Some p → gid (grp h (p_group (prod_of h p))) = id.
Proof. unfold __hrm_find_producer_struct. intros E%head_Some_elem_of%list_elem_of_filter. apply E. Qed.

Lemma find_producer_link h p t g i now ge :
  is_Some (__hrm_find_producer_struct t (gid (grp h g)) (link_producer p t g i now ge h)).
Proof.
  unfold __hrm_find_producer_struct. set (h' := link_producer p t g i now ge h).
  assert (p ∈ hrm_producers (htask h' t)) as Hp.
  { unfold h', link_producer. cbv zeta. set (h4 := upd_htask t _ _). set (h5 := upd_group g _ h4).
    assert (htask h5 t = htask h4 t) as E by done.
    assert (p ∈ hrm_producers (htask h5 t)) as Hin.
    { rewrite E. unfold h4. rewrite htask_upd, decide_True by done. simpl. by left. }
    case_if; [by destruct ge|done]. }
  assert (gid (grp h' (p_group (prod_of h' p))) = gid (grp h g)) as Eg.
  { unfold h'. rewrite link_prod. cbn [p_group]. unfold link_producer. cbv zeta. set (h4 := upd_htask t _ _).
    assert (gid (grp (upd_group g (λ G, G <| producers ::= cons p |>) h4) g) = gid (grp h g)) as E.
    { rewrite (grp_field gid) by done. unfold h4. change (grp (upd_htask ?t ?f ?h0)) with (grp h0).
      by rewrite (grp_field gid). }
    case_if; [|done]. rewrite (grp_field gid) by done. by destruct ge. }
  destruct (filter _ _) as [|q l] eqn:E; [|by eexists].
  destruct (not_elem_of_nil p). rewrite <- E. by apply list_elem_of_filter.
Qed.

Lemma enabled_group_spec t id h : t ≠ NULL →
  hrm_producer_task_enabled_group t id h = if decide (is_Some (__hrm_find_producer_struct t id h)) then 1 else 0.
Proof. intros Ht. unfold hrm_producer_task_enabled_group. rewrite (proj2 (Z.eqb_neq t NULL)) by done. by case_decide; case_bool_decide. Qed.

(** A successful join makes the task a member, an error leaves the memberships. *)
Lemma join_spec h p a now t id :
  0 < HRM_GROUP_SIZE → t ≠ NULL →
  let '(r, h') := hrm_add_producer_task_to_group p a now t id h in
  (r = 0 ∧ ¬ is_Some (__hrm_find_producer_struct t id h) ∧ is_Some (__hrm_find_producer_struct t id h')) ∨
  (r < 0 ∧ h_tasks h' = h_tasks h).
Proof.
  intros Hs Ht. unfold hrm_add_producer_task_to_group. rewrite (proj2 (Z.eqb_neq t NULL)) by done.
  case_bool_decide as Hf; [by right|]. destruct (p =? NULL); [by right|].
  assert (∀ g h0, gid (grp h0 g) = id → h_tasks h0 = h_tasks h → ∀ ge,
    let '(r, h') := let '(i, h1) := __hrm_allocate_group_counter g h0 in
      if i <? 0 then (i, if (ge : bool) then h1 else __hrm_destroy_group g h1) else (0, link_producer p t g i now ge h1) in
    (r = 0 ∧ ¬ is_Some (__hrm_find_producer_struct t id h) ∧ is_Some (__hrm_find_producer_struct t id h')) ∨
    (r < 0 ∧ h_tasks h' = h_tasks h)) as Hgo.
  { intros g h0 Hid E ge. unfold __hrm_allocate_group_counter. destruct (bitmap_find_free_region _ _ _) as [i bm].
    destruct (Z.ltb_spec i 0); [right; split; [done|by destruct ge]|]. left. split_and!; [done..|].
    set (h1 := upd_group g _ h0). assert (gid (grp h1 g) = id) as <- by (unfold h1; by rewrite (grp_field gid)).
    apply find_producer_link. }
  destruct (__hrm_find_group id h) as [g|] eqn:Eg.
  - apply find_group_some in Eg as [_ Hid]. exact (Hgo g h Hid eq_refl true).
  - unfold __hrm_create_group. destruct (ga_group a =? NULL); [by right|].
    destruct (ga_counters a); [|by right]. destruct (ga_measures a); [|by right]. cbn [negb].
    refine (Hgo (ga_group a) _ _ _ false); [|done]. unfold grp, update. simpl. by rewrite lookup_total_insert_eq.
Qed.

(** Leaving a group ends the membership in it. *)
Lemma leave_spec h t id :
  hrm_ok h → t ≠ NULL →
  let '(r, h') := hrm_delete_producer_task_from_group t id h in
  hrm_ok h' ∧ ¬ is_Some (__hrm_find_producer_struct t id h') ∧
  if decide (is_Some (__hrm_find_producer_struct t id h)) then r = 0 else r = - EINVAL ∧ h' = h.
Proof.
  intros Hok Ht. unfold hrm_delete_producer_task_from_group. rewrite (proj2 (Z.eqb_neq t NULL)) by done.
  destruct (__hrm_find_producer_struct t id h) as [p|] eqn:E; cycle 1.
  { rewrite E, decide_False by (by intros []). by split_and!; [|intros []|..]. }
  rewrite decide_True by (by eexists). pose proof (find_producer_gid _ _ _ _ E) as Eid. apply find_producer_some in E as Hp.
  destruct (hi_ptask _ _ Hok t p Hp) as (P & HP & <-). destruct (hi_prod _ _ Hok p P HP) as [Hg _].
  rewrite (prod_some _ _ _ HP) in Eid |- *. set (h1 := upd_group _ _ h).
  assert (hrm_ok h1) as Hok1 by (by apply inv_group_view).
  assert (hrm_ok (unlink_producer p (p_task P) h1)) as Hok2 by (by apply unlink_producer_ok).
  split_and!; [done| |done]. intros [q Hq]. pose proof (find_producer_gid _ _ _ _ Hq) as Eq.
  apply find_producer_some in Hq as Hin. destruct (hi_ptask _ _ Hok2 _ q Hin) as (Q & HQ & _).
  destruct (hi_prod _ _ Hok2 q Q HQ) as [Hl _]. rewrite (prod_some _ _ _ HQ) in Eq.
  rewrite unlink_memberships, elem_of_unlist in Hin. destruct Hin as [Hne Hin].
  destruct (unlink_producer_groups h1 p P (p_group Q)) as (Hl1 & _ & _ & Egid & _);
    [by apply prod_some|by apply live_upd|done|]. rewrite Egid in Eq. unfold h1 in Eq. rewrite (grp_field gid) in Eq by done.
  assert (prod_of h q = Q) as EQ.
  { rewrite <- (prod_some _ _ _ HQ), unlink_prod_of by done. done. }
  apply Hne, (hi_once _ _ Hok (p_task P)); [done..|]. rewrite EQ, (prod_some _ _ _ HP).
  apply (hi_gids _ _ Hok); [by apply (live_upd_iff _ _ _ Hg) in Hl1|done|congruence].
Qed.
End membership.

(** The group file of a task.  A positive group number written in decimal by the
    task itself makes it a member of that group and the write returns its length,
    or fails with an error and changes no membership; the negated number ends the
    membership, and fails with EINVAL when there was none.  Either way the state of
    the monitor stays consistent.  Other tasks get EPERM; when the task of the file
    is gone, the kernel dereferences NULL. *)
Theorem group_write_spec `{HrmConfig} (p : Z) (a : group_alloc) (now : timespec) (task id : Z) (junk : list Z) (st : proc_hrm) :
  0 < HRM_GROUP_SIZE → hrm_ok (mon st) → h_producers (mon st) !! p = None → h_groups (mon st) !! ga_group a = None →
  task ≠ NULL → 0 < id < 0x80000000 →
  (∃ r st', hrm_producer_group_write p a now task task (Some (fmt_d id)) junk (Z.of_nat (length (fmt_d id))) st = Done (r, st') ∧
     hrm_ok (mon st') ∧
     (r = Z.of_nat (length (fmt_d id)) ∧ hrm_producer_task_enabled_group task id (mon st) = 0 ∧
        hrm_producer_task_enabled_group task id (mon st') = 1 ∨
      r < 0 ∧ h_tasks (mon st') = h_tasks (mon st))) ∧
  (∃ r st', hrm_producer_group_write p a now task task (Some (fmt_d (- id))) junk (Z.of_nat (length (fmt_d (- id)))) st = Done (r, st') ∧
     hrm_ok (mon st') ∧ hrm_producer_task_enabled_group task id (mon st') = 0 ∧
     (if hrm_producer_task_enabled_group task id (mon st) =? 1 then r = Z.of_nat (length (fmt_d (- id)))
      else r = - EINVAL ∧ mon st' = mon st)) ∧
  (∀ cur user size, cur ≠ task →
     hrm_producer_group_write p a now task cur user junk size st = Done (- EPERM, st) ∧
     (cur ≠ NULL → hrm_producer_group_write p a now NULL cur user junk size st = Oops)).
Proof.
  intros Hs Hok Hp Ha Ht Hid. split; [|split].
  - destruct (written_number id junk) as (kbuf & Ek & Eg & Hsz & Es); [lia|].
    unfold hrm_producer_group_write, group_write. rewrite Z.eqb_refl, Ek, Eg. cbn [negb].
    rewrite (proj2 (Z.ltb_lt 0 id)) by lia.
    pose proof (join_spec (mon st) p a now task id Hs Ht) as Hj. pose proof (add_producer_ok (mon st) p a now task id Hs Hok Hp Ha) as Hok'.
    destruct (hrm_add_producer_task_to_group p a now task id (mon st)) as [r h']. eexists _, _. split; [done|]. split; [done|].
    destruct Hj as [(-> & Hn & Hy)|[Hr Et]]; [left|right].
    + rewrite !enabled_group_spec by done. rewrite decide_False, decide_True by done. by split_and!.
    + by rewrite (proj2 (Z.ltb_lt r 0)).
  - destruct (written_number (- id) junk) as (kbuf & Ek & Eg & Hsz & Es); [lia|].
    unfold hrm_producer_group_write, group_write. rewrite Z.eqb_refl, Ek, Eg. cbn [negb].
    rewrite (proj2 (Z.ltb_ge 0 (- id))), (proj2 (Z.ltb_lt (- id) 0)), Z.opp_involutive, s32_id by lia.
    pose proof (leave_spec (mon st) task id Hok Ht) as Hl.
    destruct (hrm_delete_producer_task_from_group task id (mon st)) as [r h']. destruct Hl as (Hok' & Hn & Hr).
    eexists _, _. split; [done|]. split; [done|]. rewrite !enabled_group_spec by done.
    split; [by rewrite decide_False|]. destruct (decide _) in Hr; [rewrite decide_True by done|rewrite decide_False by done]; simpl.
    + by rewrite Hr.
    + by destruct Hr as [-> ->].
  - intros cur user size Hne. unfold hrm_producer_group_write, group_write.
    rewrite (proj2 (Z.eqb_neq task cur)), (proj2 (Z.eqb_neq task NULL)) by congruence. split; [done|].
    intros Hc. by rewrite (proj2 (Z.eqb_neq NULL cur)) by congruence.
Qed.

#[local] Existing Instance default_hrm.

Lemma group_write_spec_witness :
  ∃ r st', hrm_producer_group_write 102 (mk_galloc 8192 true true) (mk_timespec 4 0) 7 7 (Some (fmt_d (-5))) []
             (Z.of_nat (length (fmt_d (-5)))) (mk_proc beating ∅ ∅) = Done (r, st') ∧
    hrm_producer_task_enabled_group 7 5 (mon st') = 0 ∧ r = 2.
Proof.
  destruct (group_write_spec 102 (mk_galloc 8192 true true) (mk_timespec 4 0) 7 5 [] (mk_proc beating ∅ ∅)) as (_ & (r & st' & E & _ & E0 & Er) & _).
  - by vm_compute.
  - apply inv_group_view; [|by vm_compute; eexists|by vm_compute]. do 2 (apply add_producer_ok; [done| |done..]).
    apply hrm_boot_ok.
  - by vm_compute.
  - by vm_compute.
  - done.
  - done.
  - exists r, st'. by split_and!.
Defined.

(** The exit of a task leads to a reachable state of the monitor. *)
Lemma exit_hrm_reach `{HrmConfig} t h : hrm_reach h → hrm_reach (exit_hrm t h).
Proof.
  intros Hr. unfold exit_hrm. cbv zeta. set (h1 := if negb (hrm_producer_task_enabled t h =? 0) then _ else h).
  assert (hrm_reach h1) as Hr1.
  { unfold h1. case_if; [|done]. eapply hr_step; [exact Hr|apply hs_exit_producer]. }
  case_if; [|done]. eapply hr_step; [exact Hr1|apply hs_exit_consumer].
Qed.

(** ** Mapping *)
Section mapping.
Context `{HrmConfig}.

Lemma find_after_get tgid maps :
  __hrm_find_group_memory_map tgid (__hrm_get_group_memory_map tgid maps).2 = __hrm_find_group_memory_map tgid maps.
Proof.
  induction maps as [|m maps IH]; [done|]. simpl. destruct (map_pid m =? tgid) eqn:E; simpl; [by rewrite E|].
  destruct (__hrm_get_group_memory_map tgid maps) as [r l]. simpl in *. by rewrite E.
Qed.

Lemma map_memory_spec tgid memsize vma remap ok maps addr maps' :
  map_memory tgid memsize vma remap ok maps = (inr addr, maps') → 
  let known := __hrm_find_group_memory_map tgid maps in
  addr = (if known =? 0 then vm_start vma else known) ∧ __hrm_find_group_memory_map tgid maps' = addr ∧
  (known = 0 → u64 (vm_end vma - vm_start vma) = memsize).
Proof.
  unfold map_memory. cbv zeta. destruct (Z.eqb_spec (__hrm_find_group_memory_map tgid maps) 0) as [E0|Hne]; cbn [negb].
  - destruct (Z.eqb_spec (u64 (s64 (vm_end vma - vm_start vma))) memsize) as [Es|]; [|done]. cbn [negb].
    destruct (remap <? 0); [done|]. unfold __hrm_add_group_memory_map. destruct ok; [|done]. simpl.
    intros [= <- <-]. simpl. rewrite Z.eqb_refl. split_and!; [done..|]. intros _. rewrite <- Es. wrap.
  - pose proof (find_after_get tgid maps) as Hf. destruct (__hrm_get_group_memory_map tgid maps) as [r l]. simpl in Hf.
    destruct (r <? 0); [done|]. intros [= <- <-]. by split_and!.
Qed.

Lemma get_map_result tgid maps : (__hrm_get_group_memory_map tgid maps).1 = 0 ∨ (__hrm_get_group_memory_map tgid maps).1 = - ESRCH.
Proof.
  induction maps as [|m maps IH]; [by right|]. simpl. destruct (map_pid m =? tgid); [by left|].
  by destruct (__hrm_get_group_memory_map tgid maps).
Qed.

Lemma map_memory_err tgid memsize vma remap ok maps maps' : map_memory tgid memsize vma remap ok maps ≠ (inl 0, maps').
Proof.
  unfold map_memory. cbv zeta. destruct (negb _).
  - pose proof (get_map_result tgid maps) as Hr. destruct (__hrm_get_group_memory_map tgid maps) as [r m]. simpl in Hr.
    by destruct Hr as [-> | ->].
  - destruct (negb _); [done|]. destruct (Z.ltb_spec remap 0); [intros [= ->]; lia|]. by destruct ok.
Qed.

Lemma read_whole count text :
  (0 < length text)%nat → Z.of_nat (length text) ≤ count →
  simple_read_from_buffer count 0 0 text = (Z.of_nat (length text), Z.of_nat (length text), text).
Proof.
  intros Hl Hc. unfold simple_read_from_buffer. cbv zeta. cbn [Z.ltb Z.compare].
  rewrite (proj2 (Z.leb_gt _ 0)), (proj2 (Z.eqb_neq count 0)) by lia. cbn [orb]. rewrite Z.sub_0_r.
  assert ((if Z.of_nat (length text) <? count then Z.of_nat (length text) else count) = Z.of_nat (length text)) as ->.
  { destruct (Z.ltb_spec (Z.of_nat (length text)) count); lia. }
  rewrite (proj2 (Z.eqb_neq 0 _)), Z.sub_0_r, Z.add_0_l, Nat2Z.id by lia. simpl. by rewrite firstn_all.
Qed.
End mapping.

(** The address of a task's counter reaches it intact.  After a successful mapping
    of the counters, reading hrm_producer_counter gives the decimal address of the
    task's own counter: its index in the area where the thread group has the
    counters mapped, which is the new area unless there was one before.  The whole
    counter lies inside the area, no other producer of the group has the same
    counter, and threads that map the counters later get the same area. *)
Theorem counter_address_roundtrip `{HrmConfig} (vma : vm_area_struct) (remap : Z) (ok : bool) (task p count : Z)
    (l : list Z) (st st' : proc_hrm) :
  hrm_ok (mon st) → task ≠ NULL → hrm_producers (htask (mon st) task) = p :: l →
  hrm_producer_counter_mmap vma remap ok task task st = Done (0, st') →
  let P := prod_of (mon st) p in
  let maps := counters_maps (grp (mon st) (p_group P)) in
  let known := __hrm_find_group_memory_map (t_tgid (htask (mon st) task)) maps in
  let base := if known =? 0 then vm_start vma else known in
  0 < base → base + counters_bytes ≤ 0x10000000000000000 → 64 ≤ count →
  (∃ text, hrm_producer_counter_read count 0 0 task task st' = Done (Z.of_nat (length text), Z.of_nat (length text), text) ∧
     ∀ rest, stops rest → simple_strtoul (text ++ rest) 10 = (base + L1_CACHE_BYTES * counter_index P, rest)) ∧
  (0 ≤ counter_index P ∧ L1_CACHE_BYTES * (counter_index P + 1) ≤ counters_bytes) ∧
  (known = 0 → u64 (vm_end vma - vm_start vma) = counters_bytes) ∧
  (∀ q, q ∈ producers (grp (mon st) (p_group P)) → q ≠ p → counter_index (prod_of (mon st) q) ≠ counter_index P) ∧
  hrm_ok (mon st') ∧
  __hrm_find_group_memory_map (t_tgid (htask (mon st') task)) (counters_maps (grp (mon st') (p_group P))) = base.
Proof.
  intros Hok Ht El Hmm P maps known base Hb Hb' Hc.
  assert (p ∈ hrm_producers (htask (mon st) task)) as Hp by (rewrite El; by left).
  destruct (hi_ptask _ _ Hok _ _ Hp) as (P' & HP & _). assert (P = P') as <- by (by apply prod_some).
  destruct (hi_prod _ _ Hok _ _ HP) as [Hg _]. pose proof (hi_group _ _ Hok _ _ (live_grp _ _ Hg)) as Gok.
  assert (p ∈ producers (grp (mon st) (p_group P))) as Hpg by (apply Gok; by exists P).
  pose proof (go_index _ _ _ _ Gok p Hpg) as Hi. change (h_producers (mon st) !!! p) with P in Hi.
  assert (L1_CACHE_BYTES * (counter_index P + 1) ≤ counters_bytes) as Hin by (unfold counters_bytes, L1_CACHE_BYTES; lia).
  assert (∀ h, hrm_producers (htask h task) = p :: l → hrm_producer_task_enabled task h = 1) as Hen.
  { intros h E. unfold hrm_producer_task_enabled. by rewrite (proj2 (Z.eqb_neq task NULL)), E by done. }
  unfold hrm_producer_counter_mmap, first_member in Hmm. rewrite Z.eqb_refl, (Hen _ El), El in Hmm. cbn [negb Z.eqb] in Hmm.
  fold P in Hmm. unfold map_counters in Hmm. fold maps in Hmm.
  destruct (map_memory _ _ _ _ _ maps) as [[e|addr] maps'] eqn:Em; [|apply map_memory_spec in Em as (Ea & Ef & Es)].
  { exfalso. injection Hmm as -> _. revert Em. apply map_memory_err. }
  fold known in Ea, Es. fold base in Ea. subst addr. injection Hmm as <-.
  split_and!; [|lia|done|done| | |].
  - unfold hrm_producer_counter_read, first_member. rewrite Z.eqb_refl, Hen by done. cbn [negb Z.eqb].
    change (hrm_producers (htask (mon _) task)) with (hrm_producers (htask (mon st) task)). rewrite El.
    eexists. split.
    + simpl. rewrite mem_upd_eq. simpl. f_equal. apply read_whole.
      all: destruct (simple_strtoul_fmt_u (HRM_COUNTER_ADDR base (counter_index P)) [] (u64_range _)); [done|lia].
    + intros rest Hr. unfold HRM_COUNTER_ADDR. rewrite u64_id by (unfold L1_CACHE_BYTES in *; lia).
      apply simple_strtoul_fmt_u; [unfold L1_CACHE_BYTES in *; lia|done].
  - intros q Hq Hne E. by apply Hne, (go_own _ _ _ _ Gok).
  - by apply inv_group_view.
  - etransitivity; [|exact Ef]. f_equal. simpl. by rewrite grp_upd, decide_True.
Qed.

Definition sample_vma : vm_area_struct := mk_vma 0x1000000 0x1001000.
Definition sample_mapped : proc_hrm :=
  match hrm_producer_counter_mmap sample_vma 0 true 8 8 (mk_proc beating ∅ ∅) with
  | Done (_, st) => st
  | Oops => mk_proc hrm_boot ∅ ∅
  end.

Lemma counter_address_roundtrip_witness :
  ∃ text, hrm_producer_counter_read 64 0 0 8 8 sample_mapped = Done (Z.of_nat (length text), Z.of_nat (length text), text) ∧
    simple_strtoul (text ++ [10]) 10 = (0x1000040, [10]).
Proof.
  destruct (counter_address_roundtrip sample_vma 0 true 8 101 64 [] (mk_proc beating ∅ ∅) sample_mapped) as ((text & E & Hr) & _).
  - apply inv_group_view; [|by vm_compute; eexists|by vm_compute]. do 2 (apply add_producer_ok; [done| |done..]).
    apply hrm_boot_ok.
  - done.
  - by vm_compute.
  - vm_compute. reflexivity.
  - by vm_compute.
  - by vm_compute.
  - done.
  - exists text. split; [exact E|]. etransitivity; [apply Hr; left; split; vm_compute; done|vm_compute; reflexivity].
Defined.

(** A leaving thread drops a reference to the maps of its thread group whether or
    not it had mapped: here thread 8 has the counters mapped, thread 7 of the same
    group leaves without having done so, and the map of thread 8 is forgotten. *)
Example leave_drops_foreign_map :
  let g := grp (mon sample_mapped) 4096 in
  let g' := grp (hrm_delete_producer_task_from_group 7 5 (mon sample_mapped)).2 4096 in
  counters_maps g = [mk_map 0 0x1000000 1] ∧ counters_maps g' = [] ∧ producers g' = [101].
Proof. by vm_compute. Qed.
