(* ===== verification/LibHrm.v ===== *)
(** * The user-space library of the heart-rate monitor: tools/libhrm/hrm.c

    A monitored program attaches its threads to groups through the files of
    HrmProc.v, counts heartbeats in the mapped counter page, and manages the
    windows and the goal in the mapped measures page; a monitoring program reads
    the rates.  An [hrm_t] holds user addresses; [counter_at] and [measures_at]
    follow them through the memory maps of the thread group to the group of Hrm.v
    whose pages they reach.  The functions that work on the pages are given the
    group; a section between [__sync_lock_test_and_set] and
    [__sync_lock_release] is one step.

    A [double] is an IEEE 754 binary64 number, executable through the standard
    library's SpecFloat.

    The theorems: a thread that [hrm_attach] reports as attached is a producer of
    the group, its pointers reach that group's pages, and every heartbeat it sends
    is in the total the kernel computes; windows keep their keys; the tables
    grow and shrink as documented. *)

From Stdlib Require Import String SpecFloat.
From S2P Require Export HrmProc.

(** ** Doubles *)
Definition double : Set := spec_float.
Definition d_of_Z (n : Z) : double := binary_normalize 53 1024 n 0 false.
Definition d_mul : double → double → double := SFmul 53 1024.
Definition d_div : double → double → double := SFdiv 53 1024.
Definition d_lt : double → double → bool := SFltb.

(** The conversion to [uint64_t] drops the fraction; outside of the range it is
    undefined. *)
Definition d_to_u64 (x : double) : option Z :=
  match x with
  | S754_zero _ => Some 0
  | S754_finite s m e =>
      let n := Z.shiftl (Zpos m) e in
      let n := if s then - n else n in
      if (0 <=? n) && (n <? 0x10000000000000000) then Some n else None
  | _ => None
  end.

Definition EDOM : Z := 33.

(** [struct hrm]. *)
Record hrm_t := mk_hrm_t {
  m_gid : Z;
  m_consumer : bool;
  m_counter : Z;
  m_measures : Z;
  m_goal : Z;
}.

Section lib.
Context `{HrmConfig}.

(** A result with the error number the library sets, if it sets one. *)
Definition fails {A} (v : A) (errno : Z) : A * option Z := (v, Some errno).
Definition returns {A} (v : A) : A * option Z := (v, None).

(** ** Windows *)

(** The loop of [__hrm_add_window]: the index it stops at and the table. *)
Fixpoint add_window_loop (size i : Z) (sizes : list Z) : Z * list Z :=
  match sizes with
  | [] => (i, [])
  | x :: l =>
      if x =? size then (i, x :: l)
      else if x =? 0 then (i, size :: l)
      else let '(j, l) := add_window_loop size (i + 1) l in (j, x :: l)
  end.

Definition __hrm_add_window (size : Z) (G : hrm_group) : Z * option Z * hrm_group :=
  let '(i, sizes) := add_window_loop size 0 (window_size (goal G)) in
  let G := G <| goal ::= λ g, g <| window_size := sizes |> |> in
  if i =? HRM_MAX_WINDOWS then (fails (-1) ENOMEM, G) else (returns (i + 1), G).

Definition hrm_add_window (monitor : option hrm_t) (size : Z) (G : hrm_group) : Z * option Z * hrm_group :=
  match monitor with
  | None => (fails (-1) EFAULT, G)
  | Some _ => __hrm_add_window size G
  end.

Fixpoint del_window_loop (size i : Z) (sizes : list Z) : Z * list Z :=
  match sizes with
  | [] => (i, [])
  | x :: l =>
      if x =? size then (i, 0 :: l)
      else let '(j, l) := del_window_loop size (i + 1) l in (j, x :: l)
  end.

Definition hrm_del_window (monitor : option hrm_t) (size : Z) (G : hrm_group) : Z * option Z * hrm_group :=
  match monitor with
  | None => (fails (-1) EFAULT, G)
  | Some m =>
      if m_consumer m then (fails (-1) EPERM, G)
      else if size =? 0 then (fails (-1) EINVAL, G)
      else if size =? scope (goal G) then (fails (-1) EINVAL, G)
      else
        let '(i, sizes) := del_window_loop size 0 (window_size (goal G)) in
        let G := G <| goal ::= λ g, g <| window_size := sizes |> |> in
        if i =? HRM_MAX_WINDOWS then (fails (-1) EINVAL, G) else (returns 0, G)
  end.

(** [None] when a rate cannot be converted. *)
Definition hrm_set_goal (monitor : option hrm_t) (size : Z) (min max : double) (G : hrm_group) :
    option (Z * option Z * hrm_group) :=
  match monitor with
  | None => Some (fails (-1) EFAULT, G)
  | Some m =>
      if m_consumer m then Some (fails (-1) EPERM, G)
      else if d_lt max min then Some (fails (-1) EDOM, G)
      else if HRM_MAX_WINDOW_SIZE <? size then Some (fails (-1) EDOM, G)
      else
        let '(key, errno, G) := if 0 <? size then __hrm_add_window size G else (returns (-1), G) in
        if (0 <? size) && (key =? -1) then Some (-1, errno, G)
        else
          min ← d_to_u64 (d_mul min (d_of_Z HRM_MEASURE_SCALE));
          max ← d_to_u64 (d_mul max (d_of_Z HRM_MEASURE_SCALE));
          Some (returns key, G <| goal ::= λ g, g <| min_heart_rate := min |> <| max_heart_rate := max |> <| scope := size |> |>)
  end.

Definition hrm_unset_goal (monitor : option hrm_t) (G : hrm_group) : Z * option Z * hrm_group :=
  match monitor with
  | None => (fails (-1) EFAULT, G)
  | Some m =>
      if m_consumer m then (fails (-1) EPERM, G)
      else (returns 0, G <| goal ::= λ g, g <| min_heart_rate := 0 |> <| max_heart_rate := 0 |> <| scope := 0 |> |>)
  end.

Definition hrm_get_windows_number (G : hrm_group) : Z :=
  Z.of_nat (length (filter (λ x, x ≠ 0) (take (Z.to_nat (HRM_MAX_WINDOWS - 1)) (window_size (goal G))))).

Definition hrm_get_window_size (monitor : option hrm_t) (key : Z) (G : hrm_group) : Z * option Z :=
  match monitor with
  | None => fails HRM_MAX_WINDOW_SIZE EFAULT
  | Some _ =>
      if (key <? 0) || (HRM_MAX_WINDOWS <? key) then fails HRM_MAX_WINDOW_SIZE EINVAL
      else if key =? 0 then returns 0
      else returns (window_size (goal G) !!! Z.to_nat (key - 1))
  end.

(** ** Rates *)
Definition heart_rate (m : hrm_measure) : double :=
  if negb (m_time m =? 0) then d_mul (d_div (d_of_Z (m_count m)) (d_of_Z (m_time m))) (d_of_Z 1000000000)
  else S754_zero false.

(** The index of the first window of a size, or [HRM_MAX_WINDOWS]. *)
Fixpoint find_window (size i : Z) (sizes : list Z) : Z :=
  match sizes with
  | [] => i
  | x :: l => if x =? size then i else find_window size (i + 1) l
  end.

(** The rate and the key.  When there is no such window, what is read behind the
    table of measures is not used. *)
Definition hrm_seek_heart_rate (monitor : option hrm_t) (size : Z) (G : hrm_group) : double * Z * option Z :=
  match monitor with
  | None => fails (S754_zero false, -1) EFAULT
  | Some _ =>
      if HRM_MAX_WINDOW_SIZE <? size then fails (S754_zero false, -1) EINVAL
      else if size =? 0 then returns (heart_rate (measures_global G), 0)
      else
        let i := find_window size 0 (window_size (goal G)) in
        if i =? HRM_MAX_WINDOWS then fails (S754_zero false, -1) EINVAL
        else returns (heart_rate (measures_window G !!! Z.to_nat i), i + 1)
  end.

(** The rate and the window size. *)
Definition hrm_get_heart_rate (monitor : option hrm_t) (key : Z) (G : hrm_group) : double * Z * option Z :=
  match monitor with
  | None => fails (S754_zero false, HRM_MAX_WINDOW_SIZE) EFAULT
  | Some _ =>
      if (key <? 0) || (HRM_MAX_WINDOWS <? key) then fails (S754_zero false, HRM_MAX_WINDOW_SIZE) EINVAL
      else if key =? 0 then returns (heart_rate (measures_global G), 0)
      else
        let size := window_size (goal G) !!! Z.to_nat (key - 1) in
        if size =? 0 then fails (S754_zero false, HRM_MAX_WINDOW_SIZE) EINVAL
        else returns (heart_rate (measures_window G !!! Z.to_nat (key - 1)), size)
  end.

Definition hrm_get_min_heart_rate (monitor : option hrm_t) (G : hrm_group) : double * Z * option Z :=
  match monitor with
  | None => fails (S754_zero false, HRM_MAX_WINDOW_SIZE) EFAULT
  | Some _ => returns (d_div (d_of_Z (min_heart_rate (goal G))) (d_of_Z HRM_MEASURE_SCALE), scope (goal G))
  end.
Definition hrm_get_max_heart_rate (monitor : option hrm_t) (G : hrm_group) : double * Z * option Z :=
  match monitor with
  | None => fails (S754_zero false, HRM_MAX_WINDOW_SIZE) EFAULT
  | Some _ => returns (d_div (d_of_Z (max_heart_rate (goal G))) (d_of_Z HRM_MEASURE_SCALE), scope (goal G))
  end.

(** ** Members *)

(** A store of [l] at the start of the array [a]; [None] is a store behind its end. *)
Definition store (l a : list Z) : option (list Z) :=
  if (length l <=? length a)%nat then Some (l ++ drop (length l) a) else None.

(** [tids] is the array of the caller, [alloc] whether [calloc] succeeded. *)
Definition hrm_get_tids (monitor : option hrm_t) (tids : option (list Z)) (n : Z) (alloc : bool) (G : hrm_group) :
    option (Z * option Z * option (list Z)) :=
  match monitor with
  | None => Some (fails (-1) EFAULT, tids)
  | Some m =>
      if negb (m_consumer m) then Some (fails (-1) EPERM, tids)
      else match tids with
      | None => Some (returns (-1), tids)
      | Some a =>
          if negb alloc then Some (returns (-1), tids)
          else
            let tids_ := tid <$> filter (λ c, used c = true) ((λ i, counters G !!! i) <$> seqZ 0 64) in
            let tids_count := Z.of_nat (length tids_) in
            let k := if tids_count <? n then tids_count else n in
            if k <? 0 then None
            else a ← store (take (Z.to_nat k) tids_ ++ [0]) a; Some (returns 0, Some a)
      end
  end.

(** ** Addresses

    What the pages of thread group [tgid] hold at a user address. *)
Definition counter_at (tgid : Z) (h : hrm) (addr : Z) : option (Z * Z) :=
  head (omap (λ g,
    let base := __hrm_find_group_memory_map tgid (counters_maps (grp h g)) in
    if negb (base =? 0) && (base <=? addr) && (addr <? base + counters_bytes) && ((addr - base) mod L1_CACHE_BYTES =? 0)
    then Some (g, (addr - base) / L1_CACHE_BYTES) else None) (hrm_groups h)).
Definition measures_at (tgid : Z) (h : hrm) (addr : Z) : option Z :=
  head (filter (λ g,
    let base := __hrm_find_group_memory_map tgid (measures_maps (grp h g)) in
    base ≠ 0 ∧ HRM_MEASURES_ADDR base = addr) (hrm_groups h)).
Definition goal_at (tgid : Z) (h : hrm) (addr : Z) : option Z :=
  head (filter (λ g,
    let base := __hrm_find_group_memory_map tgid (measures_maps (grp h g)) in
    base ≠ 0 ∧ HRM_GOAL_ADDR base = addr) (hrm_groups h)).

(** [None]: the counter is not in a mapped page of a group. *)
Definition heartbeat (tgid : Z) (monitor : option hrm_t) (n : Z) (h : hrm) : option (Z * option Z * hrm) :=
  match monitor with
  | None => Some (fails (-1) EFAULT, h)
  | Some m =>
      if m_consumer m then Some (fails (-1) EPERM, h)
      else
        '(g, i) ← counter_at tgid h (m_counter m);
        Some (returns 0, upd_group g (λ G, G <| counters ::= λ cs, mem_upd cs i (λ c, c <| counter ::= λ x, u64 (x + n) |>) |>) h)
  end.

(** ** Attaching and detaching *)

(** What the system answers during [hrm_attach]: which of the five opens succeed,
    the memory and time the kernel uses, the areas [mmap] finds and what the
    kernel's mapping of them gives, the size of a stdio buffer, and what is on the
    stack in the places of the three addresses. *)
Record attach_env := mk_env {
  e_opens : list bool;
  e_member : Z;
  e_galloc : group_alloc;
  e_now : timespec;
  e_junk : list Z;
  e_counters : vm_area_struct * Z * bool;
  e_measures : vm_area_struct * Z * bool;
  e_bufsiz : Z;
  e_stack : Z * Z * Z;
}.

(** The files of the calling thread [t]. *)
Definition group_file (e : attach_env) (consumer : bool) (task t : Z) (text : list Z) (st : proc_hrm) : outcome (Z * proc_hrm) :=
  let size := Z.of_nat (length text) in
  if consumer then hrm_consumer_group_write (e_member e) (e_galloc e) task t (Some text) (e_junk e) size st
  else hrm_producer_group_write (e_member e) (e_galloc e) (e_now e) task t (Some text) (e_junk e) size st.
Definition counter_mmap (e : attach_env) (consumer : bool) (t : Z) (st : proc_hrm) : outcome (Z * proc_hrm) :=
  let '(vma, remap, ok) := e_counters e in
  if consumer then hrm_consumer_counter_mmap vma remap ok t t st else hrm_producer_counter_mmap vma remap ok t t st.
Definition measures_goal_mmap (e : attach_env) (consumer : bool) (t : Z) (st : proc_hrm) : outcome (Z * proc_hrm) :=
  let '(vma, remap, ok) := e_measures e in
  if consumer then hrm_consumer_measures_goal_mmap vma remap ok t t st
  else hrm_producer_measures_goal_mmap vma remap ok t t st.
Definition counter_read (e : attach_env) (consumer : bool) (t : Z) (st : proc_hrm) : outcome (Z * Z * list Z) :=
  if consumer then hrm_consumer_counter_read (e_bufsiz e) 0 0 t t st else hrm_producer_counter_read (e_bufsiz e) 0 0 t t st.
Definition measures_goal_read (e : attach_env) (consumer : bool) (t : Z) (st : proc_hrm) : outcome (Z * Z * list Z) :=
  if consumer then hrm_consumer_measures_goal_read (e_bufsiz e) 0 0 t t st
  else hrm_producer_measures_goal_read (e_bufsiz e) 0 0 t t st.

(** [fscanf] of "%lu" on what the file gave; a variable that cannot be converted
    keeps its value. *)
Fixpoint skip_spaces (s : list Z) : list Z :=
  match s with
  | c :: l => if c =? 32 then skip_spaces l else s
  | [] => []
  end.
Definition scan_lu (s : list Z) (old : Z) : Z * list Z :=
  let s := skip_spaces s in
  if isdigit (chr s 0) then simple_strtoul s 10 else (old, s).
Definition text_of (r : Z * Z * list Z) : list Z := if r.1.1 <? 0 then [] else r.2.

(** Lines 98-100: the way out when a mapping failed. *)
Definition attach_failed (e : attach_env) (consumer : bool) (t id : Z) (st : proc_hrm) :
    outcome (Z * option Z * option hrm_t * proc_hrm) :=
  match group_file e consumer t t (bytes "-" ++ fmt_d id) st with
  | Oops => Oops
  | Done (_, st) => Done (returns (-1), None, st)
  end.

(** Lines 78-96, in a thread that has joined the group. *)
Definition attach_map (e : attach_env) (consumer : bool) (t id : Z) (st : proc_hrm) :
    outcome (Z * option Z * option hrm_t * proc_hrm) :=
  match counter_mmap e consumer t st with
  | Oops => Oops
  | Done (r, st) =>
      if negb (r =? 0) then attach_failed e consumer t id st
      else match counter_read e consumer t st with
      | Oops => Oops
      | Done cr =>
          let '(counter_address, _) := scan_lu (text_of cr) (e_stack e).1.1 in
          match measures_goal_mmap e consumer t st with
          | Oops => Oops
          | Done (r, st) =>
              if negb (r =? 0) then attach_failed e consumer t id st
              else match measures_goal_read e consumer t st with
              | Oops => Oops
              | Done mr =>
                  let '(measures_address, rest) := scan_lu (text_of mr) (e_stack e).1.2 in
                  let '(goal_address, _) := scan_lu rest (e_stack e).2 in
                  Done (returns 0, Some (mk_hrm_t id consumer counter_address measures_address goal_address), st)
              end
          end
      end
  end.

(** Lines 75-96. *)
Definition attach_opened (e : attach_env) (consumer : bool) (t id : Z) (st : proc_hrm) :
    outcome (Z * option Z * option hrm_t * proc_hrm) :=
  match group_file e consumer t t (fmt_d id) st with
  | Oops => Oops
  | Done (r, st) => if r <? 0 then Done (returns (-1), None, st) else attach_map e consumer t id st
  end.

(** [monitor] says that the argument is not NULL; the new contents of the monitor
    are the third result. *)
Definition hrm_attach (e : attach_env) (t : Z) (monitor : bool) (id : Z) (consumer : bool) (st : proc_hrm) :
    outcome (Z * option Z * option hrm_t * proc_hrm) :=
  if negb monitor then Done (fails (-1) EFAULT, None, st)
  else if id =? 0 then Done (fails (-1) EDOM, None, st)
  else if forallb (λ b, b) (e_opens e) then attach_opened e consumer t id st
  else Done (returns (-1), None, st).

(** [task_of] finds the task of a thread id in the calling process; the file cannot
    be opened when there is none. *)
Definition hrm_detach (e : attach_env) (task_of : Z → option Z) (t : Z) (monitor : option hrm_t) (st : proc_hrm) :
    option (outcome (Z * option Z * proc_hrm)) :=
  match monitor with
  | None => Some (Done (fails (-1) EFAULT, st))
  | Some m =>
      '(g, i) ← counter_at (t_tgid (htask (mon st) t)) (mon st) (m_counter m);
      Some (match task_of (tid (counters (grp (mon st) g) !!! i)) with
            | None => Done (returns (-1), st)
            | Some task =>
                match group_file e (m_consumer m) task t (bytes "-" ++ fmt_d (m_gid m)) st with
                | Oops => Oops
                | Done (r, st) => Done (returns (if r <? 0 then -1 else 0), st)
                end
            end)
  end.
End lib.

(** ** Text *)
Lemma scan_fmt_u n rest old :
  0 ≤ n < 0x10000000000000000 → stops rest → scan_lu (fmt_u n ++ rest) old = (n, rest).
Proof.
  intros Hn Hr. destruct (simple_strtoul_fmt_u n rest Hn Hr) as [E _].
  destruct (number_digits n 10 0 ltac:(tauto) ltac:(tauto) Hn) as (Hd & _ & Hl). fold (fmt_u n) in Hd, Hl.
  unfold scan_lu. destruct (fmt_u n) as [|c l]; [simpl in Hl; lia|].
  apply Forall_cons in Hd as [Hc%digit_of_10 _]. cbn [app skip_spaces] in *.
  rewrite (proj2 (Z.eqb_neq c 32)) by lia. change (chr (c :: l ++ rest) 0) with c.
  by rewrite (proj2 (isdigit_spec c)) by lia.
Qed.

Lemma minus_fmt_d n : 0 < n < 0x8000000000000000 → bytes "-" ++ fmt_d n = fmt_d (- n).
Proof.
  intros Hn. unfold fmt_d. rewrite (number_negative (u64 (- n))) by wrap. rewrite number_plain by (right; right; split; [done|wrap]).
  assert (u64 n = n) as -> by wrap. assert (u64 (- s64 (u64 (- n))) = n) as -> by wrap.
  by rewrite (proj2 (Z.eqb_neq n 0)) by lia.
Qed.

(** ** What joining a group does *)
Section attach.
Context `{HrmConfig}.
Implicit Types (h : hrm) (g p t x : Z) (st : proc_hrm).

Definition mview (G : hrm_group) : Z * list hrm_memory_map * list hrm_memory_map :=
  (gid G, counters_maps G, measures_maps G).

Lemma link_facts h p t g i now ge :
  let h' := link_producer p t g i now ge h in
  hrm_producers (htask h' t) = p :: hrm_producers (htask h t) ∧
  (∀ x, t_tgid (htask h' x) = t_tgid (htask h x)) ∧ (∀ x, mview (grp h' x) = mview (grp h x)).
Proof.
  unfold link_producer. cbv zeta. set (h4 := upd_htask t _ _). set (h5 := upd_group g _ h4).
  assert (hrm_producers (htask h5 t) = p :: hrm_producers (htask h t)) as E1.
  { change (htask h5) with (htask h4). unfold h4. by rewrite htask_upd, decide_True. }
  assert (∀ x, t_tgid (htask h5 x) = t_tgid (htask h x)) as E2.
  { intros x. change (htask h5) with (htask h4). unfold h4. rewrite htask_upd. by case_decide; [subst|]. }
  assert (∀ x, mview (grp h5 x) = mview (grp h x)) as E3.
  { intros x. unfold h5. rewrite (grp_field mview) by done. unfold h4. change (grp (upd_htask ?t ?f ?h0)) with (grp h0).
    by rewrite (grp_field mview). }
  clearbody h5. case_if; [|done]. split_and!.
  - rewrite <- E1. by destruct ge.
  - intros x. rewrite <- E2. by destruct ge.
  - intros x. rewrite (grp_field mview) by done. rewrite <- E3. by destruct ge.
Qed.

(** The maps and ids of the live groups, the members and the thread groups after a
    successful join. *)
Lemma joined h p a now t id h' :
  h_groups h !! ga_group a = None →
  hrm_add_producer_task_to_group p a now t id h = (0, h') →
  hrm_producers (htask h' t) = p :: hrm_producers (htask h t) ∧
  (∀ x, t_tgid (htask h' x) = t_tgid (htask h x)) ∧
  (∀ x, counters_maps (grp h' x) = counters_maps (grp h x) ∧ measures_maps (grp h' x) = measures_maps (grp h x)) ∧
  gid (grp h' (p_group (prod_of h' p))) = id ∧ ¬ is_Some (__hrm_find_producer_struct t id h).
Proof.
  intros Ha. unfold hrm_add_producer_task_to_group. destruct (t =? NULL); [done|].
  case_bool_decide as Hf; [done|]. destruct (p =? NULL); [done|].
  assert (∀ g h0 ge, gid (grp h0 g) = id → (∀ x, htask h0 x = htask h x) →
    (∀ x, counters_maps (grp h0 x) = counters_maps (grp h x) ∧ measures_maps (grp h0 x) = measures_maps (grp h x)) →
    (let '(i, h1) := __hrm_allocate_group_counter g h0 in
     if i <? 0 then (i, if (ge : bool) then h1 else __hrm_destroy_group g h1) else (0, link_producer p t g i now ge h1)) = (0, h') →
    hrm_producers (htask h' t) = p :: hrm_producers (htask h t) ∧
    (∀ x, t_tgid (htask h' x) = t_tgid (htask h x)) ∧
    (∀ x, counters_maps (grp h' x) = counters_maps (grp h x) ∧ measures_maps (grp h' x) = measures_maps (grp h x)) ∧
    gid (grp h' (p_group (prod_of h' p))) = id ∧ ¬ is_Some (__hrm_find_producer_struct t id h)) as Hgo.
  { intros g h0 ge Hid Et Em. unfold __hrm_allocate_group_counter. destruct (bitmap_find_free_region _ _ _) as [i bm].
    destruct (Z.ltb_spec i 0); [intros [= -> _]; lia|]. intros [= <-].
    set (h1 := upd_group g _ h0). destruct (link_facts h1 p t g i now ge) as (L1 & L2 & L3).
    assert (∀ x, mview (grp h1 x) = mview (grp h0 x)) as E1 by (intros x; unfold h1; by rewrite (grp_field mview)).
    pose proof (link_prod h1 g p t i now ge) as L4.
    assert (∀ x, htask h1 x = htask h x) as Et1 by (intros x; rewrite <- Et; reflexivity).
    clearbody h1. revert L1 L2 L3 L4. generalize (link_producer p t g i now ge h1). intros h2 L1 L2 L3 L4.
    split_and!; [by rewrite L1, Et1|intros x; by rewrite L2, Et1| |rewrite L4; simpl|done].
    - intros x. destruct (Em x) as [<- <-]. specialize (L3 x). rewrite E1 in L3. by injection L3.
    - specialize (L3 g). rewrite E1 in L3. injection L3 as L3 _ _. by rewrite L3. }
  destruct (__hrm_find_group id h) as [g|] eqn:Eg.
  - apply find_group_some in Eg as [_ Hid]. by apply (Hgo g h true).
  - unfold __hrm_create_group. destruct (ga_group a =? NULL); [done|].
    destruct (ga_counters a); [|done]. destruct (ga_measures a); [|done]. cbn [negb].
    refine (Hgo (ga_group a) _ false _ _ _); [|done|].
    + unfold grp, update. simpl. by rewrite lookup_total_insert_eq.
    + intros x. unfold grp, update. simpl. destruct (decide (ga_group a = x)) as [<-|Hne].
      * rewrite lookup_total_insert_eq. rewrite !(lookup_total_alt (h_groups h)), Ha. done.
      * by rewrite lookup_total_insert_ne.
Qed.

(** Writing the group file. *)
Lemma join_file e t id st :
  0 < HRM_GROUP_SIZE → hrm_ok (mon st) → h_producers (mon st) !! e_member e = None →
  h_groups (mon st) !! ga_group (e_galloc e) = None → t ≠ NULL → 0 < id < 0x80000000 →
  ∃ r st', group_file e false t t (fmt_d id) st = Done (r, st') ∧ hrm_ok (mon st') ∧
    if r <? 0 then h_tasks (mon st') = h_tasks (mon st)
    else hrm_add_producer_task_to_group (e_member e) (e_galloc e) (e_now e) t id (mon st) = (0, mon st').
Proof.
  intros Hs Hok Hp Ha Ht Hid. destruct (written_number id (e_junk e)) as (kbuf & Ek & Eg & Hsz & Es); [lia|].
  unfold group_file, hrm_producer_group_write, group_write. rewrite Z.eqb_refl, Ek, Eg. cbn [negb].
  rewrite (proj2 (Z.ltb_lt 0 id)) by lia.
  pose proof (join_spec (mon st) (e_member e) (e_galloc e) (e_now e) t id Hs Ht) as Hj.
  pose proof (add_producer_ok (mon st) (e_member e) (e_galloc e) (e_now e) t id Hs Hok Hp Ha) as Hok'.
  destruct (hrm_add_producer_task_to_group _ _ _ t id (mon st)) as [r h']. eexists _, _. split; [done|]. split; [done|].
  destruct Hj as [(-> & _ & _)|[Hr Et]].
  - cbn [Z.ltb Z.compare]. rewrite (proj2 (Z.ltb_ge (s64 _) 0)) by lia. done.
  - rewrite (proj2 (Z.ltb_lt r 0)) by done. by rewrite (proj2 (Z.ltb_lt r 0)).
Qed.

(** Leaving again after a failed mapping. *)
Lemma leave_newest t id p l h :
  hrm_ok h → t ≠ NULL → hrm_producers (htask h t) = p :: l → gid (grp h (p_group (prod_of h p))) = id →
  hrm_producers (htask (hrm_delete_producer_task_from_group t id h).2 t) = l.
Proof.
  intros Hok Ht El Eg. unfold hrm_delete_producer_task_from_group. rewrite (proj2 (Z.eqb_neq t NULL)) by done.
  assert (__hrm_find_producer_struct t id h = Some p) as ->.
  { unfold __hrm_find_producer_struct. rewrite El, filter_cons, decide_True by done. done. }
  cbn [snd]. rewrite unlink_memberships. change (htask (upd_group ?g ?f h)) with (htask h). rewrite El.
  destruct (hi_tnodup _ _ Hok t) as [Hnd _]. rewrite El in Hnd. apply NoDup_cons in Hnd as [Hp _].
  unfold unlist. rewrite filter_cons, decide_False by naive_solver. by apply unlist_id.
Qed.

Lemma attach_failed_spec e t id p l st :
  hrm_ok (mon st) → t ≠ NULL → 0 < id < 0x80000000 →
  hrm_producers (htask (mon st) t) = p :: l → gid (grp (mon st) (p_group (prod_of (mon st) p))) = id →
  ∃ st', attach_failed e false t id st = Done (returns (-1), None, st') ∧ hrm_ok (mon st') ∧
    hrm_producers (htask (mon st') t) = l.
Proof.
  intros Hok Ht Hid El Eg'. destruct (written_number (- id) (e_junk e)) as (kbuf & Ek & Eg & Hsz & Es); [lia|].
  unfold attach_failed. rewrite minus_fmt_d by lia. unfold group_file, hrm_producer_group_write, group_write.
  rewrite Z.eqb_refl, Ek, Eg. cbn [negb].
  rewrite (proj2 (Z.ltb_ge 0 (- id))), (proj2 (Z.ltb_lt (- id) 0)), Z.opp_involutive, s32_id by lia.
  pose proof (leave_spec (mon st) t id Hok Ht) as Hl. pose proof (leave_newest t id p l (mon st) Hok Ht El Eg') as Hn.
  destruct (hrm_delete_producer_task_from_group t id (mon st)) as [r h']. destruct Hl as (Hok' & _ & _).
  eexists. by split_and!.
Qed.

(** ** Mapping *)
Definition cbase (tgid : Z) h g : Z := __hrm_find_group_memory_map tgid (counters_maps (grp h g)).
Definition mbase (tgid : Z) h g : Z := __hrm_find_group_memory_map tgid (measures_maps (grp h g)).
Definition apart (len a b : Z) : Prop := a + len ≤ b ∨ b + len ≤ a.
Definition area (len a : Z) : Prop := 0 < a ∧ a + len ≤ 0x10000000000000000.

(** The areas in which a thread group has mapped the pages of groups: inside the
    address space, and different groups at different places. *)
Record areas_ok (tgid : Z) h : Prop := {
  ar_counters : ∀ g, cbase tgid h g ≠ 0 → area counters_bytes (cbase tgid h g);
  ar_measures : ∀ g, mbase tgid h g ≠ 0 → area PAGE_SIZE (mbase tgid h g);
  ar_capart : ∀ g g', g ≠ g' → cbase tgid h g ≠ 0 → cbase tgid h g' ≠ 0 →
    apart counters_bytes (cbase tgid h g) (cbase tgid h g');
  ar_mapart : ∀ g g', g ≠ g' → mbase tgid h g ≠ 0 → mbase tgid h g' ≠ 0 →
    apart PAGE_SIZE (mbase tgid h g) (mbase tgid h g');
}.

(** [mmap] finds room that is not in use. *)
Record free_areas (tgid : Z) (e : attach_env) h : Prop := {
  fr_counters : area counters_bytes (vm_start (e_counters e).1.1);
  fr_measures : area PAGE_SIZE (vm_start (e_measures e).1.1);
  fr_capart : ∀ g, cbase tgid h g ≠ 0 → apart counters_bytes (vm_start (e_counters e).1.1) (cbase tgid h g);
  fr_mapart : ∀ g, mbase tgid h g ≠ 0 → apart PAGE_SIZE (vm_start (e_measures e).1.1) (mbase tgid h g);
}.

Lemma areas_ext tgid h h' :
  (∀ g, cbase tgid h' g = cbase tgid h g) → (∀ g, mbase tgid h' g = mbase tgid h g) → areas_ok tgid h → areas_ok tgid h'.
Proof. intros Ec Em [A B C D]. split; intros *; rewrite ?Ec, ?Em; auto. Qed.

(** One member's mapping of the counters: the new state, and on success the place. *)
Lemma counter_mmap_spec e t p l st :
  let h := mon st in
  let tgid := t_tgid (htask h t) in
  let g := p_group (prod_of h p) in
  t ≠ NULL → hrm_producers (htask h t) = p :: l →
  ∃ r st', counter_mmap e false t st = Done (r, st') ∧
    (∃ maps, mon st' = upd_group g (λ G, G <| counters_maps := maps |>) h) ∧
    (r = 0 → let base := if cbase tgid h g =? 0 then vm_start (e_counters e).1.1 else cbase tgid h g in
       cbase tgid (mon st') g = base ∧
       p_user st' = mem_upd (p_user st) p (λ u, u <| counter_user_address := HRM_COUNTER_ADDR base (counter_index (prod_of h p)) |>)).
Proof.
  intros h tgid g Ht El. unfold counter_mmap. destruct (e_counters e) as [[vma remap] ok]. cbn [fst].
  unfold hrm_producer_counter_mmap, first_member. rewrite Z.eqb_refl. cbn [negb].
  assert (hrm_producer_task_enabled t (mon st) = 1) as ->.
  { unfold hrm_producer_task_enabled. fold h. by rewrite (proj2 (Z.eqb_neq t NULL)), El by done. }
  fold h. rewrite El. cbn [Z.eqb]. unfold map_counters. fold h g tgid.
  destruct (map_memory tgid counters_bytes vma remap ok (counters_maps (grp h g))) as [[err|addr] maps] eqn:Em.
  - eexists _, _. split; [done|]. split; [by eexists|]. intros ->. by apply map_memory_err in Em.
  - eexists _, _. split; [done|]. split; [by eexists|]. intros _. apply map_memory_spec in Em as (Ea & Ef & _).
    fold (cbase tgid h g) in Ea. cbv zeta. rewrite <- Ea. split; [|done].
    etransitivity; [|exact Ef]. unfold cbase. simpl. by rewrite grp_upd, decide_True.
Qed.

Lemma measures_mmap_spec e t p l st :
  let h := mon st in
  let tgid := t_tgid (htask h t) in
  let g := p_group (prod_of h p) in
  t ≠ NULL → hrm_producers (htask h t) = p :: l →
  ∃ r st', measures_goal_mmap e false t st = Done (r, st') ∧
    (∃ maps, mon st' = upd_group g (λ G, G <| measures_maps := maps |>) h) ∧
    (r = 0 → let base := if mbase tgid h g =? 0 then vm_start (e_measures e).1.1 else mbase tgid h g in
       mbase tgid (mon st') g = base ∧
       p_user st' = mem_upd (p_user st) p (λ u, u <| measures_user_address := HRM_MEASURES_ADDR base |>
                                                   <| goal_user_address := HRM_GOAL_ADDR base |>)).
Proof.
  intros h tgid g Ht El. unfold measures_goal_mmap. destruct (e_measures e) as [[vma remap] ok]. cbn [fst].
  unfold hrm_producer_measures_goal_mmap, first_member. rewrite Z.eqb_refl. cbn [negb].
  assert (hrm_producer_task_enabled t (mon st) = 1) as ->.
  { unfold hrm_producer_task_enabled. fold h. by rewrite (proj2 (Z.eqb_neq t NULL)), El by done. }
  fold h. rewrite El. cbn [Z.eqb]. unfold map_measures. fold h g tgid.
  destruct (map_memory tgid PAGE_SIZE vma remap ok (measures_maps (grp h g))) as [[err|addr] maps] eqn:Em.
  - eexists _, _. split; [done|]. split; [by eexists|]. intros ->. by apply map_memory_err in Em.
  - eexists _, _. split; [done|]. split; [by eexists|]. intros _. apply map_memory_spec in Em as (Ea & Ef & _).
    fold (mbase tgid h g) in Ea. cbv zeta. rewrite <- Ea. split; [|done].
    etransitivity; [|exact Ef]. unfold mbase. simpl. by rewrite grp_upd, decide_True.
Qed.

(** Mapping the counters or the measures of one group keeps the areas in order. *)
Lemma areas_map_counters tgid h g maps base :
  areas_ok tgid h → (∀ x, x ≠ g → cbase tgid h x ≠ 0 → apart counters_bytes base (cbase tgid h x)) →
  area counters_bytes base →
  let h' := upd_group g (λ G, G <| counters_maps := maps |>) h in
  cbase tgid h' g = base → areas_ok tgid h'.
Proof.
  intros [A B C D] Hap Har h' Eb.
  assert (∀ x, cbase tgid h' x = if decide (x = g) then base else cbase tgid h x) as Ec.
  { intros x. case_decide; [by subst|]. unfold cbase, h'. by rewrite grp_upd, decide_False by congruence. }
  assert (∀ x, mbase tgid h' x = mbase tgid h x) as Em.
  { intros x. unfold mbase, h'. by rewrite (grp_field measures_maps). }
  split; intros *; rewrite ?Em, ?Ec; auto.
  - case_decide; auto.
  - intros Hne. repeat case_decide; [congruence|..]; intros; [by apply Hap| |by auto].
    destruct (Hap g0) as [?|?]; [done|done|by right|by left].
Qed.
Lemma areas_map_measures tgid h g maps base :
  areas_ok tgid h → (∀ x, x ≠ g → mbase tgid h x ≠ 0 → apart PAGE_SIZE base (mbase tgid h x)) →
  area PAGE_SIZE base →
  let h' := upd_group g (λ G, G <| measures_maps := maps |>) h in
  mbase tgid h' g = base → areas_ok tgid h'.
Proof.
  intros [A B C D] Hap Har h' Eb.
  assert (∀ x, mbase tgid h' x = if decide (x = g) then base else mbase tgid h x) as Em.
  { intros x. case_decide; [by subst|]. unfold mbase, h'. by rewrite grp_upd, decide_False by congruence. }
  assert (∀ x, cbase tgid h' x = cbase tgid h x) as Ec.
  { intros x. unfold cbase, h'. by rewrite (grp_field counters_maps). }
  split; intros *; rewrite ?Em, ?Ec; auto.
  - case_decide; auto.
  - intros Hne. repeat case_decide; [congruence|..]; intros; [by apply Hap| |by auto].
    destruct (Hap g0) as [?|?]; [done|done|by right|by left].
Qed.

(** ** Following an address *)
Lemma head_omap_unique {A B} `{EqDecision A} (f : A → option B) (l : list A) (x : A) (v : B) :
  x ∈ l → f x = Some v → (∀ y, y ∈ l → y ≠ x → f y = None) → head (omap f l) = Some v.
Proof.
  intros Hx Ef. revert Hx. induction l as [|y l IH]; intros Hx Hu; [by apply elem_of_nil in Hx|].
  apply elem_of_cons in Hx as [->|Hx]; cbn [omap list_omap]; [by rewrite Ef|].
  destruct (f y) as [w|] eqn:E; [|apply IH; [done|]; intros; apply Hu; [by right|done]].
  simpl. destruct (decide (y = x)) as [->|Hne]; [congruence|].
  rewrite Hu in E; [done|by left|done].
Qed.
Lemma head_filter_unique {A} (P : A → Prop) `{∀ y, Decision (P y)} (l : list A) (x : A) :
  x ∈ l → P x → (∀ y, P y → y = x) → head (filter P l) = Some x.
Proof.
  intros Hx HP Hu. induction l as [|y l IH]; [by apply elem_of_nil in Hx|]. rewrite filter_cons.
  case_decide as Hy; [by rewrite (Hu y Hy)|]. apply IH. apply elem_of_cons in Hx as [->|]; done.
Qed.

Lemma counter_at_spec tgid h g i :
  areas_ok tgid h → g ∈ hrm_groups h → cbase tgid h g ≠ 0 → 0 ≤ i < HRM_GROUP_SIZE →
  counter_at tgid h (cbase tgid h g + L1_CACHE_BYTES * i) = Some (g, i).
Proof.
  intros Ha Hg Hb Hi. unfold counter_at. apply head_omap_unique with (x := g); [done|..].
  - fold (cbase tgid h g). rewrite (proj2 (Z.eqb_neq _ 0)) by done. cbn [negb andb].
    rewrite (proj2 (Z.leb_le _ _)), (proj2 (Z.ltb_lt _ _)) by (unfold counters_bytes, L1_CACHE_BYTES; lia). cbn [andb].
    rewrite Z.add_simpl_l, (Z.mul_comm L1_CACHE_BYTES i), Z.mod_mul, Z.div_mul by done. done.
  - intros x _ Hne. fold (cbase tgid h x). destruct (Z.eqb_spec (cbase tgid h x) 0) as [E|E]; [done|]. cbn [negb andb].
    pose proof (ar_capart _ _ Ha x g Hne E Hb) as Hap. unfold apart, counters_bytes in *.
    destruct (Z.leb_spec (cbase tgid h x) (cbase tgid h g + L1_CACHE_BYTES * i)); [|done]. cbn [andb].
    destruct (Z.ltb_spec (cbase tgid h g + L1_CACHE_BYTES * i) (cbase tgid h x + HRM_GROUP_SIZE * L1_CACHE_BYTES)); [|done].
    exfalso. unfold L1_CACHE_BYTES in *. lia.
Qed.
Lemma measures_at_spec tgid h g :
  areas_ok tgid h → g ∈ hrm_groups h → mbase tgid h g ≠ 0 →
  measures_at tgid h (HRM_MEASURES_ADDR (mbase tgid h g)) = Some g ∧
  goal_at tgid h (HRM_GOAL_ADDR (mbase tgid h g)) = Some g.
Proof.
  intros Ha Hg Hb.
  assert (∀ x, mbase tgid h x ≠ 0 → mbase tgid h x = mbase tgid h g → x = g) as Hinj.
  { intros x Hx E. destruct (decide (x = g)); [done|].
    destruct (ar_mapart _ _ Ha x g) as [?|?]; [done..|unfold PAGE_SIZE in *; lia|unfold PAGE_SIZE in *; lia]. }
  split; (apply head_filter_unique; [done|done|]); intros x [Hx E]; apply (Hinj x Hx); [done|].
  fold (mbase tgid h x) in E, Hx. revert E.
  destruct (ar_measures _ _ Ha x Hx) as [? ?], (ar_measures _ _ Ha g Hb) as [? ?].
  unfold HRM_GOAL_ADDR. change sizeof_goal with 288. change PAGE_SIZE with 4096 in *. rewrite !u64_id by lia. lia.
Qed.

(** ** Reading the addresses back *)
Lemma enabled_member t p l h : t ≠ NULL → hrm_producers (htask h t) = p :: l → hrm_producer_task_enabled t h = 1.
Proof. intros Ht El. unfold hrm_producer_task_enabled. by rewrite (proj2 (Z.eqb_neq t NULL)), El by done. Qed.

Lemma counter_read_spec e t p l st n :
  t ≠ NULL → hrm_producers (htask (mon st) t) = p :: l → 64 ≤ e_bufsiz e →
  counter_user_address (p_user st !!! p) = n → 0 ≤ n < 0x10000000000000000 →
  ∃ cr, counter_read e false t st = Done cr ∧ ∀ old, (scan_lu (text_of cr) old).1 = n.
Proof.
  intros Ht El Hb En Hn. unfold counter_read, hrm_producer_counter_read, first_member.
  rewrite Z.eqb_refl, (enabled_member t p l), El by done. cbn [negb Z.eqb]. rewrite En.
  destruct (simple_strtoul_fmt_u n [] Hn) as [_ Hl]; [done|].
  rewrite read_whole by lia. eexists. split; [done|]. intros old. unfold text_of. cbn [fst snd].
  rewrite (proj2 (Z.ltb_ge _ 0)) by lia. rewrite <- (app_nil_r (fmt_u n)). by rewrite scan_fmt_u.
Qed.

Lemma measures_read_spec e t p l st m g :
  t ≠ NULL → hrm_producers (htask (mon st) t) = p :: l → 130 ≤ e_bufsiz e →
  measures_user_address (p_user st !!! p) = m → goal_user_address (p_user st !!! p) = g →
  0 ≤ m < 0x10000000000000000 → 0 ≤ g < 0x10000000000000000 →
  ∃ mr, measures_goal_read e false t st = Done mr ∧
    ∀ old old', let '(x, rest) := scan_lu (text_of mr) old in x = m ∧ (scan_lu rest old').1 = g.
Proof.
  intros Ht El Hb Em Eg Hm Hg. unfold measures_goal_read, hrm_producer_measures_goal_read, first_member.
  rewrite Z.eqb_refl, (enabled_member t p l), El by done. cbn [negb Z.eqb]. rewrite Em, Eg.
  assert (stops (bytes " " ++ fmt_u g ++ [])) as Hst by (left; split; vm_compute; done).
  destruct (simple_strtoul_fmt_u m [] Hm) as [_ Hl]; [done|]. destruct (simple_strtoul_fmt_u g [] Hg) as [_ Hl']; [done|].
  rewrite read_whole by (rewrite !length_app; change (length (bytes " ")) with 1%nat; lia).
  eexists. split; [done|]. intros old old'. unfold text_of. cbn [fst snd]. rewrite (proj2 (Z.ltb_ge _ 0)) by lia.
  rewrite <- (app_nil_r (fmt_u g)). rewrite scan_fmt_u by done. split; [done|].
  transitivity (scan_lu (fmt_u g ++ []) old').1; [done|]. by rewrite scan_fmt_u.
Qed.

(** ** An attached thread *)
Record attached (t id p : Z) (m : hrm_t) h : Prop := {
  at_member : p ∈ hrm_producers (htask h t);
  at_gid : gid (grp h (p_group (prod_of h p))) = id ∧ m_gid m = id ∧ m_consumer m = false;
  at_counter : counter_at (t_tgid (htask h t)) h (m_counter m) = Some (p_group (prod_of h p), counter_index (prod_of h p));
  at_measures : measures_at (t_tgid (htask h t)) h (m_measures m) = Some (p_group (prod_of h p));
  at_goal : goal_at (t_tgid (htask h t)) h (m_goal m) = Some (p_group (prod_of h p));
}.

(** A thread whose newest membership is [p], in group [id]. *)
Record member (t id p : Z) (l : list Z) h : Prop := {
  mb_ok : hrm_ok h;
  mb_list : hrm_producers (htask h t) = p :: l;
  mb_gid : gid (grp h (p_group (prod_of h p))) = id;
  mb_areas : areas_ok (t_tgid (htask h t)) h;
}.

Lemma member_group t id p l h :
  member t id p l h →
  live h (p_group (prod_of h p)) ∧ p_group (prod_of h p) ∈ hrm_groups h ∧ 0 ≤ counter_index (prod_of h p) < HRM_GROUP_SIZE.
Proof.
  intros [Hok El _ _]. assert (p ∈ hrm_producers (htask h t)) as Hp by (rewrite El; by left).
  destruct (hi_ptask _ _ Hok _ _ Hp) as (P & HP & _). destruct (hi_prod _ _ Hok _ _ HP) as [Hg _].
  pose proof (hi_group _ _ Hok _ _ (live_grp _ _ Hg)) as Gok.
  assert (p ∈ producers (grp h (p_group P))) as Hpg by (apply Gok; by exists P).
  pose proof (go_index _ _ _ _ Gok p Hpg) as Hi. change (h_producers h !!! p) with (prod_of h p) in Hi.
  rewrite (prod_some _ _ _ HP) in *. split_and!; [done|by apply (hi_list _ _ Hok)|lia|lia].
Qed.

Lemma map_counters_step e t id p l st :
  let tgid := t_tgid (htask (mon st) t) in
  let g := p_group (prod_of (mon st) p) in
  t ≠ NULL → member t id p l (mon st) → free_areas tgid e (mon st) →
  ∃ r st', counter_mmap e false t st = Done (r, st') ∧ hrm_ok (mon st') ∧
    (∃ maps, mon st' = upd_group g (λ G, G <| counters_maps := maps |>) (mon st)) ∧
    (r = 0 → member t id p l (mon st') ∧ cbase tgid (mon st') g ≠ 0 ∧
       counter_user_address (p_user st' !!! p) = cbase tgid (mon st') g + L1_CACHE_BYTES * counter_index (prod_of (mon st) p)).
Proof.
  intros tgid g Ht Hm Hfr. destruct (member_group _ _ _ _ _ Hm) as (Hl & Hgl & Hi).
  destruct Hm as [Hok El Eg Har]. fold tgid in Har.
  destruct (counter_mmap_spec e t p l st Ht El) as (r & st' & -> & [maps E] & Hr). fold g tgid in E, Hr.
  assert (hrm_ok (mon st')) as Hok' by (rewrite E; by apply inv_group_view).
  exists r, st'. split_and!; [done|done|by exists maps|]. intros Er. destruct (Hr Er) as [Eb Eu].
  set (base := if cbase tgid (mon st) g =? 0 then _ else _) in *.
  assert (area counters_bytes base ∧ (∀ x, x ≠ g → cbase tgid (mon st) x ≠ 0 → apart counters_bytes base (cbase tgid (mon st) x))) as [Ha Hap].
  { unfold base. destruct (Z.eqb_spec (cbase tgid (mon st) g) 0) as [E0|E0]; (split; [by apply Hfr||by apply Har|]).
    - intros x _ Hx. by apply Hfr.
    - intros x Hx H0. by apply Har. }
  split_and!.
  - split; [done|by rewrite E| |].
    + rewrite E. change (prod_of (upd_group ?g ?f ?h)) with (prod_of h). fold g. by rewrite (grp_field gid).
    + rewrite E. change (htask (upd_group ?g ?f ?h)) with (htask h). fold tgid.
      apply (areas_map_counters tgid (mon st) g maps base); [done..|]. by rewrite <- E.
  - rewrite Eb. destruct Ha. lia.
  - rewrite Eu, mem_upd_eq, Eb. cbn [counter_user_address update]. unfold HRM_COUNTER_ADDR. simpl.
    destruct Ha. unfold counters_bytes, L1_CACHE_BYTES in *. apply u64_id. lia.
Qed.

Lemma map_measures_step e t id p l st :
  let tgid := t_tgid (htask (mon st) t) in
  let g := p_group (prod_of (mon st) p) in
  t ≠ NULL → member t id p l (mon st) → area PAGE_SIZE (vm_start (e_measures e).1.1) →
  (∀ x, mbase tgid (mon st) x ≠ 0 → apart PAGE_SIZE (vm_start (e_measures e).1.1) (mbase tgid (mon st) x)) →
  ∃ r st', measures_goal_mmap e false t st = Done (r, st') ∧ hrm_ok (mon st') ∧
    (∃ maps, mon st' = upd_group g (λ G, G <| measures_maps := maps |>) (mon st)) ∧
    (r = 0 → member t id p l (mon st') ∧ mbase tgid (mon st') g ≠ 0 ∧
       measures_user_address (p_user st' !!! p) = HRM_MEASURES_ADDR (mbase tgid (mon st') g) ∧
       goal_user_address (p_user st' !!! p) = HRM_GOAL_ADDR (mbase tgid (mon st') g)).
Proof.
  intros tgid g Ht Hm Hfa Hfp. destruct (member_group _ _ _ _ _ Hm) as (Hl & Hgl & Hi).
  destruct Hm as [Hok El Eg Har]. fold tgid in Har.
  destruct (measures_mmap_spec e t p l st Ht El) as (r & st' & -> & [maps E] & Hr). fold g tgid in E, Hr.
  assert (hrm_ok (mon st')) as Hok' by (rewrite E; by apply inv_group_view).
  exists r, st'. split_and!; [done|done|by exists maps|]. intros Er. destruct (Hr Er) as [Eb Eu].
  set (base := if mbase tgid (mon st) g =? 0 then _ else _) in *.
  assert (area PAGE_SIZE base ∧ (∀ x, x ≠ g → mbase tgid (mon st) x ≠ 0 → apart PAGE_SIZE base (mbase tgid (mon st) x))) as [Ha Hap].
  { unfold base. destruct (Z.eqb_spec (mbase tgid (mon st) g) 0) as [E0|E0]; (split; [done||by apply Har|]).
    - intros x _ Hx. by apply Hfp.
    - intros x Hx H0. by apply Har. }
  split_and!.
  - split; [done|by rewrite E| |].
    + rewrite E. change (prod_of (upd_group ?g ?f ?h)) with (prod_of h). fold g. by rewrite (grp_field gid).
    + rewrite E. change (htask (upd_group ?g ?f ?h)) with (htask h). fold tgid.
      apply (areas_map_measures tgid (mon st) g maps base); [done..|]. by rewrite <- E.
  - rewrite Eb. destruct Ha. lia.
  - by rewrite Eu, mem_upd_eq, Eb.
  - by rewrite Eu, mem_upd_eq, Eb.
Qed.

Lemma attached_intro t id p l h :
  let tgid := t_tgid (htask h t) in
  let g := p_group (prod_of h p) in
  member t id p l h → cbase tgid h g ≠ 0 → mbase tgid h g ≠ 0 →
  attached t id p (mk_hrm_t id false (cbase tgid h g + L1_CACHE_BYTES * counter_index (prod_of h p))
    (HRM_MEASURES_ADDR (mbase tgid h g)) (HRM_GOAL_ADDR (mbase tgid h g))) h.
Proof.
  intros tgid g Hm Hc Hb. destruct (member_group _ _ _ _ _ Hm) as (_ & Hgl & Hi). destruct Hm as [Hok El Eg Har].
  destruct (measures_at_spec tgid h g Har Hgl Hb) as [Em Ego]. split; simpl; [|done| |done|done].
  - rewrite El. by left.
  - by apply counter_at_spec.
Qed.

(** The end of [hrm_attach], once the thread is a member. *)
Lemma attach_map_spec e t id p l st :
  t ≠ NULL → 0 < id < 0x80000000 → member t id p l (mon st) →
  free_areas (t_tgid (htask (mon st) t)) e (mon st) → 130 ≤ e_bufsiz e →
  ∃ r err m st', attach_map e false t id st = Done (r, err, m, st') ∧ hrm_ok (mon st') ∧
    match m with
    | Some m => r = 0 ∧ err = None ∧ attached t id p m (mon st') ∧ htask (mon st') = htask (mon st)
    | None => r = -1 ∧ hrm_producers (htask (mon st') t) = l
    end.
Proof.
  intros Ht Hid Hm Hfr Hbs. set (tgid := t_tgid (htask (mon st) t)) in *. set (g := p_group (prod_of (mon st) p)).
  unfold attach_map. destruct (map_counters_step e t id p l st Ht Hm Hfr) as (r1 & st1 & -> & Hok1 & [m1 E1] & Hr1).
  fold tgid g in E1, Hr1. destruct (Z.eqb_spec r1 0) as [->|]; cbn [negb].
  2:{ destruct (attach_failed_spec e t id p l st1 Hok1 Ht Hid) as (st' & -> & ? & ?);
        [rewrite E1; apply Hm| |by eexists _, _, _, _].
      rewrite E1. change (prod_of (upd_group ?g ?f ?h)) with (prod_of h). rewrite (grp_field gid) by done. exact (mb_gid _ _ _ _ _ Hm). }
  destruct (Hr1 eq_refl) as (Hm1 & Hb1 & Ea1). clear Hr1.
  destruct (member_group _ _ _ _ _ Hm) as (_ & _ & Hi).
  assert (htask (mon st1) = htask (mon st) ∧ prod_of (mon st1) = prod_of (mon st)) as [Et1 Ep1] by (by rewrite E1).
  assert (areas_ok tgid (mon st1)) as Har1 by (unfold tgid; rewrite <- Et1; apply Hm1).
  destruct (ar_counters _ _ Har1 g Hb1) as [Hc0 Hc1].
  destruct (counter_read_spec e t p l st1 (cbase tgid (mon st1) g + L1_CACHE_BYTES * counter_index (prod_of (mon st) p)))
    as (cr & -> & Hcr); [done|apply Hm1|lia|done|unfold counters_bytes, L1_CACHE_BYTES in *; lia|].
  specialize (Hcr (e_stack e).1.1). destruct (scan_lu (text_of cr) _) as [ca rest0]. cbn [fst] in Hcr.
  destruct (map_measures_step e t id p l st1 Ht Hm1) as (r2 & st2 & -> & Hok2 & [m2 E2] & Hr2).
  { apply Hfr. }
  { intros x. rewrite Et1. fold tgid. unfold mbase. rewrite E1, (grp_field measures_maps) by done. by apply Hfr. }
  rewrite Et1, Ep1 in Hr2. rewrite Ep1 in E2. fold tgid g in Hr2, E2. destruct (Z.eqb_spec r2 0) as [->|]; cbn [negb].
  2:{ destruct (attach_failed_spec e t id p l st2 Hok2 Ht Hid) as (st' & -> & ? & ?);
        [rewrite E2; apply Hm1| |by eexists _, _, _, _].
      rewrite E2. change (prod_of (upd_group ?g ?f ?h)) with (prod_of h). rewrite (grp_field gid) by done. exact (mb_gid _ _ _ _ _ Hm1). }
  destruct (Hr2 eq_refl) as (Hm2 & Hb2 & Ea2 & Eg2). clear Hr2.
  assert (htask (mon st2) = htask (mon st) ∧ prod_of (mon st2) = prod_of (mon st)) as [Et2 Ep2] by (by rewrite E2, <- Et1, <- Ep1).
  assert (cbase tgid (mon st2) g = cbase tgid (mon st1) g) as Ec2.
  { unfold cbase. by rewrite E2, (grp_field counters_maps). }
  assert (areas_ok tgid (mon st2)) as Har2 by (unfold tgid; rewrite <- Et2; apply Hm2).
  destruct (ar_measures _ _ Har2 g Hb2) as [Hm0 Hm3].
  destruct (measures_read_spec e t p l st2 _ _ Ht (mb_list _ _ _ _ _ Hm2) Hbs Ea2 Eg2) as (mr & -> & Hmr);
    [unfold HRM_MEASURES_ADDR, PAGE_SIZE in *; lia|apply u64_range|].
  specialize (Hmr (e_stack e).1.2 (e_stack e).2). destruct (scan_lu (text_of mr) _) as [ma rest]. destruct Hmr as [-> Hga].
  destruct (scan_lu rest _) as [ga rest1]. cbn [fst] in Hga. subst ca ga.
  eexists _, _, _, _. split; [done|]. split; [done|]. split_and!; [done..| |done].
  pose proof (attached_intro t id p l (mon st2) Hm2) as Hat. rewrite Et2, Ep2 in Hat. fold tgid g in Hat.
  rewrite Ec2 in Hat. by apply Hat.
Qed.

(** ** Heartbeats *)

Lemma omap_same {A B} (f f' : A → option B) (l : list A) : (∀ x : A, f x = f' x) → omap f l = omap f' l.
Proof. intros E. induction l as [|x l IH]; [done|]. cbn. rewrite E. by destruct (f' x); [f_equal|]. Qed.

(** Writes to the counters and the goal do not move the pages. *)
Lemma attached_ext t id p m h h' :
  (∀ x, mview (grp h' x) = mview (grp h x)) → hrm_groups h' = hrm_groups h → h_tasks h' = h_tasks h →
  h_producers h' = h_producers h → attached t id p m h → attached t id p m h'.
Proof.
  intros Em El Et Ep [A B C D E].
  assert (∀ x, htask h' x = htask h x) as Et' by (intros x; unfold htask; by rewrite Et).
  assert (∀ x, prod_of h' x = prod_of h x) as Ep' by (intros x; unfold prod_of; by rewrite Ep).
  assert (∀ x, counters_maps (grp h' x) = counters_maps (grp h x)) as Ec by (intros x; exact (f_equal (λ v, v.1.2) (Em x))).
  assert (∀ x, measures_maps (grp h' x) = measures_maps (grp h x)) as Es by (intros x; exact (f_equal snd (Em x))).
  assert (∀ x, gid (grp h' x) = gid (grp h x)) as Ei by (intros x; exact (f_equal (λ v, v.1.1) (Em x))).
  split; rewrite ?Et', ?Ep'; [done|by rewrite Ei|..].
  - rewrite <- C. unfold counter_at. rewrite El. f_equal. apply omap_same. intros x. by rewrite Ec.
  - rewrite <- D. unfold measures_at. rewrite El. f_equal. apply list_filter_iff. intros x. by rewrite Es.
  - rewrite <- E. unfold goal_at. rewrite El. f_equal. apply list_filter_iff. intros x. by rewrite Es.
Qed.

Lemma counters_sum_beat h h' (G G' : hrm_group) (ps : list Z) p n :
  NoDup ps → p ∈ ps →
  (∀ q, q ∈ ps → q ≠ p → counter (counters G' !!! counter_index (prod_of h' q)) = counter (counters G !!! counter_index (prod_of h q))) →
  counter (counters G' !!! counter_index (prod_of h' p)) = u64 (counter (counters G !!! counter_index (prod_of h p)) + n) →
  u64 (counters_sum h' G' ps) = u64 (counters_sum h G ps + n).
Proof.
  intros Hnd Hp Hq E. induction Hnd as [|q ps Hnq Hnd IH]; [by apply elem_of_nil in Hp|]. simpl.
  destruct (decide (q = p)) as [->|Hne].
  - rewrite E, u64_add_l. rewrite (counters_sum_ext h h' G G' ps).
    + f_equal. lia.
    + intros x Hx. apply Hq; [by right|]. by intros ->.
  - rewrite (Hq q) by (done || by left). rewrite <- u64_add_r, IH, u64_add_r.
    + f_equal. lia.
    + by apply elem_of_cons in Hp as [?|].
    + intros x Hx. apply Hq. by right.
Qed.

Lemma heartbeat_spec t id p m h n :
  let tgid := t_tgid (htask h t) in
  hrm_ok h → attached t id p m h →
  ∃ h', heartbeat tgid (Some m) n h = Some (returns 0, h') ∧ hrm_ok h' ∧ attached t id p m h' ∧
    h_tasks h' = h_tasks h ∧ h_producers h' = h_producers h ∧ (∀ x, live h' x ↔ live h x) ∧
    ∀ x, u64 (total h' x) = u64 (total h x + if decide (x = p_group (prod_of h p)) then n else 0).
Proof.
  intros tgid Hok Hat. pose proof (at_member _ _ _ _ _ Hat) as Hp. pose proof (at_counter _ _ _ _ _ Hat) as Ec.
  destruct (at_gid _ _ _ _ _ Hat) as (_ & _ & Ecs). unfold heartbeat. rewrite Ecs. fold tgid in Ec. rewrite Ec. simpl.
  destruct (hi_ptask _ _ Hok _ _ Hp) as (P & HP & _). rewrite (prod_some _ _ _ HP) in *.
  destruct (hi_prod _ _ Hok _ _ HP) as [Hg _]. pose proof (hi_group _ _ Hok _ _ (live_grp _ _ Hg)) as Gok.
  set (g := p_group P) in *. set (i := counter_index P) in *. eexists. split; [done|].
  set (h' := upd_group g _ h). assert (∀ x, mview (grp h' x) = mview (grp h x)) as Em by (intros x; unfold h'; by rewrite (grp_field mview)).
  split_and!; [by apply inv_group_view|by apply (attached_ext _ _ _ _ h)|done|done|by apply live_upd_iff|].
  intros x. unfold total. rewrite <- u64_add_l, !heartbeats_sum, u64_add_l.
  unfold h'. rewrite !grp_upd. destruct (decide (g = x)) as [<-|Hne].
  2:{ rewrite decide_False by congruence. by rewrite Z.add_0_r. }
  rewrite decide_True by done. cbn [history producers update]. simpl.
  rewrite <- u64_add_r. erewrite (counters_sum_beat h _ (grp h g) _ (producers (grp h g)) p n).
  - rewrite u64_add_r. f_equal. lia.
  - apply Gok.
  - apply Gok. by exists P.
  - intros q Hq Hne. simpl. rewrite mem_upd_get, decide_False; [done|]. intros E. apply Hne.
    apply (go_own _ _ _ _ Gok); [done|apply Gok; by exists P|]. change (h_producers h !!! ?x) with (prod_of h x).
    rewrite (prod_some _ _ _ HP). done.
  - simpl. change (prod_of (upd_group ?g ?f h)) with (prod_of h). rewrite (prod_some _ _ _ HP). fold i.
    by rewrite mem_upd_eq.
Qed.

(** Heartbeats sent one after the other. *)
Fixpoint send (tgid : Z) (m : hrm_t) (l : list Z) (h : hrm) : option hrm :=
  match l with
  | [] => Some h
  | n :: l => '(_, h) ← heartbeat tgid (Some m) n h; send tgid m l h
  end.

Lemma send_spec t id p m l h :
  let tgid := t_tgid (htask h t) in
  hrm_ok h → attached t id p m h →
  ∃ h', send tgid m l h = Some h' ∧ hrm_ok h' ∧
    ∀ x, u64 (total h' x) = u64 (total h x + if decide (x = p_group (prod_of h p)) then foldr Z.add 0 l else 0).
Proof.
  revert h. induction l as [|n l IH]; intros h tgid Hok Hat.
  { exists h. split_and!; [done|done|]. intros x. simpl. case_decide; by rewrite Z.add_0_r. }
  destruct (heartbeat_spec t id p m h n Hok Hat) as (h1 & E & Hok1 & Hat1 & Et & Ep & _ & Htot). fold tgid in E.
  destruct (IH h1 Hok1 Hat1) as (h' & E' & Hok' & Htot').
  assert (t_tgid (htask h1 t) = tgid) as Etg by (unfold htask; by rewrite Et). rewrite Etg in E'.
  exists h'. split_and!; [cbn [send]; by rewrite E|done|]. intros x. rewrite Htot', <- u64_add_l, Htot, u64_add_l.
  assert (prod_of h1 p = prod_of h p) as -> by (unfold prod_of; by rewrite Ep). simpl. f_equal. case_decide; lia.
Qed.

End attach.

(** ** Windows and their keys *)
Section windows.
Context `{HrmConfig}.

(** Where the loops stop. *)
Lemma add_window_loop_spec size i sizes :
  let '(j, sizes') := add_window_loop size i sizes in
  ∃ k : nat, j = i + Z.of_nat k ∧ (∀ l, (l < k)%nat → ∃ y, sizes !! l = Some y ∧ y ≠ 0 ∧ y ≠ size) ∧
    (k = length sizes ∧ sizes' = sizes ∨
     (∃ y, sizes !! k = Some y ∧ (y = 0 ∨ y = size)) ∧ sizes' = <[k := size]> sizes).
Proof.
  revert i. induction sizes as [|x l IH]; intros i; cbn [add_window_loop].
  { exists 0%nat. split_and!; [lia|lia|by left]. }
  destruct (Z.eqb_spec x size) as [->|Hne].
  { exists 0%nat. split_and!; [lia|lia|]. right. split; [|done]. exists size. auto. }
  destruct (Z.eqb_spec x 0) as [->|Hn0].
  { exists 0%nat. split_and!; [lia|lia|]. right. split; [|done]. exists 0. auto. }
  specialize (IH (i + 1)). destruct (add_window_loop size (i + 1) l) as [j l'].
  destruct IH as (k & -> & Hb & Hk). exists (S k). split_and!; [lia| |].
  - intros [|m] Hm; [by exists x|]. apply (Hb m). lia.
  - destruct Hk as [[-> ->]|[Hy ->]]; [left; by split|right]. by split.
Qed.

Lemma find_window_spec size i sizes (k : nat) :
  (∀ l, (l < k)%nat → ∃ y, sizes !! l = Some y ∧ y ≠ size) → sizes !! k = Some size →
  find_window size i sizes = i + Z.of_nat k.
Proof.
  revert i k. induction sizes as [|x l IH]; intros i k Hb Hk; [done|]. cbn [find_window]. destruct k as [|k].
  { injection Hk as ->. rewrite Z.eqb_refl. lia. }
  destruct (Hb 0%nat) as (y & [= ->] & Hy); [lia|]. rewrite (proj2 (Z.eqb_neq y size)) by done.
  rewrite (IH (i + 1) k); [lia| |done]. intros m Hm. by apply (Hb (S m)); lia.
Qed.
Lemma del_window_loop_spec size i sizes (k : nat) :
  (∀ l, (l < k)%nat → ∃ y, sizes !! l = Some y ∧ y ≠ size) → sizes !! k = Some size →
  del_window_loop size i sizes = (i + Z.of_nat k, <[k := 0]> sizes).
Proof.
  revert i k. induction sizes as [|x l IH]; intros i k Hb Hk; [done|]. cbn [del_window_loop]. destruct k as [|k].
  { injection Hk as ->. rewrite Z.eqb_refl. f_equal. lia. }
  destruct (Hb 0%nat) as (y & [= ->] & Hy); [lia|]. rewrite (proj2 (Z.eqb_neq y size)) by done.
  rewrite (IH (i + 1) k); [f_equal; lia| |done]. intros m Hm. by apply (Hb (S m)); lia.
Qed.

(** A window in the table: every way to look at it agrees. *)
Lemma window_lookup m size (k : nat) G :
  length (window_size (goal G)) = Z.to_nat HRM_MAX_WINDOWS → 0 < size ≤ HRM_MAX_WINDOW_SIZE →
  (∀ l, (l < k)%nat → ∃ y, window_size (goal G) !! l = Some y ∧ y ≠ size) → window_size (goal G) !! k = Some size →
  let key := Z.of_nat k + 1 in
  let rate := heart_rate (measures_window G !!! k) in
  1 ≤ key ≤ HRM_MAX_WINDOWS ∧ hrm_get_window_size (Some m) key G = returns size ∧
  hrm_seek_heart_rate (Some m) size G = returns (rate, key) ∧ hrm_get_heart_rate (Some m) key G = returns (rate, size).
Proof.
  intros Hlen Hs Hb Hk key rate. pose proof (lookup_lt_Some _ _ _ Hk) as Hlt. rewrite Hlen in Hlt.
  assert (1 ≤ key ≤ HRM_MAX_WINDOWS) as Hkey by (unfold key; change HRM_MAX_WINDOWS with 32 in *; lia).
  assert (Z.to_nat (key - 1) = k) as Ek by (unfold key; lia).
  assert (window_size (goal G) !!! k = size) as Et by (by apply list_lookup_total_correct).
  split; [done|]. unfold hrm_get_window_size, hrm_seek_heart_rate, hrm_get_heart_rate.
  rewrite (proj2 (Z.ltb_ge key 0)), (proj2 (Z.ltb_ge HRM_MAX_WINDOWS key)) by lia. cbn [orb].
  rewrite (proj2 (Z.eqb_neq key 0)), (proj2 (Z.ltb_ge HRM_MAX_WINDOW_SIZE size)), (proj2 (Z.eqb_neq size 0)) by lia.
  rewrite (find_window_spec size 0 _ k) by done. rewrite (proj2 (Z.eqb_neq (0 + Z.of_nat k) HRM_MAX_WINDOWS)) by (unfold key in Hkey; lia).
  rewrite Ek, Et, (proj2 (Z.eqb_neq size 0)) by lia. rewrite Z.add_0_l, Nat2Z.id. done.
Qed.

End windows.

(** ** Examples *)
#[local] Existing Instance default_hrm.

Definition a_monitor : hrm_t := mk_hrm_t 5 false 0 0 0.
Definition fresh_group : hrm_group := zeroed_group 5.


(** Thread 9 attaches to group 5, of which threads 7 and 8 are members. *)
Definition an_env : attach_env :=
  mk_env [true; true; true; true; true] 102 (mk_galloc 8192 true true) (mk_timespec 4 0) []
    (mk_vma 0x1000000 0x1001000, 0, true) (mk_vma 0x2000000 0x2001000, 0, true) 4096 (0, 0, 0).
Definition before_attach : proc_hrm := mk_proc beating ∅ ∅.

Lemma beating_maps g : counters_maps (grp beating g) = [] ∧ measures_maps (grp beating g) = [].
Proof.
  destruct (decide (g = 4096)) as [->|Hne]; [by vm_compute|].
  assert (h_groups beating = {[4096 := grp beating 4096]}) as E by (vm_compute; reflexivity).
  revert E. generalize (grp beating 4096). intros G E. unfold grp. rewrite E, lookup_total_singleton_ne by done.
  split; reflexivity.
Qed.
Lemma beating_areas tgid e :
  area counters_bytes (vm_start (e_counters e).1.1) → area PAGE_SIZE (vm_start (e_measures e).1.1) →
  areas_ok tgid beating ∧ free_areas tgid e beating.
Proof.
  intros H1 H2. assert (∀ g, cbase tgid beating g = 0 ∧ mbase tgid beating g = 0) as E.
  { intros g. unfold cbase, mbase. by destruct (beating_maps g) as [-> ->]. }
  split; (split; [done|done|..]) || split; intros g *; rewrite ?(proj1 (E g)), ?(proj2 (E g)); done.
Qed.


(** What it computes: the third counter, the goal at the end of the measures page. *)
Example attach_result :
  match hrm_attach an_env 9 true 5 false before_attach with
  | Done (r, _, m, st) => r = 0 ∧ m = Some (mk_hrm_t 5 false 0x1000080 0x2000000 0x2000ee0) ∧
      producers (grp (mon st) 4096) = [102; 101; 100]
  | Oops => False
  end.
Proof. by vm_compute. Qed.

(** The windows 10 and 20 are added, 10 is deleted and 20 is added again: the
    first free slot comes before the one that has it. *)
Example window_added_twice :
  let m := Some a_monitor in
  let '(_, _, G) := hrm_add_window m 10 fresh_group in
  let '(_, _, G) := hrm_add_window m 20 G in
  let '(_, _, G) := hrm_del_window m 10 G in
  let '(key, _, G) := hrm_add_window m 20 G in
  key = 1 ∧ take 3 (window_size (goal G)) = [20; 20; 0].
Proof. by vm_compute. Qed.

(** A table with all 32 windows in use is reported as 31. *)
Definition full_group : hrm_group := fresh_group <| goal ::= (λ g, g <| window_size := seqZ 1 32 |>) |>.
Example last_window_uncounted :
  hrm_get_windows_number full_group = 31 ∧ hrm_get_window_size (Some a_monitor) 32 full_group = returns 32.
Proof. by vm_compute. Qed.

(** The goal for the global rate is set, and -1 returned. *)
Example global_goal_returns_error :
  match hrm_set_goal (Some a_monitor) 0 (d_of_Z 1) (d_of_Z 2) fresh_group with
  | Some (r, err, G) => r = -1 ∧ err = None ∧ min_heart_rate (goal G) = HRM_MEASURE_SCALE
  | None => False
  end.
Proof. by vm_compute. Qed.

(** With 64 producers the terminating 0 is stored behind an array of 64. *)
Definition crowded_group : hrm_group :=
  fresh_group <| counters := list_to_map ((λ i, (i, mk_counter (100 + i) true 0)) <$> seqZ 0 64) |>.
Example tids_overrun :
  hrm_get_tids (Some (mk_hrm_t 5 true 0 0 0)) (Some (replicate 64 0)) 64 true crowded_group = None.
Proof. by vm_compute. Qed.
