(* ===== verification/Monitor.v ===== *)
(** * The controller: tools/libhrm/consumer_mon.c

    The program that closes the loop between the two halves of the kernel's
    additions.  It attaches to a group as a consumer; once a period it reads the
    heart rate of every window through the library (LibHrm.v) and writes the rate
    of global idle injection of that band to /proc/schedidle/sched_global
    (Injector.v), when the band changed: the faster the program beats, the more
    often the scheduler idles.

    [mon_pass] is one turn of the endless loop of [main].  The printing to
    consumer.log and to the logs of the windows changes nothing; a log of a window
    that cannot be opened ends the program.

    The theorem composes the three components: at any moment, however the
    controller, the scheduler and writers of sched_pid interleave, the band the
    controller remembers is the rate the injector applies. *)

From Stdlib Require Import String SpecFloat.
From S2P Require Import Injector.
From S2P Require Export LibHrm.

(** ** State *)

(** The variables of [main] that survive a turn, and the injector they steer.
    [t1] is not initialised. *)
Record mon_state := mk_mon {
  level : Z;
  t1 : timespec;
  inj : injector;
}.
#[export] Instance eta_mon : Eta mon_state := ctor mk_mon <+> level <+> t1 <+> inj.

(** How a turn goes on: with the next statement, by leaving [main], or not at
    all (an oops in the kernel, a store outside of an array). *)
Inductive flow := Next (s : mon_state) | Return (s : mon_state) | Crash.
Definition flow_bind (f : mon_state → flow) (r : flow) : flow :=
  match r with Next s => f s | r => r end.

(** What one [system ("echo ... > /proc/schedidle/sched_global")] meets: whether the
    shell could open the file, and the outside of [proc_write_idleGlobal]. *)
Record echo_env := mk_echo {
  e_open : bool;
  e_buffer : Z;
  e_copied : bool;
  e_junk : list Z;
}.

(** ** One turn *)
Section turn.
Context `{HrmConfig}.

Definition echo_global (e : echo_env) (n : string) (st : injector) : option injector :=
  if negb (e_open e) then Some st
  else
    let text := bytes n ++ [10] in
    match proc_write_idleGlobal (e_buffer e) (if e_copied e then Some text else None) (e_junk e)
            (Z.of_nat (List.length text)) st with
    | Done (_, st) => Some st
    | Oops => None
    end.

(** [if (level != l) { system (...); level = l; }] *)
Definition set_level (e : echo_env) (l : Z) (n : string) (s : mon_state) : flow :=
  if negb (level s =? l) then
    match echo_global e n (inj s) with
    | Some st => Next (s <| inj := st |> <| level := l |>)
    | None => Crash
    end
  else Next s.

Definition control (e : echo_env) (hr : double) (s : mon_state) : flow :=
  if d_lt (d_of_Z 10000000) hr then set_level e 10 "5" s
  else if d_lt (d_of_Z 7000000) hr then set_level e 7 "6" s
  else if d_lt (d_of_Z 4000000) hr then set_level e 4 "7" s
  else if d_lt (d_of_Z 1000000) hr then set_level e 1 "8" s
  else Next s.

(** What the turn meets at window [i]: the group's pages, the shell, and whether
    the log of the window can be opened. *)
Record window_env := mk_wenv {
  w_group : hrm_group;
  w_echo : echo_env;
  w_log : bool;
}.

(** The body of the loop over the windows; [time] is in seconds. *)
Definition window_step (m : hrm_t) (time : double) (i : Z) (w : window_env) (s : mon_state) : flow :=
  let '(hr, ws, _) := hrm_get_heart_rate (Some m) i (w_group w) in
  flow_bind (λ s,
    if negb (ws =? HRM_MAX_WINDOW_SIZE) && ((m_gid m =? 1) || (m_gid m =? 2)) && (i <=? 4) && negb (w_log w)
    then Return s else Next s)
    (if d_lt (d_of_Z 100) time then control (w_echo w) hr s else Next s).

Fixpoint window_loop (m : hrm_t) (time : double) (i : Z) (ws : list window_env) (s : mon_state) : flow :=
  match ws with
  | [] => Next s
  | w :: ws => flow_bind (window_loop m time (i + 1) ws) (window_step m time i w s)
  end.

Definition elapsed (t2 t1 : timespec) : double :=
  d_div (d_of_Z (s64 (timespec_to_ns t1 - timespec_to_ns t2))) (d_of_Z 1000000000).

(** [log] says whether consumer.log could be opened, [alloc] whether the
    library's [calloc] succeeded; [tids] is the array of 64, [now] the clock.  The
    loop over the windows meets [ws], one for each of the [HRM_MAX_WINDOWS]. *)
Definition mon_pass (m : hrm_t) (t2 : timespec) (G : hrm_group) (tids : list Z) (alloc log : bool) (now : timespec)
    (ws : list window_env) (s : mon_state) : flow :=
  match hrm_get_tids (Some m) (Some tids) 64 alloc G with
  | None => Crash
  | Some _ =>
      let time := elapsed t2 (t1 s) in
      if log then window_loop m time 1 ws (s <| t1 := now |>) else Next s
  end.

Definition mon_start (t1 : timespec) (st : injector) : mon_state := mk_mon (-1) t1 st.
End turn.

(** ** What the controller promises *)

(** The band of a heart rate, and the rate of injection of a band. *)
Definition band (hr : double) : option Z :=
  if d_lt (d_of_Z 10000000) hr then Some 10
  else if d_lt (d_of_Z 7000000) hr then Some 7
  else if d_lt (d_of_Z 4000000) hr then Some 4
  else if d_lt (d_of_Z 1000000) hr then Some 1
  else None.
Definition band_rate (l : Z) : Z :=
  if l =? 10 then 5 else if l =? 7 then 6 else if l =? 4 then 7 else 8.

(** The band remembered is the rate applied. *)
Definition controlled (s : mon_state) : Prop :=
  level s = -1 ∨ (level s ∈ [10; 7; 4; 1]) ∧ global_rate (inj s) = band_rate (level s).

Definition echo_works (e : echo_env) : Prop := e_open e = true ∧ e_copied e = true ∧ e_buffer e ≠ NULL.

Section control.
Context `{HrmConfig}.
Implicit Types (m : hrm_t) (e : echo_env) (s : mon_state).

(** Windows read by the controller, decisions of the scheduler and writes to
    sched_pid, in any order. *)
Inductive monitored m : mon_state → Prop :=
  | mn_start t1 st : reachable st → monitored m (mon_start t1 st)
  | mn_turn now s : monitored m s → monitored m (s <| t1 := now |>)
  | mn_window time i w s s' :
      monitored m s → echo_works (w_echo w) → window_step m time i w s = Next s' → monitored m s'
  | mn_global head dir fg fp queued s :
      monitored m s → monitored m (s <| inj ::= λ st, (inject_global head dir fg fp queued st).2 |>)
  | mn_pid tgid tpid s :
      monitored m s → monitored m (s <| inj ::= λ st, (inject_pid tgid tpid st).2 |>)
  | mn_write_pid pid_new user junk count r st' s :
      monitored m s → pids (inj s) !! pid_new = None → pid_new ≠ pidList (inj s) →
      proc_write_idlePid pid_new user junk count (inj s) = Done (r, st') → monitored m (s <| inj := st' |>).

Definition sound s : Prop := inj_ok (inj s) ∧ controlled s.

(** The shell's [echo n]: the rate is [v], counting from 0. *)
Lemma echo_global_spec e n v st :
  inj_ok st → echo_works e → bytes n = fmt_d v → 2 ≤ v < 0x80000000 →
  let st' := st <| global_rate := v |> <| idle_cycles_offset := 0 |> in
  echo_global e n st = Some st' ∧ inj_ok st'.
Proof.
  intros Hok (Ho & Hc & Hb) En Hv st'. unfold echo_global. rewrite Ho, Hc, En. cbn [negb].
  set (count := Z.of_nat _).
  destruct (proc_write_idleGlobal_spec st (e_buffer e) v count [10] (e_junk e)) as (E & _);
    [unfold int_ok; lia|by left|done|].
  rewrite (proj2 (Z.leb_le 2 v)) in E by lia. rewrite E.
  split; [done|]. by eapply proc_write_idleGlobal_ok.
Qed.

(** What a band does to a sound state. *)
Definition moved (l : Z) s s' : Prop :=
  sound s' ∧ level s' = l ∧
  idle_cycles_offset (inj s') = (if level s =? l then idle_cycles_offset (inj s) else 0).

Lemma set_level_spec e l n s :
  sound s → echo_works e → l ∈ [10; 7; 4; 1] → bytes n = fmt_d (band_rate l) →
  ∃ s', set_level e l n s = Next s' ∧ moved l s s'.
Proof.
  intros [Hok Hc] He Hl En. unfold set_level, moved. destruct (Z.eqb_spec (level s) l) as [<-|Hne]; cbn [negb].
  { by exists s. }
  destruct (echo_global_spec e n (band_rate l) (inj s)) as [-> Hok']; [done..|unfold band_rate; repeat case_if; lia|].
  eexists. split; [done|]. split; [|done]. split; [done|]. by right.
Qed.

Lemma control_spec e hr s :
  sound s → echo_works e →
  match band hr with
  | Some l => l ∈ [10; 7; 4; 1] ∧ ∃ s', control e hr s = Next s' ∧ moved l s s'
  | None => control e hr s = Next s
  end.
Proof.
  intros Hs He. unfold band, control.
  repeat match goal with
  | |- context [if d_lt ?a ?b then _ else _] => destruct (d_lt a b)
  end; [..|done]; (split; [set_solver|]); (apply set_level_spec; [done|done|set_solver|by vm_compute]).
Qed.

(** A window's turn ends with the band of its rate, unless it is too early or the
    rate is in no band. *)
Lemma window_step_spec m time i w s :
  sound s → echo_works (w_echo w) →
  let hr := (hrm_get_heart_rate (Some m) i (w_group w)).1.1 in
  ∃ s', (window_step m time i w s = Next s' ∨ window_step m time i w s = Return s') ∧
    match if d_lt (d_of_Z 100) time then band hr else None with
    | Some l => (l ∈ [10; 7; 4; 1]) ∧ moved l s s'
    | None => s' = s
    end.
Proof.
  intros Hs He hr. unfold window_step. destruct (hrm_get_heart_rate (Some m) i (w_group w)) as [[hr' ws] err] eqn:E.
  cbn [fst] in hr. subst hr. set (b := _ && _ && _ && _).
  pose proof (control_spec (w_echo w) hr' s Hs He) as Hc.
  destruct (d_lt (d_of_Z 100) time); [destruct (band hr') as [l|]|].
  - destruct Hc as [Hl (s' & -> & Hm)]. exists s'. cbn [flow_bind]. by destruct b; auto.
  - rewrite Hc. exists s. cbn [flow_bind]. by destruct b; auto.
  - exists s. cbn [flow_bind]. by destruct b; auto.
Qed.

Lemma window_step_sound m time i w s s' :
  sound s → echo_works (w_echo w) → window_step m time i w s = Next s' → sound s'.
Proof.
  intros Hs He E. destruct (window_step_spec m time i w s Hs He) as (s1 & E1 & Hm). cbv zeta in Hm.
  assert (s1 = s') as -> by (destruct E1; congruence).
  destruct (if d_lt _ _ then _ else _) as [l|]; [by destruct Hm as [_ [? _]]|by subst].
Qed.

Lemma monitored_sound m s : monitored m s → sound s.
Proof.
  induction 1 as [t1 st Hr|now s _ IH|time i w s s' _ IH He E|head dir fg fp queued s _ [Hok Hc]
    |tgid tpid s _ [Hok Hc]|pid_new user junk count r st' s _ [Hok Hc] Hn Hh E].
  - split; [by apply injector_sound|by left].
  - exact IH.
  - by eapply window_step_sound.
  - split; [by apply inject_global_ok|]. unfold controlled in *. cbn.
    rewrite inject_global_spec by done. by destruct (queued && _).
  - pose proof (inject_pid_spec tgid tpid (inj s) Hok) as Hp. unfold sound, controlled in *. cbn.
    destruct (inject_pid tgid tpid (inj s)) as [b st']. destruct Hp as (? & _ & Er & _). cbn. by rewrite Er.
  - destruct (proc_write_idlePid_ok _ _ _ _ _ _ _ Hok Hn Hh E) as [? Er]. unfold sound, controlled in *. cbn. by rewrite Er.
Qed.

Lemma window_loop_monitored m time ws i s s' :
  monitored m s → Forall (λ w, echo_works (w_echo w)) ws → window_loop m time i ws s = Next s' → monitored m s'.
Proof.
  revert i s. induction ws as [|w ws IH]; intros i s Hs Hw; cbn [window_loop]; [by intros [= <-]|].
  apply Forall_cons in Hw as [He Hw]. destruct (window_step m time i w s) as [s1| |] eqn:E; cbn [flow_bind]; try done.
  apply IH; [by eapply mn_window|done].
Qed.
End control.

(** ** Examples *)
#[local] Existing Instance default_hrm.

(** A group whose first two windows beat 12 and 5 million times a second. *)
Definition two_windows : hrm_group :=
  fresh_group <| goal ::= λ g, g <| window_size := [10; 20] ++ replicate 30 0 |> |>
    <| measures_window := [mk_measure 12000000 1000000000; mk_measure 5000000 1000000000] ++ replicate 30 (mk_measure 0 0) |>.
Definition working_echo : echo_env := mk_echo true 4096 true [].
Definition turn_ws (e : echo_env) : list window_env := replicate 32 (mk_wenv two_windows e true).
Definition consumer_of_5 : hrm_t := mk_hrm_t 5 true 0 0 0.
Definition clock_at (sec : Z) : timespec := mk_timespec sec 0.
Definition first_turn (e : echo_env) (s : mon_state) : flow :=
  mon_pass consumer_of_5 (clock_at 0) two_windows (replicate 64 0) true true (clock_at 102) (turn_ws e) s.

Lemma sample_boot_reachable : reachable sample_boot.
Proof. by apply reach_boot. Qed.


(** Two windows in different bands: every turn writes both rates, and the scheduler's
    count restarts twice a turn. *)
Example bands_alternate :
  match first_turn working_echo (mk_mon 4 (clock_at 101) (sample_boot <| global_rate := 7 |> <| idle_cycles_offset := 6 |>)) with
  | Next s => level s = 4 ∧ global_rate (inj s) = 7 ∧ idle_cycles_offset (inj s) = 0
  | _ => False
  end.
Proof. by vm_compute. Qed.

(** A write that fails is remembered as done: the later turns, with the same
    rates, do not repeat it. *)
Example failed_echo_remembered :
  let w := mk_wenv (two_windows <| measures_window := replicate 32 (mk_measure 12000000 1000000000) |>) in
  match window_loop consumer_of_5 (d_of_Z 101) 1 [w (mk_echo false 4096 true []) true; w working_echo true]
          (mon_start (clock_at 0) sample_boot) with
  | Next s => level s = 10 ∧ global_rate (inj s) = 2000
  | _ => False
  end.
Proof. by vm_compute. Qed.
